(* ===== verification/_CoqProject ===== *)
-Q . S2P
Prelude.v
TelnetNegotiation.v
NegotiationProtocol.v
TerminalText.v
AsciiText.v
SecurityPolicy.v
RecordTable.v
PolicyInvariant.v
PolicyTheorems.v
PolicyHistory.v
PlayerStore.v
PlayerStoreTheorems.v
PlayerRecords.v
PlayerAccounts.v
AuditLog.v
AuditTheorems.v
Directories.v
Application.v
TelnetSession.v
TelnetOptions.v
TelnetLogin.v
TelnetSubnegotiation.v
TelnetParser.v
TelnetOutput.v
TelnetInvariant.v
TelnetCapabilities.v
TelnetDialogue.v
TelnetTheorems.v
TelnetStream.v
TelnetProgress.v
TelnetReports.v
HarnessApplication.v
TelnetClaims.v
SshTransport.v
SshOutput.v
SshInvariant.v
SshEditor.v
SshClaims.v
SecureServer.v
ServerTheorems.v
ApplicationClaims.v
ServerRuntime.v
ServerLife.v
ServerClaims.v
SecureClient.v
ClientTheorems.v
ClientServer.v
ClientClaims.v
