(* ===== verification/Prelude.v ===== *)
(** * A verification of a Telnet, TLS and SSH terminal server

    The program (C, under src/) is a network front end for a text game.  A
    server process accepts plain and TLS Telnet and SSH connections, speaks the
    Telnet protocol with its options, runs an account dialogue with rate limits
    and lockout, keeps accounts in a directory of record files with Argon2
    hashes, and hands the lines of logged in players to an application behind a
    small interface; a small client for the TLS endpoint comes with it.  This
    library models all of it:

    - src/src/telnet_negotiation.c, src/src/telnet_internal.h: the RFC 1143
      option negotiator;
    - src/src/terminal_text.c: UTF-8 decoding and the two output sanitizers;
    - src/src/security_policy.c: connection, creation and authentication limits;
    - src/src/player_store.c: names, passwords, record files, atomic publication;
    - src/src/audit_log.c: the audit log with its rotation;
    - src/include/terminal_application.h: the interface to the application;
    - src/src/telnet_protocol.c: the session, which uses all of these;
    - src/app/harness_application.c: the sample application;
    - src/src/ssh_transport.c, src/src/ssh_transport.h: the SSH adapter;
    - src/src/secure_server.c, src/include/secure_server.h: listeners, workers,
      TLS, deadlines, start and stop;
    - src/app/server_main.c: the server program;
    - src/tools/secure_client.c: the client program.

    The server's main thread ([secure_server_run]) makes the shared objects
    (policy, store, audit log, TLS context), listens, admits connections against
    the policy and a limit of 64 slots, and starts one worker thread per
    connection ([connection_worker]).  A worker owns its socket: it runs a
    Telnet session (src/src/telnet_protocol.c) over a plain or TLS socket, or
    the SSH adapter.  Both authenticate accounts against the policy and the
    store, and then pass lines to the application through the same interface.

    ** How code is modelled

    Bytes are [Z]; strings and buffers are lists of bytes; a [char] array with a
    length field is the list of its live elements; string arrays whose stale
    content matters (the terminal, client and version names) are lists of their
    full size.  Structs are records with the C field names, enums inductive
    types.  64-bit times and 32-bit flags wrap where the code may wrap
    ([wrap64], [wrap32]).  A function that changes state is a value of [M S A],
    state passing with a fault: [None] stands for a store outside an array.
    The stores that are checked are those of single bytes and of [memcpy] and
    [strcpy], into arrays of structs and into the local arrays of functions
    ([push], [append], [store_str], [local_str], [strcpy_into]; table entries of
    the policy too), so that the absence of out-of-bounds stores is part of
    every theorem of the form "runs and ends in ...".  [snprintf] bounds itself:
    its truncation is modelled where the code looks at it.  The fields that
    [copy_terminal_field] of the SSH adapter fills are bounded by the invariant
    of a connection instead ([field_ok]).  [wp] is the weakest precondition of
    that monad; [wp_step], [tel] and [talk_go] run it symbolically.  Loops over
    buffers are structural recursions on the remaining bytes; the few loops that
    are not take fuel ([environ_loop], where running out is a fault, the UTF-8
    loops, [decimal]), and theorems show the fuel given (the length of the
    input; twenty digits) to be enough.  Loops around
    blocking calls (TLS handshakes and shutdowns, retried writes, event and poll
    loops, the worker's loop) take the list of what those calls will return;
    where a loop takes fuel, it is one more than the number of outcomes left,
    and the theorems show that it never runs out: each turn uses up an outcome
    or ends the loop.

    Code outside the repository is a parameter with its documented behaviour:
    libsodium's password hashing is the class [Pwhash] with [PwhashLaws] (a hash
    is a string of the documented size and form that accepts its password),
    [mkstemp] is [Mkstemp] with [MkstempLaws] (a fresh path with the given prefix).
    The kernel's file calls are modelled over a map from paths to files; their
    outcomes (success, errors, interrupted and short writes) come from an
    arbitrary list, so the theorems hold for every sequence of failures unless
    they say otherwise.  The application is an arbitrary set of hooks over trees of output calls
    ([Application]); the writer, the audit log and the MSSP snapshot are
    recorded as sequences of calls.  libssh and OpenSSL are inputs too: the
    results of their calls, one by one, and for libssh the callbacks it makes,
    in any order and with any arguments.  Threads: the functions on the shared
    runtime are atomic, as they are under its mutex, and the main thread can be
    overtaken by any actions of the workers wherever that makes a difference
    ([worker_step]); a worker's own run sees the shared stop flag as an input.

    ** Files

    - [Prelude]: bytes, words, arrays, record update, the monad, automation.
    - [TelnetNegotiation]: the negotiator ([telnet_q_request],
      [telnet_q_receive]) and its invariant.  [NegotiationProtocol]: two
      negotiators joined by two streams; they agree when quiet
      ([quiescent_agreement]) and become quiet ([negotiation_terminates]).
    - [TerminalText]: [decode_utf8], [terminal_text_utf8_valid] and the
      sanitizers against RFC 3629 and their safety.
    - [AsciiText]: case-insensitive comparison.
    - [SecurityPolicy]: the policy's tables and five operations.  [RecordTable]:
      the slot search as a map with replacement.  [PolicyInvariant],
      [PolicyTheorems]: well-formed tables, and each operation as a change of
      two abstract back-off counters.  [PolicyHistory]: theorems on histories
      of calls (admission bounds, lockout, refinement).
    - [PlayerStore]: the store over the file system model.
      [PlayerStoreTheorems]: names and passwords.  [PlayerRecords]: record text
      round trip, and publication step by step.  [PlayerAccounts]: creation is
      atomic, verification is sound, creation and verification fit.
    - [AuditLog], [AuditTheorems]: lines cannot be forged, events reach the
      file, rotation loses only the oldest archive.
    - [Directories]: [player_store_open] and [audit_log_open] with the checks of
      their directories.
    - [Application]: capabilities, the class [TerminalOutput] a transport
      implements, hooks and [run_app]; [hook_calls], the order in which a
      transport may call the hooks.
    - [TelnetSession] (state, output, GMCP sending), [TelnetOptions] (options,
      MSSP, GMCP input, capabilities), [TelnetLogin] (dialogue, lines, control
      commands), [TelnetSubnegotiation] (NAWS, terminal type, charset,
      environment), [TelnetParser] (byte parser, public operations): the whole
      of telnet_protocol.c.
    - [TelnetOutput] (framing of the output), [TelnetInvariant],
      [TelnetCapabilities] (functions that leave the dialogue alone),
      [TelnetDialogue] (the login automaton), [TelnetTheorems] (the parser): the
      session invariant, function by function.
    - [TelnetStream]: what is sent is what is received.  [TelnetProgress]: a
      right password enters the game; secrets are wiped.  [TelnetReports]: the
      parsers of client reports, MSSP, the rate limiter.
    - [HarnessApplication]: the sample application as hooks on a heap in which
      a use after free, a double free and the reuse of an address can happen;
      calls in order do not misuse it, also when many connections interleave
      ([crowd_safe]); and QUIT end to end.
    - [TelnetClaims]: whole lives of a session (robustness, authentication), and
      concrete sessions that instantiate the theorems.
    - [SshTransport]: the whole of ssh_transport.c, the second instance of
      [TerminalOutput].  [SshOutput]: what reaches the channel, and that both
      transports show the same text.  [SshInvariant]: what each callback and
      each turn of the loop keeps.  [SshEditor]: the line editor against an
      abstract one on UTF-8 characters.  [SshClaims]: whole connections.
    - [SecureServer]: writer, TLS loops and worker, on all three transports.
      [ServerTheorems]: a worker's whole life and its deadlines.
      [ApplicationClaims]: what a worker does to the application, and the heap
      of the sample application under it.
    - [ServerRuntime]: slots, admission, listeners, the poll loop,
      [secure_server_run] with the labels of its clean-up as definitions of
      their own, and server_main.c.  [ServerLife]: the invariant of the
      process; its proofs see the clean-up as the release of what was acquired
      ([release_all], [run_by_lists]).  [ServerClaims]: its theorems, and concrete servers.
    - [SecureClient]: the client program.  [ClientTheorems]: what its parser
      shows and sends.  [ClientServer]: client and server together.
      [ClientClaims]: the client's life, and concrete clients.

    ** What the theorems show

    Robustness: no sequence of inputs makes the session fault, break its
    invariant or emit malformed Telnet, whatever the application, the kernel
    and the hash function do ([session_robust]); it calls the application in
    order, with the session it holds ([evolves]).  Authentication: the game is
    reached only through a verified password or a completed, admitted account
    creation ([authentication_required]), and a right password does reach it
    ([login_completes]).  Policy: admission bounds over any window, lockout
    after three failures, refinement of abstract counters.  Store: records
    appear whole or not at all; verification answers from the record; names map
    to one file each; the directory is private and real ([store_directory_private]).
    Audit: one event is one line, and logs are kept.  Protocol: two-party
    agreement and termination of option negotiation; round trips of
    subnegotiations, GMCP and environment reports; exact specifications of the
    report parsers.

    SSH: no order of callbacks and no pattern of failures breaks a connection or
    leaks what it took ([ssh_connection_robust]); no channel, no output and no
    application before a verified password ([ssh_authentication_required]); the
    editor's line is what was typed ([ssh_editor_refines]); the four time limits
    ([ssh_deadlines]).  Server: every worker ends and cleans up ([worker_robust],
    [worker_deadlines]); the process never has more than 64 workers, loses no
    socket and releases shared objects only after the last worker
    ([server_lifecycle], [server_admission], [server_drains]); it starts only
    as configured, not as root, with a private host key, on loopback
    ([server_startup_checked]); no connection misuses the heap of the sample
    application or touches the session of another ([harness_heap_safe]).  Client:
    nothing the server sends can reach the screen but safe text
    ([client_display_safe]), the terminal does not echo passwords and is
    restored, and what the client types and reports is what the server gets.

    ** Not modelled

    The insides of libssh, OpenSSL, libsodium and the kernel; in particular
    callbacks libssh might make from within a write to a channel (each callback
    is one step).  Locks (each call of the policy, the log and the runtime is
    one step), socket options and timeouts (they change how long a call blocks,
    not what it may return), messages on the standard streams, the installation
    of signal handlers (signals are inputs), umask, memory wiping beyond the
    fields of the session, single library calls with no state of the program
    ([telnet_protocol_init], [ssh_transport_global_init] and
    [ssh_transport_global_cleanup]).  That a worker touches the shared policy
    only through its five operations is read off the code, in [worker_step].
    NULL arguments the callers never pass are left out, and so are
    src/tests/ and the release script.

    ** Plan

    All components are modelled.  Next: the server's shared objects as one
    state on which several sessions of all transports run interleaved, with
    authentication and rate limits across them, and the accounts of two workers
    that create the same name at once.

    This file holds the shared vocabulary: bytes and C strings, machine words,
    bounded arrays, record update, and the fault-or-result state monad with its
    weakest-precondition calculus. *)
From stdpp Require Export base list strings gmap sorting.
From Stdlib Require Export ZArith Lia Bool Ascii.
From Stdlib Require String.

#[export] Set Default Goal Selector "!".

Open Scope Z_scope.

(** * Bytes and C strings

    A byte ([unsigned char], or a [char] seen through the cast the sources
    write) is a [Z] in [0..255].  A C string is the list of its bytes; a value
    that may hold a NUL is cut there by [c_str], as [strlen] does. *)

Definition is_byte (b : Z) : Prop := 0 <= b < 256.

(** The bytes of a string literal. *)
Definition txt (s : string) : list Z :=
  map (fun c => Z.of_N (N_of_ascii c)) (String.list_ascii_of_string s).
Arguments txt s%_string : simpl never.

Definition CR : Z := 13.
Definition LF : Z := 10.
Definition crlf : list Z := [CR; LF].

(** The content of a NUL-terminated buffer. *)
Fixpoint c_str (l : list Z) : list Z :=
  match l with
  | [] => []
  | x :: l' => if x =? 0 then [] else x :: c_str l'
  end.

Definition strlen (l : list Z) : Z := Z.of_nat (length (c_str l)).

(** [memcmp]/[strcmp] equal to zero, on already delimited contents. *)
Definition bytes_eqb (a b : list Z) : bool := bool_decide (a = b).

Lemma bytes_eqb_eq a b : bytes_eqb a b = true <-> a = b.
Proof. apply bool_decide_eq_true. Qed.

Lemma bytes_eqb_refl a : bytes_eqb a a = true.
Proof. by apply bytes_eqb_eq. Qed.

Lemma c_str_id l : Forall (fun b => b <> 0) l -> c_str l = l.
Proof.
  induction 1 as [|x l Hx _ IH]; [done|]. simpl.
  destruct (Z.eqb_spec x 0); [done|]. by rewrite IH.
Qed.

(** What follows the terminator does not count. *)
Lemma c_str_app_nul a b : Forall (fun x => x <> 0) a -> c_str (a ++ 0 :: b) = a.
Proof.
  induction 1 as [|x l Hx _ IH]; [done|]. simpl.
  destruct (Z.eqb_spec x 0); [done|]. by rewrite IH.
Qed.

Lemma c_str_nonzero l : Forall (fun b => b <> 0) (c_str l).
Proof.
  induction l as [|x l IH]; simpl; [constructor|].
  destruct (Z.eqb_spec x 0); by constructor.
Qed.

Lemma c_str_idemp l : c_str (c_str l) = c_str l.
Proof. apply c_str_id, c_str_nonzero. Qed.

Lemma c_str_length_le l : (length (c_str l) <= length l)%nat.
Proof. induction l as [|x l IH]; simpl; [lia|]. destruct (x =? 0); simpl; lia. Qed.

Lemma c_str_prefix l : c_str l `prefix_of` l.
Proof.
  induction l as [|x l IH]; simpl; [done|].
  destruct (x =? 0); [apply prefix_nil | by apply prefix_cons].
Qed.

Lemma c_str_Forall (P : Z -> Prop) l : Forall P l -> Forall P (c_str l).
Proof. intros H. destruct (c_str_prefix l) as [k Hk]. rewrite Hk in H. by apply Forall_app in H as [? _]. Qed.

(** * Machine words *)

Definition u64_max : Z := 2 ^ 64 - 1.
Definition wrap64 (z : Z) : Z := z mod 2 ^ 64.
Definition wrap32 (z : Z) : Z := z mod 2 ^ 32.
Definition u64 (z : Z) : Prop := 0 <= z < 2 ^ 64.

Lemma wrap64_id z : u64 z -> wrap64 z = z.
Proof. intros. by apply Z.mod_small. Qed.

Lemma wrap64_u64 z : u64 (wrap64 z).
Proof. by apply Z.mod_pos_bound. Qed.

(** * Arrays with a declared size

    An array together with its length field is the list of its live elements;
    [Zlen] is the length field.  [push] is [a[n++] = x]: it is defined only
    when the array has room, so a store past the end is [None]. *)

Abbreviation Zlen l := (Z.of_nat (length l)).

Definition push {A} (size : Z) (l : list A) (x : A) : option (list A) :=
  if Zlen l <? size then Some (l ++ [x]) else None.

(** [memcpy(dst, s, strlen(s) + 1)] into a [char] array of [size] bytes. *)
Definition store_str (size : Z) (s : list Z) : option (list Z) :=
  if strlen s + 1 <=? size then Some (c_str s) else None.

(** A [char] array as its bytes: [memcpy] of [src] to its start, and of a
    string with its terminator. *)
Definition memcpy_into (dst src : list Z) : option (list Z) :=
  if Zlen src <=? Zlen dst then Some (src ++ drop (length src) dst) else None.
Definition strcpy_into (dst src : list Z) : option (list Z) := memcpy_into dst (c_str src ++ [0]).

(** [memcpy(a + used, src, n)] at the end of the live part of a local array. *)
Definition append {A} (size : Z) (a src : list A) : option (list A) :=
  if Zlen a + Zlen src <=? size then Some (a ++ src) else None.

(** A string put, with its terminator, into a local [char] array of [size] bytes. *)
Definition local_str (size : Z) (s : list Z) : option (list Z) :=
  if Zlen s + 1 <=? size then Some s else None.

Lemma append_Some {A} size (a src : list A) : Zlen a + Zlen src <= size -> append size a src = Some (a ++ src).
Proof. intros H. unfold append. by destruct (Z.leb_spec (Zlen a + Zlen src) size); [|lia]. Qed.

Lemma local_str_Some size s : Zlen s < size -> local_str size s = Some s.
Proof. intros H. unfold local_str. by destruct (Z.leb_spec (Zlen s + 1) size); [|lia]. Qed.

Lemma push_Some {A} size (l : list A) x : Zlen l < size -> push size l x = Some (l ++ [x]).
Proof. intros H. unfold push. by destruct (Z.ltb_spec (Zlen l) size); [|lia]. Qed.

Lemma store_str_Some size s : strlen s + 1 <= size -> store_str size s = Some (c_str s).
Proof. intros H. unfold store_str. by destruct (Z.leb_spec (strlen s + 1) size); [|lia]. Qed.

(** * Record update: [r <| field := v |>] *)

Class Setter {R E : Type} (p : R -> E) := set_field : E -> R -> R.
Arguments set_field {R E} p {_} _ _ /.

Declare Scope update_scope.
Notation "r <| p := v |>" := (set_field p v r) (at level 1, left associativity) : update_scope.
#[global] Open Scope update_scope.

(** Derives the update of one field from the record's eta expansion. *)
Ltac setter_of eta proj :=
  let v := fresh "v" in
  let r := fresh "r" in
  intros v r;
  let t := eval unfold eta in (eta r) in
  match eval pattern (proj r) in t with
  | ?F _ => let u := eval cbv beta in (F v) in exact u
  end.

(** * The fault-or-result state monad

    [M S A] is a computation over the state [S]; [None] is a fault: a store
    outside an array.  Every C function that mutates its session is a value of
    this type, so that the absence of faults is a theorem and not a
    convention. *)

Definition M (S A : Type) : Type := S -> option (A * S).

#[global] Instance M_ret S : MRet (M S) := fun A a s => Some (a, s).
#[global] Instance M_bind S : MBind (M S) := fun A B k m s =>
  match m s with
  | Some (a, s') => k a s'
  | None => None
  end.

Definition gets {S A} (f : S -> A) : M S A := fun s => Some (f s, s).
Definition modify {S} (f : S -> S) : M S unit := fun s => Some (tt, f s).
Definition lift_opt {S A} (o : option A) : M S A := fun s =>
  match o with Some a => Some (a, s) | None => None end.
Definition when {S} (b : bool) (m : M S unit) : M S unit := if b then m else mret tt.

(** A C [for] loop over the elements of an array. *)
Fixpoint for_each {S A} (l : list A) (f : A -> M S unit) : M S unit :=
  match l with
  | [] => mret tt
  | x :: l' => f x ;; for_each l' f
  end.

(** A computation on a part of the state. *)
Definition zoom {S T A} (get : S -> T) (put : T -> S -> S) (m : M T A) : M S A := fun s =>
  match m (get s) with
  | Some (a, t) => Some (a, put t s)
  | None => None
  end.

(** Weakest precondition: the computation does not fault and ends in [Q]. *)
Definition wp {S A} (m : M S A) (Q : A -> S -> Prop) (s : S) : Prop :=
  match m s with
  | Some (a, s') => Q a s'
  | None => False
  end.

Section wp.
Context {S : Type}.
Implicit Types (s : S).

Lemma wp_ret {A} (a : A) Q s : Q a s -> wp (mret a) Q s.
Proof. done. Qed.

Lemma wp_bind {A B} (m : M S A) (k : A -> M S B) Q s :
  wp m (fun a s' => wp (k a) Q s') s -> wp (m ≫= k) Q s.
Proof. unfold wp, mbind, M_bind. by destruct (m s) as [[a s']|]. Qed.

Lemma wp_gets {A} (f : S -> A) (Q : A -> S -> Prop) s : Q (f s) s -> wp (gets f) Q s.
Proof. done. Qed.

Lemma wp_modify (f : S -> S) (Q : unit -> S -> Prop) s : Q tt (f s) -> wp (modify f) Q s.
Proof. done. Qed.

Lemma wp_lift {A} (o : option A) a (Q : A -> S -> Prop) s :
  o = Some a -> Q a s -> wp (lift_opt o) Q s.
Proof. by intros ->. Qed.

Lemma wp_if {A} (b : bool) (m1 m2 : M S A) Q s :
  (b = true -> wp m1 Q s) -> (b = false -> wp m2 Q s) -> wp (if b then m1 else m2) Q s.
Proof. destruct b; auto. Qed.

Lemma wp_when (b : bool) (m : M S unit) (Q : unit -> S -> Prop) s :
  (b = true -> wp m Q s) -> (b = false -> Q tt s) -> wp (when b m) Q s.
Proof. destruct b; intros H1 H2; [by apply H1 | by apply wp_ret, H2]. Qed.

Lemma wp_mono {A} (m : M S A) (Q Q' : A -> S -> Prop) s :
  wp m Q s -> (forall a s', Q a s' -> Q' a s') -> wp m Q' s.
Proof. unfold wp. destruct (m s) as [[a s']|]; auto. Qed.

Lemma wp_for_each {A} (l : list A) (f : A -> M S unit) (I : S -> Prop) s :
  I s -> (forall x s', x ∈ l -> I s' -> wp (f x) (fun _ => I) s') ->
  wp (for_each l f) (fun _ => I) s.
Proof.
  revert s. induction l as [|x l IH]; intros s HI Hf; simpl; [done|].
  apply wp_bind. eapply wp_mono; [apply Hf; [constructor | done] |].
  intros [] s' HI'. apply IH; [done|]. intros y s'' Hy. apply Hf. by constructor.
Qed.

Lemma wp_zoom {T A} (get : S -> T) (put : T -> S -> S) (m : M T A) Q s :
  wp m (fun a t => Q a (put t s)) (get s) -> wp (zoom get put m) Q s.
Proof. unfold wp, zoom. by destruct (m (get s)) as [[a t]|]. Qed.

(** What a computation that satisfies a weakest precondition returns. *)
Lemma wp_run {A} (m : M S A) Q s : wp m Q s -> exists a s', m s = Some (a, s') /\ Q a s'.
Proof. unfold wp. destruct (m s) as [[a s']|]; [eauto | done]. Qed.

Lemma wp_of_run {A} (m : M S A) Q s a s' : wp m Q s -> m s = Some (a, s') -> Q a s'.
Proof. unfold wp. intros H E. by rewrite E in H. Qed.

Lemma bind_run {A B} (m : M S A) (k : A -> M S B) s b s' :
  (m ≫= k) s = Some (b, s') -> exists a s1, m s = Some (a, s1) /\ k a s1 = Some (b, s').
Proof. unfold mbind, M_bind. destruct (m s) as [[a s1]|]; [eauto|done]. Qed.

Lemma wp_and {A} (m : M S A) (Q1 Q2 : A -> S -> Prop) s :
  wp m Q1 s -> wp m Q2 s -> wp m (fun a s' => Q1 a s' /\ Q2 a s') s.
Proof. unfold wp. destruct (m s) as [[a s']|]; auto. Qed.
End wp.

(** * Automation

    [session] collects the specifications of the session's functions: each is
    a lemma ending in [wp f Q s], used by [wp_step] through [wp_mono]. *)

Create HintDb session.
Create HintDb bytes.

(** One step of symbolic execution. *)
Ltac wp_step :=
  lazymatch goal with
  | |- wp (mret _) _ _ => apply wp_ret
  | |- wp (_ ≫= _) _ _ => apply wp_bind
  | |- wp (gets _) _ _ => apply wp_gets
  | |- wp (modify _) _ _ => apply wp_modify
  | |- wp (when _ _) _ _ => apply wp_when; intros ?
  | |- wp (if ?b then _ else _) _ _ => apply wp_if; intros ?
  | |- wp _ _ _ => eapply wp_mono; [solve [eauto with session] | intros ? ? ?]
  end; cbv beta.

(** Splits boolean guards into propositions about [Z]. *)
Ltac breflect :=
  repeat match goal with
  | H : andb _ _ = true |- _ => apply andb_prop in H as [? ?]
  | H : andb _ _ = false |- _ => apply andb_false_iff in H as [?|?]
  | H : orb _ _ = true |- _ => apply orb_prop in H as [?|?]
  | H : orb _ _ = false |- _ => apply orb_false_elim in H as [? ?]
  | H : negb _ = true |- _ => apply negb_true_iff in H
  | H : negb _ = false |- _ => apply negb_false_iff in H
  | H : (_ =? _) = true |- _ => apply Z.eqb_eq in H
  | H : (_ =? _) = false |- _ => apply Z.eqb_neq in H
  | H : (_ <? _) = true |- _ => apply Z.ltb_lt in H
  | H : (_ <? _) = false |- _ => apply Z.ltb_ge in H
  | H : (_ <=? _) = true |- _ => apply Z.leb_le in H
  | H : (_ <=? _) = false |- _ => apply Z.leb_gt in H
  | H : (_ >? _) = true |- _ => rewrite Z.gtb_ltb in H; apply Z.ltb_lt in H
  | H : (_ >? _) = false |- _ => rewrite Z.gtb_ltb in H; apply Z.ltb_ge in H
  | H : (_ >=? _) = true |- _ => rewrite Z.geb_leb in H; apply Z.leb_le in H
  | H : (_ >=? _) = false |- _ => rewrite Z.geb_leb in H; apply Z.leb_gt in H
  end.

(** Case analysis on the first boolean test of the goal. *)
Ltac case_test :=
  match goal with
  | |- context [if ?b then _ else _] => destruct b eqn:?
  end.

(** * Generic list lemmas *)

Lemma Forall_snoc {A} (P : A -> Prop) l x : Forall P l -> P x -> Forall P (l ++ [x]).
Proof. intros. apply Forall_app. by repeat constructor. Qed.

Lemma Zlen_snoc {A} (l : list A) x : Zlen (l ++ [x]) = Zlen l + 1.
Proof. rewrite length_app. simpl. lia. Qed.

Lemma removelast_Forall {A} (P : A -> Prop) (l : list A) : Forall P l -> Forall P (removelast l).
Proof.
  induction 1 as [|x l Hx Hl IH]; simpl; [constructor|].
  destruct l; [constructor|]. by constructor.
Qed.

Lemma removelast_length_le {A} (l : list A) : (length (removelast l) <= length l)%nat.
Proof. induction l as [|x [|y l] IH]; simpl in *; lia. Qed.

#[export] Hint Resolve c_str_nonzero c_str_Forall Forall_snoc removelast_Forall : bytes.
