(* ===== verification/TelnetNegotiation.v ===== *)
(** The RFC 1143 option negotiator of src/telnet_negotiation.c and
    src/telnet_internal.h: data, operations, the well-formedness invariant and
    the frame lemmas its clients use.  The two-party theorems are in
    NegotiationProtocol.v. *)
From S2P Require Import Prelude.

(** * Wire constants (src/telnet_internal.h) *)

Definition TELNET_EOR : Z := 239.
Definition TELNET_SE : Z := 240.
Definition TELNET_NOP : Z := 241.
Definition TELNET_DM : Z := 242.
Definition TELNET_BRK : Z := 243.
Definition TELNET_IP : Z := 244.
Definition TELNET_AO : Z := 245.
Definition TELNET_AYT : Z := 246.
Definition TELNET_EC : Z := 247.
Definition TELNET_EL : Z := 248.
Definition TELNET_GA : Z := 249.
Definition TELNET_SB : Z := 250.
Definition TELNET_WILL : Z := 251.
Definition TELNET_WONT : Z := 252.
Definition TELNET_DO : Z := 253.
Definition TELNET_DONT : Z := 254.
Definition TELNET_IAC : Z := 255.

Definition TELNET_OPT_BINARY : Z := 0.
Definition TELNET_OPT_ECHO : Z := 1.
Definition TELNET_OPT_SUPPRESS_GO_AHEAD : Z := 3.
Definition TELNET_OPT_TERMINAL_TYPE : Z := 24.
Definition TELNET_OPT_END_OF_RECORD : Z := 25.
Definition TELNET_OPT_NAWS : Z := 31.
Definition TELNET_OPT_LINEMODE : Z := 34.
Definition TELNET_OPT_NEW_ENVIRON : Z := 39.
Definition TELNET_OPT_CHARSET : Z := 42.
Definition TELNET_OPT_MSSP : Z := 70.
Definition TELNET_OPT_GMCP : Z := 201.

(** * State *)

Inductive telnet_q_direction := TELNET_Q_LOCAL | TELNET_Q_REMOTE.

Inductive telnet_q_state_id := TELNET_Q_NO | TELNET_Q_YES | TELNET_Q_WANTNO | TELNET_Q_WANTYES.

#[export] Instance telnet_q_direction_eq_dec : EqDecision telnet_q_direction.
Proof. solve_decision. Defined.
#[export] Instance telnet_q_state_id_eq_dec : EqDecision telnet_q_state_id.
Proof. solve_decision. Defined.

Record telnet_q_side := mk_side {
  state : telnet_q_state_id;
  queued_opposite : bool
}.

#[export] Instance telnet_q_side_eq_dec : EqDecision telnet_q_side.
Proof. solve_decision. Defined.

Record telnet_q := mk_q {
  local : list telnet_q_side;
  remote : list telnet_q_side
}.

(** The zeroed side: [memset] to zero is state [NO] with nothing queued. *)
Definition side_zero : telnet_q_side := mk_side TELNET_Q_NO false.

(** A command to send: [send_fn(command, option)]. *)
Definition q_send : Type := Z * Z.

(** * Operations *)

(** [&negotiator->local[option]] or [&negotiator->remote[option]]: the read... *)
Definition select_side (q : telnet_q) (direction : telnet_q_direction) (option : Z) : telnet_q_side :=
  default side_zero
    (match direction with TELNET_Q_LOCAL => local q | TELNET_Q_REMOTE => remote q end
       !! Z.to_nat option).

(** ... and the write through that pointer. *)
Definition update_side (q : telnet_q) (direction : telnet_q_direction) (option : Z)
    (side : telnet_q_side) : telnet_q :=
  match direction with
  | TELNET_Q_LOCAL => mk_q (<[Z.to_nat option := side]> (local q)) (remote q)
  | TELNET_Q_REMOTE => mk_q (local q) (<[Z.to_nat option := side]> (remote q))
  end.

Definition enable_command (direction : telnet_q_direction) : Z :=
  match direction with TELNET_Q_LOCAL => TELNET_WILL | TELNET_Q_REMOTE => TELNET_DO end.

Definition disable_command (direction : telnet_q_direction) : Z :=
  match direction with TELNET_Q_LOCAL => TELNET_WONT | TELNET_Q_REMOTE => TELNET_DONT end.

Definition telnet_q_init : telnet_q :=
  mk_q (replicate 256 side_zero) (replicate 256 side_zero).

Definition telnet_q_enabled (q : telnet_q) (direction : telnet_q_direction) (option : Z) : bool :=
  bool_decide (state (select_side q direction option) = TELNET_Q_YES).

Definition telnet_q_request (q : telnet_q) (direction : telnet_q_direction) (option : Z)
    (enable : bool) : telnet_q * list q_send :=
  let side := select_side q direction option in
  if enable then
    match state side with
    | TELNET_Q_NO =>
        (update_side q direction option (mk_side TELNET_Q_WANTYES false),
         [(enable_command direction, option)])
    | TELNET_Q_YES => (q, [])
    | TELNET_Q_WANTNO =>
        if negb (queued_opposite side)
        then (update_side q direction option (mk_side TELNET_Q_WANTNO true), [])
        else (q, [])
    | TELNET_Q_WANTYES =>
        if queued_opposite side
        then (update_side q direction option (mk_side TELNET_Q_WANTYES false), [])
        else (q, [])
    end
  else
    match state side with
    | TELNET_Q_NO => (q, [])
    | TELNET_Q_YES =>
        (update_side q direction option (mk_side TELNET_Q_WANTNO false),
         [(disable_command direction, option)])
    | TELNET_Q_WANTNO =>
        if queued_opposite side
        then (update_side q direction option (mk_side TELNET_Q_WANTNO false), [])
        else (q, [])
    | TELNET_Q_WANTYES =>
        if negb (queued_opposite side)
        then (update_side q direction option (mk_side TELNET_Q_WANTYES true), [])
        else (q, [])
    end.

Definition receive_positive (q : telnet_q) (direction : telnet_q_direction) (option : Z)
    (allow_enable : bool) : telnet_q * list q_send :=
  let side := select_side q direction option in
  match state side with
  | TELNET_Q_NO =>
      if allow_enable then
        (update_side q direction option (mk_side TELNET_Q_YES false),
         [(enable_command direction, option)])
      else (q, [(disable_command direction, option)])
  | TELNET_Q_YES => (q, [])
  | TELNET_Q_WANTNO =>
      if negb (queued_opposite side)
      then (update_side q direction option (mk_side TELNET_Q_NO (queued_opposite side)), [])
      else (update_side q direction option (mk_side TELNET_Q_YES false), [])
  | TELNET_Q_WANTYES =>
      if negb (queued_opposite side)
      then (update_side q direction option (mk_side TELNET_Q_YES (queued_opposite side)), [])
      else
        (update_side q direction option (mk_side TELNET_Q_WANTNO false),
         [(disable_command direction, option)])
  end.

Definition receive_negative (q : telnet_q) (direction : telnet_q_direction) (option : Z)
    : telnet_q * list q_send :=
  let side := select_side q direction option in
  match state side with
  | TELNET_Q_NO => (q, [])
  | TELNET_Q_YES =>
      (update_side q direction option (mk_side TELNET_Q_NO false),
       [(disable_command direction, option)])
  | TELNET_Q_WANTNO =>
      if negb (queued_opposite side)
      then (update_side q direction option (mk_side TELNET_Q_NO (queued_opposite side)), [])
      else
        (update_side q direction option (mk_side TELNET_Q_WANTYES false),
         [(enable_command direction, option)])
  | TELNET_Q_WANTYES =>
      (update_side q direction option (mk_side TELNET_Q_NO false), [])
  end.

(** The command's direction and sign; [None] is the [default: return]. *)
Definition command_kind (command : Z) : option (telnet_q_direction * bool) :=
  if command =? TELNET_WILL then Some (TELNET_Q_REMOTE, true)
  else if command =? TELNET_WONT then Some (TELNET_Q_REMOTE, false)
  else if command =? TELNET_DO then Some (TELNET_Q_LOCAL, true)
  else if command =? TELNET_DONT then Some (TELNET_Q_LOCAL, false)
  else None.

Definition telnet_q_receive (q : telnet_q) (command option : Z)
    (accept_fn : telnet_q_direction -> Z -> bool) : telnet_q * list q_send :=
  match command_kind command with
  | None => (q, [])
  | Some (direction, positive) =>
      if positive
      then receive_positive q direction option (accept_fn direction option)
      else receive_negative q direction option
  end.

(** * Well-formedness

    Both arrays have 256 entries and a queued opposite request exists only
    while a request is outstanding. *)

Definition side_ok (side : telnet_q_side) : Prop :=
  queued_opposite side = true -> state side = TELNET_Q_WANTNO \/ state side = TELNET_Q_WANTYES.

Definition q_ok (q : telnet_q) : Prop :=
  length (local q) = 256%nat /\ length (remote q) = 256%nat /\
  Forall side_ok (local q) /\ Forall side_ok (remote q).

(** * Frame and update lemmas *)

Lemma select_update_eq q d o s : q_ok q -> is_byte o -> select_side (update_side q d o s) d o = s.
Proof.
  intros (Hl & Hr & _) [? ?]. unfold select_side, update_side.
  destruct d; simpl; rewrite list_lookup_insert_eq; auto; lia.
Qed.

Lemma select_update_ne q d o s d' o' :
  0 <= o -> 0 <= o' -> (d', o') <> (d, o) ->
  select_side (update_side q d o s) d' o' = select_side q d' o'.
Proof.
  intros ?? Hne. unfold select_side, update_side.
  destruct d, d'; simpl; try reflexivity;
    (rewrite list_lookup_insert_ne; [done|]; intros ?%Z2Nat.inj; congruence).
Qed.

Lemma q_ok_init : q_ok telnet_q_init.
Proof.
  unfold q_ok, telnet_q_init; cbn [local remote]. rewrite length_replicate.
  repeat split; by apply Forall_replicate.
Qed.

Lemma q_ok_update q d o s : q_ok q -> side_ok s -> q_ok (update_side q d o s).
Proof.
  intros (Hl & Hr & Fl & Fr) Hs. unfold q_ok, update_side.
  destruct d; simpl; rewrite ?length_insert; repeat split; auto; by apply Forall_insert.
Qed.

Lemma select_side_ok q d o : q_ok q -> side_ok (select_side q d o).
Proof.
  intros (_ & _ & Fl & Fr). unfold select_side.
  destruct (_ !! _) as [s|] eqn:E; simpl; [|done].
  destruct d; (eapply Forall_lookup_1; [|done]); done.
Qed.

(** * One-sided view

    Every operation reads and writes one side and sends at most one command
    about the same option; [side_step] names the function it computes there,
    and the whole negotiator is that function lifted to the arrays. *)

Definition side_step (q : telnet_q) (d : telnet_q_direction) (o : Z)
    (r : telnet_q_side * list bool) (res : telnet_q * list q_send) : Prop :=
  select_side (fst res) d o = fst r /\
  (forall d' o', 0 <= o' -> (d', o') <> (d, o) -> select_side (fst res) d' o' = select_side q d' o') /\
  snd res = map (fun b : bool => (if b then enable_command d else disable_command d, o)) (snd r) /\
  (side_ok (fst r) -> q_ok (fst res)).

Lemma side_step_same q d o sends :
  q_ok q ->
  side_step q d o (select_side q d o, sends)
    (q, map (fun b : bool => (if b then enable_command d else disable_command d, o)) sends).
Proof. intros. unfold side_step; simpl. auto. Qed.

Lemma side_step_update q d o s sends :
  q_ok q -> is_byte o ->
  side_step q d o (s, sends)
    (update_side q d o s, map (fun b : bool => (if b then enable_command d else disable_command d, o)) sends).
Proof.
  intros Hq Ho. split; [by apply select_update_eq|]. split; [|split; [done|]].
  - intros. destruct Ho. by apply select_update_ne.
  - intros. by apply q_ok_update.
Qed.

(** What each operation does to the side it is about: the new side and the
    commands sent ([true] for WILL/DO, [false] for WONT/DONT). *)
Definition request_side (s : telnet_q_side) (enable : bool) : telnet_q_side * list bool :=
  match state s, queued_opposite s, enable with
  | TELNET_Q_NO, _, true => (mk_side TELNET_Q_WANTYES false, [true])
  | TELNET_Q_YES, _, false => (mk_side TELNET_Q_WANTNO false, [false])
  | TELNET_Q_WANTNO, _, e => (mk_side TELNET_Q_WANTNO e, [])
  | TELNET_Q_WANTYES, _, e => (mk_side TELNET_Q_WANTYES (negb e), [])
  | _, _, _ => (s, [])
  end.

Definition receive_side (s : telnet_q_side) (positive allow : bool) : telnet_q_side * list bool :=
  match state s, queued_opposite s, positive with
  | TELNET_Q_NO, _, true => if allow then (mk_side TELNET_Q_YES false, [true]) else (s, [false])
  | TELNET_Q_NO, _, false => (s, [])
  | TELNET_Q_YES, _, true => (s, [])
  | TELNET_Q_YES, _, false => (mk_side TELNET_Q_NO false, [false])
  | TELNET_Q_WANTNO, false, _ => (mk_side TELNET_Q_NO false, [])
  | TELNET_Q_WANTNO, true, true => (mk_side TELNET_Q_YES false, [])
  | TELNET_Q_WANTNO, true, false => (mk_side TELNET_Q_WANTYES false, [true])
  | TELNET_Q_WANTYES, false, true => (mk_side TELNET_Q_YES false, [])
  | TELNET_Q_WANTYES, true, true => (mk_side TELNET_Q_WANTNO false, [false])
  | TELNET_Q_WANTYES, _, false => (mk_side TELNET_Q_NO false, [])
  end.

Ltac solve_side_step :=
  match goal with
  | |- side_step ?q ?d ?o (?s, _) (?q, _) =>
      replace s with (select_side q d o) by assumption; by apply side_step_same
  | |- side_step _ _ _ _ (update_side _ _ _ _, _) => by apply side_step_update
  end.

Lemma request_one_side q d o e :
  q_ok q -> is_byte o ->
  side_step q d o (request_side (select_side q d o) e) (telnet_q_request q d o e).
Proof.
  intros Hq Ho. unfold telnet_q_request, request_side.
  destruct (select_side q d o) as [[] []] eqn:E, e; simpl; solve_side_step.
Qed.

Lemma receive_one_side q d (positive : bool) o accept_fn :
  q_ok q -> is_byte o ->
  side_step q d o (receive_side (select_side q d o) positive (accept_fn d o))
    (if positive then receive_positive q d o (accept_fn d o) else receive_negative q d o).
Proof.
  intros Hq Ho. unfold receive_positive, receive_negative, receive_side.
  destruct positive, (select_side q d o) as [[] []] eqn:E; simpl;
    try destruct (accept_fn d o); solve_side_step.
Qed.

Lemma request_side_ok s e : side_ok s -> side_ok (fst (request_side s e)).
Proof. destruct s as [[] []], e; unfold side_ok; simpl; naive_solver. Qed.

Lemma receive_side_ok s p a : side_ok s -> side_ok (fst (receive_side s p a)).
Proof. destruct s as [[] []], p, a; unfold side_ok; simpl; naive_solver. Qed.

Lemma q_ok_request q d o e : q_ok q -> is_byte o -> q_ok (fst (telnet_q_request q d o e)).
Proof.
  intros Hq Ho. apply (request_one_side q d o e Hq Ho), request_side_ok. by apply select_side_ok.
Qed.

Lemma q_ok_receive q c o a : q_ok q -> is_byte o -> q_ok (fst (telnet_q_receive q c o a)).
Proof.
  intros Hq Ho. unfold telnet_q_receive. destruct (command_kind c) as [[d p]|]; [|done].
  apply (receive_one_side q d p o a Hq Ho), receive_side_ok. by apply select_side_ok.
Qed.

(** A request never makes an option enabled or changes another option. *)
Lemma enabled_request_frame q d o e d' o' :
  q_ok q -> is_byte o -> 0 <= o' -> (d', o') <> (d, o) ->
  telnet_q_enabled (fst (telnet_q_request q d o e)) d' o' = telnet_q_enabled q d' o'.
Proof.
  intros Hq Ho Ho' Hne. unfold telnet_q_enabled.
  destruct (request_one_side q d o e Hq Ho) as (_ & Hf & _). by rewrite Hf.
Qed.

#[export] Hint Resolve q_ok_init q_ok_request q_ok_receive : session.

(** The negotiator's invariant: both 256-entry arrays keep their size
    and an opposite request is queued only while one is outstanding, through
    every request and every received command byte; options other than the one
    named, and the other direction, are never touched, and at most one command
    is sent, about the same option. *)
Theorem negotiator_invariant q d c o e accept_fn :
  q_ok q -> is_byte o ->
  q_ok (fst (telnet_q_request q d o e)) /\
  q_ok (fst (telnet_q_receive q c o accept_fn)) /\
  (length (snd (telnet_q_request q d o e)) <= 1)%nat /\
  (length (snd (telnet_q_receive q c o accept_fn)) <= 1)%nat /\
  (forall d' o', 0 <= o' -> o' <> o ->
     select_side (fst (telnet_q_request q d o e)) d' o' = select_side q d' o' /\
     select_side (fst (telnet_q_receive q c o accept_fn)) d' o' = select_side q d' o').
Proof.
  intros Hq Ho. destruct (request_one_side q d o e Hq Ho) as (_ & Hf & Hs & _).
  split; [by apply q_ok_request|]. split; [by apply q_ok_receive|].
  split; [rewrite Hs, length_map; by destruct (select_side q d o) as [[] []], e; simpl; lia|].
  unfold telnet_q_receive. destruct (command_kind c) as [[d1 p]|].
  - destruct (receive_one_side q d1 p o accept_fn Hq Ho) as (_ & Hf' & Hs' & _).
    split.
    + rewrite Hs', length_map.
      destruct (select_side q d1 o) as [[] []], p, (accept_fn d1 o); simpl; lia.
    + intros d' o' Ho' Hne. split; [apply Hf | apply Hf']; congruence || done.
  - split; [simpl; lia|]. intros d' o' Ho' Hne. split; [apply Hf|]; congruence || done.
Qed.

Lemma negotiator_invariant_witness :
  q_ok (fst (telnet_q_receive telnet_q_init TELNET_DO TELNET_OPT_GMCP (fun _ _ => true))).
Proof.
  apply (negotiator_invariant telnet_q_init TELNET_Q_LOCAL TELNET_DO TELNET_OPT_GMCP true (fun _ _ => true)).
  - apply q_ok_init.
  - unfold is_byte, TELNET_OPT_GMCP; lia.
Defined.
