(* ===== verification/NegotiationProtocol.v ===== *)
(** Two endpoints that both run the negotiator of TelnetNegotiation.v over two
    FIFO byte streams: the server and a peer such as tools/secure_client.c,
    which links the same code.  Users of either end may request any change at
    any time and accept or refuse offers as they like.

    The system is projected on one option in one direction, where it is a
    finite machine; its reachable configurations are enumerated and checked by
    computation, and a simulation carries the results back to the full
    negotiators. *)
From S2P Require Import Prelude TelnetNegotiation.

(** * The two-party system *)

Record system := mk_system {
  qa : telnet_q;
  qb : telnet_q;
  ab : list q_send;   (** in flight from A to B *)
  ba : list q_send    (** in flight from B to A *)
}.

Definition system_init : system := mk_system telnet_q_init telnet_q_init [] [].

(** A user of one end asks for an option change. *)
Inductive request_step : system -> system -> Prop :=
| request_a s d o e :
    is_byte o ->
    request_step s
      (mk_system (fst (telnet_q_request (qa s) d o e)) (qb s)
         (ab s ++ snd (telnet_q_request (qa s) d o e)) (ba s))
| request_b s d o e :
    is_byte o ->
    request_step s
      (mk_system (qa s) (fst (telnet_q_request (qb s) d o e))
         (ab s) (ba s ++ snd (telnet_q_request (qb s) d o e))).

(** One end receives the oldest command on its stream; [accept] is whatever
    that end's accept callback answers at this moment. *)
Inductive deliver_step : system -> system -> Prop :=
| deliver_a s c o rest accept :
    ba s = (c, o) :: rest ->
    deliver_step s
      (mk_system (fst (telnet_q_receive (qa s) c o accept)) (qb s)
         (ab s ++ snd (telnet_q_receive (qa s) c o accept)) rest)
| deliver_b s c o rest accept :
    ab s = (c, o) :: rest ->
    deliver_step s
      (mk_system (qa s) (fst (telnet_q_receive (qb s) c o accept))
         rest (ba s ++ snd (telnet_q_receive (qb s) c o accept))).

Definition step (s s' : system) : Prop := request_step s s' \/ deliver_step s s'.

Definition reachable (s : system) : Prop := rtc step system_init s.

Definition pending (s : system) : nat := length (ab s) + length (ba s).

(** * One option in one direction *)

Definition flip (d : telnet_q_direction) : telnet_q_direction :=
  match d with TELNET_Q_LOCAL => TELNET_Q_REMOTE | TELNET_Q_REMOTE => TELNET_Q_LOCAL end.

(** A's side, the signs in flight each way, B's side. *)
Definition conf : Type := telnet_q_side * list bool * list bool * telnet_q_side.

(** The sign of a command that the end whose side is [d] sent about [o]. *)
Definition sign_of (d : telnet_q_direction) (o : Z) (m : q_send) : option bool :=
  if (snd m =? o) && (fst m =? enable_command d) then Some true
  else if (snd m =? o) && (fst m =? disable_command d) then Some false
  else None.

Definition signs (d : telnet_q_direction) (o : Z) (l : list q_send) : list bool := omap (sign_of d o) l.

Definition project (d : telnet_q_direction) (o : Z) (s : system) : conf :=
  (select_side (qa s) d o, signs d o (ab s), signs (flip d) o (ba s), select_side (qb s) (flip d) o).

Definition conf_requests (c : conf) : list conf :=
  let '(a, x, y, b) := c in
  flat_map (fun e : bool =>
    [(fst (request_side a e), x ++ snd (request_side a e), y, b);
     (a, x, y ++ snd (request_side b e), fst (request_side b e))]) [true; false].

Definition conf_deliveries (c : conf) : list conf :=
  let '(a, x, y, b) := c in
  flat_map (fun acc : bool =>
    (match y with
     | p :: y' => [(fst (receive_side a p acc), x ++ snd (receive_side a p acc), y', b)]
     | [] => []
     end) ++
    (match x with
     | p :: x' => [(a, x', y ++ snd (receive_side b p acc), fst (receive_side b p acc))]
     | [] => []
     end)) [true; false].

(** * The finite machine, by computation *)

Definition conf_init : conf := (side_zero, [], [], side_zero).

(** [n] rounds of breadth-first closure. *)
Fixpoint explore (n : nat) (l : list conf) : list conf :=
  match n with
  | O => l
  | S n' => explore n' (remove_dups (l ++ flat_map (fun c => conf_requests c ++ conf_deliveries c) l))
  end.

Definition confs : list conf := Eval vm_compute in explore 12 [conf_init].

(** Length of the longest run of deliveries, up to the fuel [n]. *)
Fixpoint rank (n : nat) (c : conf) : nat :=
  match n with
  | O => 0
  | S n' => foldr (fun c' r => Nat.max (S (rank n' c')) r) 0%nat (conf_deliveries c)
  end.

Definition conf_rank : conf -> nat := rank 6.

Definition mem_conf (c : conf) (l : list conf) : bool := bool_decide (c ∈ l).

Definition conf_closed : bool :=
  forallb (fun c => forallb (fun c' => mem_conf c' confs) (conf_requests c ++ conf_deliveries c)) confs.

Definition conf_quiet_ok (c : conf) : bool :=
  let '(a, x, y, b) := c in
  match x, y with
  | [], [] => bool_decide (a = b) && bool_decide (state a = TELNET_Q_NO \/ state a = TELNET_Q_YES)
  | _, _ => true
  end.

Definition conf_rank_ok (c : conf) : bool :=
  let '(a, x, y, b) := c in
  forallb (fun c' => conf_rank c' <? conf_rank c)%nat (conf_deliveries c) &&
  (conf_rank c <=? 4 * (length x + length y))%nat.

Lemma confs_init : conf_init ∈ confs.
Proof. apply (bool_decide_eq_true (conf_init ∈ confs)). vm_compute. reflexivity. Qed.

Lemma confs_closed : conf_closed = true.
Proof. vm_compute. reflexivity. Qed.

Lemma confs_quiet : forallb conf_quiet_ok confs = true.
Proof. vm_compute. reflexivity. Qed.

Lemma confs_rank : forallb conf_rank_ok confs = true.
Proof. vm_compute. reflexivity. Qed.

Lemma confs_step c c' : c ∈ confs -> c' ∈ conf_requests c ++ conf_deliveries c -> c' ∈ confs.
Proof.
  intros Hc Hc'. pose proof confs_closed as H. unfold conf_closed in H.
  rewrite forallb_forall in H. specialize (H c (proj1 (list_elem_of_In _ _) Hc)).
  rewrite forallb_forall in H. specialize (H c' (proj1 (list_elem_of_In _ _) Hc')).
  by apply bool_decide_eq_true in H.
Qed.

Lemma confs_check (f : conf -> bool) c : forallb f confs = true -> c ∈ confs -> f c = true.
Proof. rewrite forallb_forall. intros H Hc. by apply H, list_elem_of_In. Qed.

(** * Simulation *)

(** Streams only carry the four commands, about option bytes. *)
Definition msg_ok (m : q_send) : Prop := is_Some (command_kind (fst m)) /\ is_byte (snd m).

Record system_ok (s : system) : Prop := mk_system_ok {
  ok_qa : q_ok (qa s);
  ok_qb : q_ok (qb s);
  ok_ab : Forall msg_ok (ab s);
  ok_ba : Forall msg_ok (ba s)
}.

Lemma flip_flip d : flip (flip d) = d.
Proof. by destruct d. Qed.

Lemma command_kind_enable d : command_kind (enable_command d) = Some (flip d, true).
Proof. by destruct d. Qed.

Lemma command_kind_disable d : command_kind (disable_command d) = Some (flip d, false).
Proof. by destruct d. Qed.

Lemma command_kind_inv c d p :
  command_kind c = Some (d, p) -> c = if p then enable_command (flip d) else disable_command (flip d).
Proof.
  unfold command_kind.
  repeat (case_test; [intros [= <- <-]; breflect; by subst|]). done.
Qed.

(** The commands an end sends are about its own side and option... *)
Lemma signs_sent d o l :
  signs d o (map (fun b : bool => (if b then enable_command d else disable_command d, o)) l) = l.
Proof.
  induction l as [|b l IH]; [done|]. cbn. unfold sign_of at 1; simpl.
  rewrite Z.eqb_refl. destruct b, d; simpl; by f_equal.
Qed.

(** ... and say nothing about any other. *)
Lemma signs_other d o d' o' l :
  (d', o') <> (d, o) ->
  signs d' o' (map (fun b : bool => (if b then enable_command d else disable_command d, o)) l) = [].
Proof.
  intros Hne. induction l as [|b l IH]; [done|]. cbn. unfold sign_of at 1; simpl.
  destruct (Z.eqb_spec o o'); simpl; [|done].
  subst. destruct b, d, d'; simpl; try done; congruence.
Qed.

Lemma signs_app d o l l' : signs d o (l ++ l') = signs d o l ++ signs d o l'.
Proof. apply omap_app. Qed.

Lemma sent_ok d o l :
  is_byte o -> Forall msg_ok (map (fun b : bool => (if b then enable_command d else disable_command d, o)) l).
Proof.
  intros Ho. apply Forall_map, Forall_forall. intros b _. split; [|done]. simpl.
  destruct b; rewrite ?command_kind_enable, ?command_kind_disable; eauto.
Qed.

(** What one operation of one end does to a projection: the sides and the
    signs it appends. *)
Lemma side_step_project q d o r res d' o' :
  side_step q d o r res -> 0 <= o' ->
  (select_side (fst res) d' o', signs d' o' (snd res)) =
  (if decide ((d', o') = (d, o)) then r else (select_side q d' o', [])).
Proof.
  intros (Heq & Hne & Hs & _) Ho'. rewrite Hs. destruct r as [s l]. simpl in *.
  case_decide as E; [injection E as -> ->|].
  - by rewrite Heq, signs_sent.
  - by rewrite Hne, signs_other.
Qed.

Lemma step_ok s s' : step s s' -> system_ok s -> system_ok s'.
Proof.
  intros Hstep [Ha Hb Hab Hba].
  destruct Hstep as [Hr|Hd]; [destruct Hr as [s d o e Ho|s d o e Ho] | destruct Hd as [s c o rest acc Hm|s c o rest acc Hm]].
  - destruct (request_one_side (qa s) d o e Ha Ho) as (_ & _ & Hs & _).
    constructor; simpl; auto with session. rewrite Hs. apply Forall_app. auto using sent_ok.
  - destruct (request_one_side (qb s) d o e Hb Ho) as (_ & _ & Hs & _).
    constructor; simpl; auto with session. rewrite Hs. apply Forall_app. auto using sent_ok.
  - rewrite Hm in Hba. inversion Hba as [|? ? [[[d p] Hk] Ho] Hrest]; subst. simpl in *.
    constructor; simpl; auto with session. apply Forall_app. split; [done|].
    unfold telnet_q_receive. rewrite Hk.
    destruct (receive_one_side (qa s) d p o acc Ha Ho) as (_ & _ & -> & _). by apply sent_ok.
  - rewrite Hm in Hab. inversion Hab as [|? ? [[[d p] Hk] Ho] Hrest]; subst. simpl in *.
    constructor; simpl; auto with session. apply Forall_app. split; [done|].
    unfold telnet_q_receive. rewrite Hk.
    destruct (receive_one_side (qb s) d p o acc Hb Ho) as (_ & _ & -> & _). by apply sent_ok.
Qed.

Lemma in_requests_a a x y b e :
  (fst (request_side a e), x ++ snd (request_side a e), y, b) ∈ conf_requests (a, x, y, b).
Proof. destruct e; cbn [conf_requests flat_map app]; set_solver. Qed.

Lemma in_requests_b a x y b e :
  (a, x, y ++ snd (request_side b e), fst (request_side b e)) ∈ conf_requests (a, x, y, b).
Proof. destruct e; cbn [conf_requests flat_map app]; set_solver. Qed.

Lemma in_deliveries_a a x p y b acc :
  (fst (receive_side a p acc), x ++ snd (receive_side a p acc), y, b) ∈ conf_deliveries (a, x, p :: y, b).
Proof. destruct acc; cbn [conf_deliveries flat_map app]; set_solver. Qed.

Lemma in_deliveries_b a p x y b acc :
  (a, x, y ++ snd (receive_side b p acc), fst (receive_side b p acc)) ∈ conf_deliveries (a, p :: x, y, b).
Proof. destruct acc; destruct y; cbn [conf_deliveries flat_map app]; set_solver. Qed.

(** A request is a request of the finite machine on its own option and
    direction, and invisible on every other. *)
Lemma request_simulation s s' d' o' :
  request_step s s' -> system_ok s -> 0 <= o' ->
  project d' o' s' = project d' o' s \/ project d' o' s' ∈ conf_requests (project d' o' s).
Proof.
  intros Hr [Ha Hb Hab Hba] Ho'. destruct Hr as [s d o e Ho|s d o e Ho]; unfold project; simpl.
  - pose proof (side_step_project _ _ _ _ _ d' o' (request_one_side (qa s) d o e Ha Ho) Ho') as E.
    rewrite signs_app. case_decide as D; [injection D as -> ->|].
    + right. destruct (request_side _ _) as [s1 l1] eqn:Er. injection E as -> ->.
      pose proof (in_requests_a (select_side (qa s) d o) (signs d o (ab s)) (signs (flip d) o (ba s))
        (select_side (qb s) (flip d) o) e) as H. by rewrite Er in H.
    + left. injection E as -> ->. by rewrite app_nil_r.
  - pose proof (side_step_project _ _ _ _ _ (flip d') o' (request_one_side (qb s) d o e Hb Ho) Ho') as E.
    rewrite signs_app. case_decide as D; [injection D as <- ->|].
    + right. destruct (request_side _ _) as [s1 l1] eqn:Er. injection E as -> ->.
      pose proof (in_requests_b (select_side (qa s) d' o) (signs d' o (ab s)) (signs (flip d') o (ba s))
        (select_side (qb s) (flip d') o) e) as H. by rewrite Er in H.
    + left. injection E as -> ->. by rewrite app_nil_r.
Qed.

(** Signs of a stream whose head is a command of kind [(d, p)]. *)
Lemma signs_head c o rest d p d' o' :
  command_kind c = Some (d, p) ->
  signs d' o' ((c, o) :: rest) =
  (if decide ((d', o') = (flip d, o)) then p :: signs d' o' rest else signs d' o' rest).
Proof.
  intros ->%command_kind_inv. unfold signs; cbn. unfold sign_of at 1; simpl.
  case_decide as D.
  - injection D as -> ->. rewrite Z.eqb_refl. by destruct p, d.
  - destruct (Z.eqb_spec o o'); simpl; [|done].
    subst. destruct p, d, d'; simpl in *; try done; congruence.
Qed.

(** A delivery is a delivery of the finite machine on the option and direction
    of the delivered command, and invisible on every other. *)
Lemma deliver_simulation s s' :
  deliver_step s s' -> system_ok s ->
  exists d o, is_byte o /\
    project d o s' ∈ conf_deliveries (project d o s) /\
    forall d' o', 0 <= o' -> (d', o') <> (d, o) -> project d' o' s' = project d' o' s.
Proof.
  intros Hd [Ha Hb Hab Hba]. destruct Hd as [s c o rest acc Hm|s c o rest acc Hm].
  - rewrite Hm in Hba. inversion Hba as [|? ? [[[d p] Hk] Ho] Hrest]; subst. simpl in *.
    pose proof (fun d' o' => side_step_project _ _ _ _ _ d' o' (receive_one_side (qa s) d p o acc Ha Ho)) as E.
    exists d, o. split; [done|]. unfold project, telnet_q_receive; simpl. rewrite Hk, Hm. split.
    + specialize (E d o (proj1 Ho)). rewrite decide_True in E by done.
      rewrite signs_app, (signs_head _ _ _ _ _ _ _ Hk), decide_True by done.
      destruct (receive_side _ _ _) as [s1 l1] eqn:Er. injection E as -> ->.
      pose proof (in_deliveries_a (select_side (qa s) d o) (signs d o (ab s)) p (signs (flip d) o rest)
        (select_side (qb s) (flip d) o) (acc d o)) as H. by rewrite Er in H.
    + intros d' o' Ho' Hne. specialize (E d' o' Ho'). rewrite decide_False in E by done.
      rewrite signs_app, (signs_head _ _ _ _ _ _ _ Hk).
      rewrite decide_False by (destruct d, d'; simpl; congruence).
      injection E as -> ->. by rewrite app_nil_r.
  - rewrite Hm in Hab. inversion Hab as [|? ? [[[d p] Hk] Ho] Hrest]; subst. simpl in *.
    pose proof (fun d' o' => side_step_project _ _ _ _ _ d' o' (receive_one_side (qb s) d p o acc Hb Ho)) as E.
    exists (flip d), o. split; [done|]. unfold project, telnet_q_receive; simpl.
    rewrite Hk, Hm, !flip_flip. split.
    + specialize (E d o (proj1 Ho)). rewrite decide_True in E by done.
      rewrite signs_app, (signs_head _ _ _ _ _ _ _ Hk), decide_True by done.
      destruct (receive_side _ _ _) as [s1 l1] eqn:Er. injection E as -> ->.
      pose proof (in_deliveries_b (select_side (qa s) (flip d) o) p (signs (flip d) o rest) (signs d o (ba s))
        (select_side (qb s) d o) (acc d o)) as H. by rewrite Er in H.
    + intros d' o' Ho' Hne. specialize (E (flip d') o' Ho').
      rewrite decide_False in E by (destruct d, d'; simpl in *; congruence).
      rewrite signs_app, (signs_head _ _ _ _ _ _ _ Hk), decide_False by done.
      injection E as -> ->. by rewrite app_nil_r.
Qed.

(** * Reachable systems *)

Lemma system_init_ok : system_ok system_init.
Proof. constructor; simpl; auto with session; constructor. Qed.

Lemma project_init d o : is_byte o -> project d o system_init = conf_init.
Proof.
  intros [? ?]. unfold project, conf_init, select_side, system_init, telnet_q_init.
  destruct d; cbn [qa qb ab ba local remote flip]; by rewrite !lookup_replicate_2 by lia.
Qed.

(** Every reachable system is well formed and projects, on every option and
    direction, to one of the enumerated configurations. *)
Lemma reachable_confs s :
  reachable s -> system_ok s /\ forall d o, is_byte o -> project d o s ∈ confs.
Proof.
  intros H. revert s H.
  apply (rtc_ind_r (fun s => system_ok s /\ forall d o, is_byte o -> project d o s ∈ confs) system_init);
    [|intros s1 s2 Hr Hs [Hok Hp]].
  - split; [apply system_init_ok|]. intros d o Ho. rewrite project_init by done.
    apply confs_init.
  - split; [by eapply step_ok|]. intros d o Ho. destruct Hs as [Hs|Hs].
    + destruct (request_simulation _ _ d o Hs Hok (proj1 Ho)) as [-> | Hin]; [by apply Hp|].
      eapply confs_step; [by apply Hp | apply elem_of_app; by left].
    + destruct (deliver_simulation _ _ Hs Hok) as (d1 & o1 & _ & Hin & Hfr).
      destruct (decide ((d, o) = (d1, o1))) as [E|E].
      * injection E as -> ->. eapply confs_step; [by apply Hp | apply elem_of_app; by right].
      * rewrite Hfr; [by apply Hp | by destruct Ho | done].
Qed.

Lemma reachable_step s s' : reachable s -> step s s' -> reachable s'.
Proof. intros H Hs. by eapply rtc_r. Qed.

Lemma reachable_deliveries s s' : reachable s -> rtc deliver_step s s' -> reachable s'.
Proof. intros H. induction 1 as [|s1 s2 s3 Hd _ IH]; [done|]. apply IH. eapply reachable_step; [done|]. by right. Qed.

(** ** Counting deliveries *)

(** All options in both directions. *)
Definition all_pairs : list (telnet_q_direction * Z) :=
  d ← [TELNET_Q_LOCAL; TELNET_Q_REMOTE]; o ← seqZ 0 256; [(d, o)].

Definition potential (s : system) : nat :=
  sum_list_with (fun p => conf_rank (project (fst p) (snd p) s)) all_pairs.

Lemma elem_of_all_pairs d o : (d, o) ∈ all_pairs <-> is_byte o.
Proof.
  unfold all_pairs. rewrite list_elem_of_bind. split.
  - intros (d' & H & _). apply list_elem_of_bind in H as (o' & H & Ho).
    apply list_elem_of_singleton in H as [= -> ->]. apply elem_of_seqZ in Ho. unfold is_byte; lia.
  - intros [? ?]. exists d. split; [|destruct d; set_solver].
    apply list_elem_of_bind. exists o. split; [set_solver|]. apply elem_of_seqZ. lia.
Qed.

Lemma all_pairs_byte p : p ∈ all_pairs -> is_byte (snd p).
Proof. destruct p as [d o]. apply elem_of_all_pairs. Qed.

Lemma all_pairs_NoDup : NoDup all_pairs.
Proof. apply (bool_decide_eq_true (NoDup all_pairs)). vm_compute. reflexivity. Qed.

Lemma sum_le {A} (f g : A -> nat) l :
  (forall x, x ∈ l -> f x <= g x)%nat -> (sum_list_with f l <= sum_list_with g l)%nat.
Proof.
  induction l as [|y l IH]; intros H; simpl; [lia|].
  pose proof (H y ltac:(set_solver)). assert (sum_list_with f l <= sum_list_with g l)%nat; [|lia].
  apply IH. set_solver.
Qed.

Lemma sum_lt {A} (f g : A -> nat) l x :
  x ∈ l -> (forall y, y ∈ l -> f y <= g y)%nat -> (f x < g x)%nat ->
  (sum_list_with f l < sum_list_with g l)%nat.
Proof.
  induction l as [|y l IH]; intros Hx Hle Hlt; [set_solver|]. simpl.
  apply elem_of_cons in Hx as [->|Hx].
  - pose proof (sum_le f g l ltac:(set_solver)). lia.
  - pose proof (Hle y ltac:(set_solver)). specialize (IH Hx ltac:(set_solver) Hlt). lia.
Qed.

Lemma potential_decreases s s' : reachable s -> deliver_step s s' -> (potential s' < potential s)%nat.
Proof.
  intros Hreach Hd. destruct (reachable_confs s Hreach) as [Hok Hp].
  destruct (deliver_simulation _ _ Hd Hok) as (d & o & Ho & Hin & Hfr).
  assert (conf_rank (project d o s') < conf_rank (project d o s))%nat as Hlt.
  { pose proof (confs_check _ _ confs_rank (Hp d o Ho)) as H. unfold conf_rank_ok in H.
    destruct (project d o s) as [[[a x] y] b]. apply andb_prop in H as [H _].
    rewrite forallb_forall in H. apply Nat.ltb_lt, H. by apply list_elem_of_In. }
  apply sum_lt with (d, o); [by apply elem_of_all_pairs| |done].
  intros [d' o'] Hp'%all_pairs_byte. simpl in *.
  destruct (decide ((d', o') = (d, o))) as [E|E]; [injection E as -> ->; lia|].
  rewrite Hfr; [lia | by destruct Hp' | done].
Qed.

(** A command counts for at most one pair. *)
Lemma sum_signs_le (g : telnet_q_direction -> telnet_q_direction) l ps :
  (forall d d', g d = g d' -> d = d') -> NoDup ps ->
  (sum_list_with (fun p => length (signs (g (fst p)) (snd p) l)) ps <= length l)%nat.
Proof.
  intros Hg Hnd. induction l as [|[c o] l IH]; simpl.
  { induction ps as [|p ps IHp]; simpl; [lia|]. inversion Hnd; subst. by apply IHp. }
  transitivity (length (filter (fun p => is_Some (sign_of (g (fst p)) (snd p) (c, o))) ps)
    + sum_list_with (fun p => length (signs (g (fst p)) (snd p) l)) ps)%nat.
  { clear. induction ps as [|p ps IHp]; [simpl; lia|]. unfold signs in *. cbn -[sign_of filter] in *.
    destruct (sign_of (g (fst p)) (snd p) (c, o)) as [b|] eqn:E.
    - rewrite filter_cons_True by (rewrite E; eauto). simpl. lia.
    - rewrite filter_cons_False by (rewrite E; intros [? ?]; done). lia. }
  assert (length (filter (fun p => is_Some (sign_of (g (fst p)) (snd p) (c, o))) ps) <= 1)%nat; [|lia].
  clear IH. pose proof (NoDup_filter (fun p => is_Some (sign_of (g (fst p)) (snd p) (c, o))) ps Hnd) as Hnd'.
  destruct (filter _ ps) as [|p1 [|p2 rest]] eqn:E; simpl; [lia|lia|]. exfalso.
  assert (forall p, p ∈ p1 :: p2 :: rest -> is_Some (sign_of (g (fst p)) (snd p) (c, o))) as H
    by (intros p; rewrite <- E, list_elem_of_filter; tauto).
  apply NoDup_cons in Hnd' as [Hnot _]. apply Hnot. apply elem_of_cons. left.
  pose proof (H p1 ltac:(set_solver)) as [b1 H1]. pose proof (H p2 ltac:(set_solver)) as [b2 H2].
  destruct p1 as [d1 o1], p2 as [d2 o2]; unfold sign_of in H1, H2; simpl in *.
  assert (o1 = o2 /\ g d1 = g d2) as [-> Hgg]; [|by rewrite (Hg _ _ Hgg)].
  destruct (g d1), (g d2); simpl in *; repeat case_match; breflect; subst; simpl in *; try done;
    unfold TELNET_DO, TELNET_DONT, TELNET_WILL, TELNET_WONT in *; split; congruence.
Qed.

Lemma potential_pending s : reachable s -> (potential s <= 4 * pending s)%nat.
Proof.
  intros Hreach. destruct (reachable_confs s Hreach) as [_ Hp].
  transitivity (sum_list_with (fun p => 4 * (length (signs (fst p) (snd p) (ab s))
    + length (signs (flip (fst p)) (snd p) (ba s))))%nat all_pairs).
  { apply sum_le. intros p Hb%all_pairs_byte.
    pose proof (confs_check _ _ confs_rank (Hp (fst p) (snd p) Hb)) as H.
    unfold conf_rank_ok, project in H. apply andb_prop in H as [_ H]. by apply Nat.leb_le in H. }
  pose proof (sum_signs_le (fun d => d) (ab s) all_pairs ltac:(done) all_pairs_NoDup) as H1.
  pose proof (sum_signs_le flip (ba s) all_pairs
    ltac:(intros d d' E; rewrite <- (flip_flip d), E; apply flip_flip) all_pairs_NoDup) as H2.
  unfold pending. revert H1 H2.
  generalize all_pairs. intros ps H1 H2.
  transitivity (4 * sum_list_with (fun p => length (signs (fst p) (snd p) (ab s))) ps +
    4 * sum_list_with (fun p => length (signs (flip (fst p)) (snd p) (ba s))) ps)%nat; [|lia].
  clear. induction ps as [|p ps IH]; cbn [sum_list_with]; lia.
Qed.

Lemma deliveries_potential n s s' :
  reachable s -> nsteps deliver_step n s s' -> (n + potential s' <= potential s)%nat.
Proof.
  intros Hreach H. induction H as [s|n s1 s2 s3 Hd _ IH]; [lia|].
  pose proof (potential_decreases _ _ Hreach Hd).
  specialize (IH (reachable_step _ _ Hreach ltac:(by right))). lia.
Qed.

(** A command in flight can always be delivered. *)
Lemma deliver_progress s : reachable s -> pending s <> 0%nat -> exists s', deliver_step s s'.
Proof.
  intros _ Hp. destruct (ab s) as [|[c o] rest] eqn:E1.
  - destruct (ba s) as [|[c o] rest] eqn:E2; [unfold pending in Hp; rewrite E1, E2 in Hp; done|].
    eexists. by apply (deliver_a s c o rest (fun _ _ => false)).
  - eexists. by apply (deliver_b s c o rest (fun _ _ => false)).
Qed.

Lemma deliveries_settle n s :
  reachable s -> (potential s <= n)%nat -> exists s', rtc deliver_step s s' /\ pending s' = 0%nat.
Proof.
  revert s. induction n as [|n IH]; intros s Hr Hn.
  all: destruct (decide (pending s = 0%nat)) as [E|E]; [by exists s; split; [apply rtc_refl|]|].
  all: destruct (deliver_progress s Hr E) as [s1 Hd]; pose proof (potential_decreases _ _ Hr Hd).
  - lia.
  - destruct (IH s1) as (s2 & ? & ?); [by eapply reachable_step; [|right] | lia |].
    exists s2. split; [|done]. by eapply rtc_l.
Qed.

(** * The two-party theorems *)

(** [C8] Agreement.  Whatever both users requested, in whatever order the
    commands crossed and whatever each end accepted or refused: once both
    streams are empty, the two ends hold the same view of every option in
    both directions, and neither end still waits for an answer. *)
Theorem quiescent_agreement s d o :
  reachable s -> pending s = 0%nat -> is_byte o ->
  telnet_q_enabled (qa s) d o = telnet_q_enabled (qb s) (flip d) o /\
  select_side (qa s) d o = select_side (qb s) (flip d) o /\
  (state (select_side (qa s) d o) = TELNET_Q_NO \/ state (select_side (qa s) d o) = TELNET_Q_YES).
Proof.
  intros Hr Hp Ho. destruct (reachable_confs s Hr) as [_ Hc].
  pose proof (confs_check _ _ confs_quiet (Hc d o Ho)) as H. unfold project, pending in *.
  destruct (ab s), (ba s); try done. simpl in H.
  apply andb_prop in H as [H1 H2]. apply bool_decide_eq_true in H1, H2.
  unfold telnet_q_enabled. rewrite H1 in *. auto.
Qed.

(** A asks to enable its BINARY, B accepts, A hears the answer. *)
Definition agreed_system : system :=
  let s0 := system_init in
  let r := telnet_q_request (qa s0) TELNET_Q_LOCAL TELNET_OPT_BINARY true in
  let r1 := telnet_q_receive (qb s0) TELNET_WILL TELNET_OPT_BINARY (fun _ _ => true) in
  let r2 := telnet_q_receive (fst r) TELNET_DO TELNET_OPT_BINARY (fun _ _ => true) in
  mk_system (fst r2) (fst r1) [] [].

Definition requested_system : system :=
  let r := telnet_q_request telnet_q_init TELNET_Q_LOCAL TELNET_OPT_BINARY true in
  mk_system (fst r) telnet_q_init (snd r) [].

Lemma requested_reachable : reachable requested_system.
Proof.
  apply rtc_once. left.
  by apply (request_a system_init TELNET_Q_LOCAL TELNET_OPT_BINARY true).
Defined.

Lemma agreed_reachable : reachable agreed_system.
Proof.
  eapply rtc_r; [eapply rtc_r; [exact requested_reachable|]|].
  - right. by apply (deliver_b requested_system TELNET_WILL TELNET_OPT_BINARY [] (fun _ _ => true)).
  - right. match goal with |- deliver_step ?s _ =>
      exact (deliver_a s TELNET_DO TELNET_OPT_BINARY [] (fun _ _ => true) eq_refl) end.
Defined.

Lemma quiescent_agreement_witness :
  telnet_q_enabled (qa agreed_system) TELNET_Q_LOCAL TELNET_OPT_BINARY = true /\
  telnet_q_enabled (qb agreed_system) TELNET_Q_REMOTE TELNET_OPT_BINARY = true.
Proof.
  destruct (quiescent_agreement agreed_system TELNET_Q_LOCAL TELNET_OPT_BINARY) as [H _].
  - apply agreed_reachable.
  - reflexivity.
  - unfold is_byte, TELNET_OPT_BINARY; lia.
  - split; [vm_compute; reflexivity|]. simpl flip in H. rewrite <- H. vm_compute. reflexivity.
Defined.

(** [C13] No negotiation loops.  From any reachable state, if the users make
    no further requests, at most four commands are delivered per command in
    flight, and delivering them does empty both streams. *)
Theorem negotiation_terminates s :
  reachable s ->
  (forall n s', nsteps deliver_step n s s' -> (n <= 4 * pending s)%nat) /\
  (exists s', rtc deliver_step s s' /\ pending s' = 0%nat).
Proof.
  intros Hr. split.
  - intros n s' Hn. pose proof (deliveries_potential _ _ _ Hr Hn). pose proof (potential_pending s Hr). lia.
  - by apply (deliveries_settle (potential s)).
Qed.

Lemma negotiation_terminates_witness :
  pending requested_system = 1%nat /\
  exists s', rtc deliver_step requested_system s' /\ pending s' = 0%nat.
Proof.
  split; [reflexivity|]. apply (negotiation_terminates requested_system), requested_reachable.
Defined.
