(* ===== verification/TerminalText.v ===== *)
(** Terminal-safe text (src/terminal_text.c): UTF-8 validation and the two
    sanitizers, against a reference UTF-8 encoder written from RFC 3629. *)
From S2P Require Import Prelude.

(** * The code *)

(** Decodes one scalar value: the number of bytes consumed and the code point,
    or [None] for the zero return.  The list is the [input_length] bytes at
    [input]. *)
Definition decode_utf8 (input : list Z) : option (nat * Z) :=
  match input with
  | [] => None
  | first :: rest =>
      if first <=? 0x7f then Some (1%nat, first)
      else if (first >=? 0xc2) && (first <=? 0xdf) then
        match rest with
        | b1 :: _ =>
            if negb (Z.land b1 0xc0 =? 0x80) then None
            else Some (2%nat, Z.lor (Z.shiftl (Z.land first 0x1f) 6) (Z.land b1 0x3f))
        | _ => None
        end
      else if (first >=? 0xe0) && (first <=? 0xef) then
        match rest with
        | b1 :: b2 :: _ =>
            if negb (Z.land b1 0xc0 =? 0x80) || negb (Z.land b2 0xc0 =? 0x80) then None
            else if ((first =? 0xe0) && (b1 <? 0xa0)) || ((first =? 0xed) && (b1 >=? 0xa0)) then None
            else Some (3%nat,
              Z.lor (Z.lor (Z.shiftl (Z.land first 0x0f) 12) (Z.shiftl (Z.land b1 0x3f) 6))
                    (Z.land b2 0x3f))
        | _ => None
        end
      else if (first >=? 0xf0) && (first <=? 0xf4) then
        match rest with
        | b1 :: b2 :: b3 :: _ =>
            if negb (Z.land b1 0xc0 =? 0x80) || negb (Z.land b2 0xc0 =? 0x80)
               || negb (Z.land b3 0xc0 =? 0x80) then None
            else if ((first =? 0xf0) && (b1 <? 0x90)) || ((first =? 0xf4) && (b1 >? 0x8f)) then None
            else Some (4%nat,
              Z.lor (Z.lor (Z.lor (Z.shiftl (Z.land first 0x07) 18) (Z.shiftl (Z.land b1 0x3f) 12))
                           (Z.shiftl (Z.land b2 0x3f) 6))
                    (Z.land b3 0x3f))
        | _ => None
        end
      else None
  end.

Definition codepoint_safe (codepoint : Z) : bool :=
  if (codepoint =? 13) || (codepoint =? 10) || (codepoint =? 9) then true
  else if (codepoint <? 0x20) || ((codepoint >=? 0x7f) && (codepoint <=? 0x9f)) then false
  else if (codepoint =? 0x2028) || (codepoint =? 0x2029) then false
  else if ((codepoint >=? 0x202a) && (codepoint <=? 0x202e))
          || ((codepoint >=? 0x2066) && (codepoint <=? 0x2069)) then false
  else true.

(** '?' *)
Definition QUESTION : Z := 63.

(** The ASCII loop from output index [n]; the result is the bytes it stores. *)
Fixpoint sanitize_from (input : list Z) (n output_size : Z) : list Z :=
  match input with
  | [] => []
  | ch :: rest =>
      if n + 1 <? output_size then
        (if ((ch >=? 32) && (ch <=? 126)) || (ch =? 13) || (ch =? 10) || (ch =? 9)
         then ch else QUESTION) :: sanitize_from rest (n + 1) output_size
      else []
  end.

(** [input] is [None] for a NULL pointer; the result is the text left in
    [output] before its NUL, whose length is the returned count. *)
Definition terminal_text_sanitize (input : option (list Z)) (output_size : Z) : list Z :=
  if output_size =? 0 then []
  else match input with
       | None => []
       | Some bytes => sanitize_from bytes 0 output_size
       end.

(** The validation loop; each round consumes at least one byte, so the length
    of the input is enough fuel (see [utf8_valid_loop_spec]). *)
Fixpoint utf8_valid_loop (fuel : nat) (input : list Z) : bool :=
  match input with
  | [] => true
  | _ :: _ =>
      match fuel, decode_utf8 input with
      | S fuel', Some (consumed, _) => utf8_valid_loop fuel' (drop consumed input)
      | _, _ => false
      end
  end.

Definition terminal_text_utf8_valid (input : list Z) : bool :=
  utf8_valid_loop (length input) input.

(** The UTF-8 loop from output index [n]. *)
Fixpoint sanitize_utf8_loop (fuel : nat) (input : list Z) (n output_size : Z) : list Z :=
  match fuel with
  | O => []
  | S fuel' =>
      match input with
      | [] => []
      | _ :: rest =>
          if n + 1 <? output_size then
            match decode_utf8 input with
            | None => QUESTION :: sanitize_utf8_loop fuel' rest (n + 1) output_size
            | Some (consumed, codepoint) =>
                if negb (codepoint_safe codepoint) then
                  QUESTION :: sanitize_utf8_loop fuel' (drop consumed input) (n + 1) output_size
                else if n + Z.of_nat consumed >=? output_size then []
                else take consumed input
                       ++ sanitize_utf8_loop fuel' (drop consumed input) (n + Z.of_nat consumed) output_size
            end
          else []
      end
  end.

Definition terminal_text_sanitize_utf8 (input : option (list Z)) (output_size : Z) : list Z :=
  if output_size =? 0 then []
  else match input with
       | None => []
       | Some bytes => sanitize_utf8_loop (length bytes) bytes 0 output_size
       end.

(** * Reference encoder (RFC 3629) *)

Definition is_scalar (cp : Z) : Prop := 0 <= cp < 0xD800 \/ 0xE000 <= cp <= 0x10FFFF.

Definition encode_utf8 (cp : Z) : list Z :=
  if cp <? 0x80 then [cp]
  else if cp <? 0x800 then [0xC0 + cp / 64; 0x80 + cp mod 64]
  else if cp <? 0x10000 then [0xE0 + cp / 4096; 0x80 + cp / 64 mod 64; 0x80 + cp mod 64]
  else [0xF0 + cp / 262144; 0x80 + cp / 4096 mod 64; 0x80 + cp / 64 mod 64; 0x80 + cp mod 64].

Definition encode_text (cps : list Z) : list Z := concat (map encode_utf8 cps).

(** * Arithmetic of the bit operations *)

Lemma continuation_byte b : is_byte b -> (Z.land b 0xc0 =? 0x80) = (0x80 <=? b) && (b <? 0xc0).
Proof.
  intros [H1 H2].
  assert (Forall (fun b => (Z.land b 0xc0 =? 0x80) = (0x80 <=? b) && (b <? 0xc0)) (seqZ 0 256)) as H
    by (apply (bool_decide_eq_true (Forall _ _)); vm_compute; reflexivity).
  rewrite Forall_forall in H. apply H, elem_of_seqZ. lia.
Qed.

Lemma land_low6 b : Z.land b 0x3f = b mod 64.
Proof. exact (Z.land_ones b 6 ltac:(lia)). Qed.

Lemma land_low5 b : Z.land b 0x1f = b mod 32.
Proof. exact (Z.land_ones b 5 ltac:(lia)). Qed.

Lemma land_low4 b : Z.land b 0x0f = b mod 16.
Proof. exact (Z.land_ones b 4 ltac:(lia)). Qed.

Lemma land_low3 b : Z.land b 0x07 = b mod 8.
Proof. exact (Z.land_ones b 3 ltac:(lia)). Qed.

(** OR-ing in a value below the lowest set bit is addition. *)
Lemma lor_shiftl x n y : 0 <= n -> 0 <= y < 2 ^ n -> Z.lor (Z.shiftl x n) y = x * 2 ^ n + y.
Proof.
  intros Hn Hy. rewrite <- Z.shiftl_mul_pow2 by done. rewrite <- Z.add_lor_land.
  enough (Z.land (Z.shiftl x n) y = 0) by lia. apply Z.bits_inj'. intros i Hi.
  rewrite Z.land_spec, Z.bits_0. destruct (Z.lt_ge_cases i n).
  - by rewrite Z.shiftl_spec_low.
  - rewrite <- (Z.mod_small y (2 ^ n)) by done. rewrite Z.mod_pow2_bits_high by lia. apply andb_false_r.
Qed.

Lemma codepoint2 f b1 :
  Z.lor (Z.shiftl (Z.land f 0x1f) 6) (Z.land b1 0x3f) = f mod 32 * 64 + b1 mod 64.
Proof.
  rewrite land_low5, land_low6. apply (lor_shiftl _ 6); [lia|]. apply Z.mod_pos_bound. lia.
Qed.

Lemma codepoint3 f b1 b2 :
  Z.lor (Z.lor (Z.shiftl (Z.land f 0x0f) 12) (Z.shiftl (Z.land b1 0x3f) 6)) (Z.land b2 0x3f)
  = f mod 16 * 4096 + b1 mod 64 * 64 + b2 mod 64.
Proof.
  rewrite land_low4, !land_low6.
  replace (Z.shiftl (f mod 16) 12) with (Z.shiftl (Z.shiftl (f mod 16) 6) 6) by (by rewrite Z.shiftl_shiftl).
  rewrite <- Z.shiftl_lor. rewrite !(lor_shiftl _ 6) by (try apply Z.mod_pos_bound; lia).
  change (2 ^ 6) with 64. lia.
Qed.

Lemma codepoint4 f b1 b2 b3 :
  Z.lor (Z.lor (Z.lor (Z.shiftl (Z.land f 0x07) 18) (Z.shiftl (Z.land b1 0x3f) 12))
               (Z.shiftl (Z.land b2 0x3f) 6)) (Z.land b3 0x3f)
  = f mod 8 * 262144 + b1 mod 64 * 4096 + b2 mod 64 * 64 + b3 mod 64.
Proof.
  rewrite land_low3, !land_low6.
  replace (Z.shiftl (f mod 8) 18) with (Z.shiftl (Z.shiftl (Z.shiftl (f mod 8) 6) 6) 6)
    by (by rewrite !Z.shiftl_shiftl).
  replace (Z.shiftl (b1 mod 64) 12) with (Z.shiftl (Z.shiftl (b1 mod 64) 6) 6) by (by rewrite Z.shiftl_shiftl).
  rewrite <- !Z.shiftl_lor. rewrite !(lor_shiftl _ 6) by (try apply Z.mod_pos_bound; lia).
  change (2 ^ 6) with 64. lia.
Qed.

(** * Decoding against the reference encoder *)

Ltac decide_tests :=
  repeat match goal with
  | |- context [?a <? ?b] => destruct (Z.ltb_spec a b); try lia
  | |- context [?a <=? ?b] => destruct (Z.leb_spec a b); try lia
  | |- context [?a =? ?b] => destruct (Z.eqb_spec a b); try lia
  end.

Lemma decode_encode cp rest :
  is_scalar cp -> decode_utf8 (encode_utf8 cp ++ rest) = Some (length (encode_utf8 cp), cp).
Proof.
  intros Hcp. unfold encode_utf8, is_scalar in *.
  destruct (Z.ltb_spec cp 0x80); [|destruct (Z.ltb_spec cp 0x800); [|destruct (Z.ltb_spec cp 0x10000)]];
    cbn [app decode_utf8 length]; rewrite ?Z.geb_leb, ?Z.gtb_ltb.
  - decide_tests; done.
  - rewrite continuation_byte, codepoint2 by (unfold is_byte; Z.div_mod_to_equations; lia).
    assert (0 <= cp mod 64 < 64) by (apply Z.mod_pos_bound; lia).
    assert (2 <= cp / 64 < 32) by (Z.div_mod_to_equations; lia).
    decide_tests; simpl; do 2 f_equal; Z.div_mod_to_equations; lia.
  - rewrite !continuation_byte, codepoint3 by (unfold is_byte; Z.div_mod_to_equations; lia).
    assert (0 <= cp mod 64 < 64) by (apply Z.mod_pos_bound; lia).
    assert (0 <= cp / 64 mod 64 < 64) by (apply Z.mod_pos_bound; lia).
    assert (0 <= cp / 4096 < 16) by (Z.div_mod_to_equations; lia).
    assert (cp / 4096 = 0 -> 32 <= cp / 64 mod 64) by (Z.div_mod_to_equations; lia).
    assert (cp / 4096 = 13 -> cp / 64 mod 64 < 32) by (Z.div_mod_to_equations; lia).
    decide_tests; simpl; do 2 f_equal; Z.div_mod_to_equations; lia.
  - rewrite !continuation_byte, codepoint4 by (unfold is_byte; Z.div_mod_to_equations; lia).
    assert (0 <= cp mod 64 < 64) by (apply Z.mod_pos_bound; lia).
    assert (0 <= cp / 64 mod 64 < 64) by (apply Z.mod_pos_bound; lia).
    assert (0 <= cp / 4096 mod 64 < 64) by (apply Z.mod_pos_bound; lia).
    assert (0 <= cp / 262144 <= 4) by (Z.div_mod_to_equations; lia).
    assert (cp / 262144 = 0 -> 16 <= cp / 4096 mod 64) by (Z.div_mod_to_equations; lia).
    assert (cp / 262144 = 4 -> cp / 4096 mod 64 < 16) by (Z.div_mod_to_equations; lia).
    decide_tests; simpl; do 2 f_equal; Z.div_mod_to_equations; lia.
Qed.

Lemma encode2 x y : 2 <= x < 32 -> 0 <= y < 64 -> encode_utf8 (x * 64 + y) = [0xC0 + x; 0x80 + y].
Proof.
  intros. unfold encode_utf8. decide_tests. repeat f_equal; Z.div_mod_to_equations; lia.
Qed.

Lemma encode3 x y z :
  0 <= x < 16 -> 0 <= y < 64 -> 0 <= z < 64 -> (x = 0 -> 32 <= y) ->
  encode_utf8 (x * 4096 + y * 64 + z) = [0xE0 + x; 0x80 + y; 0x80 + z].
Proof.
  intros. unfold encode_utf8. decide_tests. repeat f_equal; Z.div_mod_to_equations; lia.
Qed.

Lemma encode4 x y z w :
  0 <= x <= 4 -> 0 <= y < 64 -> 0 <= z < 64 -> 0 <= w < 64 -> (x = 0 -> 16 <= y) ->
  encode_utf8 (x * 262144 + y * 4096 + z * 64 + w) = [0xF0 + x; 0x80 + y; 0x80 + z; 0x80 + w].
Proof.
  intros. unfold encode_utf8. decide_tests. repeat f_equal; Z.div_mod_to_equations; lia.
Qed.

(** A continuation byte is 0x80 plus its six payload bits. *)
Lemma cont_split b : 0x80 <= b < 0xc0 -> b = 0x80 + b mod 64 /\ 0 <= b mod 64 < 64.
Proof. intros. Z.div_mod_to_equations; lia. Qed.

Lemma decode_sound l n cp :
  Forall is_byte l -> decode_utf8 l = Some (n, cp) ->
  is_scalar cp /\ take n l = encode_utf8 cp /\ n = length (encode_utf8 cp).
Proof.
  intros Hl. destruct l as [|f rest]; [done|]. inversion Hl as [|? ? [Hf1 Hf2] Hrest]; subst.
  cbn [decode_utf8]. unfold is_scalar.
  destruct (Z.leb_spec f 0x7f).
  { intros [= <- <-]. unfold encode_utf8. decide_tests. simpl. split; [lia | done]. }
  destruct ((f >=? 0xc2) && (f <=? 0xdf)) eqn:E2; [|clear E2;
    destruct ((f >=? 0xe0) && (f <=? 0xef)) eqn:E3; [|clear E3;
    destruct ((f >=? 0xf0) && (f <=? 0xf4)) eqn:E4; [|done]]]; breflect.
  - destruct rest as [|b1 rest]; [done|]. inversion_clear Hrest.
    rewrite continuation_byte, codepoint2 by done. case_test; [done|]. intros [= <- <-]. breflect.
    destruct (cont_split b1); [lia|]. assert (f = 0xC0 + f mod 32) by (Z.div_mod_to_equations; lia).
    rewrite encode2 by (Z.div_mod_to_equations; lia). simpl.
    split; [Z.div_mod_to_equations; lia|]. split; [repeat (apply f_equal2; [lia|]); done | done].
  - destruct rest as [|b1 [|b2 rest]]; [done|done|].
    inversion_clear Hrest as [|? ? ? Hrest']. inversion_clear Hrest'.
    rewrite !continuation_byte, codepoint3 by done. case_test; [done|]. case_test; [done|]. intros [= <- <-].
    breflect; destruct (cont_split b1), (cont_split b2); try lia.
    all: assert (f = 0xE0 + f mod 16) by (Z.div_mod_to_equations; lia).
    all: rewrite encode3 by lia; simpl.
    all: split; [lia|]; split; [repeat (apply f_equal2; [lia|]); done | done].
  - destruct rest as [|b1 [|b2 [|b3 rest]]]; [done|done|done|].
    inversion_clear Hrest as [|? ? ? Hrest']. inversion_clear Hrest' as [|? ? ? Hrest'']. inversion_clear Hrest''.
    rewrite !continuation_byte, codepoint4 by done. case_test; [done|]. case_test; [done|]. intros [= <- <-].
    breflect; destruct (cont_split b1), (cont_split b2), (cont_split b3); try lia.
    all: assert (f = 0xF0 + f mod 8) by (Z.div_mod_to_equations; lia).
    all: rewrite encode4 by lia; simpl.
    all: split; [lia|]; split; [repeat (apply f_equal2; [lia|]); done | done].
Qed.

Lemma encode_length cp : (1 <= length (encode_utf8 cp) <= 4)%nat.
Proof. unfold encode_utf8. repeat case_match; simpl; lia. Qed.

(** The bytes of an encoding: a byte below 0x80 is the code point itself, and
    0xF5..0xFF never occur. *)
Lemma encode_bytes cp :
  is_scalar cp -> Forall (fun b => is_byte b /\ (b < 0x80 -> b = cp) /\ b < 0xF5) (encode_utf8 cp).
Proof.
  intros Hcp. unfold is_scalar in Hcp. unfold encode_utf8, is_byte.
  repeat case_match; breflect; repeat constructor; Z.div_mod_to_equations; lia.
Qed.

Lemma decode_some_take l n cp :
  Forall is_byte l -> decode_utf8 l = Some (n, cp) ->
  is_scalar cp /\ l = encode_utf8 cp ++ drop n l /\ n = length (encode_utf8 cp) /\ (1 <= n)%nat.
Proof.
  intros Hl Hd. destruct (decode_sound _ _ _ Hl Hd) as (Hs & Ht & Hn).
  split; [done|]. split; [by rewrite <- Ht, take_drop|]. split; [done|]. pose proof (encode_length cp). lia.
Qed.

Lemma encode_text_cons cp cps : encode_text (cp :: cps) = encode_utf8 cp ++ encode_text cps.
Proof. done. Qed.

Lemma drop_encode cp rest : drop (length (encode_utf8 cp)) (encode_utf8 cp ++ rest) = rest.
Proof. by rewrite drop_app_length. Qed.

Lemma utf8_valid_loop_spec fuel l :
  Forall is_byte l -> (length l <= fuel)%nat ->
  utf8_valid_loop fuel l = true <-> exists cps, Forall is_scalar cps /\ l = encode_text cps.
Proof.
  revert l. induction fuel as [|fuel IH]; intros l Hb Hl.
  { destruct l; [|simpl in Hl; lia]. simpl. split; [|done]. intros _. by exists []. }
  destruct l as [|x l]. { simpl. split; [|done]. intros _. by exists []. }
  cbn [utf8_valid_loop]. destruct (decode_utf8 (x :: l)) as [[n cp]|] eqn:E.
  - destruct (decode_some_take _ _ _ Hb E) as (Hs & Heq & Hn & H1).
    rewrite IH by (try apply Forall_drop; auto; rewrite length_drop; simpl in *; lia).
    split; intros (cps & Hcps & Heq').
    + exists (cp :: cps). split; [by constructor|]. by rewrite encode_text_cons, <- Heq'.
    + destruct cps as [|cp' cps]; [done|]. inversion_clear Hcps as [|? ? Hs' Hcps'].
      rewrite Heq', encode_text_cons, decode_encode in E by done. injection E as <- <-.
      exists cps. by rewrite Heq', encode_text_cons, drop_encode.
  - split; [done|]. intros ([|cp cps] & Hcps & Heq); [done|]. inversion_clear Hcps.
    by rewrite Heq, encode_text_cons, decode_encode in E.
Qed.

(** [C37] Strict UTF-8 validation.  [terminal_text_utf8_valid] accepts exactly
    the byte strings that are the RFC 3629 encoding of a sequence of Unicode
    scalar values: overlong forms, surrogates, values above U+10FFFF and
    truncated sequences are all rejected, everything else is accepted. *)
Theorem utf8_valid_iff l :
  Forall is_byte l ->
  terminal_text_utf8_valid l = true <-> exists cps, Forall is_scalar cps /\ l = encode_text cps.
Proof. intros. by apply utf8_valid_loop_spec. Qed.

Lemma utf8_valid_iff_witness :
  terminal_text_utf8_valid [0xE2; 0x82; 0xAC; 0x41] = true <->
  exists cps, Forall is_scalar cps /\ [0xE2; 0x82; 0xAC; 0x41] = encode_text cps.
Proof. apply (utf8_valid_iff [0xE2; 0x82; 0xAC; 0x41]). repeat constructor; lia. Defined.

(** Decoding inverts encoding, whatever follows, and a successful decode
    consumed exactly the encoding of the scalar value it returns. *)
Theorem decode_utf8_correct l n cp :
  Forall is_byte l ->
  decode_utf8 l = Some (n, cp) <->
  is_scalar cp /\ n = length (encode_utf8 cp) /\ exists rest, l = encode_utf8 cp ++ rest.
Proof.
  intros Hb. split.
  - intros Hd. destruct (decode_some_take _ _ _ Hb Hd) as (? & ? & ? & _). eauto.
  - intros (Hs & -> & rest & ->). by apply decode_encode.
Qed.

Lemma decode_utf8_correct_witness :
  decode_utf8 [0xF0; 0x9F; 0x98; 0x80; 0x21] = Some (4%nat, 0x1F600) /\ is_scalar 0x1F600.
Proof.
  split; [reflexivity|].
  apply (decode_utf8_correct [0xF0; 0x9F; 0x98; 0x80; 0x21] 4 0x1F600); [|reflexivity].
  repeat constructor; lia.
Defined.

(** * The sanitizers *)

(** The characters the terminal may receive, by range: TAB, LF and CR, printable
    ASCII, and the scalar values from U+00A0 on outside U+2028..U+202E (the
    line and paragraph separators, the bidi embeddings and overrides) and
    U+2066..U+2069 (the bidi isolates). *)
Definition safe_scalar (cp : Z) : Prop :=
  is_scalar cp /\
  (cp = 0x09 \/ cp = 0x0A \/ cp = 0x0D \/ 0x20 <= cp <= 0x7E \/
   0xA0 <= cp <= 0x2027 \/ 0x202F <= cp <= 0x2065 \/ 0x206A <= cp).

(** The code's filter lets exactly these through. *)
Lemma codepoint_safe_iff cp : is_scalar cp -> codepoint_safe cp = true <-> safe_scalar cp.
Proof.
  intros Hs. unfold safe_scalar, codepoint_safe. split; [intros H; split; [done|]; revert H | intros [_ H]];
    repeat (case_test; breflect); try done; intros; lia.
Qed.

Lemma question_safe : safe_scalar QUESTION.
Proof. unfold safe_scalar, is_scalar, QUESTION. lia. Qed.

Lemma encode_question : encode_utf8 QUESTION = [QUESTION].
Proof. done. Qed.

Lemma sanitize_utf8_loop_safe fuel l n size :
  Forall is_byte l -> n < size ->
  exists cps, Forall safe_scalar cps /\ sanitize_utf8_loop fuel l n size = encode_text cps /\
    n + Zlen (sanitize_utf8_loop fuel l n size) < size.
Proof.
  revert l n. induction fuel as [|fuel IH]; intros l n Hb Hn; [by exists []; simpl; split; [|split; [|lia]]|].
  destruct l as [|x l]; [by exists []; simpl; split; [|split; [|lia]]|]. cbn [sanitize_utf8_loop].
  assert (Forall is_byte l) by by inversion Hb.
  destruct (Z.ltb_spec (n + 1) size); [|by exists []; simpl; split; [|split; [|lia]]].
  destruct (decode_utf8 (x :: l)) as [[k cp]|] eqn:E; [destruct (decode_some_take _ _ _ Hb E) as (Hs & Heq & Hk & H1);
    destruct (codepoint_safe cp) eqn:Hsafe; simpl negb; cbv iota; [destruct (Z.geb_spec (n + Z.of_nat k) size)|]|].
  - by exists []; simpl; split; [|split; [|lia]].
  - destruct (IH (drop k (x :: l)) (n + Z.of_nat k)) as (cps & Hc & Hl & Hlen); [by apply Forall_drop|lia|].
    exists (cp :: cps). split; [by constructor; [apply codepoint_safe_iff|]|]. rewrite length_app.
    rewrite Hl in *. rewrite Heq at 1 2. rewrite Hk, take_app_length. split; [done|].
    rewrite Hk in Hlen. lia.
  - destruct (IH (drop k (x :: l)) (n + 1)) as (cps & Hc & Hl & Hlen); [by apply Forall_drop|lia|].
    exists (QUESTION :: cps). split; [constructor; auto using question_safe|].
    rewrite encode_text_cons, encode_question, Hl in *. split; [done|]. simpl. lia.
  - destruct (IH l (n + 1)) as (cps & Hc & Hl & Hlen); [done|lia|].
    exists (QUESTION :: cps). split; [constructor; auto using question_safe|].
    rewrite encode_text_cons, encode_question, Hl in *. split; [done|]. simpl. lia.
Qed.

Lemma sanitize_utf8_loop_id fuel cps n size :
  Forall safe_scalar cps -> (length (encode_text cps) <= fuel)%nat -> n + Zlen (encode_text cps) < size ->
  sanitize_utf8_loop fuel (encode_text cps) n size = encode_text cps.
Proof.
  revert cps n. induction fuel as [|fuel IH]; intros cps n Hc Hf Hn.
  { destruct (encode_text cps); [done | simpl in Hf; lia]. }
  destruct cps as [|cp cps]; [done|]. inversion_clear Hc as [|? ? Hsc Hc'].
  pose proof (proj1 Hsc) as Hs. pose proof (proj2 (codepoint_safe_iff cp Hs) Hsc) as Hsafe.
  rewrite encode_text_cons in *. pose proof (encode_length cp). rewrite length_app in *.
  pose proof (decode_encode cp (encode_text cps) Hs) as Hd.
  destruct (encode_utf8 cp ++ encode_text cps) as [|b0 l0] eqn:E.
  { apply app_eq_nil in E as [E _]. rewrite E in *. simpl in *. lia. }
  cbn [sanitize_utf8_loop]. rewrite Hd, Hsafe. simpl negb; cbv iota.
  destruct (Z.ltb_spec (n + 1) size); [|lia].
  destruct (Z.geb_spec (n + Zlen (encode_utf8 cp)) size); [lia|].
  rewrite <- E, take_app_length, drop_app_length, IH by (auto; lia). done.
Qed.

(** Bytes that can start a control sequence or a Telnet command. *)
Lemma safe_text_bytes cps :
  Forall safe_scalar cps ->
  Forall (fun b => is_byte b /\ b <> 0x1b /\ b <> 0x7f /\ b <> 0 /\ b < 0xF5) (encode_text cps).
Proof.
  induction 1 as [|cp cps [Hs Hsafe] _ IH]; [constructor|]. rewrite encode_text_cons.
  apply Forall_app. split; [|done]. eapply Forall_impl; [by apply encode_bytes|].
  intros b (Hb & Hlow & Hhi). split; [done|].
  destruct (Z.lt_ge_cases b 0x80); [rewrite Hlow by done|]; lia.
Qed.

(** Text of allowed characters that fits is returned unchanged. *)
Lemma sanitize_utf8_transparent cps output_size :
  Forall safe_scalar cps -> Zlen (encode_text cps) < output_size ->
  terminal_text_sanitize_utf8 (Some (encode_text cps)) output_size = encode_text cps.
Proof.
  intros Hc Hlen. unfold terminal_text_sanitize_utf8. destruct (Z.eqb_spec output_size 0); [lia|].
  by apply sanitize_utf8_loop_id.
Qed.

(** [C36] The UTF-8 sanitizer's contract.  Whatever bytes come in, the output
    fits the buffer with its NUL, is the UTF-8 encoding of characters of the
    ranges [safe_scalar] lists (no C0 or C1 control but CR, LF and TAB, no DEL,
    no bidi embedding, override or isolate, no line or paragraph separator),
    and so contains no ESC and no Telnet IAC byte; and an input that already is
    such a text and fits is returned unchanged. *)
Theorem sanitize_utf8_safe input output_size :
  Forall is_byte input -> 0 < output_size ->
  let out := terminal_text_sanitize_utf8 (Some input) output_size in
  Zlen out < output_size /\
  (exists cps, Forall safe_scalar cps /\ out = encode_text cps) /\
  Forall (fun b => b <> 0x1b /\ b <> 0x7f /\ b <> 0xff /\ b <> 0) out /\
  (forall cps, Forall safe_scalar cps -> input = encode_text cps -> Zlen input < output_size -> out = input).
Proof.
  intros Hb Hsz out. subst out. split_and!; [| | |by intros cps Hc -> Hl; apply sanitize_utf8_transparent].
  all: unfold terminal_text_sanitize_utf8; destruct (Z.eqb_spec output_size 0); [lia|]; simpl.
  all: destruct (sanitize_utf8_loop_safe (length input) input 0 output_size Hb Hsz) as (cps & Hc & Hl & Hlen); [lia || eauto..].
  rewrite Hl. eapply Forall_impl; [by apply safe_text_bytes|]. simpl. lia.
Qed.

Lemma sanitize_utf8_safe_witness :
  let out := terminal_text_sanitize_utf8 (Some [0x1b; 0x41; 0xff; 0xc2; 0x9b; 0xc3; 0xa9]) 16 in
  out = [QUESTION; 0x41; QUESTION; QUESTION; 0xc3; 0xa9] /\ Zlen out < 16.
Proof.
  split; [reflexivity|].
  apply (sanitize_utf8_safe [0x1b; 0x41; 0xff; 0xc2; 0x9b; 0xc3; 0xa9] 16); [repeat constructor; lia | lia].
Defined.

(** What the ASCII sanitizer writes for one byte. *)
Definition ascii_safe (ch : Z) : Z :=
  if ((ch >=? 32) && (ch <=? 126)) || (ch =? 13) || (ch =? 10) || (ch =? 9) then ch else QUESTION.

Lemma sanitize_from_spec l n size :
  sanitize_from l n size = take (Z.to_nat (size - 1 - n)) (map ascii_safe l).
Proof.
  revert n. induction l as [|x l IH]; intros n; simpl; [by rewrite take_nil|].
  destruct (Z.ltb_spec (n + 1) size).
  - replace (Z.to_nat (size - 1 - n)) with (S (Z.to_nat (size - 1 - (n + 1)))) by lia.
    simpl. by rewrite IH.
  - by replace (Z.to_nat (size - 1 - n)) with 0%nat by lia.
Qed.

Lemma ascii_safe_range b : 32 <= ascii_safe b <= 126 \/ ascii_safe b = 13 \/ ascii_safe b = 10 \/ ascii_safe b = 9.
Proof. unfold ascii_safe, QUESTION. case_test; breflect; lia. Qed.

(** The ASCII sanitizer keeps printable ASCII, CR, LF and TAB, writes
    '?' for every other byte, truncates at the buffer, and so never lets an
    ESC, IAC or other control byte through. *)
Theorem sanitize_ascii_spec input output_size :
  0 < output_size ->
  let out := terminal_text_sanitize (Some input) output_size in
  out = take (Z.to_nat (output_size - 1)) (map ascii_safe input) /\
  Zlen out < output_size /\
  Forall (fun b => 32 <= b <= 126 \/ b = 13 \/ b = 10 \/ b = 9) out.
Proof.
  intros Hsz. unfold terminal_text_sanitize. destruct (Z.eqb_spec output_size 0); [lia|]. simpl.
  rewrite sanitize_from_spec. replace (output_size - 1 - 0) with (output_size - 1) by lia.
  split; [done|]. split; [rewrite length_take; lia|].
  apply Forall_take, Forall_map, Forall_forall. intros b _. apply ascii_safe_range.
Qed.

Lemma sanitize_ascii_spec_witness :
  terminal_text_sanitize (Some [0x41; 0x1b; 0xff; 0x42]) 4 = [0x41; QUESTION; QUESTION].
Proof. destruct (sanitize_ascii_spec [0x41; 0x1b; 0xff; 0x42] 4 ltac:(lia)) as [H _]. rewrite H. reflexivity. Defined.

(** Its output, with the NUL, fits the buffer it is given. *)
Lemma sanitize_ascii_local input size :
  0 < size -> local_str size (terminal_text_sanitize (Some input) size) = Some (terminal_text_sanitize (Some input) size).
Proof. intros H. by apply local_str_Some, sanitize_ascii_spec. Qed.

(** Text written by the ASCII sanitizer has no NUL, IAC or ESC. *)
Lemma sanitize_ascii_no_iac input output_size :
  Forall (fun b => b <> 255 /\ b <> 0) (terminal_text_sanitize input output_size).
Proof.
  unfold terminal_text_sanitize. case_test; [constructor|]. destruct input as [l|]; [|constructor].
  rewrite sanitize_from_spec. apply Forall_take, Forall_map, Forall_forall. intros b _. simpl.
  pose proof (ascii_safe_range b). lia.
Qed.
