(* ===== verification/AsciiText.v ===== *)
(** ASCII helpers that several sources define identically as static functions
    (player_store.c, security_policy.c, telnet_protocol.c, ssh_transport.c). *)
From S2P Require Import Prelude.

Definition ascii_lower (ch : Z) : Z :=
  if (ch >=? 65) && (ch <=? 90) then ch + 32 else ch.

(** The two-pointer loop: both strings are NUL-terminated. *)
Fixpoint equal_ignore_case (left right : list Z) : bool :=
  match left, right with
  | a :: left', b :: right' => if ascii_lower a =? ascii_lower b then equal_ignore_case left' right' else false
  | [], [] => true
  | _, _ => false
  end.

Definition ascii_equal_ignore_case (left right : list Z) : bool :=
  equal_ignore_case (c_str left) (c_str right).

(** [bytes_equal_ignore_case(bytes, length, text)]: counted bytes against a
    C string. *)
Definition bytes_equal_ignore_case (bytes text : list Z) : bool :=
  if negb (Zlen bytes =? strlen text) then false else equal_ignore_case bytes (c_str text).

Lemma equal_ignore_case_iff a b :
  equal_ignore_case a b = true <-> map ascii_lower a = map ascii_lower b.
Proof.
  revert b. induction a as [|x a IH]; intros [|y b]; simpl; [done | by split | by split |].
  destruct (Z.eqb_spec (ascii_lower x) (ascii_lower y)) as [E|E].
  - rewrite IH, E. split; congruence.
  - split; [done|]. congruence.
Qed.

Lemma bytes_equal_iff a b :
  bytes_equal_ignore_case a b = true <-> map ascii_lower a = map ascii_lower (c_str b).
Proof.
  unfold bytes_equal_ignore_case, strlen. destruct (Z.eqb_spec (Zlen a) (Zlen (c_str b))) as [E|E]; simpl.
  - apply equal_ignore_case_iff.
  - split; [done|]. intros H%(f_equal length). rewrite !length_map in H. lia.
Qed.

Lemma ascii_lower_idemp b : ascii_lower (ascii_lower b) = ascii_lower b.
Proof. unfold ascii_lower. repeat case_test; breflect; lia. Qed.

Lemma ascii_lower_nonzero b : b <> 0 -> ascii_lower b <> 0.
Proof. unfold ascii_lower. case_test; breflect; lia. Qed.

Lemma ascii_lower_byte b : is_byte b -> is_byte (ascii_lower b).
Proof. unfold ascii_lower, is_byte. case_test; breflect; lia. Qed.
