(* ===== verification/SecurityPolicy.v ===== *)
(** The shared abuse-control policy (src/security_policy.c): connection and
    creation windows, peer and account back-off tables.  Every public
    operation runs under one mutex, so an interleaving of any number of
    workers is a sequence of these operations; [policy_run] is that sequence.
    The theorems are in PolicyTheorems.v. *)
From S2P Require Import Prelude AsciiText.

(** * Constants *)

Definition MAX_PEER_RECORDS : nat := 128.
Definition MAX_ACCOUNT_RECORDS : nat := 256.
Definition PEER_KEY_BYTES : Z := 96.
Definition ACCOUNT_KEY_BYTES : Z := 32.
Definition PEER_CONNECTION_LIMIT : Z := 5.
Definition PEER_CONNECTION_WINDOW_MS : Z := 10000.
Definition GLOBAL_CONNECTION_LIMIT : Z := 30.
Definition GLOBAL_CONNECTION_WINDOW_MS : Z := 10000.
Definition ACCOUNT_AUTH_FAILURE_LIMIT : Z := 3.
Definition ACCOUNT_AUTH_LOCK_MS : Z := 300000.
Definition PEER_CREATION_LIMIT : Z := 10.
Definition PEER_CREATION_WINDOW_MS : Z := 600000.
Definition GLOBAL_CREATION_LIMIT : Z := 50.
Definition GLOBAL_CREATION_WINDOW_MS : Z := 600000.
(** [uint64_t times[64]] *)
Definition WINDOW_SLOTS : Z := 64.

(** * State *)

(** [times] is the first [count] entries of the array. *)
Record event_window := mk_window { times : list Z }.

Record peer_record := mk_peer {
  peer_key : list Z;
  peer_last_seen_ms : Z;
  connections : event_window;
  creations : event_window;
  peer_auth_failures : Z;
  peer_auth_blocked_until_ms : Z
}.

Record account_record := mk_account {
  account_key : list Z;
  account_last_seen_ms : Z;
  account_auth_failures : Z;
  account_auth_blocked_until_ms : Z
}.

Record security_policy := mk_policy {
  peers : list peer_record;
  accounts : list account_record;
  global_connections : event_window;
  global_creations : event_window
}.

Definition eta_peer r := mk_peer (peer_key r) (peer_last_seen_ms r) (connections r) (creations r)
  (peer_auth_failures r) (peer_auth_blocked_until_ms r).
#[export] Instance set_peer_last_seen : Setter peer_last_seen_ms := ltac:(setter_of eta_peer peer_last_seen_ms).
#[export] Instance set_connections : Setter connections := ltac:(setter_of eta_peer connections).
#[export] Instance set_creations : Setter creations := ltac:(setter_of eta_peer creations).
#[export] Instance set_peer_failures : Setter peer_auth_failures := ltac:(setter_of eta_peer peer_auth_failures).
#[export] Instance set_peer_blocked : Setter peer_auth_blocked_until_ms :=
  ltac:(setter_of eta_peer peer_auth_blocked_until_ms).

Definition eta_account r := mk_account (account_key r) (account_last_seen_ms r) (account_auth_failures r)
  (account_auth_blocked_until_ms r).
#[export] Instance set_account_last_seen : Setter account_last_seen_ms :=
  ltac:(setter_of eta_account account_last_seen_ms).
#[export] Instance set_account_failures : Setter account_auth_failures :=
  ltac:(setter_of eta_account account_auth_failures).
#[export] Instance set_account_blocked : Setter account_auth_blocked_until_ms :=
  ltac:(setter_of eta_account account_auth_blocked_until_ms).

Definition eta_policy p := mk_policy (peers p) (accounts p) (global_connections p) (global_creations p).
#[export] Instance set_peers : Setter peers := ltac:(setter_of eta_policy peers).
#[export] Instance set_accounts : Setter accounts := ltac:(setter_of eta_policy accounts).
#[export] Instance set_global_connections : Setter global_connections := ltac:(setter_of eta_policy global_connections).
#[export] Instance set_global_creations : Setter global_creations := ltac:(setter_of eta_policy global_creations).

(** The zeroed slots [calloc] and [memset] leave. *)
Definition peer_zero : peer_record := mk_peer [] 0 (mk_window []) (mk_window []) 0 0.
Definition account_zero : account_record := mk_account [] 0 0 0.

Definition security_policy_create : security_policy :=
  mk_policy (replicate MAX_PEER_RECORDS peer_zero) (replicate MAX_ACCOUNT_RECORDS account_zero)
    (mk_window []) (mk_window []).

(** * Keys *)

(** The key left in a [char destination[size]]; [None] is a NULL source. *)
Definition copy_key (size : Z) (source : option (list Z)) : list Z :=
  let source := match source with
                | None => txt "unknown"
                | Some s => match c_str s with [] => txt "unknown" | s' => s' end
                end in
  take (Z.to_nat (Z.min (Zlen source) (size - 1))) source.

Fixpoint normalize_loop (source : list Z) (i size : Z) : list Z :=
  match source with
  | [] => []
  | ch :: rest => if i + 1 <? size then ascii_lower ch :: normalize_loop rest (i + 1) size else []
  end.

Definition normalize_account (size : Z) (source : list Z) : list Z :=
  normalize_loop (c_str source) 0 size.

(** * Rolling windows *)

Definition prune_window (window : event_window) (now_ms window_ms : Z) : event_window :=
  mk_window (List.filter (fun then_ => (now_ms >=? then_) && (now_ms - then_ <? window_ms)) (times window)).

(** The new window, whether the event is accepted, and the retry delay;
    [None] if the store would leave the 64-entry array. *)
Definition window_allow (window : event_window) (limit window_ms now_ms : Z)
    : option (event_window * bool * Z) :=
  let window := prune_window window now_ms window_ms in
  if Zlen (times window) >=? limit then
    let oldest := default 0 (times window !! 0%nat) in
    let age := if now_ms >=? oldest then now_ms - oldest else 0 in
    Some (window, false, if age >=? window_ms then 0 else window_ms - age)
  else
    match push WINDOW_SLOTS (times window) now_ms with
    | Some ts => Some (mk_window ts, true, 0)
    | None => None
    end.

(** * Record tables *)

(** The scan shared by [peer_record_for] and [account_record_for]: [inl i] is
    the record with this key, [inr i] the slot to reuse, the first empty one
    or else the least recently seen. *)
Fixpoint find_slot {R} (key_of : R -> list Z) (seen_of : R -> Z) (key : list Z) (records : list R)
    (index : nat) (empty_index : option nat) (oldest_index : nat) (oldest_seen : Z) : nat + nat :=
  match records with
  | [] => inr (match empty_index with Some i => i | None => oldest_index end)
  | record :: rest =>
      match key_of record with
      | [] =>
          find_slot key_of seen_of key rest (S index)
            (match empty_index with None => Some index | Some i => Some i end) oldest_index oldest_seen
      | _ :: _ =>
          if bytes_eqb (key_of record) key then inl index
          else if seen_of record <? oldest_seen
          then find_slot key_of seen_of key rest (S index) empty_index index (seen_of record)
          else find_slot key_of seen_of key rest (S index) empty_index oldest_index oldest_seen
      end
  end.

Definition peer_at (i : nat) (p : security_policy) : peer_record := default peer_zero (peers p !! i).
Definition account_at (i : nat) (p : security_policy) : account_record := default account_zero (accounts p !! i).

(** Stores through a record pointer; one outside the table is a fault. *)
Definition update_peer (i : nat) (f : peer_record -> peer_record) : M security_policy unit := fun p =>
  if (i <? length (peers p))%nat then Some (tt, p <| peers := alter f i (peers p) |>) else None.
Definition update_account (i : nat) (f : account_record -> account_record) : M security_policy unit := fun p =>
  if (i <? length (accounts p))%nat then Some (tt, p <| accounts := alter f i (accounts p) |>) else None.

(** A record pointer is the index of its slot. *)
Definition peer_record_for (peer : list Z) (now_ms : Z) : M security_policy nat :=
  key ← lift_opt (local_str PEER_KEY_BYTES (copy_key PEER_KEY_BYTES (Some peer)));
  p ← gets id;
  match find_slot peer_key peer_last_seen_ms key (peers p) 0 None 0 u64_max with
  | inl i => update_peer i (fun r => r <| peer_last_seen_ms := now_ms |>) ;; mret i
  | inr i =>
      update_peer i (fun _ =>
        mk_peer (copy_key PEER_KEY_BYTES (Some key)) now_ms (mk_window []) (mk_window []) 0 0) ;;
      mret i
  end.

Definition account_record_for (player_name : list Z) (now_ms : Z) : M security_policy nat :=
  key ← lift_opt (local_str ACCOUNT_KEY_BYTES (normalize_account ACCOUNT_KEY_BYTES player_name));
  p ← gets id;
  match find_slot account_key account_last_seen_ms key (accounts p) 0 None 0 u64_max with
  | inl i => update_account i (fun r => r <| account_last_seen_ms := now_ms |>) ;; mret i
  | inr i =>
      update_account i (fun _ => mk_account (copy_key ACCOUNT_KEY_BYTES (Some key)) now_ms 0 0) ;;
      mret i
  end.

(** * Back-off *)

Definition peer_backoff_ms (failures : Z) : Z :=
  if failures <? 3 then 0
  else
    let shift := Z.min (failures - 3) 6 in
    let delay := Z.shiftl 1000 shift in
    if delay >? 60000 then 60000 else delay.

Definition account_backoff_ms (failures : Z) : Z :=
  if failures >=? ACCOUNT_AUTH_FAILURE_LIMIT then ACCOUNT_AUTH_LOCK_MS else 0.

(** * Public operations

    A result is the returned flag and the value stored through
    [retry_after_ms]. *)

Definition window_step (get : security_policy -> event_window)
    (put : event_window -> M security_policy unit) (limit window_ms now_ms : Z)
    : M security_policy (bool * Z) :=
  w ← gets get;
  '(w', allowed, retry) ← lift_opt (window_allow w limit window_ms now_ms);
  put w' ;;
  mret (allowed, retry).

Definition security_policy_allow_connection (peer : option (list Z)) (now_ms : Z)
    : M security_policy (bool * Z) :=
  match peer with
  | None => mret (false, 0)
  | Some peer =>
      record ← peer_record_for peer now_ms;
      '(peer_allowed, peer_retry) ←
        window_step (fun p => connections (peer_at record p))
          (fun w => update_peer record (fun r => r <| connections := w |>))
          PEER_CONNECTION_LIMIT PEER_CONNECTION_WINDOW_MS now_ms;
      '(global_allowed, global_retry) ←
        (if (peer_allowed : bool)
         then window_step global_connections (fun w => modify (fun p => p <| global_connections := w |>))
                GLOBAL_CONNECTION_LIMIT GLOBAL_CONNECTION_WINDOW_MS now_ms
         else mret (false, 0));
      mret (peer_allowed && global_allowed,
            if peer_retry >? global_retry then peer_retry else global_retry)
  end.

Definition security_policy_allow_account_creation (peer : option (list Z)) (now_ms : Z)
    : M security_policy (bool * Z) :=
  match peer with
  | None => mret (false, 0)
  | Some peer =>
      record ← peer_record_for peer now_ms;
      '(peer_allowed, peer_retry) ←
        window_step (fun p => creations (peer_at record p))
          (fun w => update_peer record (fun r => r <| creations := w |>))
          PEER_CREATION_LIMIT PEER_CREATION_WINDOW_MS now_ms;
      '(global_allowed, global_retry) ←
        (if (peer_allowed : bool)
         then window_step global_creations (fun w => modify (fun p => p <| global_creations := w |>))
                GLOBAL_CREATION_LIMIT GLOBAL_CREATION_WINDOW_MS now_ms
         else mret (false, 0));
      mret (peer_allowed && global_allowed,
            if peer_retry >? global_retry then peer_retry else global_retry)
  end.

Definition security_policy_allow_auth_attempt (peer player_name : option (list Z)) (now_ms : Z)
    : M security_policy (bool * Z) :=
  match peer, player_name with
  | Some peer, Some player_name =>
      pi ← peer_record_for peer now_ms;
      ai ← account_record_for player_name now_ms;
      pr ← gets (peer_at pi);
      when (negb (peer_auth_blocked_until_ms pr =? 0) && (peer_auth_blocked_until_ms pr <=? now_ms))
        (update_peer pi (fun r => r <| peer_auth_failures := 0 |> <| peer_auth_blocked_until_ms := 0 |>)) ;;
      ar ← gets (account_at ai);
      when (negb (account_auth_blocked_until_ms ar =? 0) && (account_auth_blocked_until_ms ar <=? now_ms))
        (update_account ai (fun r => r <| account_auth_failures := 0 |> <| account_auth_blocked_until_ms := 0 |>)) ;;
      pr ← gets (peer_at pi);
      ar ← gets (account_at ai);
      let peer_wait := if peer_auth_blocked_until_ms pr >? now_ms
                       then peer_auth_blocked_until_ms pr - now_ms else 0 in
      let account_wait := if account_auth_blocked_until_ms ar >? now_ms
                          then account_auth_blocked_until_ms ar - now_ms else 0 in
      mret ((peer_wait =? 0) && (account_wait =? 0),
            if peer_wait >? account_wait then peer_wait else account_wait)
  | _, _ => mret (false, 0)
  end.

Definition security_policy_note_auth_failure (peer player_name : option (list Z)) (now_ms : Z)
    : M security_policy unit :=
  match peer, player_name with
  | Some peer, Some player_name =>
      pi ← peer_record_for peer now_ms;
      ai ← account_record_for player_name now_ms;
      pr ← gets (peer_at pi);
      when (peer_auth_failures pr <? 1000000)
        (update_peer pi (fun r => r <| peer_auth_failures := peer_auth_failures r + 1 |>)) ;;
      ar ← gets (account_at ai);
      when (account_auth_failures ar <? 1000000)
        (update_account ai (fun r => r <| account_auth_failures := account_auth_failures r + 1 |>)) ;;
      pr ← gets (peer_at pi);
      ar ← gets (account_at ai);
      let peer_delay := peer_backoff_ms (peer_auth_failures pr) in
      let account_delay := account_backoff_ms (account_auth_failures ar) in
      when (peer_delay >? 0)
        (update_peer pi (fun r => r <| peer_auth_blocked_until_ms := wrap64 (now_ms + peer_delay) |>)) ;;
      when (account_delay >? 0)
        (update_account ai (fun r => r <| account_auth_blocked_until_ms := wrap64 (now_ms + account_delay) |>))
  | _, _ => mret tt
  end.

Definition security_policy_note_auth_success (peer player_name : option (list Z)) (now_ms : Z)
    : M security_policy unit :=
  match peer, player_name with
  | Some peer, Some player_name =>
      pi ← peer_record_for peer now_ms;
      ai ← account_record_for player_name now_ms;
      update_peer pi (fun r => r <| peer_auth_failures := 0 |> <| peer_auth_blocked_until_ms := 0 |>) ;;
      update_account ai (fun r => r <| account_auth_failures := 0 |> <| account_auth_blocked_until_ms := 0 |>)
  | _, _ => mret tt
  end.
