(* ===== verification/RecordTable.v ===== *)
(** Fixed-size keyed tables with least-recently-seen replacement: the laws of
    [find_slot], the scan the policy's two tables share.  Keys are looked up
    with [find_key]; a slot with an empty key is free. *)
From S2P Require Import Prelude AsciiText SecurityPolicy.

Section table.
Context {R : Type} (key_of : R -> list Z) (seen_of : R -> Z).
Implicit Types (l : list R) (r : R) (k : list Z).

Definition find_key k l : option R := List.find (fun r => bytes_eqb (key_of r) k) l.

Definition unique_keys l : Prop :=
  forall i j r r', l !! i = Some r -> l !! j = Some r' -> key_of r = key_of r' -> key_of r <> [] -> i = j.

(** No free slot is left. *)
Definition table_full l : Prop := Forall (fun r => key_of r <> []) l.

Lemma find_key_Some_1 k l r : find_key k l = Some r -> exists i, l !! i = Some r /\ key_of r = k.
Proof.
  intros H. apply find_some in H as [Hin Hk]. apply bytes_eqb_eq in Hk.
  apply list_elem_of_In, list_elem_of_lookup in Hin as [i Hi]. eauto.
Qed.

Lemma find_key_None k l : find_key k l = None <-> forall i r, l !! i = Some r -> key_of r <> k.
Proof.
  split.
  - intros H i r Hr E. apply (find_none _ _) with (x := r) in H.
    + apply (not_true_iff_false) in H. apply H. by apply bytes_eqb_eq.
    + apply list_elem_of_In, list_elem_of_lookup. eauto.
  - intros H. destruct (find_key k l) as [r|] eqn:E; [|done].
    apply find_key_Some_1 in E as (i & Hi & Hk). by destruct (H i r Hi).
Qed.

Lemma find_key_Some_2 k l i r : unique_keys l -> k <> [] -> l !! i = Some r -> key_of r = k -> find_key k l = Some r.
Proof.
  intros Hu Hk Hi Hr. destruct (find_key k l) as [r'|] eqn:E.
  - apply find_key_Some_1 in E as (j & Hj & Hr').
    assert (i = j) as -> by (eapply Hu; eauto; congruence). congruence.
  - by destruct (proj1 (find_key_None k l) E i r Hi).
Qed.

(** ** The scan *)

(** What the scan knows after the prefix [pre]. *)
Definition scan_inv k pre (e : option nat) (o : nat) (s : Z) : Prop :=
  (forall i r, pre !! i = Some r -> key_of r <> [] -> key_of r <> k) /\
  match e with
  | Some i => exists r, pre !! i = Some r /\ key_of r = []
  | None => table_full pre
  end /\
  (o = 0%nat /\ s = u64_max \/ exists r, pre !! o = Some r /\ key_of r <> [] /\ seen_of r = s) /\
  (forall i r, pre !! i = Some r -> key_of r <> [] -> s <= seen_of r).

Lemma scan_inv_snoc_empty k pre e o s r :
  scan_inv k pre e o s -> key_of r = [] ->
  scan_inv k (pre ++ [r]) (match e with None => Some (length pre) | Some i => Some i end) o s.
Proof.
  intros (H1 & H2 & H3 & H4) Hr. split; [|split; [|split]].
  - intros i r' Hi Hne. apply lookup_snoc_Some in Hi as [[_ Hi]|[_ <-]]; [eauto | done].
  - destruct e as [i|]; [destruct H2 as (r' & Hi & ?); exists r'; by rewrite lookup_app_l by eauto using lookup_lt_Some|].
    exists r. by rewrite list_lookup_middle.
  - destruct H3 as [?|(r' & Ho & ?)]; [by left|]. right. exists r'.
    by rewrite lookup_app_l by eauto using lookup_lt_Some.
  - intros i r' Hi Hne. apply lookup_snoc_Some in Hi as [[_ Hi]|[_ <-]]; [eauto | done].
Qed.

Lemma scan_inv_snoc_used k pre e o s r :
  scan_inv k pre e o s -> key_of r <> [] -> key_of r <> k ->
  scan_inv k (pre ++ [r]) e (if seen_of r <? s then length pre else o) (if seen_of r <? s then seen_of r else s).
Proof.
  intros (H1 & H2 & H3 & H4) Hr Hk. split; [|split; [|split]].
  - intros i r' Hi Hne. apply lookup_snoc_Some in Hi as [[_ Hi]|[_ <-]]; [eauto | done].
  - destruct e as [i|]; [destruct H2 as (r' & Hi & ?); exists r'; by rewrite lookup_app_l by eauto using lookup_lt_Some|].
    apply Forall_app. by repeat constructor.
  - destruct (Z.ltb_spec (seen_of r) s); [right; exists r; by rewrite list_lookup_middle|].
    destruct H3 as [?|(r' & Ho & ?)]; [by left|]. right. exists r'.
    by rewrite lookup_app_l by eauto using lookup_lt_Some.
  - intros i r' Hi Hne. apply lookup_snoc_Some in Hi as [[_ Hi]|[_ <-]].
    + specialize (H4 i r' Hi Hne). destruct (Z.ltb_spec (seen_of r) s); lia.
    + destruct (Z.ltb_spec (seen_of r) s); lia.
Qed.

Lemma find_slot_scan k pre l e o s :
  scan_inv k pre e o s ->
  match find_slot key_of seen_of k l (length pre) e o s with
  | inl i => exists r, (pre ++ l) !! i = Some r /\ key_of r = k /\ k <> []
  | inr i => exists e' o' s', scan_inv k (pre ++ l) e' o' s' /\
               i = match e' with Some j => j | None => o' end
  end.
Proof.
  revert pre e o s. induction l as [|r l IH]; intros pre e o s Hinv; simpl.
  { exists e, o, s. by rewrite app_nil_r. }
  replace (S (length pre)) with (length (pre ++ [r])) by (rewrite length_app; simpl; lia).
  rewrite (cons_middle r pre l), (assoc_L (++)).
  destruct (key_of r) as [|b kr] eqn:Ek; [by apply IH, scan_inv_snoc_empty|].
  destruct (bytes_eqb (b :: kr) k) eqn:Eb.
  - apply bytes_eqb_eq in Eb. exists r. rewrite <- (assoc_L (++)). simpl.
    rewrite list_lookup_middle by done. split; [done|]. by rewrite <- Eb.
  - assert (b :: kr <> k) by (intros E; by rewrite E, bytes_eqb_refl in Eb).
    pose proof (scan_inv_snoc_used k pre e o s r Hinv ltac:(congruence) ltac:(congruence)) as Hinv'.
    by destruct (seen_of r <? s); apply IH.
Qed.

Lemma find_slot_spec k l :
  l <> [] -> Forall (fun r => seen_of r <= u64_max) l ->
  match find_slot key_of seen_of k l 0 None 0 u64_max with
  | inl i => exists r, l !! i = Some r /\ key_of r = k /\ k <> []
  | inr i => (forall j r, l !! j = Some r -> key_of r <> [] -> key_of r <> k) /\
             exists r, l !! i = Some r /\
               (key_of r = [] \/ table_full l /\ forall j r', l !! j = Some r' -> seen_of r <= seen_of r')
  end.
Proof.
  intros Hl Hseen.
  pose proof (find_slot_scan k [] l None 0%nat u64_max) as H. simpl in H.
  destruct (find_slot _ _ _ _ _ _ _ _) as [i|i]; [apply H|destruct H as (e & o & s & Hinv & ->)].
  1, 2: by split; [|split; [constructor|split; [by left|]]].
  destruct Hinv as (H1 & H2 & H3 & H4). split; [done|]. destruct e as [j|].
  { destruct H2 as (r & ? & ?). eauto. }
  assert (forall j r', l !! j = Some r' -> key_of r' <> []) as Hne
    by (intros j r' Hj; by eapply Forall_lookup_1 in H2).
  destruct H3 as [[-> ->]|(r & Ho & Hk & <-)]; [|exists r; eauto 6].
  destruct l as [|r l]; [done|]. exists r. split; [done|]. right. split; [done|]. intros j r' Hj.
  specialize (H4 j r' Hj (Hne _ _ Hj)). inversion Hseen; lia.
Qed.

(** The slot the scan picks is a slot of the table. *)
Lemma find_slot_range k l :
  l <> [] -> Forall (fun r => seen_of r <= u64_max) l ->
  match find_slot key_of seen_of k l 0 None 0 u64_max with inl i | inr i => (i < length l)%nat end.
Proof.
  intros Hl Hs. pose proof (find_slot_spec k l Hl Hs) as H.
  destruct (find_slot _ _ _ _ _ _ _ _) as [i|i]; [destruct H as (r & Hi & _) | destruct H as (_ & r & Hi & _)];
    by eapply lookup_lt_Some.
Qed.

(** ** Look-up or replace *)

(** The table a record look-up leaves and the slot it returns. *)
Definition upsert k (touch : R -> R) (fresh : R) l : nat * list R :=
  match find_slot key_of seen_of k l 0 None 0 u64_max with
  | inl i => (i, alter touch i l)
  | inr i => (i, alter (fun _ => fresh) i l)
  end.

Lemma lookup_alter_Some (f : R -> R) l i j r :
  alter f i l !! j = Some r -> (i = j /\ exists r0, l !! j = Some r0 /\ r = f r0) \/ (i <> j /\ l !! j = Some r).
Proof.
  destruct (decide (i = j)) as [->|Hne].
  - rewrite list_lookup_alter_eq. intros (r0 & ? & ->)%fmap_Some. left. eauto.
  - rewrite list_lookup_alter_ne by done. auto.
Qed.

Lemma unique_alter_same (f : R -> R) l i :
  (forall r, l !! i = Some r -> key_of (f r) = key_of r) -> unique_keys l -> unique_keys (alter f i l).
Proof.
  intros Hf Hu a b ra rb Ha Hb Hk Hne.
  apply lookup_alter_Some in Ha as [(-> & ra0 & Ha & ->)|(? & Ha)],
    Hb as [(-> & rb0 & Hb & ->)|(? & Hb)]; rewrite ?Hf in *; eauto.
Qed.

Lemma unique_alter_fresh fresh l i :
  (forall j r, l !! j = Some r -> key_of r <> [] -> key_of r <> key_of fresh) ->
  unique_keys l -> unique_keys (alter (fun _ => fresh) i l).
Proof.
  intros Hf Hu a b ra rb Ha Hb Hk Hne.
  apply lookup_alter_Some in Ha as [(-> & ra0 & Ha & ->)|(? & Ha)],
    Hb as [(-> & rb0 & Hb & ->)|(? & Hb)]; [done| | |eauto]; exfalso.
  - rewrite Hk in Hne. by apply (Hf _ _ Hb).
  - by apply (Hf _ _ Ha).
Qed.

(** A store through the record pointer changes that key and no other. *)
Lemma find_key_alter_eq (f : R -> R) l i r k :
  unique_keys l -> k <> [] -> l !! i = Some r -> key_of r = k -> key_of (f r) = k ->
  find_key k (alter f i l) = Some (f r).
Proof.
  intros Hu Hk Hi Hr Hf. apply find_key_Some_2 with i; [|done| |done].
  - apply unique_alter_same; [|done]. intros r' Hr'. rewrite Hi in Hr'. injection Hr' as <-. congruence.
  - by rewrite list_lookup_alter_eq, Hi.
Qed.

Lemma find_key_alter_ne (f : R -> R) l i r k :
  unique_keys l -> k <> [] -> l !! i = Some r -> key_of r <> k -> key_of (f r) = key_of r ->
  find_key k (alter f i l) = find_key k l.
Proof.
  intros Hu Hk Hi Hr Hf.
  assert (unique_keys (alter f i l)) as Hu'.
  { apply unique_alter_same; [|done]. intros r' Hr'. by rewrite Hi in Hr'; injection Hr' as <-. }
  destruct (find_key k l) as [r'|] eqn:E.
  - apply find_key_Some_1 in E as (j & Hj & Hk'). apply find_key_Some_2 with j; [done|done| |done].
    rewrite list_lookup_alter_ne; [done|]. intros ->. congruence.
  - apply find_key_None. intros j r' Hj. apply lookup_alter_Some in Hj as [(-> & r0 & Hj & ->)|(_ & Hj)].
    + rewrite Hi in Hj. injection Hj as <-. congruence.
    + by eapply find_key_None.
Qed.

(** The whole law of a record look-up: the record found is the one with the
    key, or a fresh one; every other key keeps its record, except that a full
    table drops the least recently seen. *)
Lemma upsert_spec k touch fresh l :
  l <> [] -> Forall (fun r => seen_of r <= u64_max) l -> unique_keys l -> k <> [] ->
  key_of fresh = k -> (forall r, key_of (touch r) = key_of r) ->
  let '(i, l') := upsert k touch fresh l in
  exists r, l' !! i = Some r /\ key_of r = k /\ unique_keys l' /\ length l' = length l /\
    r = match find_key k l with Some r0 => touch r0 | None => fresh end /\
    (forall j r', l' !! j = Some r' -> j <> i -> l !! j = Some r') /\
    (forall k', k' <> [] -> k' <> k ->
       find_key k' l' = find_key k' l \/
       find_key k' l' = None /\ table_full l /\ find_key k l = None /\
       exists r0, find_key k' l = Some r0 /\ forall j r', l !! j = Some r' -> seen_of r0 <= seen_of r').
Proof.
  intros Hl Hseen Hu Hk Hfresh Htouch. unfold upsert.
  pose proof (find_slot_spec k l Hl Hseen) as H.
  destruct (find_slot _ _ _ _ _ _ _ _) as [i|i].
  - destruct H as (r & Hi & Hr & _). exists (touch r).
    rewrite list_lookup_alter_eq, Hi, length_alter. simpl.
    rewrite (find_key_Some_2 k l i r) by done. rewrite Htouch. do 5 (split; [auto using unique_alter_same|]). split.
    + intros j r' Hj Hne. by rewrite list_lookup_alter_ne in Hj.
    + intros k' Hk' Hne. left. apply find_key_alter_ne with r; auto; congruence.
  - destruct H as (Hno & r & Hi & Hcase). exists fresh.
    rewrite list_lookup_alter_eq, Hi, length_alter. simpl.
    assert (find_key k l = None) as HN.
    { apply find_key_None. intros j r' Hj E. apply (Hno j r' Hj); congruence. }
    rewrite HN, Hfresh.
    assert (unique_keys (alter (fun _ => fresh) i l)) as Hu'
      by (apply unique_alter_fresh; [by rewrite Hfresh|done]).
    do 5 (split; [done|]). split.
    { intros j r' Hj Hne. by rewrite list_lookup_alter_ne in Hj. }
    intros k' Hk' Hne. destruct (decide (key_of r = k')) as [E|E].
    + right. split; [|split; [|split; [done|]]].
      * apply find_key_None. intros j r' Hj. apply lookup_alter_Some in Hj as [(-> & r0 & _ & ->)|(Hij & Hj)]; [congruence|].
        intros E'. apply Hij. eapply Hu; eauto; congruence.
      * destruct Hcase as [Hemp|[Hf _]]; [congruence | done].
      * exists r. split; [by apply find_key_Some_2 with i|]. destruct Hcase as [Hemp|[_ Hmin]]; [congruence | done].
    + left. destruct (find_key k' l) as [r'|] eqn:Ef.
      * apply find_key_Some_1 in Ef as (j & Hj & Hk''). apply find_key_Some_2 with j; [done|done| |done].
        rewrite list_lookup_alter_ne; [done|]. intros ->. congruence.
      * apply find_key_None. intros j r' Hj. apply lookup_alter_Some in Hj as [(-> & r0 & _ & ->)|(_ & Hj)]; [congruence|].
        by eapply find_key_None.
Qed.

End table.
