(* ===== verification/PolicyInvariant.v ===== *)
(** The security policy's invariant and the specification of each public
    operation, in terms of the abstract per-key back-off automaton and the
    global windows. *)
From S2P Require Import Prelude AsciiText SecurityPolicy RecordTable.

(** * Keys *)

(** The keys the tables are indexed by: of a peer its text, or [unknown] for an
    empty one, up to 95 bytes; of an account its name in lower case, up to 31
    bytes. *)
Definition pkey (peer : list Z) : list Z :=
  take 95 (match c_str peer with [] => txt "unknown" | s => s end).
Definition akey (name : list Z) : list Z := take 31 (map ascii_lower (c_str name)).

Lemma pkey_eq peer : copy_key PEER_KEY_BYTES (Some peer) = pkey peer.
Proof.
  unfold copy_key, pkey, PEER_KEY_BYTES. set (u := match c_str peer with [] => _ | _ => _ end). clearbody u.
  destruct (Z.le_gt_cases (Zlen u) 95).
  - rewrite !take_ge by lia. done.
  - by replace (Z.to_nat (Z.min (Zlen u) (96 - 1))) with 95%nat by lia.
Qed.

Lemma copy_key_spec size s :
  1 < size ->
  copy_key size (Some s) <> [] /\ Zlen (copy_key size (Some s)) < size /\
  Forall (fun b => b <> 0) (copy_key size (Some s)).
Proof.
  intros Hs. unfold copy_key. set (u := match c_str s with [] => _ | _ => _ end).
  assert (u <> [] /\ Forall (fun b => b <> 0) u) as [Hne Hnz].
  { subst u. pose proof (c_str_nonzero s). destruct (c_str s); [|done]. by split; [|repeat constructor]. }
  split; [|split; [rewrite length_take; lia | by apply Forall_take]].
  destruct u as [|b u]; [done|]. intros E%(f_equal length). rewrite length_take in E. simpl in E. lia.
Qed.

Lemma copy_key_id size s :
  s <> [] -> Forall (fun b => b <> 0) s -> Zlen s < size -> copy_key size (Some s) = s.
Proof.
  intros Hne Hnz Hl. unfold copy_key. rewrite c_str_id by done.
  destruct s as [|b s]; [done|]. apply take_ge. lia.
Qed.

Lemma normalize_loop_spec s i size :
  normalize_loop s i size = take (Z.to_nat (size - 1 - i)) (map ascii_lower s).
Proof.
  revert i. induction s as [|b s IH]; intros i; simpl; [by rewrite take_nil|].
  destruct (Z.ltb_spec (i + 1) size).
  - replace (Z.to_nat (size - 1 - i)) with (S (Z.to_nat (size - 1 - (i + 1)))) by lia. simpl. by rewrite IH.
  - by replace (Z.to_nat (size - 1 - i)) with 0%nat by lia.
Qed.

Lemma akey_eq name : normalize_account ACCOUNT_KEY_BYTES name = akey name.
Proof. unfold akey, normalize_account. by rewrite normalize_loop_spec. Qed.

Lemma akey_length name : Zlen (akey name) < ACCOUNT_KEY_BYTES.
Proof. unfold akey. rewrite length_take. unfold ACCOUNT_KEY_BYTES. lia. Qed.

Lemma akey_spec name :
  c_str name <> [] ->
  akey name <> [] /\ Zlen (akey name) < ACCOUNT_KEY_BYTES /\ Forall (fun b => b <> 0) (akey name).
Proof.
  intros Hne. split; [|split; [apply akey_length|]]; unfold akey.
  - by destruct (c_str name).
  - apply Forall_take, Forall_map. eapply Forall_impl; [apply c_str_nonzero|]. apply ascii_lower_nonzero.
Qed.

(** Account keys ignore ASCII case. *)
Lemma akey_ignore_case a b :
  ascii_equal_ignore_case a b = true -> akey a = akey b.
Proof. intros E%equal_ignore_case_iff. unfold akey. by rewrite E. Qed.

(** * The invariant *)

Record peer_ok (r : peer_record) : Prop := mk_peer_ok {
  peer_seen_ok : u64 (peer_last_seen_ms r);
  peer_conn_ok : Zlen (times (connections r)) <= PEER_CONNECTION_LIMIT;
  peer_crea_ok : Zlen (times (creations r)) <= PEER_CREATION_LIMIT;
  peer_fail_ok : 0 <= peer_auth_failures r <= 1000000;
  peer_blocked_ok : u64 (peer_auth_blocked_until_ms r)
}.

Record account_ok (r : account_record) : Prop := mk_account_ok {
  account_seen_ok : u64 (account_last_seen_ms r);
  account_fail_ok : 0 <= account_auth_failures r <= 1000000;
  account_blocked_ok : u64 (account_auth_blocked_until_ms r)
}.

Record policy_ok (p : security_policy) : Prop := mk_policy_ok {
  ok_peers_length : length (peers p) = MAX_PEER_RECORDS;
  ok_accounts_length : length (accounts p) = MAX_ACCOUNT_RECORDS;
  ok_peers : Forall peer_ok (peers p);
  ok_accounts : Forall account_ok (accounts p);
  ok_peers_unique : unique_keys peer_key (peers p);
  ok_accounts_unique : unique_keys account_key (accounts p);
  ok_global_connections : Zlen (times (global_connections p)) <= GLOBAL_CONNECTION_LIMIT;
  ok_global_creations : Zlen (times (global_creations p)) <= GLOBAL_CREATION_LIMIT
}.

Lemma unique_replicate {R} (key_of : R -> list Z) n r : key_of r = [] -> unique_keys key_of (replicate n r).
Proof. intros Hr i j r1 r2 H1 H2 _ Hne. apply lookup_replicate in H1 as [-> _]. congruence. Qed.

Lemma policy_create_ok : policy_ok security_policy_create.
Proof.
  unfold security_policy_create. constructor; cbn [peers accounts global_connections global_creations].
  - apply length_replicate.
  - apply length_replicate.
  - apply Forall_replicate. constructor; unfold u64, PEER_CONNECTION_LIMIT, PEER_CREATION_LIMIT; simpl; lia.
  - apply Forall_replicate. constructor; unfold u64, PEER_CONNECTION_LIMIT, PEER_CREATION_LIMIT; simpl; lia.
  - by apply unique_replicate.
  - by apply unique_replicate.
  - done.
  - done.
Qed.

(** * Windows *)

Lemma window_allow_spec w limit window_ms now :
  Zlen (times w) <= limit <= WINDOW_SLOTS -> 0 <= limit ->
  exists w' ok retry, window_allow w limit window_ms now = Some (w', ok, retry) /\
    Zlen (times w') <= limit /\
    times w' = times (prune_window w now window_ms) ++ (if ok then [now] else []).
Proof.
  intros [Hw Hl] H0. unfold window_allow.
  set (f := fun then_ => (now >=? then_) && (now - then_ <? window_ms)).
  assert (length (List.filter f (times w)) <= length (times w))%nat by apply filter_length_le.
  change (times (prune_window w now window_ms)) with (List.filter f (times w)).
  destruct (Z.geb_spec (Zlen (List.filter f (times w))) limit).
  - do 3 eexists. split; [done|]. simpl. fold f. rewrite app_nil_r. split; [lia|done].
  - rewrite push_Some by lia. do 3 eexists. split; [done|]. simpl. rewrite Zlen_snoc. split; [lia|done].
Qed.

(** * Record look-ups *)

Lemma Forall_alter_lookup {A} (P : A -> Prop) (f : A -> A) i l :
  Forall P l -> (forall x, l !! i = Some x -> P x -> P (f x)) -> Forall P (alter f i l).
Proof.
  intros Hl Hf. apply Forall_lookup. intros j x Hj.
  destruct (decide (i = j)) as [->|Hne].
  - rewrite list_lookup_alter_eq in Hj. apply fmap_Some in Hj as (y & Hy & ->).
    apply Hf; [done|]. by eapply Forall_lookup_1.
  - rewrite list_lookup_alter_ne in Hj by done. by eapply Forall_lookup_1.
Qed.

(** The state in which a peer pointer [i] is live: its slot holds the key. *)
Definition live_peer (k : list Z) (i : nat) (p : security_policy) : Prop :=
  exists r, peers p !! i = Some r /\ peer_key r = k.
Definition live_account (k : list Z) (i : nat) (p : security_policy) : Prop :=
  exists r, accounts p !! i = Some r /\ account_key r = k.

Lemma update_peer_ok i f p :
  policy_ok p -> (forall r, peers p !! i = Some r -> peer_ok r -> peer_ok (f r) /\ peer_key (f r) = peer_key r) ->
  policy_ok (p <| peers := alter f i (peers p) |>).
Proof.
  intros [] Hf. constructor; simpl; auto; [by rewrite length_alter| |].
  - apply Forall_alter_lookup; [done|]. intros r Hi Hr. by apply Hf.
  - apply unique_alter_same; [|done]. intros r Hr. apply Hf; [done|]. by eapply Forall_lookup_1.
Qed.

Lemma update_account_ok i f p :
  policy_ok p -> (forall r, accounts p !! i = Some r -> account_ok r -> account_ok (f r) /\ account_key (f r) = account_key r) ->
  policy_ok (p <| accounts := alter f i (accounts p) |>).
Proof.
  intros [] Hf. constructor; simpl; auto; [by rewrite length_alter| |].
  - apply Forall_alter_lookup; [done|]. intros r Hi Hr. by apply Hf.
  - apply unique_alter_same; [|done]. intros r Hr. apply Hf; [done|]. by eapply Forall_lookup_1.
Qed.

(** ** Abstract view: failures and block deadline of a key; an absent record
    reads as a fresh one. *)
Definition account_view (p : security_policy) (k : list Z) : Z * Z :=
  match find_key account_key k (accounts p) with
  | Some r => (account_auth_failures r, account_auth_blocked_until_ms r)
  | None => (0, 0)
  end.

Definition peer_view (p : security_policy) (k : list Z) : Z * Z :=
  match find_key peer_key k (peers p) with
  | Some r => (peer_auth_failures r, peer_auth_blocked_until_ms r)
  | None => (0, 0)
  end.

Definition fresh_peer (k : list Z) (now : Z) : peer_record := mk_peer k now (mk_window []) (mk_window []) 0 0.

Lemma seen_bound {R} (P : R -> Prop) (seen : R -> Z) l :
  (forall r, P r -> u64 (seen r)) -> Forall P l -> Forall (fun r => seen r <= u64_max) l.
Proof. intros H Hl. eapply Forall_impl; [done|]. intros r Hr%H. unfold u64, u64_max in *. lia. Qed.

(** A store through a record pointer inside the table goes through. *)
Lemma update_peer_run i f p :
  (i < length (peers p))%nat -> update_peer i f p = Some (tt, p <| peers := alter f i (peers p) |>).
Proof. intros H. unfold update_peer. by destruct (Nat.ltb_spec i (length (peers p))); [|lia]. Qed.
Lemma update_account_run i f p :
  (i < length (accounts p))%nat -> update_account i f p = Some (tt, p <| accounts := alter f i (accounts p) |>).
Proof. intros H. unfold update_account. by destruct (Nat.ltb_spec i (length (accounts p))); [|lia]. Qed.

Lemma peer_slot_range k p :
  policy_ok p ->
  match find_slot peer_key peer_last_seen_ms k (peers p) 0 None 0 u64_max with
  | inl i | inr i => (i < length (peers p))%nat end.
Proof.
  intros [Hl _ Hp _ _ _ _ _]. apply find_slot_range; [by intros Hnil; rewrite Hnil in Hl|].
  eapply seen_bound; [apply peer_seen_ok | done].
Qed.
Lemma account_slot_range k p :
  policy_ok p ->
  match find_slot account_key account_last_seen_ms k (accounts p) 0 None 0 u64_max with
  | inl i | inr i => (i < length (accounts p))%nat end.
Proof.
  intros [_ Hl _ Hp _ _ _ _]. apply find_slot_range; [by intros Hnil; rewrite Hnil in Hl|].
  eapply seen_bound; [apply account_seen_ok | done].
Qed.

Lemma peer_record_for_upsert peer now p :
  policy_ok p ->
  peer_record_for peer now p =
  let '(i, l) := upsert peer_key peer_last_seen_ms (pkey peer) (fun r => r <| peer_last_seen_ms := now |>)
                   (fresh_peer (pkey peer) now) (peers p) in
  Some (i, p <| peers := l |>).
Proof.
  intros Hok. unfold peer_record_for, upsert.
  destruct (copy_key_spec PEER_KEY_BYTES peer) as (H1 & H2 & H3); [done|]. rewrite pkey_eq in *.
  rewrite local_str_Some by done. unfold fresh_peer, mbind, M_bind, lift_opt, gets, id; simpl.
  rewrite (copy_key_id _ (pkey peer)) by done. pose proof (peer_slot_range (pkey peer) p Hok) as Hr.
  by destruct (find_slot _ _ _ _ _ _ _ _); rewrite update_peer_run.
Qed.

Lemma account_record_for_upsert name now p :
  policy_ok p -> c_str name <> [] ->
  account_record_for name now p =
  let '(i, l) := upsert account_key account_last_seen_ms (akey name)
                   (fun r => r <| account_last_seen_ms := now |>)
                   (mk_account (akey name) now 0 0) (accounts p) in
  Some (i, p <| accounts := l |>).
Proof.
  intros Hok Hne. unfold account_record_for, upsert. rewrite akey_eq.
  destruct (akey_spec name Hne) as (H1 & H2 & H3).
  rewrite local_str_Some by done. unfold mbind, M_bind, lift_opt, gets, id; simpl.
  rewrite (copy_key_id _ (akey name)) by done. pose proof (account_slot_range (akey name) p Hok) as Hr.
  by destruct (find_slot _ _ _ _ _ _ _ _); rewrite update_account_run.
Qed.

(** ** Frames

    [others view full k p p']: every other key keeps its view, unless the table
    was full and the key's record was dropped. *)
Definition others (view : security_policy -> list Z -> Z * Z) (full : Prop) (k : list Z)
    (p p' : security_policy) : Prop :=
  forall k', k' <> [] -> k' <> k -> view p' k' = view p k' \/ full /\ view p' k' = (0, 0).

Definition globals_same (p p' : security_policy) : Prop :=
  global_connections p' = global_connections p /\ global_creations p' = global_creations p.

Lemma pkey_nonempty peer : pkey peer <> [].
Proof. rewrite <- pkey_eq. by apply copy_key_spec. Qed.

Lemma live_peer_at k i p :
  policy_ok p -> live_peer k i p -> k <> [] ->
  peers p !! i = Some (peer_at i p) /\ peer_key (peer_at i p) = k /\
  peer_view p k = (peer_auth_failures (peer_at i p), peer_auth_blocked_until_ms (peer_at i p)).
Proof.
  intros Hok (r & Hi & Hk) Hne. unfold peer_at. rewrite Hi. simpl. split; [done|]. split; [done|].
  unfold peer_view. by rewrite (find_key_Some_2 _ k _ i r) by (try done; by apply ok_peers_unique).
Qed.

Lemma live_account_at k i p :
  policy_ok p -> live_account k i p -> k <> [] ->
  accounts p !! i = Some (account_at i p) /\ account_key (account_at i p) = k /\
  account_view p k = (account_auth_failures (account_at i p), account_auth_blocked_until_ms (account_at i p)).
Proof.
  intros Hok (r & Hi & Hk) Hne. unfold account_at. rewrite Hi. simpl. split; [done|]. split; [done|].
  unfold account_view. by rewrite (find_key_Some_2 _ k _ i r) by (try done; by apply ok_accounts_unique).
Qed.

Lemma peer_record_for_spec peer now p :
  policy_ok p -> u64 now ->
  wp (peer_record_for peer now) (fun i p' =>
    policy_ok p' /\ live_peer (pkey peer) i p' /\ accounts p' = accounts p /\ globals_same p p' /\
    peer_view p' (pkey peer) = peer_view p (pkey peer) /\
    others peer_view (table_full peer_key (peers p)) (pkey peer) p p') p.
Proof.
  intros Hok Hnow. unfold wp. rewrite peer_record_for_upsert by done.
  pose proof Hok as [Hl _ Hp _ Hu _ _ _].
  pose proof (upsert_spec peer_key peer_last_seen_ms (pkey peer) (fun r => r <| peer_last_seen_ms := now |>)
    (fresh_peer (pkey peer) now) (peers p)) as H.
  destruct (upsert _ _ _ _ _ _) as [i l] eqn:E. 
  destruct H as (r & Hi & Hk & Hu' & Hl' & Hr & Hrest & Hoth); auto using pkey_nonempty.
  { intros Hnil. by rewrite Hnil in Hl. }
  { eapply seen_bound; [apply peer_seen_ok | done]. }
  assert (peer_ok r) as Hrok.
  { subst r. destruct (find_key _ _ _) as [r0|] eqn:Ef.
    - apply find_key_Some_1 in Ef as (j & Hj & _). destruct (Forall_lookup_1 _ _ _ _ Hp Hj). by constructor.
    - constructor; unfold u64, PEER_CONNECTION_LIMIT, PEER_CREATION_LIMIT in *; simpl; lia. }
  assert (policy_ok (p <| peers := l |>)) as Hok'.
  { destruct Hok. constructor; simpl; auto; [congruence|]. apply Forall_lookup. intros j x Hj.
    destruct (decide (j = i)) as [->|Hne]; [congruence|]. eapply Forall_lookup_1; eauto. }
  split; [done|]. split; [by exists r|]. split; [done|]. split; [done|]. split.
  - unfold peer_view at 1; simpl. rewrite (find_key_Some_2 _ _ _ i r) by auto using pkey_nonempty.
    subst r. unfold peer_view. by destruct (find_key _ _ _).
  - intros k' Hk' Hne. unfold peer_view; simpl.
    destruct (Hoth k' Hk' Hne) as [-> | (-> & Hf & _)]; [by left | by right].
Qed.

Lemma account_record_for_spec name now p :
  policy_ok p -> u64 now -> c_str name <> [] ->
  wp (account_record_for name now) (fun i p' =>
    policy_ok p' /\ live_account (akey name) i p' /\ peers p' = peers p /\ globals_same p p' /\
    account_view p' (akey name) = account_view p (akey name) /\
    others account_view (table_full account_key (accounts p)) (akey name) p p') p.
Proof.
  intros Hok Hnow Hname. unfold wp. rewrite account_record_for_upsert by done.
  destruct (akey_spec name Hname) as (Hkne & _ & _). pose proof Hok as [_ Hl _ Hp _ Hu _ _].
  pose proof (upsert_spec account_key account_last_seen_ms (akey name)
    (fun r => r <| account_last_seen_ms := now |>) (mk_account (akey name) now 0 0) (accounts p)) as H.
  destruct (upsert _ _ _ _ _ _) as [i l] eqn:E.
  destruct H as (r & Hi & Hk & Hu' & Hl' & Hr & Hrest & Hoth); auto.
  { intros Hnil. by rewrite Hnil in Hl. }
  { eapply seen_bound; [apply account_seen_ok | done]. }
  assert (account_ok r) as Hrok.
  { subst r. destruct (find_key _ _ _) as [r0|] eqn:Ef.
    - apply find_key_Some_1 in Ef as (j & Hj & _). destruct (Forall_lookup_1 _ _ _ _ Hp Hj). by constructor.
    - constructor; unfold u64 in *; simpl; lia. }
  assert (policy_ok (p <| accounts := l |>)) as Hok'.
  { destruct Hok. constructor; simpl; auto; [congruence|]. apply Forall_lookup. intros j x Hj.
    destruct (decide (j = i)) as [->|Hne]; [congruence|]. eapply Forall_lookup_1; eauto. }
  split; [done|]. split; [by exists r|]. split; [done|]. split; [done|]. split.
  - unfold account_view at 1; simpl. rewrite (find_key_Some_2 _ _ _ i r) by auto.
    subst r. unfold account_view. by destruct (find_key _ _ _).
  - intros k' Hk' Hne. unfold account_view; simpl.
    destruct (Hoth k' Hk' Hne) as [-> | (-> & Hf & _)]; [by left | by right].
Qed.

(** Stores through live pointers. *)
Lemma update_peer_spec k i f p :
  policy_ok p -> live_peer k i p -> k <> [] ->
  (peer_ok (peer_at i p) -> peer_ok (f (peer_at i p)) /\ peer_key (f (peer_at i p)) = peer_key (peer_at i p)) ->
  wp (update_peer i f) (fun _ p' =>
    policy_ok p' /\ live_peer k i p' /\ accounts p' = accounts p /\ globals_same p p' /\
    peer_at i p' = f (peer_at i p) /\
    forall k', k' <> [] -> k' <> k -> peer_view p' k' = peer_view p k') p.
Proof.
  intros Hok Hlive Hne Hf. destruct (live_peer_at k i p Hok Hlive Hne) as (Hi & Hk & _).
  unfold wp. rewrite update_peer_run by (by eapply lookup_lt_Some).
  assert (peer_ok (peer_at i p)) as Hr by (eapply Forall_lookup_1; [by apply ok_peers | done]).
  destruct (Hf Hr) as [_ Hfk].
  split; [by apply update_peer_ok; [|intros r Hr'; rewrite Hi in Hr'; injection Hr' as <-]|]. split.
  { exists (f (peer_at i p)). simpl. rewrite list_lookup_alter_eq, Hi. simpl. split; [done|]. congruence. }
  split; [done|]. split; [done|]. split.
  { unfold peer_at at 1. simpl. by rewrite list_lookup_alter_eq, Hi. }
  intros k' Hk' Hne'. unfold peer_view; simpl.
  rewrite (find_key_alter_ne _ _ _ _ (peer_at i p)); [done | by apply ok_peers_unique | done | done | congruence | done].
Qed.

Lemma update_account_spec k i f p :
  policy_ok p -> live_account k i p -> k <> [] ->
  (account_ok (account_at i p) -> account_ok (f (account_at i p)) /\ account_key (f (account_at i p)) = account_key (account_at i p)) ->
  wp (update_account i f) (fun _ p' =>
    policy_ok p' /\ live_account k i p' /\ peers p' = peers p /\ globals_same p p' /\
    account_at i p' = f (account_at i p) /\
    forall k', k' <> [] -> k' <> k -> account_view p' k' = account_view p k') p.
Proof.
  intros Hok Hlive Hne Hf. destruct (live_account_at k i p Hok Hlive Hne) as (Hi & Hk & _).
  unfold wp. rewrite update_account_run by (by eapply lookup_lt_Some).
  assert (account_ok (account_at i p)) as Hr by (eapply Forall_lookup_1; [by apply ok_accounts | done]).
  destruct (Hf Hr) as [_ Hfk].
  split; [by apply update_account_ok; [|intros r Hr'; rewrite Hi in Hr'; injection Hr' as <-]|]. split.
  { exists (f (account_at i p)). simpl. rewrite list_lookup_alter_eq, Hi. simpl. split; [done|]. congruence. }
  split; [done|]. split; [done|]. split.
  { unfold account_at at 1. simpl. by rewrite list_lookup_alter_eq, Hi. }
  intros k' Hk' Hne'. unfold account_view; simpl.
  rewrite (find_key_alter_ne _ _ _ _ (account_at i p)); [done | by apply ok_accounts_unique | done | done | congruence | done].
Qed.

(** Views depend only on their table. *)
Lemma peer_view_ext p p' k : peers p' = peers p -> peer_view p' k = peer_view p k.
Proof. unfold peer_view. by intros ->. Qed.
Lemma account_view_ext p p' k : accounts p' = accounts p -> account_view p' k = account_view p k.
Proof. unfold account_view. by intros ->. Qed.
Lemma live_peer_ext k i p p' : peers p' = peers p -> live_peer k i p -> live_peer k i p'.
Proof. unfold live_peer. by intros ->. Qed.
Lemma live_account_ext k i p p' : accounts p' = accounts p -> live_account k i p -> live_account k i p'.
Proof. unfold live_account. by intros ->. Qed.
Lemma peer_at_ext i p p' : peers p' = peers p -> peer_at i p' = peer_at i p.
Proof. unfold peer_at. by intros ->. Qed.
Lemma account_at_ext i p p' : accounts p' = accounts p -> account_at i p' = account_at i p.
Proof. unfold account_at. by intros ->. Qed.
