(* ===== verification/PolicyTheorems.v ===== *)
(** What the security policy promises: every operation keeps the invariant
    and acts on one peer and one account as the back-off automaton says; an
    account is locked after three failures; the two global windows bound
    admissions over every interleaving of workers. *)
From S2P Require Import Prelude AsciiText SecurityPolicy RecordTable PolicyInvariant.

(** * The back-off automaton

    Its state is the number of failures and the deadline of the block (zero:
    none).  Peers and accounts run the same automaton with different delays. *)

Definition backoff_expire (now : Z) (v : Z * Z) : Z * Z :=
  if negb (v.2 =? 0) && (v.2 <=? now) then (0, 0) else v.

Definition backoff_wait (now : Z) (v : Z * Z) : Z := Z.max 0 (v.2 - now).

Definition backoff_fail (delay : Z -> Z) (now : Z) (v : Z * Z) : Z * Z :=
  let failures := Z.min (v.1 + 1) 1000000 in
  (failures, if delay failures >? 0 then wrap64 (now + delay failures) else v.2).

(** The delays the policy promises after [n] consecutive failures: a peer waits
    a second after the third, doubling up to a minute; an account is locked for
    five minutes from the third on. *)
Definition peer_delay (n : Z) : Z := if n <? 3 then 0 else Z.min 60000 (1000 * 2 ^ (n - 3)).
Definition account_delay (n : Z) : Z := if n <? 3 then 0 else 300000.

Lemma peer_delay_eq n : peer_backoff_ms n = peer_delay n.
Proof.
  unfold peer_backoff_ms, peer_delay. destruct (Z.ltb_spec n 3); [done|].
  rewrite Z.shiftl_mul_pow2 by lia. destruct (Z.le_gt_cases (n - 3) 6) as [Hle|Hgt].
  - rewrite (Z.min_l (n - 3) 6) by done. destruct (Z.gtb_spec (1000 * 2 ^ (n - 3)) 60000); lia.
  - assert (2 ^ 6 <= 2 ^ (n - 3)) by (apply Z.pow_le_mono_r; lia).
    rewrite (Z.min_r (n - 3) 6) by lia. simpl. lia.
Qed.

Lemma account_delay_eq n : account_backoff_ms n = account_delay n.
Proof.
  unfold account_backoff_ms, account_delay, ACCOUNT_AUTH_FAILURE_LIMIT, ACCOUNT_AUTH_LOCK_MS.
  destruct (Z.geb_spec n 3), (Z.ltb_spec n 3); lia.
Qed.

Lemma backoff_fail_ext delay delay' now v :
  (forall n, delay n = delay' n) -> backoff_fail delay now v = backoff_fail delay' now v.
Proof. intros E. unfold backoff_fail. by rewrite E. Qed.

(** * One peer, one account *)

(** [p1] is [p] with the records of the two keys at hand. *)
Record located (pk ak : list Z) (i j : nat) (p p1 : security_policy) : Prop := mk_located {
  loc_ok : policy_ok p1;
  loc_peer : live_peer pk i p1;
  loc_account : live_account ak j p1;
  loc_globals : globals_same p p1;
  loc_peers : others peer_view (table_full peer_key (peers p)) pk p p1;
  loc_accounts : others account_view (table_full account_key (accounts p)) ak p p1
}.

Lemma wp_locate {A} peer name now (k : nat -> nat -> M security_policy A) Q p :
  policy_ok p -> u64 now -> c_str name <> [] ->
  (forall i j p1, located (pkey peer) (akey name) i j p p1 ->
     peer_view p1 (pkey peer) = peer_view p (pkey peer) ->
     account_view p1 (akey name) = account_view p (akey name) -> wp (k i j) Q p1) ->
  wp (i ← peer_record_for peer now; j ← account_record_for name now; k i j) Q p.
Proof.
  intros Hok Hnow Hname Hk. apply wp_bind.
  eapply wp_mono; [by apply peer_record_for_spec|]. intros i p1 (H1 & H2 & H3 & [H4 H4'] & H5 & H6).
  apply wp_bind. eapply wp_mono; [by apply account_record_for_spec|].
  intros j p2 (G1 & G2 & G3 & [G4 G4'] & G5 & G6). apply Hk.
  - constructor; auto; [by eapply live_peer_ext | by split; congruence | |].
    + intros k' Hk1 Hk2. rewrite (peer_view_ext p1 p2) by done. auto.
    + intros k' Hk1 Hk2. rewrite <- (account_view_ext p p1), <- H3 by done. auto.
  - by rewrite (peer_view_ext p1 p2).
  - by rewrite G5, (account_view_ext p p1).
Qed.

Lemma located_update_peer pk ak i j f p p1 Q :
  pk <> [] -> located pk ak i j p p1 ->
  (peer_ok (peer_at i p1) -> peer_ok (f (peer_at i p1)) /\ peer_key (f (peer_at i p1)) = peer_key (peer_at i p1)) ->
  (forall p2, located pk ak i j p p2 -> peer_at i p2 = f (peer_at i p1) ->
     account_at j p2 = account_at j p1 -> Q tt p2) ->
  wp (update_peer i f) Q p1.
Proof.
  intros Hne [] Hf HQ. eapply wp_mono; [by eapply update_peer_spec|].
  intros [] p2 (H1 & H2 & H3 & [H4 H4'] & H5 & H6). apply HQ; [|done|by apply account_at_ext].
  destruct loc_globals0. constructor; auto; [by eapply live_account_ext | by split; congruence | |].
  - intros k' Hk1 Hk2. rewrite H6 by done. auto.
  - intros k' Hk1 Hk2. rewrite (account_view_ext p1 p2) by done. auto.
Qed.

Lemma located_update_account pk ak i j f p p1 Q :
  ak <> [] -> located pk ak i j p p1 ->
  (account_ok (account_at j p1) -> account_ok (f (account_at j p1)) /\ account_key (f (account_at j p1)) = account_key (account_at j p1)) ->
  (forall p2, located pk ak i j p p2 -> account_at j p2 = f (account_at j p1) ->
     peer_at i p2 = peer_at i p1 -> Q tt p2) ->
  wp (update_account j f) Q p1.
Proof.
  intros Hne [] Hf HQ. eapply wp_mono; [by eapply update_account_spec|].
  intros [] p2 (H1 & H2 & H3 & [H4 H4'] & H5 & H6). apply HQ; [|done|by apply peer_at_ext].
  destruct loc_globals0. constructor; auto; [by eapply live_peer_ext | by split; congruence | |].
  - intros k' Hk1 Hk2. rewrite (peer_view_ext p1 p2) by done. auto.
  - intros k' Hk1 Hk2. rewrite H6 by done. auto.
Qed.

Lemma located_views pk ak i j p p1 :
  pk <> [] -> ak <> [] -> located pk ak i j p p1 ->
  peer_view p1 pk = (peer_auth_failures (peer_at i p1), peer_auth_blocked_until_ms (peer_at i p1)) /\
  account_view p1 ak = (account_auth_failures (account_at j p1), account_auth_blocked_until_ms (account_at j p1)) /\
  peer_ok (peer_at i p1) /\ account_ok (account_at j p1).
Proof.
  intros Hp Ha [Hok Hlp Hla _ _ _]. destruct (live_peer_at pk i p1 Hok Hlp Hp) as (Hi & _ & E1).
  destruct (live_account_at ak j p1 Hok Hla Ha) as (Hj & _ & E2). split_and!; [done|done| |].
  - eapply Forall_lookup_1; [by apply ok_peers | done].
  - eapply Forall_lookup_1; [by apply ok_accounts | done].
Qed.

(** The effect of an operation on a peer and an account, as an abstract
    transition: [fp] and [fa] on the two views, nothing else. *)
Definition acts (peer name : list Z) (fp fa : Z * Z -> Z * Z) (p p' : security_policy) : Prop :=
  policy_ok p' /\
  peer_view p' (pkey peer) = fp (peer_view p (pkey peer)) /\
  account_view p' (akey name) = fa (account_view p (akey name)) /\
  globals_same p p' /\
  others peer_view (table_full peer_key (peers p)) (pkey peer) p p' /\
  others account_view (table_full account_key (accounts p)) (akey name) p p'.

Lemma located_acts peer name i j fp fa p p1 :
  c_str name <> [] -> located (pkey peer) (akey name) i j p p1 ->
  (peer_auth_failures (peer_at i p1), peer_auth_blocked_until_ms (peer_at i p1)) = fp (peer_view p (pkey peer)) ->
  (account_auth_failures (account_at j p1), account_auth_blocked_until_ms (account_at j p1)) =
    fa (account_view p (akey name)) ->
  acts peer name fp fa p p1.
Proof.
  intros Hname Hloc Hp Ha. pose proof (pkey_nonempty peer). destruct (akey_spec name Hname) as (? & _ & _).
  destruct (located_views _ _ _ _ _ _ H H0 Hloc) as (E1 & E2 & _). destruct Hloc.
  unfold acts. split_and!; auto; congruence.
Qed.

(** * The three authentication operations refine the automaton *)

Definition peer_pair (r : peer_record) : Z * Z := (peer_auth_failures r, peer_auth_blocked_until_ms r).
Definition account_pair (r : account_record) : Z * Z := (account_auth_failures r, account_auth_blocked_until_ms r).

(** A guarded store of a pair through the peer pointer. *)
Lemma store_peer pk ak i j (b : bool) f p p1 v :
  pk <> [] -> located pk ak i j p p1 ->
  (b = true -> peer_ok (peer_at i p1) -> peer_ok (f (peer_at i p1)) /\ peer_key (f (peer_at i p1)) = peer_key (peer_at i p1)) ->
  (if b then peer_pair (f (peer_at i p1)) else peer_pair (peer_at i p1)) = v ->
  wp (when b (update_peer i f))
    (fun _ p2 => located pk ak i j p p2 /\ peer_pair (peer_at i p2) = v /\ account_at j p2 = account_at j p1) p1.
Proof.
  intros Hne Hloc Hf Hv. apply wp_when; intros ->; [|done].
  eapply located_update_peer; eauto. intros p2 H ->. auto.
Qed.

Lemma store_account pk ak i j (b : bool) f p p1 v :
  ak <> [] -> located pk ak i j p p1 ->
  (b = true -> account_ok (account_at j p1) -> account_ok (f (account_at j p1)) /\ account_key (f (account_at j p1)) = account_key (account_at j p1)) ->
  (if b then account_pair (f (account_at j p1)) else account_pair (account_at j p1)) = v ->
  wp (when b (update_account j f))
    (fun _ p2 => located pk ak i j p p2 /\ account_pair (account_at j p2) = v /\ peer_at i p2 = peer_at i p1) p1.
Proof.
  intros Hne Hloc Hf Hv. apply wp_when; intros ->; [|done].
  eapply located_update_account; eauto. intros p2 H ->. auto.
Qed.

Lemma peer_reset_ok r :
  peer_ok r -> peer_ok (r <| peer_auth_failures := 0 |> <| peer_auth_blocked_until_ms := 0 |>).
Proof. intros []. constructor; simpl; unfold u64; auto; lia. Qed.

Lemma account_reset_ok r :
  account_ok r -> account_ok (r <| account_auth_failures := 0 |> <| account_auth_blocked_until_ms := 0 |>).
Proof. intros []. constructor; simpl; unfold u64; auto; lia. Qed.

Lemma backoff_wait_expire now v : 0 <= now -> backoff_wait now (backoff_expire now v) = backoff_wait now v.
Proof. intros H. unfold backoff_wait, backoff_expire. case_test; breflect; simpl; lia. Qed.

Lemma wait_test now b : (if b >? now then b - now else 0) = Z.max 0 (b - now).
Proof. case_test; breflect; lia. Qed.

Lemma allow_auth_spec peer name now p :
  policy_ok p -> u64 now -> c_str name <> [] ->
  wp (security_policy_allow_auth_attempt (Some peer) (Some name) now) (fun r p' =>
    acts peer name (backoff_expire now) (backoff_expire now) p p' /\
    r = let w := Z.max (backoff_wait now (peer_view p (pkey peer))) (backoff_wait now (account_view p (akey name))) in
        (w =? 0, w)) p.
Proof.
  intros Hok Hnow Hname. pose proof (pkey_nonempty peer) as Hpk. destruct (akey_spec name Hname) as (Hak & _ & _).
  apply wp_locate; [done|done|done|]. intros i j p1 Hloc Vp Va.
  destruct (located_views _ _ _ _ _ _ Hpk Hak Hloc) as (E1 & E2 & _).
  rewrite Vp in E1. rewrite Va in E2. clear Vp Va. wp_step. wp_step. wp_step.
  eapply wp_mono; [apply (store_peer _ _ i j _ _ p p1 (backoff_expire now (peer_view p (pkey peer))) Hpk Hloc)|].
  { intros _ Hr. by split; [apply peer_reset_ok|]. }
  { rewrite E1. unfold backoff_expire; simpl. by destruct (_ && _). }
  intros [] p2 (Hloc2 & V2 & A2). wp_step. wp_step. wp_step.
  eapply wp_mono; [apply (store_account _ _ i j _ _ p p2 (backoff_expire now (account_view p (akey name))) Hak Hloc2)|].
  { intros _ Hr. by split; [apply account_reset_ok|]. }
  { rewrite A2, E2. unfold backoff_expire; simpl. by destruct (_ && _). }
  intros [] p3 (Hloc3 & V3 & A3). wp_step. wp_step. wp_step. wp_step. cbv zeta. wp_step. rewrite A3.
  split; [by eapply located_acts; eauto; rewrite A3|].
  rewrite <- (backoff_wait_expire now (peer_view _ _)), <- (backoff_wait_expire now (account_view _ _)), <- V2, <- V3
    by apply Hnow.
  unfold backoff_wait, peer_pair, account_pair; simpl. rewrite !wait_test.
  f_equal; [|case_test; breflect; lia]. apply eq_true_iff_eq. rewrite andb_true_iff, !Z.eqb_eq. lia.
Qed.

Lemma peer_fail_store_ok r d : peer_ok r ->
  peer_ok (r <| peer_auth_blocked_until_ms := wrap64 d |>).
Proof. intros []. constructor; simpl; auto using wrap64_u64. Qed.

Lemma account_fail_store_ok r d : account_ok r ->
  account_ok (r <| account_auth_blocked_until_ms := wrap64 d |>).
Proof. intros []. constructor; simpl; auto using wrap64_u64. Qed.

Lemma note_failure_spec peer name now p :
  policy_ok p -> u64 now -> c_str name <> [] ->
  wp (security_policy_note_auth_failure (Some peer) (Some name) now)
    (fun _ p' => acts peer name (backoff_fail peer_delay now) (backoff_fail account_delay now) p p') p.
Proof.
  intros Hok Hnow Hname. pose proof (pkey_nonempty peer) as Hpk. destruct (akey_spec name Hname) as (Hak & _ & _).
  apply wp_locate; [done|done|done|]. intros i j p1 Hloc Vp Va.
  destruct (located_views _ _ _ _ _ _ Hpk Hak Hloc) as (E1 & E2 & Op & Oa).
  rewrite Vp in E1. rewrite Va in E2. clear Vp Va. wp_step. wp_step. wp_step.
  eapply wp_mono; [apply (store_peer _ _ i j _ _ p p1 (Z.min ((peer_view p (pkey peer)).1 + 1) 1000000,
    (peer_view p (pkey peer)).2) Hpk Hloc)|].
  { intros Hb []. breflect. split; [constructor; simpl; auto; lia | done]. }
  { rewrite E1. simpl. destruct Op. case_test; breflect; unfold peer_pair; simpl; f_equal; lia. }
  intros [] p2 (Hloc2 & V2 & A2). wp_step. wp_step. wp_step.
  eapply wp_mono; [apply (store_account _ _ i j _ _ p p2 (Z.min ((account_view p (akey name)).1 + 1) 1000000,
    (account_view p (akey name)).2) Hak Hloc2)|].
  { intros Hb []. breflect. split; [constructor; simpl; auto; lia | done]. }
  { rewrite A2, E2. simpl. destruct Oa. case_test; breflect; unfold account_pair; simpl; f_equal; lia. }
  intros [] p3 (Hloc3 & V3 & A3). wp_step. wp_step. wp_step. wp_step. cbv zeta. wp_step.
  eapply wp_mono; [apply (store_peer _ _ i j _ _ p p3 (backoff_fail peer_delay now (peer_view p (pkey peer))) Hpk Hloc3)|].
  { intros _ Hr. by split; [apply peer_fail_store_ok|]. }
  { rewrite A3. injection V2 as F2 B2. rewrite <- (backoff_fail_ext _ _ _ _ peer_delay_eq). unfold backoff_fail, peer_pair; simpl. rewrite <- F2, B2. by case_test. }
  intros [] p4 (Hloc4 & V4 & A4).
  eapply wp_mono; [apply (store_account _ _ i j _ _ p p4
    (backoff_fail account_delay now (account_view p (akey name))) Hak Hloc4)|].
  { intros _ Hr. by split; [apply account_fail_store_ok|]. }
  { rewrite A4. injection V3 as F3 B3. rewrite <- (backoff_fail_ext _ _ _ _ account_delay_eq). unfold backoff_fail, account_pair; simpl. rewrite <- F3, B3. by case_test. }
  intros [] p5 (Hloc5 & V5 & A5). eapply located_acts; eauto. by rewrite A5.
Qed.

Lemma note_success_spec peer name now p :
  policy_ok p -> u64 now -> c_str name <> [] ->
  wp (security_policy_note_auth_success (Some peer) (Some name) now)
    (fun _ p' => acts peer name (fun _ => (0, 0)) (fun _ => (0, 0)) p p') p.
Proof.
  intros Hok Hnow Hname. pose proof (pkey_nonempty peer) as Hpk. destruct (akey_spec name Hname) as (Hak & _ & _).
  apply wp_locate; [done|done|done|]. intros i j p1 Hloc _ _. wp_step.
  eapply wp_mono; [apply (store_peer _ _ i j true _ p p1 (0, 0) Hpk Hloc); [|done]|].
  { intros _ Hr. by split; [apply peer_reset_ok|]. }
  intros [] p2 (Hloc2 & V2 & A2).
  eapply wp_mono; [apply (store_account _ _ i j true _ p p2 (0, 0) Hak Hloc2); [|done]|].
  { intros _ Hr. by split; [apply account_reset_ok|]. }
  intros [] p3 (Hloc3 & V3 & A3). eapply located_acts; eauto. by rewrite A3.
Qed.

(** * The two admission operations *)

(** What an admission leaves of everything but its own global window. *)
Definition admits (peer : list Z) (p p' : security_policy) : Prop :=
  policy_ok p' /\ accounts p' = accounts p /\
  peer_view p' (pkey peer) = peer_view p (pkey peer) /\
  others peer_view (table_full peer_key (peers p)) (pkey peer) p p'.

(** The peer's own window, through the record pointer. *)
Lemma peer_window_spec k i (get : peer_record -> event_window) (put : event_window -> peer_record -> peer_record)
    limit window_ms now p :
  policy_ok p -> live_peer k i p -> k <> [] -> 0 <= limit <= WINDOW_SLOTS ->
  (forall r, peer_ok r -> Zlen (times (get r)) <= limit) ->
  (forall r w, peer_key (put w r) = peer_key r /\ peer_pair (put w r) = peer_pair r) ->
  (forall r w, peer_ok r -> Zlen (times w) <= limit -> peer_ok (put w r)) ->
  wp (window_step (fun p => get (peer_at i p)) (fun w => update_peer i (put w))
        limit window_ms now)
    (fun _ p' => policy_ok p' /\ accounts p' = accounts p /\ globals_same p p' /\
       peer_view p' k = peer_view p k /\ others peer_view False k p p') p.
Proof.
  intros Hok Hlive Hk Hlim Hget Hput Hputok.
  destruct (live_peer_at k i p Hok Hlive Hk) as (Hi & _ & HV).
  assert (peer_ok (peer_at i p)) as Hr by (eapply Forall_lookup_1; [by apply ok_peers | done]).
  unfold window_step. wp_step. wp_step. wp_step.
  destruct (window_allow_spec (get (peer_at i p)) limit window_ms now) as (w' & ok & rt & E & Hw & _);
    [by split; [apply Hget | lia] | lia|].
  eapply wp_lift; [done|]. simpl. wp_step.
  eapply wp_mono; [apply (update_peer_spec k i (put w')); try done; by split; [apply Hputok | apply Hput]|].
  intros [] p2 (H1 & H2 & H3 & H4 & H5 & H6). wp_step. split_and!; [done|done|done| |].
  - destruct (live_peer_at k i p2 H1 H2 Hk) as (_ & _ & ->). rewrite HV, H5. apply Hput.
  - intros k' Hk1 Hk2. left. by apply H6.
Qed.

Lemma allow_connection_spec peer now p :
  policy_ok p -> u64 now ->
  wp (security_policy_allow_connection (Some peer) now) (fun r p' =>
    admits peer p p' /\ global_creations p' = global_creations p /\
    (r.1 = false /\ global_connections p' = global_connections p \/
     exists retry, window_allow (global_connections p) GLOBAL_CONNECTION_LIMIT GLOBAL_CONNECTION_WINDOW_MS now
                   = Some (global_connections p', r.1, retry))) p.
Proof.
  intros Hok Hnow. unfold security_policy_allow_connection. wp_step.
  eapply wp_mono; [by apply peer_record_for_spec|]. intros i p1 (H1 & H2 & H3 & [H4 H4'] & H5 & H6). wp_step.
  eapply wp_mono.
  { eapply (peer_window_spec (pkey peer) i connections (fun w r => r <| connections := w |>));
      [done|done|apply pkey_nonempty|done| | |].
    - by intros r [].
    - done.
    - intros r w [] Hw. by constructor. }
  intros [pok pr] p2 (G1 & G2 & [G3 G3'] & G4 & G5). wp_step.
  assert (admits peer p p2) as Had.
  { split_and!; [done|congruence|congruence|]. intros k' Hk1 Hk2. destruct (G5 k' Hk1 Hk2) as [->|[[] _]]. auto. }
  destruct pok; [|wp_step; split_and!; [done|congruence|left; split; [done|congruence]]].
  unfold window_step. wp_step. wp_step. wp_step.
  destruct (window_allow_spec (global_connections p2) GLOBAL_CONNECTION_LIMIT GLOBAL_CONNECTION_WINDOW_MS now)
    as (w' & ok & rt & E & Hw & _); [split; [by apply ok_global_connections | done] | done |].
  eapply wp_lift; [done|]. simpl. wp_step. wp_step. simpl. split_and!.
  - destruct Had as ([] & A2 & A3 & A4). split_and!; [by constructor|done|done|done].
  - simpl. congruence.
  - right. exists rt. by rewrite <- H4, <- G3.
Qed.

Lemma allow_creation_spec peer now p :
  policy_ok p -> u64 now ->
  wp (security_policy_allow_account_creation (Some peer) now) (fun r p' =>
    admits peer p p' /\ global_connections p' = global_connections p /\
    (r.1 = false /\ global_creations p' = global_creations p \/
     exists retry, window_allow (global_creations p) GLOBAL_CREATION_LIMIT GLOBAL_CREATION_WINDOW_MS now
                   = Some (global_creations p', r.1, retry))) p.
Proof.
  intros Hok Hnow. unfold security_policy_allow_account_creation. wp_step.
  eapply wp_mono; [by apply peer_record_for_spec|]. intros i p1 (H1 & H2 & H3 & [H4 H4'] & H5 & H6). wp_step.
  eapply wp_mono.
  { eapply (peer_window_spec (pkey peer) i creations (fun w r => r <| creations := w |>));
      [done|done|apply pkey_nonempty|done| | |].
    - by intros r [].
    - done.
    - intros r w [] Hw. by constructor. }
  intros [pok pr] p2 (G1 & G2 & [G3 G3'] & G4 & G5). wp_step.
  assert (admits peer p p2) as Had.
  { split_and!; [done|congruence|congruence|]. intros k' Hk1 Hk2. destruct (G5 k' Hk1 Hk2) as [->|[[] _]]. auto. }
  destruct pok; [|wp_step; split_and!; [done|congruence|left; split; [done|congruence]]].
  unfold window_step. wp_step. wp_step. wp_step.
  destruct (window_allow_spec (global_creations p2) GLOBAL_CREATION_LIMIT GLOBAL_CREATION_WINDOW_MS now)
    as (w' & ok & rt & E & Hw & _); [split; [by apply ok_global_creations | done] | done |].
  eapply wp_lift; [done|]. simpl. wp_step. wp_step. simpl. split_and!.
  - destruct Had as ([] & A2 & A3 & A4). split_and!; [by constructor|done|done|done].
  - simpl. congruence.
  - right. exists rt. by rewrite <- H4', <- G3'.
Qed.
