(* ===== verification/PolicyHistory.v ===== *)
(** Histories of the security policy.  Every public operation holds the
    policy's mutex from start to end, so what any number of workers do to it
    is one sequence of operations; the theorems quantify over all of them. *)
From S2P Require Import Prelude AsciiText SecurityPolicy RecordTable PolicyInvariant PolicyTheorems.

(** * Histories *)

Inductive policy_op :=
| Connect (peer : list Z)
| CreateAccount (peer : list Z)
| AuthAttempt (peer name : list Z)
| AuthFailure (peer name : list Z)
| AuthSuccess (peer name : list Z).

Record event := mk_event { event_op : policy_op; event_ms : Z }.

(** The call an event stands for; an operation without a result reports
    [(true, 0)]. *)
Definition policy_step (e : event) : M security_policy (bool * Z) :=
  let now := event_ms e in
  match event_op e with
  | Connect peer => security_policy_allow_connection (Some peer) now
  | CreateAccount peer => security_policy_allow_account_creation (Some peer) now
  | AuthAttempt peer name => security_policy_allow_auth_attempt (Some peer) (Some name) now
  | AuthFailure peer name => security_policy_note_auth_failure (Some peer) (Some name) now ;; mret (true, 0)
  | AuthSuccess peer name => security_policy_note_auth_success (Some peer) (Some name) now ;; mret (true, 0)
  end.

Fixpoint policy_run (es : list event) : M security_policy (list (bool * Z)) :=
  match es with
  | [] => mret []
  | e :: es => r ← policy_step e; rs ← policy_run es; mret (r :: rs)
  end.

Definition event_name (op : policy_op) : option (list Z) :=
  match op with
  | AuthAttempt _ name | AuthFailure _ name | AuthSuccess _ name => Some name
  | _ => None
  end.

(** The callers pass a validated, hence non-empty, player name. *)
Definition event_ok (e : event) : Prop :=
  u64 (event_ms e) /\ match event_name (event_op e) with Some n => c_str n <> [] | None => True end.

(** Readings of one monotonic clock, all at [t] or later. *)
Fixpoint in_order (t : Z) (es : list event) : Prop :=
  match es with
  | [] => True
  | e :: es => t <= event_ms e /\ in_order (event_ms e) es
  end.

Lemma policy_step_ok e p :
  event_ok e -> policy_ok p -> wp (policy_step e) (fun _ => policy_ok) p.
Proof.
  destruct e as [[peer|peer|peer name|peer name|peer name] now]; intros [Hnow Hname] Hok; simpl in *.
  - eapply wp_mono; [by apply allow_connection_spec|]. by intros r p' ((? & _) & _).
  - eapply wp_mono; [by apply allow_creation_spec|]. by intros r p' ((? & _) & _).
  - eapply wp_mono; [by apply allow_auth_spec|]. by intros r p' ((? & _) & _).
  - apply wp_bind. eapply wp_mono; [by apply note_failure_spec|]. by intros [] p' (? & _).
  - apply wp_bind. eapply wp_mono; [by apply note_success_spec|]. by intros [] p' (? & _).
Qed.

(** [C20] The policy's tables never overflow or lose their shape: from any
    well-formed state, every history of operations runs to its end without a
    store outside an array, answers each operation, and leaves table sizes,
    key uniqueness, window lengths, failure counters and deadlines within
    their bounds. *)
Theorem policy_invariant es p :
  Forall event_ok es -> policy_ok p ->
  exists rs p', policy_run es p = Some (rs, p') /\ policy_ok p' /\ length rs = length es.
Proof.
  intros Hes Hok. apply wp_run with (Q := fun rs p' => policy_ok p' /\ length rs = length es).
  revert p Hok. induction Hes as [|e es He _ IH]; intros p Hok; [done|]. simpl.
  apply wp_bind. eapply wp_mono; [by apply policy_step_ok|]. intros r p1 Hok1.
  apply wp_bind. eapply wp_mono; [by apply IH|]. intros rs p2 [Hok2 Hl]. apply wp_ret. simpl. by rewrite Hl.
Qed.

(** * Rolling windows bound admissions *)

Section rolling.
Context (window_ms limit : Z).

(** Events of [l] in the window that ends at [t]. *)
Definition in_window (t : Z) (l : list Z) : list Z :=
  List.filter (fun x => (t - window_ms <? x) && (x <=? t)) l.

(** [A]: every admission so far, the last at [t] or before; [g]: the window's
    content. *)
Definition window_inv (t : Z) (A g : list Z) : Prop :=
  (forall u, Zlen (in_window u A) <= limit) /\
  Forall (fun x => x <= t) A /\ Forall (fun x => x <= t) g /\ Zlen g <= limit /\
  (forall u, t <= u -> Zlen (in_window u A) <= Zlen (in_window u g)).

Lemma in_window_app u l l' : in_window u (l ++ l') = in_window u l ++ in_window u l'.
Proof. apply List.filter_app. Qed.

Lemma in_window_length u l : Zlen (in_window u l) <= Zlen l.
Proof. pose proof (filter_length_le (fun x => (u - window_ms <? x) && (x <=? u)) l). unfold in_window. lia. Qed.

Lemma in_window_prune t u w :
  Forall (fun x => x <= t) (times w) -> t <= u ->
  in_window u (times (prune_window w t window_ms)) = in_window u (times w).
Proof.
  intros Hw Hu. unfold in_window, prune_window; simpl.
  induction Hw as [|x l Hx _ IH]; [done|]. simpl.
  destruct (Z.geb_spec t x); [|lia]. destruct (Z.ltb_spec (t - x) window_ms); simpl; rewrite IH; [done|].
  destruct (Z.ltb_spec (u - window_ms) x); [lia|done].
Qed.

Lemma window_inv_weaken t t' A g : window_inv t A g -> t <= t' -> window_inv t' A g.
Proof.
  intros (H1 & H2 & H3 & H4 & H5) Ht. split_and!; auto.
  - eapply Forall_impl; [exact H2|]. simpl. lia.
  - eapply Forall_impl; [exact H3|]. simpl. lia.
  - intros u Hu. apply H5. lia.
Qed.

Lemma window_inv_step t now A w w' ok retry :
  0 <= limit <= WINDOW_SLOTS -> 0 <= window_ms -> window_inv t A (times w) -> t <= now ->
  window_allow w limit window_ms now = Some (w', ok, retry) ->
  window_inv now (A ++ if ok then [now] else []) (times w').
Proof.
  intros Hlim Hw0 Hinv Hnow E. apply window_inv_weaken with (t' := now) in Hinv as (H1 & H2 & H3 & H4 & H5); [|done].
  destruct (window_allow_spec w limit window_ms now) as (w2 & ok2 & r2 & E2 & Hl & Ht); [lia|lia|].
  rewrite E in E2. injection E2 as <- <- <-.
  assert (forall u, now <= u -> Zlen (in_window u (A ++ if ok then [now] else [])) <= Zlen (in_window u (times w'))) as H5'.
  { intros u Hu. rewrite Ht, !in_window_app, in_window_prune, !length_app by done. specialize (H5 u Hu). lia. }
  split_and!; auto.
  - intros u. destruct (Z.le_gt_cases now u) as [Hu|Hu].
    + specialize (H5' u Hu). pose proof (in_window_length u (times w')). lia.
    + rewrite in_window_app. destruct ok; [|rewrite app_nil_r; apply H1].
      unfold in_window at 2. simpl. destruct (Z.leb_spec now u); [lia|].
      rewrite andb_false_r, app_nil_r. apply H1.
  - apply Forall_app. split; [done|]. destruct ok; repeat constructor; lia.
  - rewrite Ht. apply Forall_app. split; [|destruct ok; repeat constructor; lia].
    apply List.Forall_forall. intros x [Hx _]%List.filter_In. by eapply List.Forall_forall in H3.
Qed.
End rolling.

(** Times of the admitted events of one kind. *)
Fixpoint admitted (kind : policy_op -> bool) (es : list event) (rs : list (bool * Z)) : list Z :=
  match es, rs with
  | e :: es, r :: rs => (if kind (event_op e) && r.1 then [event_ms e] else []) ++ admitted kind es rs
  | _, _ => []
  end.

Definition is_connect (op : policy_op) : bool := match op with Connect _ => true | _ => false end.
Definition is_creation (op : policy_op) : bool := match op with CreateAccount _ => true | _ => false end.

(** A global window of the policy, the operations that go through it, and how
    one event uses it. *)
Section gate.
Context (window_ms limit : Z) (kind : policy_op -> bool) (gate : security_policy -> event_window).
Context (Hlim : 0 <= limit <= WINDOW_SLOTS) (Hms : 0 <= window_ms).
Hypothesis gate_step : forall e p, event_ok e -> policy_ok p ->
  wp (policy_step e) (fun r p' => policy_ok p' /\
    ((kind (event_op e) && r.1 = false /\ gate p' = gate p) \/
     kind (event_op e) = true /\ exists retry, window_allow (gate p) limit window_ms (event_ms e) = Some (gate p', r.1, retry))) p.

Lemma gate_run es t A p :
  Forall event_ok es -> in_order t es -> policy_ok p -> window_inv window_ms limit t A (times (gate p)) ->
  wp (policy_run es) (fun rs _ => forall u, Zlen (in_window window_ms u (A ++ admitted kind es rs)) <= limit) p.
Proof.
  intros Hes. revert t A p. induction Hes as [|e es He _ IH]; intros t A p Hord Hok Hinv; simpl.
  { apply wp_ret. intros u. rewrite app_nil_r. apply Hinv. }
  destruct Hord as [Ht Hord]. apply wp_bind. eapply wp_mono; [by apply gate_step|]. intros r p1 [Hok1 Hcase].
  assert (window_inv window_ms limit (event_ms e)
            (A ++ if kind (event_op e) && r.1 then [event_ms e] else []) (times (gate p1))) as Hinv1.
  { destruct Hcase as [[-> ->]|(-> & retry & E)].
    - rewrite app_nil_r. by eapply window_inv_weaken.
    - by eapply window_inv_step. }
  apply wp_bind. eapply wp_mono; [by eapply IH|]. intros rs p2 H. apply wp_ret. simpl. intros u.
  specialize (H u). by rewrite <- (assoc_L (++)) in H.
Qed.

Lemma gate_bound es t rs p' :
  Forall event_ok es -> in_order t es -> times (gate security_policy_create) = [] ->
  policy_run es security_policy_create = Some (rs, p') ->
  forall u, Zlen (in_window window_ms u (admitted kind es rs)) <= limit.
Proof.
  intros Hes Hord Hg Hrun. pose proof (gate_run es t [] security_policy_create) as H.
  rewrite Hg in H. unfold wp in H. rewrite Hrun in H. apply H; auto using policy_create_ok.
  split_and!; simpl; try constructor; try lia.
Qed.
End gate.

Lemma connect_gate_step e p : event_ok e -> policy_ok p ->
  wp (policy_step e) (fun r p' => policy_ok p' /\
    ((is_connect (event_op e) && r.1 = false /\ global_connections p' = global_connections p) \/
     is_connect (event_op e) = true /\ exists retry, window_allow (global_connections p) GLOBAL_CONNECTION_LIMIT
       GLOBAL_CONNECTION_WINDOW_MS (event_ms e) = Some (global_connections p', r.1, retry))) p.
Proof.
  destruct e as [[peer|peer|peer name|peer name|peer name] now]; intros [Hnow Hname] Hok; simpl in *.
  - eapply wp_mono; [by apply allow_connection_spec|]. intros r p' ((? & _) & _ & [[??]|?]); auto.
  - eapply wp_mono; [by apply allow_creation_spec|]. intros r p' ((? & _) & ? & _). auto.
  - eapply wp_mono; [by apply allow_auth_spec|]. intros r p' ((? & _ & _ & [] & _) & _). auto.
  - apply wp_bind. eapply wp_mono; [by apply note_failure_spec|]. intros [] p' (? & _ & _ & [] & _). by apply wp_ret; auto.
  - apply wp_bind. eapply wp_mono; [by apply note_success_spec|]. intros [] p' (? & _ & _ & [] & _). by apply wp_ret; auto.
Qed.

Lemma creation_gate_step e p : event_ok e -> policy_ok p ->
  wp (policy_step e) (fun r p' => policy_ok p' /\
    ((is_creation (event_op e) && r.1 = false /\ global_creations p' = global_creations p) \/
     is_creation (event_op e) = true /\ exists retry, window_allow (global_creations p) GLOBAL_CREATION_LIMIT
       GLOBAL_CREATION_WINDOW_MS (event_ms e) = Some (global_creations p', r.1, retry))) p.
Proof.
  destruct e as [[peer|peer|peer name|peer name|peer name] now]; intros [Hnow Hname] Hok; simpl in *.
  - eapply wp_mono; [by apply allow_connection_spec|]. intros r p' ((? & _) & ? & _). auto.
  - eapply wp_mono; [by apply allow_creation_spec|]. intros r p' ((? & _) & _ & [[??]|?]); auto.
  - eapply wp_mono; [by apply allow_auth_spec|]. intros r p' ((? & _ & _ & [] & _) & _). auto.
  - apply wp_bind. eapply wp_mono; [by apply note_failure_spec|]. intros [] p' (? & _ & _ & [] & _). by apply wp_ret; auto.
  - apply wp_bind. eapply wp_mono; [by apply note_success_spec|]. intros [] p' (? & _ & _ & [] & _). by apply wp_ret; auto.
Qed.

(** [C16] Admission is bounded globally: over every history of a fresh policy
    on a monotonic clock, from however many workers and peers, and even when
    peer records are evicted, any 10-second window holds at most 30 admitted
    connections and any 10-minute window at most 50 admitted account
    creations. *)
Theorem global_admission_bound es t rs p' :
  Forall event_ok es -> in_order t es ->
  policy_run es security_policy_create = Some (rs, p') ->
  forall u, Zlen (in_window 10000 u (admitted is_connect es rs)) <= 30 /\
            Zlen (in_window 600000 u (admitted is_creation es rs)) <= 50.
Proof.
  intros Hes Hord Hrun u. split.
  - by apply (gate_bound 10000 30 is_connect global_connections ltac:(done) ltac:(done) connect_gate_step es t rs p').
  - by apply (gate_bound 600000 50 is_creation global_creations ltac:(done) ltac:(done) creation_gate_step es t rs p').
Qed.

(** * The account lock *)

(** [k] is locked until [d] or later, at the failure limit. *)
Definition locked (k : list Z) (d : Z) (p : security_policy) : Prop :=
  ACCOUNT_AUTH_FAILURE_LIMIT <= (account_view p k).1 /\ d <= (account_view p k).2.

(** No operation of the history finds the account table full (a full table
    forgets its least recently seen account). *)
Fixpoint never_full (es : list event) (p : security_policy) : Prop :=
  match es with
  | [] => True
  | e :: es => ~ table_full account_key (accounts p) /\
               match policy_step e p with Some (_, p') => never_full es p' | None => True end
  end.

Fixpoint never_fullb (es : list event) (p : security_policy) : bool :=
  match es with
  | [] => true
  | e :: es => existsb (fun r => bytes_eqb (account_key r) []) (accounts p) &&
               match policy_step e p with Some (_, p') => never_fullb es p' | None => true end
  end.

Lemma never_fullb_sound es p : never_fullb es p = true -> never_full es p.
Proof.
  revert p. induction es as [|e es IH]; intros p H; simpl in *; [done|]. apply andb_prop in H as [H1 H2]. split.
  - apply existsb_exists in H1 as (r & Hr & Hk). apply bytes_eqb_eq in Hk. intros Hf.
    by eapply List.Forall_forall in Hf.
  - destruct (policy_step e p) as [[r p']|]; auto.
Qed.

Definition is_success_for (k : list Z) (op : policy_op) : Prop :=
  match op with AuthSuccess _ name => akey name = k | _ => False end.

Lemma locked_others k d peer name fp fa p p' :
  k <> [] -> ~ table_full account_key (accounts p) -> acts peer name fp fa p p' ->
  (akey name = k -> ACCOUNT_AUTH_FAILURE_LIMIT <= (fa (account_view p k)).1 /\ d <= (fa (account_view p k)).2) ->
  locked k d p -> locked k d p'.
Proof.
  intros Hk Hroom (_ & _ & Ha & _ & _ & Hoth) Hfa Hl. unfold locked.
  destruct (decide (akey name = k)) as [<-|Hne]; [rewrite Ha; by apply Hfa|].
  destruct (Hoth k Hk ltac:(congruence)) as [->|[? _]]; done.
Qed.

Lemma backoff_expire_locked now v : now < v.2 -> backoff_expire now v = v.
Proof. intros H. unfold backoff_expire. case_test; [breflect; lia | done]. Qed.

Lemma backoff_fail_locks now v :
  u64 (now + ACCOUNT_AUTH_LOCK_MS) -> 2 <= v.1 ->
  ACCOUNT_AUTH_FAILURE_LIMIT <= (backoff_fail account_delay now v).1 /\
  (backoff_fail account_delay now v).2 = now + ACCOUNT_AUTH_LOCK_MS.
Proof.
  intros Hu Hv. unfold backoff_fail, account_delay, ACCOUNT_AUTH_FAILURE_LIMIT in *.
  destruct (Z.ltb_spec (Z.min (v.1 + 1) 1000000) 3); [lia|]. simpl. split; [lia|].
  by rewrite wrap64_id.
Qed.

Lemma locked_step k d e p :
  k <> [] -> event_ok e -> policy_ok p -> ~ table_full account_key (accounts p) ->
  ~ is_success_for k (event_op e) -> event_ms e < d <= event_ms e + ACCOUNT_AUTH_LOCK_MS ->
  u64 (event_ms e + ACCOUNT_AUTH_LOCK_MS) -> locked k d p ->
  wp (policy_step e) (fun _ p' => policy_ok p' /\ locked k d p') p.
Proof.
  intros Hk. destruct e as [[peer|peer|peer name|peer name|peer name] now];
    intros [Hnow Hname] Hok Hroom Hns Hd Hu Hl; unfold policy_step; simpl in *; pose proof Hl as [Hl1 Hl2].
  - eapply wp_mono; [by apply allow_connection_spec|]. intros r p' ((? & E & _) & _).
    unfold locked. by rewrite (account_view_ext p p').
  - eapply wp_mono; [by apply allow_creation_spec|]. intros r p' ((? & E & _) & _).
    unfold locked. by rewrite (account_view_ext p p').
  - eapply wp_mono; [by apply allow_auth_spec|]. intros r p' (Hact & _). split; [apply Hact|].
    eapply locked_others; eauto. intros _. by rewrite backoff_expire_locked by lia.
  - apply wp_bind. eapply wp_mono; [by apply note_failure_spec|]. intros [] p' Hact. apply wp_ret. split; [apply Hact|].
    eapply locked_others; eauto. intros _.
    destruct (backoff_fail_locks now (account_view p k) Hu) as [? ->]; [unfold ACCOUNT_AUTH_FAILURE_LIMIT in *; lia|].
    split; [done|lia].
  - apply wp_bind. eapply wp_mono; [by apply note_success_spec|]. intros [] p' Hact. apply wp_ret. split; [apply Hact|].
    eapply locked_others; eauto. intros E. by destruct Hns.
Qed.

Lemma locked_run k d es p :
  k <> [] -> Forall event_ok es -> policy_ok p -> never_full es p ->
  Forall (fun e => ~ is_success_for k (event_op e) /\ event_ms e < d <= event_ms e + ACCOUNT_AUTH_LOCK_MS /\
                   u64 (event_ms e + ACCOUNT_AUTH_LOCK_MS)) es ->
  locked k d p -> wp (policy_run es) (fun _ p' => policy_ok p' /\ locked k d p') p.
Proof.
  intros Hk Hes. revert p. induction Hes as [|e es He _ IH]; intros p Hok Hroom Hall Hl; simpl; [done|].
  destruct Hroom as [Hr Hroom]. inversion Hall as [|?? (? & ? & ?) Hall']; subst.
  apply wp_bind. destruct (wp_run _ _ _ (locked_step k d e p Hk He Hok Hr H H0 H1 Hl)) as (r & p1 & E & Hok1 & Hl1).
  unfold wp at 1. rewrite E in Hroom |- *.
  apply wp_bind. eapply wp_mono; [by apply IH|]. done.
Qed.

(** [C6] The account lock holds: once a failure brings an account to its
    third (or a later) consecutive one at time [t0], every later attempt
    before [t0 + 300000] ms is refused, from any peer and under any
    capitalisation of the name, and the advertised delay reaches past the end
    of the lock, whatever connections, creations, attempts and failures
    happen in between, as long as no login of that account succeeds (one
    already past its admission when the lock began would clear it) and the
    account table does not fill up. *)
Theorem account_lockout p peer0 name0 t0 p0 es rs p1 peer name t :
  policy_ok p -> c_str name0 <> [] -> u64 (t0 + 600000) -> 0 <= t0 ->
  2 <= (account_view p (akey name0)).1 ->
  security_policy_note_auth_failure (Some peer0) (Some name0) t0 p = Some (tt, p0) ->
  Forall event_ok es -> never_full es p0 ->
  Forall (fun e => ~ is_success_for (akey name0) (event_op e) /\ t0 <= event_ms e < t0 + 300000) es ->
  policy_run es p0 = Some (rs, p1) ->
  ascii_equal_ignore_case name0 name = true -> t0 <= t < t0 + 300000 ->
  exists retry p2, security_policy_allow_auth_attempt (Some peer) (Some name) t p1 = Some ((false, retry), p2) /\
    t0 + 300000 <= t + retry.
Proof.
  intros Hok Hname Hu Ht0 Hf E0 Hes Hroom Hall E1 Heq Ht. 
  pose proof (akey_ignore_case _ _ Heq) as Hk.
  destruct (akey_spec name0 Hname) as (Hkne & _ & _).
  assert (policy_ok p0 /\ locked (akey name0) (t0 + 300000) p0) as [Hok0 Hl0].
  { pose proof (note_failure_spec peer0 name0 t0 p Hok ltac:(unfold u64 in *; lia) Hname) as H. unfold wp in H.
    rewrite E0 in H. destruct H as (Hok0 & _ & Ha & _). split; [done|]. unfold locked. rewrite Ha.
    destruct (backoff_fail_locks t0 (account_view p (akey name0)) ltac:(unfold u64, ACCOUNT_AUTH_LOCK_MS in *; lia) Hf) as [H1 H2].
    split; [done|]. by rewrite H2. }
  pose proof (locked_run (akey name0) (t0 + 300000) es p0 Hkne Hes Hok0 Hroom) as Hrun.
  unfold wp in Hrun. rewrite E1 in Hrun. destruct Hrun as [Hok1 [_ Hl1]].
  { eapply Forall_impl; [exact Hall|]. intros e [Hs He]. unfold u64, ACCOUNT_AUTH_LOCK_MS in *. split; [done|]. lia. }
  { done. }
  assert (c_str name <> []) as Hname'.
  { intros E. rewrite Hk in Hkne. apply Hkne. unfold akey. by rewrite E. }
  destruct (wp_run _ _ _ (allow_auth_spec peer name t p1 Hok1 ltac:(unfold u64 in *; lia) Hname'))
    as (r & p2 & E & _ & Hr). rewrite <- Hk in Hr.
  set (w := Z.max _ _) in Hr. assert (t0 + 300000 - t <= w).
  { subst w. unfold backoff_wait. lia. }
  exists w, p2. rewrite E, Hr. cbv zeta. destruct (Z.eqb_spec w 0); [lia|]. split; [done|lia].
Qed.

(** [C17] The three authentication operations implement the back-off
    automaton on their own peer and account: an attempt clears an expired
    block and is allowed exactly when neither block is running, reporting the
    longer remaining wait; a failure counts once and, from the third on,
    blocks the peer for [1000 * 2^(n-3)] ms up to a minute and the account
    for five minutes; a success clears both.  Every other peer and account
    keeps its state, unless its table was full and its record was dropped,
    and the global windows are untouched. *)
Theorem auth_refines_backoff peer name now p :
  policy_ok p -> u64 now -> c_str name <> [] ->
  (exists p', security_policy_allow_auth_attempt (Some peer) (Some name) now p =
       (let w := Z.max (backoff_wait now (peer_view p (pkey peer))) (backoff_wait now (account_view p (akey name))) in
        Some ((w =? 0, w), p')) /\
     acts peer name (backoff_expire now) (backoff_expire now) p p') /\
  (exists p', security_policy_note_auth_failure (Some peer) (Some name) now p = Some (tt, p') /\
     acts peer name (backoff_fail peer_delay now) (backoff_fail account_delay now) p p') /\
  (exists p', security_policy_note_auth_success (Some peer) (Some name) now p = Some (tt, p') /\
     acts peer name (fun _ => (0, 0)) (fun _ => (0, 0)) p p').
Proof.
  intros Hok Hnow Hname. split_and!.
  - destruct (wp_run _ _ _ (allow_auth_spec peer name now p Hok Hnow Hname)) as (r & p' & E & H & ->). eauto.
  - destruct (wp_run _ _ _ (note_failure_spec peer name now p Hok Hnow Hname)) as ([] & p' & E & H). eauto.
  - destruct (wp_run _ _ _ (note_success_spec peer name now p Hok Hnow Hname)) as ([] & p' & E & H). eauto.
Qed.

(** ** Witnesses *)

(** Three failures for one account lock it while another player connects and
    fails. *)
Definition three_failures : list event :=
  [mk_event (AuthFailure (txt "10.0.0.1") (txt "alice")) 100; mk_event (AuthFailure (txt "10.0.0.2") (txt "Alice")) 200].

Definition meanwhile : list event :=
  [mk_event (Connect (txt "10.0.0.7")) 400; mk_event (AuthAttempt (txt "10.0.0.7") (txt "bob")) 500;
   mk_event (AuthFailure (txt "10.0.0.7") (txt "bob")) 600; mk_event (CreateAccount (txt "10.0.0.7")) 700].

Definition run_state (es : list event) (p : security_policy) : security_policy :=
  match policy_run es p with Some (_, p') => p' | None => p end.
Definition run_answers (es : list event) (p : security_policy) : list (bool * Z) :=
  match policy_run es p with Some (rs, _) => rs | None => [] end.

Ltac event_facts := repeat constructor; try done; try (unfold u64; simpl; lia).

Lemma three_failures_ok : Forall event_ok three_failures.
Proof. unfold three_failures, event_ok. event_facts. Qed.
Lemma meanwhile_ok : Forall event_ok meanwhile.
Proof. unfold meanwhile, event_ok. event_facts. Qed.

Lemma policy_run_ok es p : Forall event_ok es -> policy_ok p -> policy_ok (run_state es p).
Proof.
  intros Hes. revert p. induction Hes as [|e es He _ IH]; intros p Hok; [done|].
  destruct (wp_run _ _ _ (policy_step_ok e p He Hok)) as (r & p1 & E & Hok1). specialize (IH p1 Hok1).
  unfold run_state in *. simpl. unfold mbind, M_bind. rewrite E. by destruct (policy_run es p1) as [[rs p2]|].
Qed.

Lemma policy_invariant_witness : exists rs p', policy_run meanwhile security_policy_create = Some (rs, p') /\
  policy_ok p' /\ length rs = length meanwhile.
Proof. apply policy_invariant; [exact meanwhile_ok | exact policy_create_ok]. Defined.

(** Thirty-one connections at once from distinct peers: the last is refused. *)
Definition crowd : list event := map (fun i => mk_event (Connect [Z.of_nat i + 1]) 5) (seq 0 31).

Lemma global_admission_bound_witness :
  Zlen (in_window 10000 5 (admitted is_connect crowd (run_answers crowd security_policy_create))) <= 30.
Proof.
  refine (proj1 (global_admission_bound crowd 0 (run_answers crowd security_policy_create)
    (run_state crowd security_policy_create) _ _ _ 5)).
  - unfold crowd, event_ok. simpl. event_facts.
  - simpl. lia.
  - vm_compute. reflexivity.
Defined.

Lemma account_lockout_witness :
  let p := run_state three_failures security_policy_create in
  exists retry p2, security_policy_allow_auth_attempt (Some (txt "192.0.2.9")) (Some (txt "ALICE")) 300299
    (run_state meanwhile (match security_policy_note_auth_failure (Some (txt "10.0.0.3")) (Some (txt "aLice")) 300 p with
                          | Some (_, p0) => p0 | None => p end)) = Some ((false, retry), p2) /\
    300 + 300000 <= 300299 + retry.
Proof.
  intros p. set (p0 := match security_policy_note_auth_failure _ _ _ p with Some (_, p0) => p0 | None => p end).
  refine (account_lockout p (txt "10.0.0.3") (txt "aLice") 300 p0 meanwhile (run_answers meanwhile p0)
    (run_state meanwhile p0) (txt "192.0.2.9") (txt "ALICE") 300299 _ _ _ _ _ _ _ _ _ _ _ _).
  - apply policy_run_ok; [exact three_failures_ok | exact policy_create_ok].
  - done.
  - done.
  - done.
  - vm_compute. done.
  - vm_compute. reflexivity.
  - exact meanwhile_ok.
  - apply never_fullb_sound. vm_compute. reflexivity.
  - unfold meanwhile, is_success_for. repeat constructor; simpl; try lia; done.
  - vm_compute. reflexivity.
  - vm_compute. reflexivity.
  - lia.
Defined.

Lemma auth_refines_backoff_witness :
  exists p', security_policy_note_auth_failure (Some (txt "10.0.0.1")) (Some (txt "alice")) 7 security_policy_create
               = Some (tt, p') /\
    acts (txt "10.0.0.1") (txt "alice") (backoff_fail peer_delay 7) (backoff_fail account_delay 7)
      security_policy_create p'.
Proof.
  apply (auth_refines_backoff (txt "10.0.0.1") (txt "alice") 7 security_policy_create).
  - exact policy_create_ok.
  - done.
  - done.
Defined.
