(* ===== verification/PlayerStore.v ===== *)
(** Player records (src/player_store.c): name and password rules, the record
    format, and the file operations that load, create and replace a record.

    The file system is a map from path to file.  Every system call takes its
    outcome from a list the theorems quantify over: it may fail, and a [write]
    may be short or interrupted; once the list is used up calls succeed, so
    each list is a finite amount of trouble in any order.  The successive
    contents of the file system are kept in [snapshots] (what a crash or a
    concurrent reader could see).  libsodium's password hashing is the class
    [Pwhash]; the name [mkstemp] picks is the class [Mkstemp]. *)
From S2P Require Import Prelude AsciiText.

(** * Constants *)

Definition PLAYER_NAME_MIN : Z := 3.
Definition PLAYER_NAME_MAX : Z := 15.
Definition PLAYER_PASSWORD_MIN : Z := 8.
Definition PLAYER_PASSWORD_MAX : Z := 128.
Definition PLAYER_PASSWORD_TOKEN_BYTES : Z := 256.
(** libsodium's [crypto_pwhash_STRBYTES] *)
Definition pwhash_STRBYTES : Z := 128.
Definition PATH_MAX : Z := 4096.
Definition PLAYER_FILE_SUFFIX : list Z := txt ".player".
Definition RECORD_VERSION : list Z := txt "player-record-v1".

Definition blocked_passwords : list (list Z) :=
  [txt "password"; txt "password1"; txt "12345678"; txt "qwerty123"; txt "letmein123"; txt "changeme"].

(** * Names and passwords *)

Definition name_char (ch : Z) : bool :=
  let letter := ((65 <=? ch) && (ch <=? 90)) || ((97 <=? ch) && (ch <=? 122)) in
  let digit := (48 <=? ch) && (ch <=? 57) in
  negb (negb letter && negb digit && negb (ch =? 95) && negb (ch =? 45)).

Definition player_store_name_valid (name : option (list Z)) : bool :=
  match name with
  | None => false
  | Some name =>
      let length := strlen name in
      if (length <? PLAYER_NAME_MIN) || (length >? PLAYER_NAME_MAX) then false
      else forallb name_char (c_str name)
  end.

(** A password is its bytes; the length argument is their number. *)
Definition password_is_repeated_character (password : list Z) : bool :=
  match password with
  | [] => false
  | first :: rest => forallb (fun ch => ch =? first) rest
  end.

Fixpoint digit_sequence_loop (previous : option Z) (rest : list Z) (ascending descending : bool) : bool :=
  match rest with
  | [] => ascending || descending
  | ch :: rest =>
      if (ch <? 48) || (ch >? 57) then false
      else
        match previous with
        | None => digit_sequence_loop (Some ch) rest ascending descending
        | Some p =>
            let previous := p - 48 in
            let current := ch - 48 in
            digit_sequence_loop (Some ch) rest
              (if negb (current =? (previous + 1) mod 10) then false else ascending)
              (if negb (current =? (previous + 9) mod 10) then false else descending)
        end
  end.

Definition password_is_digit_sequence (password : list Z) : bool :=
  if Zlen password <? PLAYER_PASSWORD_MIN then false else digit_sequence_loop None password true true.

(** The result code; [None] is a store outside [lowered]. *)
Definition player_store_password_allowed (player_name password : option (list Z)) : option Z :=
  match player_name, password with
  | Some player_name, Some password =>
      if Zlen password >? PLAYER_PASSWORD_MAX then Some (-1)
      else if Zlen password <? PLAYER_PASSWORD_MIN then Some 0
      else
        lowered ← append (PLAYER_PASSWORD_MAX + 1) [] (map ascii_lower password);
        lowered ← push (PLAYER_PASSWORD_MAX + 1) lowered 0;
        if ascii_equal_ignore_case lowered player_name || password_is_repeated_character password
           || password_is_digit_sequence password then Some 0
        else if existsb (fun blocked => bytes_eqb (c_str lowered) blocked) blocked_passwords then Some 0
        else Some 1
  | _, _ => Some (-1)
  end.

(** * The record format *)

Definition build_record_text (record_size : Z) (name hash : list Z) : option (list Z) :=
  let text := RECORD_VERSION ++ [LF] ++ txt "name=" ++ c_str name ++ [LF] ++ txt "hash=" ++ c_str hash ++ [LF] in
  if Zlen text >=? record_size then None else Some text.

(** [fgets(line, size, file)]: the line and the rest of the file. *)
Fixpoint fgets_loop (room : nat) (data : list Z) : list Z * list Z :=
  match room, data with
  | O, _ => ([], data)
  | _, [] => ([], [])
  | S room, ch :: data =>
      if ch =? LF then ([ch], data)
      else let '(line, rest) := fgets_loop room data in (ch :: line, rest)
  end.

Definition fgets (size : Z) (data : list Z) : option (list Z * list Z) :=
  match data with
  | [] => None
  | _ => Some (fgets_loop (Z.to_nat (size - 1)) data)
  end.

Fixpoint drop_line_ending (reversed : list Z) : list Z :=
  match reversed with
  | ch :: rest => if (ch =? LF) || (ch =? CR) then drop_line_ending rest else reversed
  | [] => []
  end.

Definition strip_line_ending (line : list Z) : list Z := rev (drop_line_ending (rev (c_str line))).

Record loaded_record := mk_record { record_name : list Z; record_password_hash : list Z }.

(** The part of [load_record] from the three reads to the copies into the
    record; [Some None] is [goto cleanup], [None] a copy outside its array. *)
Definition parse_record (version_line name_line hash_line name : list Z) : option (option loaded_record) :=
  let version_line := strip_line_ending version_line in
  let name_line := strip_line_ending name_line in
  let hash_line := strip_line_ending hash_line in
  if negb (bytes_eqb version_line RECORD_VERSION) || negb (bytes_eqb (take 5 name_line) (txt "name="))
     || negb (bytes_eqb (take 5 hash_line) (txt "hash=")) then Some None
  else if negb (player_store_name_valid (Some (drop 5 name_line)))
          || negb (ascii_equal_ignore_case (drop 5 name_line) name) then Some None
  else if strlen (drop 5 hash_line) >=? pwhash_STRBYTES then Some None
  else
    record_name ← store_str (PLAYER_NAME_MAX + 1) (drop 5 name_line);
    record_hash ← store_str pwhash_STRBYTES (drop 5 hash_line);
    Some (Some (mk_record record_name record_hash)).

(** The three reads and the parse, on the content of the file. *)
Definition read_record (data name : list Z) : option (option loaded_record) :=
  match ('(version_line, rest) ← fgets 64 data;
         '(name_line, rest) ← fgets 64 rest;
         '(hash_line, _) ← fgets (pwhash_STRBYTES + 16) rest;
         Some (version_line, name_line, hash_line)) with
  | None => Some None
  | Some (version_line, name_line, hash_line) => parse_record version_line name_line hash_line name
  end.

(** * The file system *)

Inductive file_kind := Regular | Directory | Symlink.

Record file := mk_file {
  file_kind_of : file_kind;
  file_mode : Z;
  file_uid : Z;
  content : list Z;
  (** [fsync] was called since the last write *)
  file_synced : bool
}.

Definition eta_file f := mk_file (file_kind_of f) (file_mode f) (file_uid f) (content f) (file_synced f).
#[export] Instance set_file_mode : Setter file_mode := ltac:(setter_of eta_file file_mode).
#[export] Instance set_content : Setter content := ltac:(setter_of eta_file content).
#[export] Instance set_file_synced : Setter file_synced := ltac:(setter_of eta_file file_synced).

Inductive errno := EINTR | EEXIST | ENOENT | ELOOP | EIO.

(** What the kernel does with the next call; [Partial n] is a write of at most
    [n] bytes and success for every other call. *)
Inductive outcome := Success | Failure (e : errno) | Partial (n : nat).

Abbreviation file_map := (gmap (list Z) file).

Record store_world := mk_store_world {
  files : file_map;
  (** what the last directory [fsync] made durable *)
  durable : file_map;
  outcomes : list outcome;
  snapshots : list file_map;
  euid : Z;
  (** how many times the random generator was used for a salt *)
  salts : nat
}.

Definition eta_store w := mk_store_world (files w) (durable w) (outcomes w) (snapshots w) (euid w) (salts w).
#[export] Instance set_files : Setter files := ltac:(setter_of eta_store files).
#[export] Instance set_durable : Setter durable := ltac:(setter_of eta_store durable).
#[export] Instance set_outcomes : Setter outcomes := ltac:(setter_of eta_store outcomes).
#[export] Instance set_snapshots : Setter snapshots := ltac:(setter_of eta_store snapshots).
#[export] Instance set_salts : Setter salts := ltac:(setter_of eta_store salts).

(** libsodium's password hashing: [pwhash_str i pw] is the [i]th call of
    [crypto_pwhash_str_alg] (its salt is random), [None] when it runs out of
    memory. *)
Class Pwhash := {
  pwhash_str : nat -> list Z -> option (list Z);
  pwhash_str_verify : list Z -> list Z -> bool;
  pwhash_str_needs_rehash : list Z -> Z
}.

(** The documented contract of the three calls that the store relies on. *)
Class PwhashLaws (P : Pwhash) := {
  pwhash_str_format : forall i pw h, pwhash_str i pw = Some h ->
    h <> [] /\ Zlen h < pwhash_STRBYTES /\ Forall (fun b => 32 < b < 127) h;
  pwhash_str_correct : forall i pw h, pwhash_str i pw = Some h -> pwhash_str_verify h pw = true
}.

(** The path [mkstemp] creates: the template with its six X replaced, a name
    not in use; [None] when no such name is left. *)
Class Mkstemp := { mkstemp_path : file_map -> list Z -> option (list Z) }.
Class MkstempLaws (T : Mkstemp) := {
  mkstemp_fresh : forall m prefix path, mkstemp_path m prefix = Some path -> m !! path = None;
  mkstemp_form : forall m prefix path, mkstemp_path m prefix = Some path ->
    exists suffix, path = prefix ++ suffix /\ length suffix = 6%nat /\ Forall (fun b => name_char b = true) suffix
}.

(** * System calls *)

Definition next_outcome : M store_world outcome := fun w =>
  match outcomes w with
  | [] => Some (Success, w)
  | o :: os => Some (o, w <| outcomes := os |>)
  end.

(** Every change of the file system is a new snapshot. *)
Definition change (f : file_map -> file_map) (w : store_world) : store_world :=
  w <| files := f (files w) |> <| snapshots := f (files w) :: snapshots w |>.

(** A call without effect on the files: close, fdopen, reading a line. *)
Definition sys_plain : M store_world bool :=
  o ← next_outcome; mret (match o with Failure _ => false | _ => true end).

(** A call that changes the files when it succeeds. *)
Definition sys_change (f : file_map -> file_map) : M store_world bool :=
  ok ← sys_plain; when ok (modify (change f)) ;; mret ok.

(** [open(path, O_RDONLY | O_CLOEXEC | O_NOFOLLOW)].  [ENOENT] and [ELOOP]
    (and [EEXIST] of [link] below) are answers about the files, never an
    outcome of trouble; every other error stands for [EIO]. *)
Definition sys_open (path : list Z) : M store_world (errno + file) :=
  o ← next_outcome;
  w ← gets id;
  mret (match o with
        | Failure _ => inl EIO
        | _ => match files w !! path with
               | None => inl ENOENT
               | Some f => match file_kind_of f with Symlink => inl ELOOP | _ => inr f end
               end
        end).

(** [link(from, to)]; no file is written through a name after it is linked, so
    the two names may hold copies. *)
Definition sys_link (from to : list Z) : M store_world (errno + unit) :=
  o ← next_outcome;
  w ← gets id;
  match o with
  | Failure _ => mret (inl EIO)
  | _ => match files w !! to, files w !! from with
         | Some _, _ => mret (inl EEXIST)
         | None, None => mret (inl ENOENT)
         | None, Some f => modify (change (insert to f)) ;; mret (inr tt)
         end
  end.

Definition sys_rename (from to : list Z) : M store_world bool :=
  ok ← sys_plain;
  w ← gets id;
  match ok, files w !! from with
  | true, Some f => modify (change (fun m => delete from (<[to := f]> m))) ;; mret true
  | _, _ => mret false
  end.

Definition sys_unlink (path : list Z) : M store_world bool := sys_change (delete path).

Section store.
Context `{!Pwhash, !Mkstemp}.

Definition sys_mkstemp (prefix : list Z) : M store_world (option (list Z)) :=
  ok ← sys_plain;
  w ← gets id;
  match (if (ok : bool) then mkstemp_path (files w) prefix else None) with
  | Some path => modify (change (insert path (mk_file Regular 384 (euid w) [] false))) ;; mret (Some path)
  | None => mret None
  end.

(** * Helpers of the store *)

(** [struct player_store] is the canonical directory.  [Some None] is the
    result -1, [None] a store outside [normalized]. *)
Definition build_player_path (directory : list Z) (name : option (list Z)) (path_size : Z) : option (option (list Z)) :=
  if negb (player_store_name_valid name) then Some None
  else
    normalized ← local_str (PLAYER_NAME_MAX + 1) (map ascii_lower (c_str (default [] name)));
    let path := directory ++ txt "/" ++ normalized ++ PLAYER_FILE_SUFFIX in
    if Zlen path >=? path_size then Some None else Some (Some path).

(** The state when the loop of [write_all] has [data] left to write and the
    kernel answers with [os]. *)
Definition append_data (path data : list Z) : file_map -> file_map :=
  alter (fun f => f <| content := content f ++ data |> <| file_synced := false |>) path.

Fixpoint write_loop (os : list outcome) (path data : list Z) (w : store_world) : Z * store_world :=
  match data with
  | [] => (0, w <| outcomes := os |>)
  | _ =>
      match os with
      | [] => (0, change (append_data path data) w <| outcomes := [] |>)
      | Success :: os => (0, change (append_data path data) w <| outcomes := os |>)
      | Failure EINTR :: os => write_loop os path data w
      | Failure _ :: os => (-1, w <| outcomes := os |>)
      | Partial n :: os =>
          if Nat.eqb n 0 then (-1, w <| outcomes := os |>)
          else write_loop os path (drop n data) (change (append_data path (take n data)) w)
      end
  end.

Definition write_all (path data : list Z) : M store_world Z := fun w =>
  Some (write_loop (outcomes w) path data w).

Definition sync_directory : M store_world Z :=
  opened ← sys_plain;
  if negb opened then mret (-1)
  else
    ok ← sys_plain;
    when ok (modify (fun w => w <| durable := files w |>)) ;;
    sys_plain ;;
    mret (if (ok : bool) then 0 else -1).

(** * Loading *)

(** [inl] is the result code of a failed load: 1 when there is no record. *)
Definition load_record (directory name : list Z) : M store_world (Z + loaded_record) :=
  path ← lift_opt (build_player_path directory (Some name) PATH_MAX);
  match path with
  | None => mret (inl (-1))
  | Some path =>
      fd ← sys_open path;
      match fd with
      | inl e => mret (inl (match e with ENOENT => 1 | _ => -1 end))
      | inr f =>
          stated ← sys_plain;
          w ← gets id;
          if negb stated || negb (match file_kind_of f with Regular => true | _ => false end)
             || negb (file_uid f =? euid w) || negb (Z.land (file_mode f) 63 =? 0)
          then sys_plain ;; mret (inl (-1))
          else
            opened ← sys_plain;
            if negb opened then sys_plain ;; mret (inl (-1))
            else
              readable ← sys_plain;
              result ← lift_opt (if negb readable then Some None else read_record (content f) name);
              closed ← sys_plain;
              mret (match result with
                    | Some record => if (closed : bool) then inr record else inl (-1)
                    | None => inl (-1)
                    end)
      end
  end.

Definition player_store_exists (directory name : list Z) : M store_world Z :=
  result ← load_record directory name;
  mret (match result with
        | inr _ => 1
        | inl code => if code =? 1 then 0 else -1
        end).

(** * Prepared passwords *)

(** A token is its 256 bytes. *)
Definition token_clear : list Z := replicate 256 0.

Definition hash_call (password : list Z) : M store_world (option (list Z)) :=
  n ← gets salts;
  modify (fun w => w <| salts := S n |>) ;;
  mret (pwhash_str n password).

(** The result code and the token left in [prepared]. *)
Definition player_store_prepare_password (password token : list Z) : M store_world (Z * list Z) :=
  if (Zlen password <? PLAYER_PASSWORD_MIN) || (Zlen password >? PLAYER_PASSWORD_MAX) then mret (-1, token)
  else
    hash ← hash_call password;
    mret (match hash with
          | None => (-1, token_clear)
          | Some h => (0, h ++ drop (length h) token_clear)
          end).

(** The string at the start of a token, unless it is empty or unterminated. *)
Definition token_hash (token : list Z) : option (list Z) :=
  if (Zlen (c_str token) =? 0) || (Zlen (c_str token) =? Zlen token) then None else Some (c_str token).

Definition player_store_password_matches (token password : list Z) : Z :=
  if Zlen password >? PLAYER_PASSWORD_MAX then -1
  else match token_hash token with
       | None => -1
       | Some hash => if pwhash_str_verify hash password then 1 else 0
       end.

(** * Publishing a record *)

(** The temporary file up to its [close]: mode, whole content, [fsync].
    Whatever stops it, the descriptor ends closed. *)
Definition write_temporary (path data : list Z) : M store_world bool :=
  moded ← sys_change (alter (fun f => f <| file_mode := 384 |>) path);
  if negb moded then sys_plain ;; mret false
  else
    written ← write_all path data;
    if negb (written =? 0) then sys_plain ;; mret false
    else
      synced ← sys_change (alter (fun f => f <| file_synced := true |>) path);
      if negb synced then sys_plain ;; mret false else sys_plain.

Definition write_new_record_atomic (directory name hash : list Z) : M store_world Z :=
  path ← lift_opt (build_player_path directory (Some name) PATH_MAX);
  match path with
  | None => mret (-1)
  | Some final_path =>
      let template := directory ++ txt "/.player-write-" in
      if Zlen template + 6 >=? PATH_MAX then mret (-1)
      else
        match build_record_text 512 name hash with
        | None => mret (-1)
        | Some record_text =>
            temp ← sys_mkstemp template;
            match temp with
            | None => mret (-1)
            | Some temp_path =>
                written ← write_temporary temp_path record_text;
                '(result, linked) ←
                  (if negb written then mret (-1, false)
                   else
                     published ← sys_link temp_path final_path;
                     match published with
                     | inl EEXIST => mret (1, false)
                     | inl _ => mret (-1, false)
                     | inr _ => synced ← sync_directory; mret (if negb (synced =? 0) then -1 else 0, true)
                     end);
                when (negb (result =? 0) && linked) (sys_unlink final_path ;; mret tt) ;;
                sys_unlink temp_path ;;
                mret result
            end
        end
  end.

Definition replace_record_atomic (directory name hash : list Z) : M store_world Z :=
  path ← lift_opt (build_player_path directory (Some name) PATH_MAX);
  match path with
  | None => mret (-1)
  | Some final_path =>
      let template := directory ++ txt "/.player-rehash-" in
      if Zlen template + 6 >=? PATH_MAX then mret (-1)
      else
        match build_record_text 512 name hash with
        | None => mret (-1)
        | Some record_text =>
            temp ← sys_mkstemp template;
            match temp with
            | None => mret (-1)
            | Some temp_path =>
                written ← write_temporary temp_path record_text;
                result ←
                  (if negb written then mret (-1)
                   else
                     renamed ← sys_rename temp_path final_path;
                     if negb renamed then mret (-1)
                     else synced ← sync_directory; mret (if negb (synced =? 0) then -1 else 0));
                sys_unlink temp_path ;;
                mret result
            end
        end
  end.

Definition player_store_create (directory name token : list Z) : M store_world Z :=
  if negb (player_store_name_valid (Some name)) then mret (-1)
  else match token_hash token with
       | None => mret (-1)
       | Some hash => if strlen hash >=? pwhash_STRBYTES then mret (-1) else write_new_record_atomic directory name hash
       end.

(** The result and the value stored through [rehashed]. *)
Definition player_store_verify_password (directory name password : list Z) : M store_world (Z * Z) :=
  if Zlen password >? PLAYER_PASSWORD_MAX then mret (-1, 0)
  else
    loaded ← load_record directory name;
    match loaded with
    | inl _ => mret (-1, 0)
    | inr record =>
        let verified := pwhash_str_verify (record_password_hash record) password in
        if verified && (pwhash_str_needs_rehash (record_password_hash record) =? 1) then
          updated ← hash_call password;
          rehashed ← match updated with
                     | None => mret 0
                     | Some updated_hash =>
                         result ← replace_record_atomic directory (record_name record) updated_hash;
                         mret (if result =? 0 then 1 else 0)
                     end;
          mret (1, rehashed)
        else mret (if verified then 1 else 0, 0)
    end.
End store.
