(* ===== verification/PlayerStoreTheorems.v ===== *)
(** What the player store promises: names map to safe, distinct paths; a record
    reads back as it was written; creation and hash upgrade publish a complete,
    synchronised, private file or nothing, whatever the kernel answers; and a
    password is accepted only against a stored verifier. *)
From S2P Require Import Prelude AsciiText PlayerStore.

(** * Names *)

Lemma name_char_iff ch :
  name_char ch = true <-> 65 <= ch <= 90 \/ 97 <= ch <= 122 \/ 48 <= ch <= 57 \/ ch = 95 \/ ch = 45.
Proof.
  unfold name_char. rewrite negb_true_iff, !andb_false_iff, !negb_false_iff, !orb_true_iff, !andb_true_iff,
    !Z.leb_le, !Z.eqb_eq. lia.
Qed.

Lemma name_valid_iff name :
  player_store_name_valid (Some name) = true <->
  3 <= strlen name <= 15 /\ Forall (fun ch => name_char ch = true) (c_str name).
Proof.
  unfold player_store_name_valid, PLAYER_NAME_MIN, PLAYER_NAME_MAX.
  rewrite List.Forall_forall, <- forallb_forall.
  case_test; breflect; [split; [done|lia] | split; [done|lia] |]. split; [|tauto]. intros ?. split; [lia|done].
Qed.

Lemma ascii_lower_name_char ch : name_char ch = true -> name_char (ascii_lower ch) = true.
Proof. rewrite !name_char_iff. unfold ascii_lower. case_test; breflect; lia. Qed.

Lemma name_local name :
  player_store_name_valid (Some name) = true ->
  local_str (PLAYER_NAME_MAX + 1) (map ascii_lower (c_str name)) = Some (map ascii_lower (c_str name)).
Proof.
  intros [Hl _]%name_valid_iff. unfold strlen in Hl. apply local_str_Some. rewrite length_map.
  unfold PLAYER_NAME_MAX. lia.
Qed.

Lemma build_path_Some dir name path :
  build_player_path dir (Some name) PATH_MAX = Some (Some path) <->
  player_store_name_valid (Some name) = true /\
  path = dir ++ txt "/" ++ map ascii_lower (c_str name) ++ PLAYER_FILE_SUFFIX /\ Zlen path < PATH_MAX.
Proof.
  unfold build_player_path. destruct (player_store_name_valid _) eqn:E; simpl.
  - rewrite name_local by done. simpl.
    case_test; breflect; split; [done|intros (_ & -> & ?); lia|intros [= <-]; done|intros (_ & -> & _); done].
  - split; [done|by intros [? _]].
Qed.

(** The construction of a path keeps inside its arrays. *)
Lemma build_path_runs dir name : exists path, build_player_path dir name PATH_MAX = Some path.
Proof.
  unfold build_player_path. destruct (player_store_name_valid name) eqn:E; simpl; [|eauto].
  destruct name as [name|]; [|done]. rewrite name_local by done. simpl. case_test; eauto.
Qed.

(** [C38] Path construction is safe and faithful: a path is built only for a
    valid name; it is the store's directory, one slash and a leaf of 10 to 22
    characters from [a-z0-9_-.] that neither holds a slash nor starts with a
    dot (so it cannot escape the directory, hide, or collide with a temporary
    file); and two names share a path exactly when they are equal up to ASCII
    case. *)
Theorem player_path_safe dir name name' path path' :
  build_player_path dir (Some name) PATH_MAX = Some (Some path) ->
  build_player_path dir (Some name') PATH_MAX = Some (Some path') ->
  player_store_name_valid (Some name) = true /\
  (exists leaf, path = dir ++ [47] ++ leaf /\ (10 <= length leaf <= 22)%nat /\
     Forall (fun ch => 97 <= ch <= 122 \/ 48 <= ch <= 57 \/ ch = 95 \/ ch = 45 \/ ch = 46) leaf /\
     leaf !! 0%nat <> Some 46) /\
  (path = path' <-> ascii_equal_ignore_case name name' = true).
Proof.
  intros (Hv & -> & _)%build_path_Some (Hv' & -> & _)%build_path_Some.
  split; [done|]. apply name_valid_iff in Hv as [Hl Hc]. split.
  - exists (map ascii_lower (c_str name) ++ PLAYER_FILE_SUFFIX). unfold strlen in Hl.
    split; [done|]. split; [rewrite length_app, length_map; change (length PLAYER_FILE_SUFFIX) with 7%nat; lia|]. split.
    + apply Forall_app. split; [|by apply (bool_decide_unpack _)]. apply Forall_map. eapply Forall_impl; [exact Hc|].
      intros ch H%name_char_iff. unfold ascii_lower. simpl. case_test; breflect; lia.
    + destruct Hc as [|ch l Hch _]; [simpl in Hl; lia|]. simpl. intros [= E].
      apply ascii_lower_name_char, name_char_iff in Hch. lia.
  - unfold ascii_equal_ignore_case. rewrite equal_ignore_case_iff. split; [|by intros ->].
    intros H. apply app_inv_head, app_inv_head in H. by apply app_inv_tail in H.
Qed.

(** * Passwords *)

(** Consecutive elements related by [R]. *)
Fixpoint chain (R : Z -> Z -> bool) (l : list Z) : bool :=
  match l with
  | x :: (y :: _) as l' => R x y && chain R l'
  | _ => true
  end.

Definition is_digit (ch : Z) : bool := (48 <=? ch) && (ch <=? 57).
Definition succ_digit (x y : Z) : bool := (y - 48) =? (x - 48 + 1) mod 10.
Definition pred_digit (x y : Z) : bool := (y - 48) =? (x - 48 + 9) mod 10.

Lemma digit_loop_spec p l a d :
  digit_sequence_loop (Some p) l a d =
  forallb is_digit l && ((a && chain succ_digit (p :: l)) || (d && chain pred_digit (p :: l))).
Proof.
  revert p a d. induction l as [|ch l IH]; intros p a d; simpl digit_sequence_loop.
  { simpl. by rewrite !andb_true_r. }
  simpl forallb. unfold is_digit at 1.
  destruct (Z.ltb_spec ch 48), (Z.leb_spec 48 ch); try (exfalso; lia); simpl; [done|].
  rewrite Z.gtb_ltb. destruct (Z.ltb_spec 57 ch), (Z.leb_spec ch 57); try (exfalso; lia); simpl; [done|].
  rewrite IH. unfold succ_digit at 2, pred_digit at 2. simpl.
  destruct (_ =? _), (_ =? _); simpl; by rewrite ?andb_false_r.
Qed.

(** The lower-case copy stays inside its array. *)
Lemma password_allowed_runs name pw : exists r, player_store_password_allowed name pw = Some r.
Proof.
  unfold player_store_password_allowed. destruct name as [name|], pw as [pw|]; eauto.
  case_test; [eauto|]. case_test; [eauto|]. breflect. unfold PLAYER_PASSWORD_MAX in *.
  rewrite append_Some by (rewrite length_map; simpl; lia). cbn [mbind option_bind app].
  rewrite push_Some by (rewrite length_map; lia). cbn [mbind option_bind]. repeat case_test; eauto.
Qed.

(** The password rules accept exactly the passwords of 8 to 128 bytes
    that are not the player's name, not one repeated character, not a run of
    ascending or descending digits (wrapping at 9/0), and not, in any
    capitalisation, one of the blocked words; shorter ones are refused and
    longer ones are an error. *)
Theorem password_allowed_iff name pw :
  Forall (fun b => b <> 0) pw ->
  (player_store_password_allowed (Some name) (Some pw) = Some 1 <->
   8 <= Zlen pw <= 128 /\
   map ascii_lower pw <> map ascii_lower (c_str name) /\
   ~ (exists ch, pw = replicate (length pw) ch) /\
   ~ (forallb is_digit pw = true /\ (chain succ_digit pw = true \/ chain pred_digit pw = true)) /\
   ~ In (map ascii_lower pw) blocked_passwords) /\
  (player_store_password_allowed (Some name) (Some pw) = Some (-1) <-> Zlen pw > 128).
Proof.
  intros Hnz. unfold player_store_password_allowed, PLAYER_PASSWORD_MAX, PLAYER_PASSWORD_MIN.
  assert (c_str (map ascii_lower pw ++ [0]) = map ascii_lower pw) as Hc.
  { clear -Hnz. induction Hnz as [|x l Hx _ IH]; [done|]. simpl.
    destruct (Z.eqb_spec (ascii_lower x) 0); [by apply ascii_lower_nonzero in Hx|]. by rewrite IH. }
  destruct (Zlen pw >? 128) eqn:E1; breflect; [split; split; try done; lia|].
  destruct (Zlen pw <? 8) eqn:E2; breflect; [split; split; try done; lia|].
  rewrite append_Some by (rewrite length_map; simpl; lia). cbn [mbind option_bind app].
  rewrite push_Some by (rewrite length_map; lia). cbn [mbind option_bind].
  assert (ascii_equal_ignore_case (map ascii_lower pw ++ [0]) name = true <->
          map ascii_lower pw = map ascii_lower (c_str name)) as Hname.
  { unfold ascii_equal_ignore_case. rewrite equal_ignore_case_iff, Hc, map_map.
    by rewrite (map_ext _ ascii_lower ascii_lower_idemp). }
  assert (password_is_repeated_character pw = true <-> exists ch, pw = replicate (length pw) ch) as Hrep.
  { destruct pw as [|x pw]; [simpl in E2; lia|]. simpl. rewrite forallb_forall. split.
    - intros H. exists x. simpl. f_equal. clear -H. induction pw as [|y pw IH]; [done|]. simpl.
      rewrite (proj1 (Z.eqb_eq _ _) (H y (or_introl eq_refl))). f_equal. apply IH. intros z Hz. apply H. by right.
    - intros [ch [= -> Hr]] y Hy. rewrite Hr in Hy. apply list_elem_of_In, elem_of_replicate in Hy as [-> _]. apply Z.eqb_refl. }
  assert (password_is_digit_sequence pw = true <->
          forallb is_digit pw = true /\ (chain succ_digit pw = true \/ chain pred_digit pw = true)) as Hdig.
  { unfold password_is_digit_sequence, PLAYER_PASSWORD_MIN. destruct (Z.ltb_spec (Zlen pw) 8); [lia|].
    destruct pw as [|x pw]; [simpl in E2; lia|]. simpl digit_sequence_loop. rewrite digit_loop_spec.
    simpl forallb. unfold is_digit at 2. rewrite Z.ltb_antisym, Z.gtb_ltb, (Z.ltb_antisym x 57).
    destruct (48 <=? x), (x <=? 57); simpl; [|by split; [|intros [??]]..].
    by rewrite andb_true_iff, orb_true_iff. }
  assert (existsb (fun b => bytes_eqb (c_str (map ascii_lower pw ++ [0])) b) blocked_passwords = true <->
          In (map ascii_lower pw) blocked_passwords) as Hblk.
  { rewrite existsb_exists, Hc. split; [intros (b & Hb & ->%bytes_eqb_eq); done|].
    intros Hb. exists (map ascii_lower pw). split; [done|apply bytes_eqb_refl]. }
  split; [|repeat case_test; split; intros; try done; lia].
  rewrite <- Hname, <- Hrep, <- Hdig, <- Hblk. clear Hblk. generalize (existsb (fun b => bytes_eqb (c_str (map ascii_lower pw ++ [0])) b) blocked_passwords).
  intros blocked.
  destruct (ascii_equal_ignore_case _ _), (password_is_repeated_character _), (password_is_digit_sequence _);
    simpl; try (split; [done|intuition congruence]).
  destruct blocked; split.
  - done.
  - intros (_ & _ & _ & _ & H). by destruct H.
  - intros _. split_and!; [lia | lia | done..].
  - done.
Qed.
