(* ===== verification/PlayerRecords.v ===== *)
(** Records on disk: the text round trip, atomic publication under every
    pattern of system-call failures, and what a successful verification
    means. *)
From S2P Require Import Prelude AsciiText PlayerStore PlayerStoreTheorems.

(** * Round trip of the record text *)

Definition no_newline (l : list Z) : Prop := Forall (fun b => b <> LF /\ b <> CR /\ b <> 0) l.

Lemma fgets_loop_line room l rest :
  no_newline l -> (length l < room)%nat -> fgets_loop room (l ++ LF :: rest) = (l ++ [LF], rest).
Proof.
  intros Hl. revert room. induction Hl as [|ch l (Hch & _ & _) _ IH]; intros [|room] Hlen; simpl in *; try lia; [done|].
  destruct (Z.eqb_spec ch LF); [done|]. by rewrite IH by lia.
Qed.

Lemma strip_line l : no_newline l -> strip_line_ending (l ++ [LF]) = l.
Proof.
  intros Hl. unfold strip_line_ending. rewrite c_str_id.
  - rewrite rev_app_distr. simpl. rewrite <- (rev_involutive l) at 2. f_equal.
    assert (no_newline (rev l)) as H by (apply List.Forall_rev in Hl; done).
    destruct H as [|ch r (H1 & H2 & _) _]; [done|]. simpl.
    destruct (Z.eqb_spec ch LF); [done|]. by destruct (Z.eqb_spec ch CR).
  - apply Forall_snoc; [|done]. eapply Forall_impl; [exact Hl|]. by intros b (_ & _ & ?).
Qed.

Lemma name_no_newline name : Forall (fun ch => name_char ch = true) name -> no_newline name.
Proof. intros H. eapply Forall_impl; [exact H|]. intros ch Hch%name_char_iff. unfold LF, CR. simpl. lia. Qed.

Lemma no_newline_app a b : no_newline a -> no_newline b -> no_newline (a ++ b).
Proof. apply Forall_app_2. Qed.

Lemma literal_no_newline (l : list Z) : forallb (fun b => (32 <=? b)) l = true -> no_newline l.
Proof.
  intros H. apply List.Forall_forall. intros b Hb. eapply forallb_forall in H; [|done]. breflect. unfold LF, CR. lia.
Qed.

(** A verifier as libsodium writes it. *)
Definition hash_ok (h : list Z) : Prop := h <> [] /\ Zlen h < pwhash_STRBYTES /\ Forall (fun b => 32 < b < 127) h.

Lemma hash_no_newline h : hash_ok h -> no_newline h.
Proof. intros (_ & _ & H). eapply Forall_impl; [exact H|]. unfold LF, CR. simpl. lia. Qed.

Lemma record_text_eq name hash :
  player_store_name_valid (Some name) = true -> Forall (fun b => b <> 0) name -> hash_ok hash ->
  build_record_text 512 name hash =
    Some ((RECORD_VERSION ++ [LF]) ++ ((txt "name=" ++ name) ++ [LF]) ++ (txt "hash=" ++ hash) ++ [LF]).
Proof.
  intros [Hl _]%name_valid_iff Hnz (H1 & H2 & H3). unfold build_record_text, strlen, pwhash_STRBYTES in *.
  rewrite (c_str_id name) in * by done. rewrite (c_str_id hash) by (eapply Forall_impl; [exact H3|]; simpl; lia).
  rewrite !length_app. change (length RECORD_VERSION) with 16%nat. change (length (txt "name=")) with 5%nat.
  change (length (txt "hash=")) with 5%nat. change (length [LF]) with 1%nat.
  destruct (Z.geb_spec (Z.of_nat (16 + (1 + (5 + (length name + (1 + (5 + (length hash + 1)))))))) 512); [lia|].
  by rewrite <- !(assoc_L (++)).
Qed.

Lemma fgets_line size l rest :
  no_newline l -> Zlen l + 1 < size -> fgets size ((l ++ [LF]) ++ rest) = Some (l ++ [LF], rest).
Proof.
  intros Hl Hs. rewrite <- (assoc_L (++)). simpl. unfold fgets.
  destruct (l ++ LF :: rest) eqn:E; [by destruct l|]. rewrite <- E. by rewrite fgets_loop_line by (try done; lia).
Qed.

Lemma read_record_text name name' hash :
  player_store_name_valid (Some name) = true -> Forall (fun b => b <> 0) name -> hash_ok hash ->
  ascii_equal_ignore_case name name' = true ->
  exists text, build_record_text 512 name hash = Some text /\ read_record text name' = Some (Some (mk_record name hash)).
Proof.
  intros Hv Hnz Hh Heq. rewrite record_text_eq by done. eexists. split; [done|].
  pose proof (hash_no_newline hash Hh) as Hhn. destruct Hh as (Hh1 & Hh2 & Hh3).
  pose proof Hv as [Hl Hc]%name_valid_iff. unfold strlen, pwhash_STRBYTES in *. rewrite (c_str_id name) in * by done.
  pose proof (name_no_newline name Hc) as Hnn.
  assert (no_newline (txt "name=" ++ name)) as N1 by by apply no_newline_app; [apply literal_no_newline|].
  assert (no_newline (txt "hash=" ++ hash)) as N2 by by apply no_newline_app; [apply literal_no_newline|].
  unfold read_record. rewrite fgets_line by (try done; by apply literal_no_newline). cbn [mbind option_bind].
  rewrite fgets_line by (try done; rewrite length_app; change (length (txt "name=")) with 5%nat; lia). cbn [mbind option_bind].
  rewrite <- (app_nil_r ((txt "hash=" ++ hash) ++ [LF])).
  rewrite fgets_line by (try done; rewrite length_app; change (length (txt "hash=")) with 5%nat;
    change pwhash_STRBYTES with 128; lia).
  cbn [mbind option_bind]. unfold parse_record. rewrite !strip_line by (try done; by apply literal_no_newline).
  rewrite bytes_eqb_refl.
  change (take 5 (txt "name=" ++ name)) with (txt "name="). change (take 5 (txt "hash=" ++ hash)) with (txt "hash=").
  change (drop 5 (txt "name=" ++ name)) with name. change (drop 5 (txt "hash=" ++ hash)) with hash.
  rewrite !bytes_eqb_refl, Hv, Heq. cbn [negb orb]. unfold strlen, pwhash_STRBYTES.
  rewrite c_str_id by by eapply Forall_impl; [exact Hhn|]; intros b (_ & _ & ?).
  destruct (Z.geb_spec (Zlen hash) 128); [lia|].
  rewrite !store_str_Some; unfold strlen, PLAYER_NAME_MAX; rewrite !c_str_id; try done; try lia.
  all: by eapply Forall_impl; [exact Hhn|]; intros b (_ & _ & ?).
Qed.

(** * Publication *)

(** [P] held of every state of the files since [w0]. *)
Record evolved (P : file_map -> Prop) (w0 w : store_world) : Prop := mk_evolved {
  ev_files : P (files w);
  ev_new : exists new, snapshots w = new ++ snapshots w0 /\ Forall P new;
  ev_euid : euid w = euid w0
}.

Lemma evolved_refl (P : file_map -> Prop) w : P (files w) -> evolved P w w.
Proof. intros H. constructor; [done| |done]. by exists []. Qed.

Lemma evolved_outcomes P w0 w os : evolved P w0 w -> evolved P w0 (w <| outcomes := os |>).
Proof. intros []. by constructor. Qed.

Lemma evolved_change (P : file_map -> Prop) w0 w f : evolved P w0 w -> P (f (files w)) -> evolved P w0 (change f w).
Proof.
  intros [H1 (new & H2 & H3) H4] Hf. constructor; [done| |done].
  exists (f (files w) :: new). simpl. rewrite H2. split; [done|]. by constructor.
Qed.

Lemma evolved_mono (P Q : file_map -> Prop) w0 w : (forall m, P m -> Q m) -> evolved P w0 w -> evolved Q w0 w.
Proof.
  intros HPQ [H1 (new & H2 & H3) H4]. constructor; [auto| |done]. exists new. split; [done|].
  eapply Forall_impl; [exact H3|]. auto.
Qed.

Lemma wp_next (Q : outcome -> store_world -> Prop) w :
  (forall o os, Q o (w <| outcomes := os |>)) -> wp next_outcome Q w.
Proof.
  intros H. unfold wp, next_outcome. destruct (outcomes w) as [|o os] eqn:E; [|apply H].
  specialize (H Success []). replace w with (w <| outcomes := [] |>); [done|]. destruct w; simpl in *. by rewrite E.
Qed.

Lemma wp_plain (Q : bool -> store_world -> Prop) w :
  (forall b os, Q b (w <| outcomes := os |>)) -> wp sys_plain Q w.
Proof.
  intros H. unfold sys_plain. apply wp_bind, wp_next. intros o os. apply wp_ret, H.
Qed.

Lemma wp_sys_change f (Q : bool -> store_world -> Prop) w :
  (forall os, Q false (w <| outcomes := os |>)) -> (forall os, Q true (change f (w <| outcomes := os |>))) ->
  wp (sys_change f) Q w.
Proof.
  intros Hf Ht. unfold sys_change. apply wp_bind, wp_plain. intros [] os; apply wp_bind.
  - apply wp_modify, wp_ret, Ht.
  - apply wp_ret, wp_ret, Hf.
Qed.

(** ** The temporary file *)

Section temporary.
Context (P : file_map -> Prop) (temp : list Z) (w0 : store_world).
(** What happens under the temporary name does not matter to [P]. *)
Context (P_temp : forall f m, P m -> P (alter f temp m)).

(** The temporary file while it is written. *)
Definition temp_state (data : list Z) (w : store_world) : Prop :=
  evolved P w0 w /\ exists f, files w !! temp = Some f /\ file_kind_of f = Regular /\ file_uid f = euid w0 /\
    file_mode f = 384 /\ content f = data.

Lemma temp_append data more w : temp_state data w -> temp_state (data ++ more) (change (append_data temp more) w).
Proof.
  intros (Hev & f & Hf & H1 & H2 & H3 & H4). split.
  - apply evolved_change; [done|]. apply P_temp, Hev.
  - simpl. unfold append_data. rewrite lookup_alter_eq, Hf. simpl. eexists. split; [done|]. simpl. by rewrite H4.
Qed.

Lemma temp_outcomes data w os : temp_state data w -> temp_state data (w <| outcomes := os |>).
Proof. intros (Hev & H). split; [by apply evolved_outcomes|done]. Qed.

(** The loop writes everything or reports failure, whatever short and
    interrupted writes it meets. *)
Lemma write_loop_spec os done data w :
  temp_state done w ->
  let '(r, w') := write_loop os temp data w in
  (r = 0 \/ r = -1) /\ exists some, temp_state (done ++ some) w' /\ (r = 0 -> some = data).
Proof.
  revert done data w. induction os as [|o os IH]; intros done data w Hw.
  - destruct data as [|d data]; simpl.
    + split; [by left|]. exists []. rewrite app_nil_r. split; [by apply temp_outcomes|done].
    + split; [by left|]. exists (d :: data). split; [|done]. by apply temp_append, temp_outcomes.
  - destruct data as [|d data].
    { simpl. split; [by left|]. exists []. rewrite app_nil_r. split; [by apply temp_outcomes|done]. }
    assert (forall r, r = -1 -> (r = 0 \/ r = -1) /\
      exists some, temp_state (done ++ some) (w <| outcomes := os |>) /\ (r = 0 -> some = d :: data)) as Hfail.
    { intros r ->. split; [by right|]. exists []. rewrite app_nil_r. split; [by apply temp_outcomes|done]. }
    destruct o as [|e|n]; simpl.
    + split; [by left|]. exists (d :: data). split; [|done]. by apply temp_append, temp_outcomes.
    + destruct e; [by apply IH | by apply Hfail..].
    + destruct (Nat.eqb_spec n 0); [by apply Hfail|].
      pose proof (IH (done ++ take n (d :: data)) (drop n (d :: data)) _ (temp_append _ (take n (d :: data)) _ Hw)) as H.
      destruct (write_loop _ _ _ _) as [r w']. destruct H as (Hr & some & Hs & Hall). split; [done|].
      exists (take n (d :: data) ++ some). rewrite (assoc_L (++)). split; [done|].
      intros Hr0. rewrite Hall by done. apply take_drop.
Qed.

Definition temp_fresh (w : store_world) : Prop :=
  evolved P w0 w /\ files w !! temp = Some (mk_file Regular 384 (euid w0) [] false).

Lemma write_temporary_spec data w :
  temp_fresh w ->
  wp (write_temporary temp data) (fun ok w' =>
    evolved P w0 w' /\ (ok = true -> files w' !! temp = Some (mk_file Regular 384 (euid w0) data true))) w.
Proof.
  intros [Hev Hf]. unfold write_temporary. apply wp_bind, wp_sys_change.
  { intros os. apply wp_bind, wp_plain. intros b os'. apply wp_ret. split; [by repeat apply evolved_outcomes|done]. }
  intros os. apply wp_bind.
  assert (temp_state [] (change (alter (fun f => f <| file_mode := 384 |>) temp) (w <| outcomes := os |>))) as Ht.
  { split; [apply evolved_change; [by apply evolved_outcomes|apply P_temp, Hev]|].
    simpl. rewrite lookup_alter_eq, Hf. simpl. eexists. split; done. }
  unfold wp at 1, write_all. cbn [negb].
  pose proof (write_loop_spec (outcomes (change (alter (fun f => f <| file_mode := 384 |>) temp) (w <| outcomes := os |>)))
    [] data _ Ht) as H.
  destruct (write_loop _ _ _ _) as [r w1]. destruct H as (Hr & some & Hs & Hall). simpl in Hs.
  destruct (Z.eqb_spec r 0) as [->|Hr0]; cbn [negb].
  2: { apply wp_bind, wp_plain. intros b os'. apply wp_ret. split; [by apply evolved_outcomes, Hs|done]. }
  rewrite Hall in Hs by done. destruct Hs as (Hev1 & f & Hf1 & K1 & K2 & K3 & K4).
  apply wp_bind, wp_sys_change.
  { intros os'. apply wp_bind, wp_plain. intros b os''. apply wp_ret. split; [by repeat apply evolved_outcomes|done]. }
  intros os'. apply wp_plain. intros b os''. split.
  - apply evolved_outcomes, evolved_change; [by apply evolved_outcomes|apply P_temp, Hev1].
  - intros _. simpl. rewrite lookup_alter_eq, Hf1. simpl. f_equal. destruct f; simpl in *. by subst.
Qed.
End temporary.

(** ** Publishing under the final name *)

(** What can be seen while [name]'s record is published: apart from temporary
    names, the files are those of [m0], except that the final name may hold
    the new file (only if [may]). *)
Definition publishing (m0 : file_map) (template final : list Z) (new : file) (may : Prop) (m : file_map) : Prop :=
  forall path, ~ template `prefix_of` path ->
    m !! path = m0 !! path \/ (path = final /\ may /\ m !! path = Some new).

Lemma publishing_start m0 template final new may : publishing m0 template final new may m0.
Proof. by left. Qed.

Lemma publishing_temp m0 template final new may m m' temp :
  template `prefix_of` temp -> (forall path, path <> temp -> m' !! path = m !! path) ->
  publishing m0 template final new may m -> publishing m0 template final new may m'.
Proof. intros Ht Hm H path Hp. rewrite Hm by congruence. by apply H. Qed.

Lemma final_not_temporary dir name path t :
  build_player_path dir (Some name) PATH_MAX = Some (Some path) -> ~ (dir ++ 47 :: 46 :: t) `prefix_of` path.
Proof.
  intros (Hv & -> & _)%build_path_Some Hp. apply prefix_app_inv, prefix_cons_inv_2 in Hp.
  apply name_valid_iff in Hv as [Hl Hc]. unfold strlen in Hl. destruct Hc as [|ch l Hch _]; [simpl in Hl; lia|].
  apply prefix_cons_inv_1 in Hp. apply ascii_lower_name_char, name_char_iff in Hch. lia.
Qed.

Lemma sync_directory_spec (Q : Z -> store_world -> Prop) w :
  (forall r os d, (r = 0 /\ d = files w \/ r = -1) ->
     Q r (w <| outcomes := os |> <| durable := d |>)) ->
  wp sync_directory Q w.
Proof.
  intros H. assert (forall r os, r = -1 -> Q r (w <| outcomes := os |>)) as H1.
  { intros r os ->. specialize (H (-1) os (durable w)). simpl in H. destruct w. apply H. by right. }
  unfold sync_directory. apply wp_bind, wp_plain. intros [] os; cbn [negb]; [|by apply wp_ret, H1].
  apply wp_bind, wp_plain. intros ok os1. apply wp_bind, wp_when; intros ->.
  - apply wp_modify, wp_bind, wp_plain. intros _ os2. apply wp_ret. simpl.
    apply (H 0 os2 (files w)). by left.
  - apply wp_bind, wp_plain. intros _ os2. apply wp_ret. by apply H1.
Qed.

Lemma unlink_result temp (r : Z) w : wp (sys_unlink temp ;; mret r) (fun r' _ => r' = r) w.
Proof. by apply wp_bind, wp_sys_change; intros os; apply wp_ret. Qed.

Section publish.
Context {PW : Pwhash} {MK : Mkstemp} {ML : MkstempLaws MK}.

Lemma sys_mkstemp_spec m0 template final new may (Q : option (list Z) -> store_world -> Prop) w :
  files w = m0 -> (forall os, Q None (w <| outcomes := os |>)) ->
  (forall temp w', template `prefix_of` temp ->
     temp_fresh (publishing m0 template final new may) temp w w' -> durable w' = durable w -> Q (Some temp) w') ->
  wp (sys_mkstemp template) Q w.
Proof.
  intros Hm HN HS. unfold sys_mkstemp. apply wp_bind, wp_plain. intros ok os. apply wp_bind, wp_gets. unfold id.
  destruct ok; [|by apply wp_ret]. simpl. destruct (mkstemp_path (files w) template) as [temp|] eqn:E; [|by apply wp_ret].
  apply wp_bind, wp_modify, wp_ret. destruct (mkstemp_form _ _ _ E) as (suffix & -> & _ & _).
  apply HS; [by apply prefix_app_r|split|done].
  - apply evolved_change; [apply evolved_outcomes, evolved_refl; rewrite Hm; apply publishing_start|].
    eapply publishing_temp with (temp := template ++ suffix); [by apply prefix_app_r| |rewrite <- Hm; apply publishing_start].
    intros path Hp. by rewrite lookup_insert_ne.
  - simpl. by rewrite lookup_insert_eq.
Qed.

Section steps.
Context (w : store_world) (template final temp : list Z) (new : file) (may : Prop).
Context (Htemp : template `prefix_of` temp) (Hfinal : ~ template `prefix_of` final).
Let P := publishing (files w) template final new may.

Lemma publishing_alter f m : P m -> P (alter f temp m).
Proof. apply publishing_temp with temp; [done|]. intros path Hp. by apply lookup_alter_ne. Qed.

Lemma publishing_delete m : P m -> P (delete temp m).
Proof. apply publishing_temp with temp; [done|]. intros path Hp. by apply lookup_delete_ne. Qed.

Lemma publishing_new m : may -> P m -> P (<[final := new]> m).
Proof.
  intros Hmay H path Hp. destruct (decide (path = final)) as [->|Hne]; [right; by rewrite lookup_insert_eq|].
  rewrite lookup_insert_ne by done. by apply H.
Qed.

Lemma publishing_undo m : files w !! final = None -> P m -> P (delete final m).
Proof.
  intros Hno H path Hp. destruct (decide (path = final)) as [->|Hne]; [left; by rewrite lookup_delete_eq|].
  rewrite lookup_delete_ne by done. by apply H.
Qed.

Lemma publishing_final m : P m -> m !! final = files w !! final \/ may /\ m !! final = Some new.
Proof. intros H. destruct (H final Hfinal) as [?|(_ & ? & ?)]; auto. Qed.

Lemma final_ne_temp : final <> temp.
Proof. by intros ->. Qed.

(** The last call: the temporary name goes away. *)
Lemma unlink_temporary (r : Z) w3 (R : store_world -> Prop) :
  evolved P w w3 -> (forall os, R (w3 <| outcomes := os |>)) -> (forall os, R (change (delete temp) (w3 <| outcomes := os |>))) ->
  wp (sys_unlink temp ;; mret r) (fun r' w' => r' = r /\ evolved P w w' /\ R w') w3.
Proof.
  intros Hev R1 R2. apply wp_bind, wp_sys_change; intros os; apply wp_ret; (split; [done|]); split; auto.
  - by apply evolved_outcomes.
  - apply evolved_change; [by apply evolved_outcomes|]. apply publishing_delete, Hev.
Qed.

Lemma publishing_weaken : forall m, publishing (files w) template final new False m -> P m.
Proof. intros m H path Hp. destruct (H path Hp) as [?|(_ & [] & _)]. by left. Qed.

(** After [link] or [rename] and the directory [fsync]: the result code and
    whether the new file took the final name. *)
Definition after_publish (out : Z * bool) (w3 : store_world) : Prop :=
  evolved P w w3 /\ (out.1 = 0 \/ out.1 = 1 \/ out.1 = -1) /\
  (out.1 = 0 -> may /\ files w3 !! final = Some new /\ durable w3 !! final = Some new) /\
  (out.1 = 1 -> is_Some (files w !! final)) /\ (out.2 = true -> may).

Lemma after_publish_fail w3 b : evolved P w w3 -> (b = true -> may) -> after_publish (-1, b) w3.
Proof. intros H Hb. unfold after_publish. split_and!; simpl; auto; done. Qed.

Lemma sync_step w3 :
  evolved P w w3 -> may -> files w3 !! final = Some new ->
  wp (synced ← sync_directory; mret (if negb (synced =? 0) then -1 else 0, true)) after_publish w3.
Proof.
  intros Hev3 Hm Hf. apply wp_bind, sync_directory_spec. intros r os' d Hr. apply wp_ret.
  assert (evolved P w (w3 <| outcomes := os' |> <| durable := d |>)) by (destruct Hev3; by constructor).
  destruct Hr as [[-> ->]| ->]; simpl; [unfold after_publish; split_and!; simpl; auto; done | by apply after_publish_fail].
Qed.

Lemma link_step w2 :
  (may <-> files w !! final = None) -> evolved (publishing (files w) template final new False) w w2 ->
  files w2 !! temp = Some new ->
  wp (published ← sys_link temp final;
      match published with
      | inl EEXIST => mret (1, false)
      | inl _ => mret (-1, false)
      | inr _ => synced ← sync_directory; mret (if negb (synced =? 0) then -1 else 0, true)
      end) after_publish w2.
Proof.
  intros Hmay Hev0 Ht. apply wp_bind. unfold sys_link. apply wp_bind, wp_next. intros o os.
  apply wp_bind, wp_gets. unfold id. cbn [files set_field set_outcomes].
  assert (files w2 !! final = files w !! final) as Esame.
  { by destruct (ev_files _ _ _ Hev0 final Hfinal) as [?|(_ & [] & _)]. }
  pose proof (evolved_mono _ _ _ _ publishing_weaken (evolved_outcomes _ _ _ os Hev0)) as Hev.
  assert (wp (match files w2 !! final, files w2 !! temp with
         | Some _, _ => mret (inl EEXIST)
         | None, None => mret (inl ENOENT)
         | None, Some f => modify (change (insert final f)) ;; mret (inr tt)
         end) (fun published w3 => wp (match published with
      | inl EEXIST => mret (1, false)
      | inl _ => mret (-1, false)
      | inr _ => synced ← sync_directory; mret (if negb (synced =? 0) then -1 else 0, true)
      end) after_publish w3) (w2 <| outcomes := os |>)) as Hgo.
  2: { destruct o; [done|by apply wp_ret, wp_ret, after_publish_fail|done]. }
  rewrite Esame, Ht. destruct (files w !! final) as [f|] eqn:E.
  { apply wp_ret, wp_ret. unfold after_publish. split_and!; simpl; eauto; done. }
  apply wp_bind, wp_modify, wp_ret, sync_step; [|by apply Hmay|simpl; by rewrite lookup_insert_eq].
  apply evolved_change; [done|]. apply publishing_new; [by apply Hmay|apply Hev].
Qed.

Lemma rename_step w2 :
  may -> evolved (publishing (files w) template final new False) w w2 -> files w2 !! temp = Some new ->
  wp (renamed ← sys_rename temp final;
      if negb renamed then mret (-1)
      else synced ← sync_directory; mret (if negb (synced =? 0) then -1 else 0))
    (fun r w3 => after_publish (r, true) w3 /\ r <> 1) w2.
Proof.
  intros Hmay Hev0 Ht. apply wp_bind. unfold sys_rename. apply wp_bind, wp_plain. intros ok os.
  apply wp_bind, wp_gets. unfold id. cbn [files set_field set_outcomes].
  pose proof (evolved_mono _ _ _ _ publishing_weaken (evolved_outcomes _ _ _ os Hev0)) as Hev.
  destruct ok; [|by apply wp_ret, wp_ret; split; [apply after_publish_fail|]]. rewrite Ht.
  apply wp_bind, wp_modify, wp_ret. cbn [negb].
  apply wp_bind, sync_directory_spec. intros r os' d Hr. apply wp_ret.
  pose proof final_ne_temp as Hne.
  assert (evolved P w (change (fun m => delete temp (<[final:=new]> m)) (w2 <| outcomes := os |>))) as Hev3.
  { apply evolved_change; [done|]. apply publishing_delete, publishing_new; [done|apply Hev]. }
  assert (evolved P w ((change (fun m => delete temp (<[final:=new]> m)) (w2 <| outcomes := os |>))
      <| outcomes := os' |> <| durable := d |>)) by (destruct Hev3; by constructor).
  destruct Hr as [[-> ->]| ->]; simpl; [|by split; [apply after_publish_fail|]]. split; [|done].
  unfold after_publish. split_and!; simpl; auto; try done. rewrite lookup_delete_ne, lookup_insert_eq by done. done.
Qed.
End steps.
(** A publication of [text] under [final]: every state of the files on the
    way shows the old record or the complete, private, synchronised new one,
    and leaves every other player alone; success means the new record is in
    place and durable; [1] means there already was a record. *)
Definition publishes (template final text : list Z) (may : Prop) (w : store_world) (r : Z) (w' : store_world) : Prop :=
  let new := mk_file Regular 384 (euid w) text true in
  evolved (publishing (files w) template final new may) w w' /\ (r = 0 \/ r = 1 \/ r = -1) /\
  (r = 0 -> may /\ files w' !! final = Some new /\ durable w' !! final = Some new) /\
  (r = 1 -> is_Some (files w !! final)).

Lemma publishes_early template final text may w os :
  publishes template final text may w (-1) (w <| outcomes := os |>).
Proof.
  unfold publishes. split_and!; simpl; auto; try done. apply evolved_outcomes, evolved_refl, publishing_start.
Qed.

Lemma unlink_published w template final temp text may r b w3 :
  template `prefix_of` temp -> ~ template `prefix_of` final ->
  after_publish w template final (mk_file Regular 384 (euid w) text true) may (r, b) w3 ->
  wp (sys_unlink temp ;; mret r) (fun r' w' => publishes template final text may w r' w') w3.
Proof.
  intros Ht Hf (Hev & Hr & H0 & H1 & _). simpl in *. assert (final <> temp) by (by intros ->).
  eapply wp_mono; [apply (unlink_temporary w template final temp (mk_file Regular 384 (euid w) text true) may Ht r w3 (fun w' =>
    files w' !! final = files w3 !! final /\ durable w' = durable w3)); [done|done|]|].
  { intros os. simpl. by rewrite lookup_delete_ne. }
  intros r' w' (-> & Hev' & E1 & E2). unfold publishes. rewrite E1, E2. auto.
Qed.

Lemma create_record_spec dir name hash text final w :
  build_player_path dir (Some name) PATH_MAX = Some (Some final) -> build_record_text 512 name hash = Some text ->
  wp (write_new_record_atomic dir name hash)
    (publishes (dir ++ txt "/.player-write-") final text (files w !! final = None) w) w.
Proof.
  intros Efinal Etext. unfold write_new_record_atomic. rewrite Efinal, Etext. apply wp_bind. eapply wp_lift; [done|].
  set (template := dir ++ txt "/.player-write-"). set (may := files w !! final = None).
  assert (forall r, r = -1 -> publishes template final text may w r w) as Hw.
  { intros r ->. pose proof (publishes_early template final text may w (outcomes w)) as H. by destruct w. }
  destruct (_ >=? _); [by apply wp_ret, Hw|].
  set (new := mk_file Regular 384 (euid w) text true).
  assert (~ template `prefix_of` final) as Hnt by by eapply final_not_temporary.
  apply wp_bind, (sys_mkstemp_spec (files w) template final new False); [done|intros; by apply wp_ret, publishes_early|].
  intros temp w1 Htemp Hfresh Hdur. apply wp_bind.
  eapply wp_mono; [apply write_temporary_spec; [|exact Hfresh]; by apply publishing_alter|].
  intros ok w2 [Hev2 Hok]. apply wp_bind.
  apply wp_mono with (Q := after_publish w template final new may).
  { destruct ok; cbn [negb]; [by apply link_step; auto|]. apply wp_ret, after_publish_fail; [|done].
    by eapply evolved_mono; [apply publishing_weaken|]. }
  intros [r linked] w3 Hpub. apply wp_bind, wp_when; intros Hb.
  - breflect. destruct Hpub as (Hev & Hr & _ & H1 & Hl). simpl in *. subst linked. specialize (Hl eq_refl).
    apply wp_bind, wp_sys_change; intros os; apply wp_ret, (unlink_published w template final temp text may r true);
      try done; unfold after_publish; split_and!; simpl; auto; try done.
    + by apply evolved_outcomes.
    + apply evolved_change; [by apply evolved_outcomes|]. by apply publishing_undo; [|apply Hev].
  - by apply (unlink_published w template final temp text may r linked).
Qed.

Lemma replace_record_spec dir name hash text final w :
  build_player_path dir (Some name) PATH_MAX = Some (Some final) -> build_record_text 512 name hash = Some text ->
  wp (replace_record_atomic dir name hash)
    (fun r w' => publishes (dir ++ txt "/.player-rehash-") final text True w r w' /\ r <> 1) w.
Proof.
  intros Efinal Etext. unfold replace_record_atomic. rewrite Efinal, Etext. apply wp_bind. eapply wp_lift; [done|].
  set (template := dir ++ txt "/.player-rehash-").
  assert (forall r, r = -1 -> publishes template final text True w r w /\ r <> 1) as Hw.
  { intros r ->. pose proof (publishes_early template final text True w (outcomes w)) as H. by destruct w. }
  destruct (_ >=? _); [by apply wp_ret, Hw|].
  set (new := mk_file Regular 384 (euid w) text true).
  assert (~ template `prefix_of` final) as Hnt by by eapply final_not_temporary.
  apply wp_bind, (sys_mkstemp_spec (files w) template final new False); [done|intros; apply wp_ret; by split; [apply publishes_early|]|].
  intros temp w1 Htemp Hfresh Hdur. apply wp_bind.
  eapply wp_mono; [apply write_temporary_spec; [|exact Hfresh]; by apply publishing_alter|].
  intros ok w2 [Hev2 Hok]. apply wp_bind.
  apply wp_mono with (Q := fun r w3 => after_publish w template final new True (r, true) w3 /\ r <> 1).
  { destruct ok; cbn [negb]; [by apply rename_step; auto|]. apply wp_ret. split; [|done]. apply after_publish_fail; [|done].
    by eapply evolved_mono; [apply publishing_weaken|]. }
  intros r w3 [Hpub Hr]. pose proof (unlink_published w template final temp text True r true w3 Htemp Hnt Hpub) as H.
  eapply wp_mono; [apply wp_and; [exact H|apply (unlink_result temp r)]|]. by intros r' w' [? ->].
Qed.
End publish.
