(* ===== verification/PlayerAccounts.v ===== *)
(** The store's contract as its callers see it: creation, verification and
    their round trip, with concrete instances that satisfy the assumed laws. *)
From S2P Require Import Prelude AsciiText PlayerStore PlayerStoreTheorems PlayerRecords.

(** A file [load_record] accepts: regular, owned by the server, closed to
    others. *)
Definition private_file (uid : Z) (f : file) : Prop :=
  file_kind_of f = Regular /\ file_uid f = uid /\ Z.land (file_mode f) 63 = 0.

(** The record [name] resolves to in a state of the files. *)
Definition has_record (dir name : list Z) (uid : Z) (m : file_map) (rec : loaded_record) : Prop :=
  exists final f, build_player_path dir (Some name) PATH_MAX = Some (Some final) /\ m !! final = Some f /\
    private_file uid f /\ read_record (content f) name = Some (Some rec).

Section accounts.
Context {PW : Pwhash} {PL : PwhashLaws PW} {MK : Mkstemp} {ML : MkstempLaws MK}.

(** ** Loading *)

(** Reading a record keeps inside the arrays it copies to. *)
Lemma read_record_runs data name : exists result, read_record data name = Some result.
Proof.
  unfold read_record. destruct (mbind _ _) as [[[v n] h]|]; [|eauto]. unfold parse_record.
  case_test; [eauto|]. case_test; [eauto|]. case_test; [eauto|]. breflect.
  pose proof (proj1 (name_valid_iff _) ltac:(eassumption)) as [Hl _]. unfold pwhash_STRBYTES, PLAYER_NAME_MAX in *.
  rewrite !store_str_Some by lia. simpl. eauto.
Qed.

Lemma load_record_spec dir name w :
  wp (load_record dir name) (fun r w' =>
    (exists os, w' = w <| outcomes := os |>) /\
    match r with
    | inr rec => has_record dir name (euid w) (files w) rec
    | inl code => code = 1 /\ (exists final, build_player_path dir (Some name) PATH_MAX = Some (Some final) /\ files w !! final = None)
                  \/ code = -1
    end) w.
Proof.
  unfold load_record. destruct (build_path_runs dir (Some name)) as [path Efinal]. apply wp_bind.
  eapply wp_lift; [exact Efinal|]. destruct path as [final|].
  2: { apply wp_ret. split; [exists (outcomes w); by destruct w|by right]. }
  apply wp_bind. unfold sys_open. apply wp_bind, wp_next. intros o os. apply wp_bind, wp_gets. unfold id. apply wp_ret.
  set (e := match o with Failure _ => _ | _ => _ end).
  assert (match e with inr f => files w !! final = Some f | inl ENOENT => files w !! final = None | _ => True end) as He.
  { unfold e. simpl. destruct o, (files w !! final) as [f|]; try done; by destruct (file_kind_of f). }
  destruct e as [err|f]; [apply wp_ret; split; [eauto|]; destruct err; eauto 6|].
  apply wp_bind, wp_plain. intros stated os1. apply wp_bind, wp_gets. unfold id.
  apply wp_if; intros Hb; [apply wp_bind, wp_plain; intros; apply wp_ret; split; [by eexists|by right]|].
  apply wp_bind, wp_plain. intros opened os2.
  apply wp_if; intros Ho; [apply wp_bind, wp_plain; intros; apply wp_ret; split; [by eexists|by right]|].
  apply wp_bind, wp_plain. intros readable os3. destruct (read_record_runs (content f) name) as [result Er].
  apply wp_bind. eapply (wp_lift _ (if negb readable then None else result)); [by destruct readable|].
  apply wp_bind, wp_plain. intros closed os4. apply wp_ret.
  split; [by eexists|]. destruct readable; [|by right]. cbn [negb].
  destruct result as [rec|]; [|by right]. destruct closed; [|by right].
  exists final, f. split_and!; try done. breflect. simpl in *. split_and!; [by destruct (file_kind_of f)|done|done].
Qed.

(** Without trouble, a record that is there is loaded. *)
Lemma load_record_complete dir name w rec :
  outcomes w = [] -> has_record dir name (euid w) (files w) rec ->
  load_record dir name w = Some (inr rec, w).
Proof.
  intros Ho (final & f & E1 & E2 & (K1 & K2 & K3) & E3). unfold load_record. rewrite E1.
  unfold lift_opt, sys_open, sys_plain, next_outcome, mbind, M_bind, gets, mret, M_ret, id. rewrite Ho, E2, K1. simpl.
  rewrite Ho. simpl. rewrite K1, K2, K3, Z.eqb_refl. simpl. rewrite Ho. simpl. rewrite Ho, E3. simpl. by rewrite Ho.
Qed.

Lemma stripped_nonzero n : Forall (fun b => b <> 0) (drop 5 (strip_line_ending n)).
Proof.
  apply Forall_drop. unfold strip_line_ending. apply List.Forall_rev.
  assert (Forall (fun b => b <> 0) (rev (c_str n))) as Hrev by (apply List.Forall_rev, c_str_nonzero).
  induction Hrev as [|ch l Hch Hl IH]; simpl; [done|]. case_test; [done|by constructor].
Qed.

Lemma parse_record_name v n h name rec :
  parse_record v n h name = Some (Some rec) ->
  player_store_name_valid (Some (record_name rec)) = true /\
  ascii_equal_ignore_case (record_name rec) name = true /\ Forall (fun b => b <> 0) (record_name rec).
Proof.
  unfold parse_record. destruct (_ || _); [done|]. destruct (_ || _) eqn:E; [done|]. destruct (_ >=? _) eqn:Eh; [done|].
  breflect. pose proof (proj1 (name_valid_iff _) ltac:(eassumption)) as [Hl _].
  unfold PLAYER_NAME_MAX, pwhash_STRBYTES in *. rewrite !store_str_Some by lia.
  intros [= <-]. cbn [record_name]. rewrite c_str_id by apply stripped_nonzero.
  split_and!; [done|done|apply stripped_nonzero].
Qed.

Lemma read_record_name data name rec :
  read_record data name = Some (Some rec) ->
  player_store_name_valid (Some (record_name rec)) = true /\
  ascii_equal_ignore_case (record_name rec) name = true /\ Forall (fun b => b <> 0) (record_name rec).
Proof.
  unfold read_record. destruct (mbind _ _) as [[[v n] h]|]; [|done]. apply parse_record_name.
Qed.

Lemma build_path_ignore_case dir a b :
  ascii_equal_ignore_case a b = true -> player_store_name_valid (Some a) = true ->
  player_store_name_valid (Some b) = true ->
  build_player_path dir (Some a) PATH_MAX = build_player_path dir (Some b) PATH_MAX.
Proof.
  intros E%equal_ignore_case_iff Ha Hb. unfold build_player_path. rewrite Ha, Hb. simpl. by rewrite E.
Qed.

Lemma new_file_private uid text : private_file uid (mk_file Regular 384 uid text true).
Proof. by split_and!. Qed.

(** ** Verification *)

Lemma verify_password_spec dir name pw w :
  wp (player_store_verify_password dir name pw) (fun out w' =>
    (out.1 = 1 -> exists rec, has_record dir name (euid w) (files w) rec /\
       pwhash_str_verify (record_password_hash rec) pw = true) /\
    (out.1 = 0 -> exists rec, has_record dir name (euid w) (files w) rec /\
       pwhash_str_verify (record_password_hash rec) pw = false) /\
    evolved (fun m => forall path, ~ (dir ++ txt "/.player-rehash-") `prefix_of` path ->
       m !! path = files w !! path \/
       out.1 = 1 /\ build_player_path dir (Some name) PATH_MAX = Some (Some path) /\
       exists rec, has_record dir name (euid w) m rec /\
         pwhash_str_verify (record_password_hash rec) pw = true) w w') w.
Proof.
  assert (forall P w1, evolved P w w1 -> forall n, evolved P w (w1 <| salts := n |>)) as Esalt
    by (intros P w1 []; by constructor).
  unfold player_store_verify_password. destruct (_ >? _).
  { apply wp_ret. split_and!; [done|done|]. apply evolved_refl. by left. }
  apply wp_bind. eapply wp_mono; [apply load_record_spec|]. intros loaded w1 [[os ->] Hl].
  assert (forall P : file_map -> Prop, P (files w) -> evolved P w (w <| outcomes := os |>)) as Estart
    by (intros P HP; by apply evolved_outcomes, evolved_refl).
  destruct loaded as [code|rec]; [apply wp_ret; split_and!; [done|done|by apply Estart; left]|].
  destruct (pwhash_str_verify (record_password_hash rec) pw) eqn:Ev; cbn [andb].
  2: { apply wp_ret. split_and!; [done|by eauto|by apply Estart; left]. }
  destruct (_ =? 1).
  2: { apply wp_ret. split_and!; [by eauto|done|by apply Estart; left]. }
  apply wp_bind. unfold hash_call. apply wp_bind, wp_gets, wp_bind, wp_modify, wp_ret. simpl.
  destruct (pwhash_str (salts w) pw) as [hash|] eqn:Eh.
  2: { apply wp_bind, wp_ret, wp_ret. split_and!; [by eauto|done|]. by apply Esalt, Estart; left. }
  pose proof Hl as (final & f & Ef & Ef1 & Ef2 & Er). destruct (read_record_name _ _ _ Er) as (V1 & V2 & V3).
  pose proof (pwhash_str_format _ _ _ Eh) as Hh. pose proof (pwhash_str_correct _ _ _ Eh) as Hc.
  pose proof Ef as (Hv & _ & _)%build_path_Some.
  rewrite <- (build_path_ignore_case dir (record_name rec) name) in Ef by done.
  destruct (read_record_text (record_name rec) name hash V1 V3 Hh V2) as (text & Et & Ert).
  apply wp_bind, wp_bind. eapply wp_mono; [by apply replace_record_spec|].
  intros r w' ((Hev & _ & _ & _) & _). apply wp_ret, wp_ret. simpl. split_and!; [by eauto|done|].
  eapply evolved_mono.
  2: { destruct Hev as [G1 (new & G2 & G3) G4]. constructor; [exact G1|exists new; split; [exact G2|exact G3]|exact G4]. }
  intros m Hm path Hp. destruct (Hm path Hp) as [?|(-> & _ & Hnew)]; [by left|]. right. split; [done|].
  rewrite <- (build_path_ignore_case dir (record_name rec) name) by done.
  split; [done|]. exists (mk_record (record_name rec) hash). split; [|done].
  exists final, (mk_file Regular 384 (euid w) text true).
  rewrite <- (build_path_ignore_case dir (record_name rec) name) by done. by split_and!.
Qed.


(** ** Prepared tokens *)

Lemma token_hash_prepared hash : hash_ok hash -> token_hash (hash ++ drop (length hash) token_clear) = Some hash.
Proof.
  intros (H1 & H2 & H3). unfold pwhash_STRBYTES in H2. unfold token_hash, token_clear.
  rewrite drop_replicate. replace (256 - length hash)%nat with (S (255 - length hash)) by lia. simpl.
  rewrite c_str_app_nul by (eapply Forall_impl; [exact H3|]; simpl; lia).
  destruct (Z.eqb_spec (Zlen hash) 0); [by destruct hash|]. rewrite length_app. simpl.
  destruct (Z.eqb_spec (Zlen hash) (Z.of_nat (length hash + S (length (replicate (255 - length hash) 0))))); [lia|done].
Qed.

Lemma prepare_spec pw token w :
  wp (player_store_prepare_password pw token) (fun out _ =>
    (out.1 = 0 /\ exists h, token_hash out.2 = Some h /\ hash_ok h /\ pwhash_str_verify h pw = true) \/
    (out.1 = -1 /\ (out.2 = token \/ out.2 = token_clear))) w.
Proof.
  unfold player_store_prepare_password. apply wp_if; intros Hb; [apply wp_ret; simpl; auto|].
  apply wp_bind. unfold hash_call. apply wp_bind, wp_gets, wp_bind, wp_modify, wp_ret.
  apply wp_ret. destruct (pwhash_str (salts w) pw) as [h|] eqn:Eh; simpl; [left|right; auto].
  split; [done|]. exists h. pose proof (pwhash_str_format _ _ _ Eh) as Hh.
  split; [by apply token_hash_prepared|]. split; [done|]. by eapply pwhash_str_correct.
Qed.

(** Creation runs to its end whatever it is given. *)
Lemma create_runs dir name token w : wp (player_store_create dir name token) (fun _ _ => True) w.
Proof.
  unfold player_store_create. apply wp_if; intros _; [by apply wp_ret|].
  destruct (token_hash token) as [hash|]; [|by apply wp_ret]. apply wp_if; intros _; [by apply wp_ret|].
  destruct (build_path_runs dir (Some name)) as [[final|] Ef].
  2: { unfold write_new_record_atomic. rewrite Ef. by apply wp_bind, wp_ret, wp_ret. }
  destruct (build_record_text 512 name hash) as [text|] eqn:Et.
  - eapply wp_mono; [by apply create_record_spec|]. done.
  - unfold write_new_record_atomic. rewrite Ef, Et. apply wp_bind. eapply wp_lift; [done|].
    apply wp_if; intros _; by apply wp_ret.
Qed.

(** ** Claims *)

(** [C5] Account creation is atomic.  Whatever system calls fail, write short
    or are interrupted, creation ends, with 0, 1 or -1; every state of the
    files that a crash or a reader could meet shows either no record for the
    player or the whole record, owner-only, written and synchronised before
    it got its name; an existing record is never replaced, nor is any other
    player's touched; 0 means the record is in place and its directory entry
    durable, 1 that there was one already. *)
Theorem create_atomic dir name token hash final w :
  build_player_path dir (Some name) PATH_MAX = Some (Some final) -> Forall (fun b => b <> 0) name ->
  token_hash token = Some hash -> hash_ok hash ->
  exists text r w', build_record_text 512 name hash = Some text /\
    player_store_create dir name token w = Some (r, w') /\
    publishes (dir ++ txt "/.player-write-") final text (files w !! final = None) w r w'.
Proof.
  intros Hf Hnz Ht Hh. pose proof Hf as (Hv & _ & _)%build_path_Some. pose proof (record_text_eq name hash Hv Hnz Hh) as Etext.
  eexists. destruct (wp_run _ _ _ (create_record_spec dir name hash _ final w Hf Etext)) as (r & w' & E & H).
  exists r, w'. split; [done|]. split; [|done]. unfold player_store_create. rewrite Hv, Ht. simpl.
  destruct Hh as (_ & Hl & Hp). unfold strlen. rewrite c_str_id by (eapply Forall_impl; [exact Hp|]; simpl; lia).
  by destruct (Z.geb_spec (Zlen hash) pwhash_STRBYTES); [lia|].
Qed.

(** [C14] A password is accepted only against the stored verifier: result 1
    means that the player's private, well-formed record exists and its
    verifier accepts the password, 0 that it rejects it; nothing else changes
    the files but an upgrade after a match, and then every state on the way
    still holds a well-formed private record for the player that accepts this
    password, while every other player's record is untouched. *)
Theorem verify_password_sound dir name pw w :
  exists r rehashed w', player_store_verify_password dir name pw w = Some ((r, rehashed), w') /\
    (r = 1 -> exists rec, has_record dir name (euid w) (files w) rec /\
       pwhash_str_verify (record_password_hash rec) pw = true) /\
    (r = 0 -> exists rec, has_record dir name (euid w) (files w) rec /\
       pwhash_str_verify (record_password_hash rec) pw = false) /\
    evolved (fun m => forall path, ~ (dir ++ txt "/.player-rehash-") `prefix_of` path ->
       m !! path = files w !! path \/
       r = 1 /\ build_player_path dir (Some name) PATH_MAX = Some (Some path) /\
       exists rec, has_record dir name (euid w) m rec /\
         pwhash_str_verify (record_password_hash rec) pw = true) w w'.
Proof.
  destruct (wp_run _ _ _ (verify_password_spec dir name pw w)) as ([r rh] & w' & E & H). by exists r, rh, w'.
Qed.

(** [C15] Creation and verification agree: a password prepared for a new
    account and stored by a successful creation is accepted for the account
    under any capitalisation of its name, whatever failures creation met on
    its way. *)
Theorem create_then_verify dir name name' pw token token0 w w1 w2 :
  player_store_prepare_password pw token0 w = Some ((0, token), w1) ->
  Forall (fun b => b <> 0) name -> player_store_name_valid (Some name') = true ->
  player_store_create dir name token w1 = Some (0, w2) ->
  ascii_equal_ignore_case name name' = true ->
  exists rehashed w3,
    player_store_verify_password dir name' pw (w2 <| outcomes := [] |>) = Some ((1, rehashed), w3).
Proof.
  intros Hp Hnz Hv' Hc Heq. unfold player_store_prepare_password in Hp.
  destruct (_ || _) eqn:Elen; [done|]. unfold hash_call, mbind, M_bind, gets, modify, mret, M_ret in Hp.
  destruct (pwhash_str (salts w) pw) as [hash|] eqn:Eh; [|done]. injection Hp as <- <-.
  pose proof (pwhash_str_format _ _ _ Eh) as Hh. pose proof (pwhash_str_correct _ _ _ Eh) as Hok.
  pose proof (token_hash_prepared hash Hh) as Ht.
  assert (player_store_name_valid (Some name) = true) as Hv.
  { unfold player_store_create in Hc. by destruct (player_store_name_valid (Some name)). }
  destruct (build_path_runs dir (Some name)) as [[final|] Ef].
  2: { exfalso. unfold player_store_create, write_new_record_atomic in Hc. rewrite Hv, Ht in Hc. cbn [negb] in Hc.
       rewrite Ef in Hc. by destruct (_ >=? _). }
  destruct (read_record_text name name' hash Hv Hnz Hh Heq) as (text & Et & Er).
  assert (publishes (dir ++ txt "/.player-write-") final text
    (files (w <| salts := S (salts w) |>) !! final = None) (w <| salts := S (salts w) |>) 0 w2) as Hpub.
  { pose proof (create_record_spec dir name hash text final (w <| salts := S (salts w) |>) Ef Et) as H.
    unfold player_store_create in Hc. rewrite Hv, Ht in Hc. cbn [negb] in Hc. destruct (_ >=? _); [done|].
    unfold wp in H. change (write_new_record_atomic dir name hash (w <| salts := S (salts w) |>) = Some (0, w2)) in Hc.
    by rewrite Hc in H. }
  destruct Hpub as ([_ _ Hu] & _ & H0 & _). destruct (H0 eq_refl) as (_ & Hfile & _).
  assert (has_record dir name' (euid (w2 <| outcomes := [] |>)) (files (w2 <| outcomes := [] |>)) (mk_record name hash)) as Hrec.
  { exists final, (mk_file Regular 384 (euid w) text true).
    rewrite <- (build_path_ignore_case dir name name') by done. split_and!; try done; by rewrite <- Hu. }
  pose proof (load_record_complete dir name' (w2 <| outcomes := [] |>) _ eq_refl Hrec) as Hload.
  destruct (wp_run _ _ _ (verify_password_spec dir name' pw (w2 <| outcomes := [] |>))) as ([r rh] & w3 & E & _).
  exists rh, w3. rewrite E. do 2 f_equal. f_equal.
  unfold player_store_verify_password in E. breflect. unfold PLAYER_PASSWORD_MAX in *.
  destruct (Z.gtb_spec (Zlen pw) 128); [lia|]. unfold mbind, M_bind in E. rewrite Hload in E. cbn -[replace_record_atomic hash_call] in E.
  rewrite Hok in E. destruct (_ && _); [|by injection E].
  destruct (hash_call _ _) as [[u w4]|]; [|done].
  match type of E with match ?m w4 with _ => _ end = _ => destruct (m w4) as [[x w5]|]; [|done] end. by injection E.
Qed.
End accounts.

(** * Witnesses *)

(** A stand-in for libsodium with the assumed laws. *)
Definition toy_hash (pw : list Z) : list Z := 36 :: map (fun b => 33 + b mod 90) (take 100 pw).
#[local] Instance toy_pwhash : Pwhash := {|
  pwhash_str := fun _ pw => Some (toy_hash pw);
  pwhash_str_verify := fun h pw => bytes_eqb h (toy_hash pw);
  pwhash_str_needs_rehash := fun _ => 1
|}.

#[local] Instance toy_pwhash_laws : PwhashLaws toy_pwhash.
Proof.
  split; simpl; intros _ pw h [= <-]; [|apply bytes_eqb_refl]. unfold toy_hash, pwhash_STRBYTES. split; [done|]. split.
  - simpl. rewrite length_map, length_take. lia.
  - constructor; [lia|]. apply Forall_map, List.Forall_forall. intros b _. simpl.
    pose proof (Z.mod_pos_bound b 90 ltac:(lia)). lia.
Qed.

#[local] Instance toy_mkstemp : Mkstemp := {|
  mkstemp_path := fun m prefix => match m !! (prefix ++ txt "a1B2c3") with None => Some (prefix ++ txt "a1B2c3") | Some _ => None end
|}.

#[local] Instance toy_mkstemp_laws : MkstempLaws toy_mkstemp.
Proof.
  split; simpl; intros m prefix path; destruct (m !! _) eqn:E; intros [= <-]; [done|].
  eexists. split; [done|]. split; [done|]. by apply (bool_decide_unpack _).
Qed.

(** A kernel that interrupts, writes one byte, then fails the directory
    [fsync]. *)
Definition trouble : list outcome :=
  [Success; Success; Failure EINTR; Partial 1; Success; Success; Success; Success; Success; Failure EIO].
Definition empty_store (os : list outcome) : store_world := mk_store_world ∅ ∅ os [] 1000 0.
Definition alice_token : list Z := toy_hash (txt "correct horse") ++ drop (length (toy_hash (txt "correct horse"))) token_clear.

Lemma player_path_safe_witness :
  txt "/srv/players" ++ txt "/alice.player" = txt "/srv/players" ++ txt "/alice.player" <->
  ascii_equal_ignore_case (txt "Alice") (txt "aLICE") = true.
Proof.
  refine (proj2 (proj2 (player_path_safe (txt "/srv/players") (txt "Alice") (txt "aLICE") _ _ _ _))).
  - vm_compute. reflexivity.
  - vm_compute. reflexivity.
Defined.

Lemma password_allowed_iff_witness :
  player_store_password_allowed (Some (txt "alice")) (Some (txt "correct horse")) = Some (-1) <-> Zlen (txt "correct horse") > 128.
Proof. refine (proj2 (password_allowed_iff (txt "alice") (txt "correct horse") _)). by apply (bool_decide_unpack _). Defined.

Lemma create_atomic_witness :
  exists text r w', build_record_text 512 (txt "Alice") (toy_hash (txt "correct horse")) = Some text /\
    player_store_create (txt "/srv/players") (txt "Alice") alice_token (empty_store trouble) = Some (r, w') /\
    publishes (txt "/srv/players" ++ txt "/.player-write-") (txt "/srv/players/alice.player") text
      (files (empty_store trouble) !! txt "/srv/players/alice.player" = None) (empty_store trouble) r w'.
Proof.
  apply (create_atomic (txt "/srv/players") (txt "Alice") alice_token (toy_hash (txt "correct horse"))).
  - vm_compute. reflexivity.
  - by apply (bool_decide_unpack _).
  - vm_compute. reflexivity.
  - exact (pwhash_str_format 0 (txt "correct horse") _ eq_refl).
Defined.

Lemma create_then_verify_witness :
  exists rehashed w3, player_store_verify_password (txt "/srv/players") (txt "ALICE") (txt "correct horse")
    ((match player_store_create (txt "/srv/players") (txt "Alice") alice_token ((empty_store []) <| salts := 1%nat |>) with
      | Some (_, w2) => w2 | None => empty_store [] end) <| outcomes := [] |>) = Some ((1, rehashed), w3).
Proof.
  eapply (create_then_verify (txt "/srv/players") (txt "Alice") (txt "ALICE") (txt "correct horse") alice_token token_clear
    (empty_store [])).
  - vm_compute. reflexivity.
  - by apply (bool_decide_unpack _).
  - vm_compute. reflexivity.
  - vm_compute. reflexivity.
  - vm_compute. reflexivity.
Defined.

(** The store after Alice's account was created. *)
Definition with_alice : store_world :=
  match player_store_create (txt "/srv/players") (txt "Alice") alice_token (empty_store []) with
  | Some (_, w2) => w2 | None => empty_store [] end.

Lemma alice_verifies :
  match player_store_verify_password (txt "/srv/players") (txt "ALICE") (txt "correct horse") with_alice with
  | Some ((r, _), _) => r = 1 | None => False end.
Proof. vm_compute. reflexivity. Qed.

Lemma verify_password_sound_witness :
  exists rehashed w' rec, player_store_verify_password (txt "/srv/players") (txt "ALICE") (txt "correct horse") with_alice
    = Some ((1, rehashed), w') /\ has_record (txt "/srv/players") (txt "ALICE") (euid with_alice) (files with_alice) rec /\
    pwhash_str_verify (record_password_hash rec) (txt "correct horse") = true.
Proof.
  destruct (verify_password_sound (txt "/srv/players") (txt "ALICE") (txt "correct horse") with_alice)
    as (r & rehashed & w' & E & H1 & _).
  pose proof alice_verifies as Hr. rewrite E in Hr. subst r. destruct (H1 eq_refl) as (rec & H2 & H3).
  exists rehashed, w', rec. split; [exact E|]. split; [exact H2|exact H3].
Defined.
