(* ===== verification/AuditLog.v ===== *)
(** The security audit log (audit_log.c): scrubbing of fields, the line of an
    event, the active file and its rotation.

    The log's path is a parameter.  Its descriptor, while open, refers to the
    file at that path: rotation closes it before it moves the file.  The files
    and the outcomes of system calls are those of [PlayerStore]. *)
From S2P Require Import Prelude PlayerStore.

Definition AUDIT_MAX_BYTES : Z := 5 * 1024 * 1024.
Definition AUDIT_ARCHIVES : Z := 4.

(** * Lines *)

Fixpoint sanitize_loop (used output_size : Z) (input : list Z) : list Z :=
  match input with
  | [] => []
  | ch :: input =>
      if (ch =? 0) || negb (used + 1 <? output_size) then []
      else (if (ch >=? 32) && (ch <=? 126) && negb (ch =? 124) then ch else 95) :: sanitize_loop (used + 1) output_size input
  end.

(** [sanitize_field] into a buffer of [output_size > 0] bytes. *)
Definition sanitize_field (input : option (list Z)) (output_size : Z) : list Z :=
  sanitize_loop 0 output_size (match input with None => txt "-" | Some input => input end).

(** The line of [audit_log_event]; [Some None] when [snprintf] reports that it
    does not fit its buffer, [None] a store outside one of the local arrays. *)
Definition audit_line (timestamp event : list Z) (peer detail : option (list Z)) : option (option (list Z)) :=
  safe_event ← local_str 64 (sanitize_field (Some event) 64);
  safe_peer ← local_str 96 (sanitize_field peer 96);
  safe_detail ← local_str 256 (sanitize_field detail 256);
  let line := timestamp ++ txt " event=" ++ safe_event ++ txt " peer=" ++ safe_peer ++ txt " detail=" ++ safe_detail ++ [LF] in
  if (Zlen line <=? 0) || (Zlen line >=? 512) then Some None else Some (Some line).

(** * Files *)

Definition is_directory (f : file) : bool := match file_kind_of f with Directory => true | _ => false end.

(** [unlink], which does not remove directories. *)
Definition sys_unlink_file (name : list Z) : M store_world bool :=
  w ← gets id;
  match files w !! name with
  | Some f => if is_directory f then sys_plain ;; mret false else sys_unlink name
  | None => sys_plain ;; mret false
  end.

(** [rename] of a file: a missing source is an answer about the files. *)
Definition sys_rename_errno (from to : list Z) : M store_world (errno + unit) :=
  o ← next_outcome;
  w ← gets id;
  match o with
  | Failure _ => mret (inl EIO)
  | _ => match files w !! from with
         | None => mret (inl ENOENT)
         | Some f =>
             if match files w !! to with Some g => is_directory f || is_directory g | None => false end then mret (inl EIO)
             else modify (change (fun m => <[to := f]> (delete from m))) ;; mret (inr tt)
         end
  end.

(** [open(path, O_WRONLY | O_APPEND | O_CREAT | O_CLOEXEC | O_NOFOLLOW, 0600)] *)
Definition sys_open_append (path : list Z) : M store_world bool :=
  ok ← sys_plain;
  w ← gets id;
  if negb ok then mret false
  else
    match files w !! path with
    | Some f => mret (match file_kind_of f with Regular => true | _ => false end)
    | None => modify (change (insert path (mk_file Regular 384 (euid w) [] false))) ;; mret true
    end.

(** * The log *)

(** [struct audit_log]: whether [fd >= 0], and the files. *)
Record audit_log := mk_audit_log { log_open : bool; log_files : store_world }.

Definition eta_audit l := mk_audit_log (log_open l) (log_files l).
#[export] Instance set_log_open : Setter log_open := ltac:(setter_of eta_audit log_open).
#[export] Instance set_log_files : Setter log_files := ltac:(setter_of eta_audit log_files).

Definition sys {A} (m : M store_world A) : M audit_log A := zoom log_files (fun w l => l <| log_files := w |>) m.

Section log.
Context (path : list Z).

(** [snprintf(buffer, PATH_MAX + 16, "%s.%d", path, index)] *)
Definition archive (index : Z) : list Z := path ++ [46; 48 + index].
Definition fits (name : list Z) : bool := Zlen name <? PATH_MAX + 16.

Definition open_active_file : M store_world bool :=
  opened ← sys_open_append path;
  if negb opened then mret false
  else
    moded ← sys_change (alter (fun f => f <| file_mode := 384 |>) path);
    if negb moded then sys_plain ;; mret false else mret true.

Definition reopen_active_after_rotation_error : M audit_log Z :=
  l ← gets id;
  if log_open l then mret (-1)
  else
    opened ← sys open_active_file;
    modify (fun l => l <| log_open := opened |>) ;;
    mret (-1).

(** The rounds [index, index - 1, ..., 1] of the loop. *)
Fixpoint rotate_loop (rounds : nat) : M audit_log Z :=
  match rounds with
  | O =>
      opened ← sys open_active_file;
      modify (fun l => l <| log_open := opened |>) ;;
      mret (if (opened : bool) then 0 else -1)
  | S rounds' =>
      let index := Z.of_nat rounds in
      when ((index =? AUDIT_ARCHIVES) && fits (archive index)) (sys (sys_unlink_file (archive index)) ;; mret tt) ;;
      let from := if index =? 1 then path else archive (index - 1) in
      if negb (fits from) || negb (fits (archive index)) then reopen_active_after_rotation_error
      else
        renamed ← sys (sys_rename_errno from (archive index));
        match renamed with
        | inr _ | inl ENOENT => rotate_loop rounds'
        | inl _ => reopen_active_after_rotation_error
        end
  end.

Definition rotate_if_needed : M audit_log Z :=
  stated ← sys sys_plain;
  if negb stated then mret (-1)
  else
    l ← gets id;
    if Zlen (default [] (content <$> (files (log_files l) !! path))) <? AUDIT_MAX_BYTES then mret 0
    else
      sys sys_plain ;;
      modify (fun l => l <| log_open := false |>) ;;
      rotate_loop (Z.to_nat AUDIT_ARCHIVES).

(** [timestamp] is the formatted clock, or its replacement when the clock
    fails. *)
Definition audit_log_event (timestamp event : list Z) (peer detail : option (list Z)) : M audit_log unit :=
  formatted ← lift_opt (audit_line timestamp event peer detail);
  match formatted with
  | None => mret tt
  | Some line =>
      l ← gets id;
      when (log_open l)
        (rotate_if_needed ;;
         l ← gets id;
         when (log_open l) (sys (write_all path line) ;; mret tt))
  end.

Definition audit_log_close : M audit_log unit :=
  l ← gets id;
  when (log_open l) (sys sys_plain ;; sys sys_plain ;; modify (fun l => l <| log_open := false |>)).
End log.
