(* ===== verification/AuditTheorems.v ===== *)
(** What the audit log promises: one event is one line that its fields cannot
    forge, the line reaches the end of the active file, and rotation loses
    nothing but the oldest archive, whatever system call fails. *)
From S2P Require Import Prelude PlayerStore PlayerRecords AuditLog.

(** * Lines *)

(** A byte that a scrubbed field may hold. *)
Definition scrubbed (b : Z) : Prop := 32 <= b <= 126 /\ b <> 124.

Definition scrub (b : Z) : Z := if (b >=? 32) && (b <=? 126) && negb (b =? 124) then b else 95.

Lemma scrub_ok b : scrubbed (scrub b).
Proof. unfold scrubbed, scrub. case_test; breflect; lia. Qed.

Lemma sanitize_loop_eq used size input :
  0 <= used < size -> sanitize_loop used size input = map scrub (take (Z.to_nat (size - 1 - used)) (c_str input)).
Proof.
  revert used. induction input as [|ch input IH]; intros used Hu; simpl; [by rewrite take_nil|].
  destruct (Z.eqb_spec ch 0); simpl; [by rewrite take_nil|]. destruct (Z.ltb_spec (used + 1) size); simpl.
  - rewrite IH by lia. replace (Z.to_nat (size - 1 - used)) with (S (Z.to_nat (size - 1 - (used + 1)))) by lia. done.
  - replace (Z.to_nat (size - 1 - used)) with 0%nat by lia. done.
Qed.

Lemma sanitize_field_ok input size :
  0 < size -> Forall scrubbed (sanitize_field input size) /\ Zlen (sanitize_field input size) < size.
Proof.
  intros Hs. unfold sanitize_field. rewrite sanitize_loop_eq by lia. split.
  - apply Forall_map, List.Forall_forall. intros b _. apply scrub_ok.
  - rewrite length_map, length_take. lia.
Qed.

(** A field that is clean and fits is not changed. *)
Lemma sanitize_field_id text size :
  Forall scrubbed text -> Zlen text < size -> sanitize_field (Some text) size = text.
Proof.
  intros Ht Hl. unfold sanitize_field. rewrite sanitize_loop_eq by lia.
  rewrite c_str_id by (eapply Forall_impl; [exact Ht|]; unfold scrubbed; lia). rewrite take_ge by lia.
  clear Hl. induction Ht as [|b text Hb Ht IH]; simpl; [done|]. rewrite IH. f_equal.
  unfold scrub, scrubbed in *. destruct (Z.geb_spec b 32), (Z.leb_spec b 126), (Z.eqb_spec b 124); simpl; lia.
Qed.

(** The scrubbed fields fit their arrays. *)
Lemma audit_line_eq timestamp event peer detail :
  audit_line timestamp event peer detail =
  let line := timestamp ++ txt " event=" ++ sanitize_field (Some event) 64 ++ txt " peer=" ++ sanitize_field peer 96
              ++ txt " detail=" ++ sanitize_field detail 256 ++ [LF] in
  Some (if (Zlen line <=? 0) || (Zlen line >=? 512) then None else Some line).
Proof.
  unfold audit_line. rewrite !local_str_Some by (by apply sanitize_field_ok). cbn [mbind option_bind]. cbv zeta.
  by destruct (_ || _).
Qed.

(** [C22] One event is one line.  Whatever bytes the event, the peer and the
    detail hold, the line always fits its buffer (no event is dropped for its
    size), it ends in its only line feed, and each field has been scrubbed of
    control bytes, eight-bit bytes and the separator bar: no field can forge a
    second line.  Clean fields that fit appear unchanged. *)
Theorem audit_line_unforgeable timestamp event peer detail :
  Zlen timestamp < 32 -> Forall (fun b => b <> LF) timestamp ->
  exists e p d,
    audit_line timestamp event peer detail =
      Some (Some (timestamp ++ txt " event=" ++ e ++ txt " peer=" ++ p ++ txt " detail=" ++ d ++ [LF])) /\
    Forall scrubbed e /\ Forall scrubbed p /\ Forall scrubbed d /\
    (LF ∉ timestamp ++ txt " event=" ++ e ++ txt " peer=" ++ p ++ txt " detail=" ++ d) /\
    (Forall scrubbed event -> Zlen event < 64 -> e = event).
Proof.
  intros Hlen Hts. exists (sanitize_field (Some event) 64), (sanitize_field peer 96), (sanitize_field detail 256).
  destruct (sanitize_field_ok (Some event) 64 ltac:(done)) as [E1 E2]. destruct (sanitize_field_ok peer 96 ltac:(done)) as [P1 P2].
  destruct (sanitize_field_ok detail 256 ltac:(done)) as [D1 D2]. split_and!; auto.
  - rewrite audit_line_eq. cbv zeta. rewrite !length_app. change (length (txt " event=")) with 7%nat.
    change (length (txt " peer=")) with 6%nat. change (length (txt " detail=")) with 8%nat. cbn [length].
    case_test; [breflect; lia|done].
  - assert (forall l, Forall scrubbed l -> LF ∉ l) as Hs.
    { intros l Hl Hin. rewrite Forall_forall in Hl. destruct (Hl LF Hin). unfold LF in *. lia. }
    assert (Forall scrubbed (txt " event=") /\ Forall scrubbed (txt " peer=") /\ Forall scrubbed (txt " detail=")) as (T1 & T2 & T3)
      by (unfold scrubbed; split_and!; by apply (bool_decide_unpack _)).
    rewrite !elem_of_app. intros [Hin|[Hin|[Hin|[Hin|[Hin|[Hin|Hin]]]]]]; try (by eapply Hs in Hin).
    rewrite Forall_forall in Hts. by specialize (Hts LF Hin).
  - intros. by apply sanitize_field_id.
Qed.

(** * Rotation *)

Section rotation.
Context (path : list Z).

(** The files of the log: the active one and the archives. *)
Definition log_name (j : Z) : list Z := if j =? 0 then path else archive path j.

Lemma log_name_inj j k : log_name j = log_name k -> j = k.
Proof.
  unfold log_name, archive. destruct (Z.eqb_spec j 0), (Z.eqb_spec k 0); intros H.
  - congruence.
  - apply (f_equal length) in H. rewrite length_app in H. simpl in H. lia.
  - apply (f_equal length) in H. rewrite length_app in H. simpl in H. lia.
  - apply app_inv_head in H. injection H. lia.
Qed.

(** Every log file of [m0] but the oldest archive is still there, under one of
    the names, its content at most continued; other files are as they were. *)
Record kept (m0 m : file_map) : Prop := mk_kept {
  kp_logs : forall j f, 0 <= j <= 3 -> m0 !! log_name j = Some f ->
    exists k f', 0 <= k <= 4 /\ m !! log_name k = Some f' /\ content f `prefix_of` content f';
  kp_others : forall name, (forall j, 0 <= j <= 4 -> name <> log_name j) -> m !! name = m0 !! name
}.

(** Before the round [i]: the archives from [i] on have been moved up. *)
Record shifted (m0 : file_map) (i : Z) (m : file_map) : Prop := mk_shifted {
  sh_below : forall j, 0 <= j < i -> m !! log_name j = m0 !! log_name j;
  sh_above : forall j f, i <= j <= 3 -> m0 !! log_name j = Some f -> m !! log_name (j + 1) = Some f;
  sh_gap : 0 <= i <= 3 -> m !! log_name i = None;
  sh_others : forall name, (forall j, 0 <= j <= 4 -> name <> log_name j) -> m !! name = m0 !! name
}.

Lemma shifted_kept m0 i m : 0 <= i <= 4 -> shifted m0 i m -> kept m0 m.
Proof.
  intros Hi []. split; [|done]. intros j f Hj Hf. destruct (decide (j < i)).
  - exists j, f. rewrite sh_below0 by lia. split; [lia|]. split; done.
  - exists (j + 1), f. split; [lia|]. split; [|done]. apply sh_above0; [lia|done].
Qed.

(** Opening the active file creates it or changes its mode only. *)
Lemma open_active_spec (P : file_map -> Prop) w :
  P (files w) ->
  (forall m f, P m -> m !! path = None -> P (<[path := f]> m)) ->
  (forall m, P m -> P (alter (fun f => f <| file_mode := 384 |>) path m)) ->
  wp (open_active_file path) (fun _ w' => P (files w')) w.
Proof.
  intros HP Hnew Hmode. unfold open_active_file, sys_open_append. apply wp_bind, wp_bind, wp_plain. intros b os.
  apply wp_bind, wp_gets.
  assert (forall w1 (opened : bool), P (files w1) -> wp (if negb opened then mret false else
    moded ← sys_change (alter (fun f => f <| file_mode := 384 |>) path);
    if negb moded then sys_plain ;; mret false else mret true) (fun _ w' => P (files w')) w1) as Hend.
  { intros w1 opened H1. apply wp_if; intros _; [by apply wp_ret|]. apply wp_bind, wp_sys_change; intros os1; simpl negb; cbv iota.
    - apply wp_bind, wp_plain. intros _ os2. by apply wp_ret.
    - apply wp_ret. by apply Hmode. }
  apply wp_if; intros _; [apply wp_ret; by apply Hend|]. simpl. destruct (files w !! path) as [f|] eqn:Hf.
  - apply wp_ret. by apply Hend.
  - apply wp_bind, wp_modify, wp_ret. apply Hend. simpl. by apply Hnew.
Qed.

Lemma path_name : path = log_name 0.
Proof. done. Qed.

Lemma kept_open m0 m : kept m0 m ->
  (forall f, m !! path = None -> kept m0 (<[path := f]> m)) /\
  kept m0 (alter (fun f => f <| file_mode := 384 |>) path m).
Proof.
  intros [H1 H2]. split; [intros f Hnone|]; (split; [|intros name Hn; rewrite <- H2 by done]).
  - intros j g Hj Hg. destruct (H1 j g Hj Hg) as (k & g' & Hk & Hg' & Hc). exists k, g'. split; [done|]. split; [|done].
    rewrite lookup_insert_ne; [done|]. intros E. rewrite E in Hnone. congruence.
  - rewrite lookup_insert_ne; [done|]. specialize (Hn 0 ltac:(lia)). by intros ->.
  - intros j g Hj Hg. destruct (H1 j g Hj Hg) as (k & g' & Hk & Hg' & Hc). exists k.
    destruct (decide (path = log_name k)) as [E|E].
    + exists (g' <| file_mode := 384 |>). split; [done|]. rewrite E, lookup_alter_eq, Hg'. split; done.
    + exists g'. split; [done|]. by rewrite lookup_alter_ne.
  - rewrite lookup_alter_ne; [done|]. specialize (Hn 0 ltac:(lia)). by intros ->.
Qed.

Lemma sys_open_kept m0 l : kept m0 (files (log_files l)) ->
  wp (sys (open_active_file path)) (fun _ l' => kept m0 (files (log_files l'))) l.
Proof.
  intros H. apply wp_zoom. eapply wp_mono; [apply (open_active_spec (kept m0)); [done| |]|done].
  - intros m f Hm. by apply kept_open.
  - intros m Hm. by apply kept_open.
Qed.

Lemma reopen_kept m0 l : kept m0 (files (log_files l)) ->
  wp (reopen_active_after_rotation_error path) (fun _ l' => kept m0 (files (log_files l'))) l.
Proof.
  intros H. unfold reopen_active_after_rotation_error. apply wp_bind, wp_gets, wp_if; intros _; [by apply wp_ret|].
  apply wp_bind. eapply wp_mono; [by apply sys_open_kept|]. intros b l1 H1. by apply wp_bind, wp_modify, wp_ret.
Qed.

(** Losing the oldest archive does not matter. *)
Lemma shifted_unlink m0 m : shifted m0 4 m -> shifted m0 4 (delete (log_name 4) m).
Proof.
  intros []. split.
  - intros j Hj. rewrite lookup_delete_ne; [auto|]. intros E%log_name_inj. lia.
  - intros. lia.
  - intros. lia.
  - intros name Hn. rewrite lookup_delete_ne; [auto|]. apply not_eq_sym, Hn. lia.
Qed.

Lemma shifted_rename m0 m i f :
  1 <= i <= 4 -> shifted m0 i m -> m !! log_name (i - 1) = Some f ->
  shifted m0 (i - 1) (<[log_name i := f]> (delete (log_name (i - 1)) m)).
Proof.
  intros Hi [] Hf. split.
  - intros j Hj. rewrite lookup_insert_ne, lookup_delete_ne; [apply sh_below0; lia|intros E%log_name_inj; lia..].
  - intros j g Hj Hg. destruct (decide (j = i - 1)) as [->|Hne].
    + replace (i - 1 + 1) with i by lia. rewrite lookup_insert_eq. rewrite sh_below0 in Hf by lia. congruence.
    + rewrite lookup_insert_ne, lookup_delete_ne; [apply sh_above0; [lia|done]|intros E%log_name_inj; lia..].
  - intros Hj. rewrite lookup_insert_ne; [apply lookup_delete_eq|]. intros E%log_name_inj. lia.
  - intros name Hn. rewrite lookup_insert_ne, lookup_delete_ne; [auto|apply not_eq_sym, Hn; lia..].
Qed.

Lemma shifted_missing m0 m i :
  1 <= i <= 4 -> shifted m0 i m -> m !! log_name (i - 1) = None -> shifted m0 (i - 1) m.
Proof.
  intros Hi [] Hf. split; auto; [intros; apply sh_below0; lia|]. intros j g Hj Hg.
  destruct (decide (j = i - 1)) as [->|Hne]; [|apply sh_above0; [lia|done]].
  rewrite sh_below0 in Hf by lia. congruence.
Qed.

Lemma log_name_archive i : 1 <= i -> archive path i = log_name i.
Proof. intros Hi. unfold log_name. by destruct (Z.eqb_spec i 0); [lia|]. Qed.

Lemma rotate_loop_kept m0 rounds l :
  (rounds <= 4)%nat -> shifted m0 (Z.of_nat rounds) (files (log_files l)) ->
  wp (rotate_loop path rounds) (fun _ l' => kept m0 (files (log_files l'))) l.
Proof.
  revert l. induction rounds as [|rounds IH]; intros l Hr Hs; cbn [rotate_loop].
  { apply wp_bind. eapply wp_mono; [apply sys_open_kept; by eapply shifted_kept; [|exact Hs]|].
    intros b l1 H1. by apply wp_bind, wp_modify, wp_ret. }
  set (i := Z.of_nat (S rounds)) in *. apply wp_bind.
  apply wp_mono with (Q := fun _ l' => shifted m0 i (files (log_files l'))).
  { apply wp_when; intros Hb; [|done]. breflect. unfold AUDIT_ARCHIVES in *. apply wp_bind, wp_zoom. unfold sys_unlink_file.
    apply wp_bind, wp_gets. simpl. replace i with 4 in * by lia. rewrite (log_name_archive 4) by lia.
    destruct (files (log_files l) !! _) as [g|]; [case_test|].
    - apply wp_bind, wp_plain. intros _ os. by apply wp_ret, wp_ret.
    - apply wp_sys_change; intros os; apply wp_ret; simpl; [done|]. by apply shifted_unlink.
    - apply wp_bind, wp_plain. intros _ os. by apply wp_ret, wp_ret. }
  intros [] l1 Hs1. assert ((if i =? 1 then path else archive path (i - 1)) = log_name (i - 1)) as ->.
  { unfold log_name. destruct (Z.eqb_spec i 1), (Z.eqb_spec (i - 1) 0); lia || done. }
  rewrite (log_name_archive i) by lia. apply wp_if; intros _; [apply reopen_kept; eapply shifted_kept; [|exact Hs1]; lia|].
  apply wp_bind, wp_zoom. unfold sys_rename_errno. apply wp_bind, wp_next. intros o os. apply wp_bind, wp_gets. simpl.
  assert (forall os', wp (reopen_active_after_rotation_error path) (fun _ l' => kept m0 (files (log_files l')))
    (l1 <| log_files := (log_files l1) <| outcomes := os' |> |>)) as Hfail.
  { intros os'. apply reopen_kept. eapply shifted_kept; [|exact Hs1]. lia. }
  assert (Z.of_nat rounds = i - 1) as Ei by lia.
  assert (wp (match files (log_files l1) !! log_name (i - 1) with
    | None => mret (inl ENOENT)
    | Some f => if match files (log_files l1) !! log_name i with Some g => is_directory f || is_directory g | None => false end
                then mret (inl EIO)
                else modify (change (fun m => <[log_name i := f]> (delete (log_name (i - 1)) m))) ;; mret (inr tt)
    end) (fun renamed w' => wp (match renamed with inr _ | inl ENOENT => rotate_loop path rounds
      | inl _ => reopen_active_after_rotation_error path end) (fun _ l' => kept m0 (files (log_files l'))) (l1 <| log_files := w' |>))
    ((log_files l1) <| outcomes := os |>)) as Hok.
  { destruct (files (log_files l1) !! log_name (i - 1)) as [f|] eqn:Hf.
    - case_test; [apply wp_ret, Hfail|]. apply wp_bind, wp_modify, wp_ret. apply IH; [lia|]. rewrite Ei. simpl.
      apply shifted_rename; [lia|done|done].
    - apply wp_ret. apply IH; [lia|]. rewrite Ei. apply shifted_missing; [lia|done|done]. }
  destruct o; [exact Hok|apply wp_ret, Hfail|exact Hok].
Qed.

Lemma kept_refl m : kept m m.
Proof. split; [|done]. intros j f Hj Hf. exists j, f. split; [lia|]. split; done. Qed.

Lemma kept_append m0 m data : kept m0 m -> kept m0 (append_data path data m).
Proof.
  intros [H1 H2]. unfold append_data. split.
  - intros j g Hj Hg. destruct (H1 j g Hj Hg) as (k & g' & Hk & Hg' & Hc). exists k.
    destruct (decide (path = log_name k)) as [E|E].
    + eexists. split; [done|]. rewrite E, lookup_alter_eq, Hg'. split; [done|]. simpl. by apply prefix_app_r.
    + exists g'. split; [done|]. by rewrite lookup_alter_ne.
  - intros name Hn. rewrite lookup_alter_ne; [auto|]. specialize (Hn 0 ltac:(lia)). by intros ->.
Qed.

Lemma write_loop_files (P : file_map -> Prop) os data w :
  (forall m d, P m -> P (append_data path d m)) -> P (files w) -> P (files (snd (write_loop os path data w))).
Proof.
  intros HP. revert data w. induction os as [|o os IH]; intros data w Hw; (destruct data as [|b data]; [done|]); cbn [write_loop].
  - simpl. by apply HP.
  - destruct o as [|[]|n]; simpl; try done; [by apply HP|by apply IH|]. case_test; [done|]. apply IH. simpl. by apply HP.
Qed.

(** [C23] Logging loses nothing but the oldest archive.  Whatever system call
    fails at whatever point, an event leaves every file of the log except the
    fourth archive in place under one of the log's five names, its content at
    most continued at the end, and touches no other file; nothing faults. *)
Theorem audit_log_keeps timestamp event peer detail l :
  exists l', audit_log_event path timestamp event peer detail l = Some (tt, l') /\
    kept (files (log_files l)) (files (log_files l')).
Proof.
  set (m0 := files (log_files l)).
  assert (wp (audit_log_event path timestamp event peer detail) (fun _ l' => kept m0 (files (log_files l'))) l) as Hwp.
  2: { destruct (wp_run _ _ _ Hwp) as ([] & l' & E1 & E2). by exists l'. }
  unfold audit_log_event. rewrite audit_line_eq. cbv zeta. apply wp_bind. eapply wp_lift; [done|].
  destruct (_ || _); [apply wp_ret, kept_refl|]. match goal with |- context [write_all path ?d] => generalize d; intros data end.
  apply wp_bind, wp_gets, wp_when; intros _; [|apply kept_refl]. apply wp_bind.
  apply wp_mono with (Q := fun _ l' => kept m0 (files (log_files l'))).
  { unfold rotate_if_needed. apply wp_bind, wp_zoom, wp_plain. intros b os. apply wp_if; intros _; [apply wp_ret, kept_refl|].
    apply wp_bind, wp_gets, wp_if; intros _; [apply wp_ret, kept_refl|]. apply wp_bind, wp_zoom, wp_plain. intros _ os'.
    apply wp_bind, wp_modify. apply rotate_loop_kept; [done|].
    change (Z.of_nat (Z.to_nat AUDIT_ARCHIVES)) with 4. split; simpl; [done|intros; lia|intros; lia|done]. }
  intros _ l1 H1. apply wp_bind, wp_gets, wp_when; intros _; [|done]. apply wp_bind, wp_zoom. unfold wp at 1, write_all.
  pose proof (write_loop_files (kept m0) (outcomes (log_files l1)) data (log_files l1) (kept_append m0) H1) as H2.
  destruct (write_loop _ _ _ _) as [r w2]. by apply wp_ret.
Qed.

(** ** When no system call fails *)

Lemma wp_plain_ok (Q : bool -> store_world -> Prop) w : outcomes w = [] -> Q true w -> wp sys_plain Q w.
Proof. intros Ho HQ. unfold wp, sys_plain, next_outcome, mbind, M_bind. by rewrite Ho. Qed.

Lemma wp_change_ok f (Q : bool -> store_world -> Prop) w :
  outcomes w = [] -> Q true (change f w) -> wp (sys_change f) Q w.
Proof. intros Ho HQ. unfold sys_change. by apply wp_bind, wp_plain_ok. Qed.

Definition no_directories (m : file_map) : Prop :=
  forall j f, 0 <= j <= 4 -> m !! log_name j = Some f -> is_directory f = false.

Definition new_file (uid : Z) : file := mk_file Regular 384 uid [] false.

Lemma open_active_ok l :
  outcomes (log_files l) = [] -> files (log_files l) !! path = None ->
  wp (sys (open_active_file path)) (fun opened l' => opened = true /\ outcomes (log_files l') = [] /\
    files (log_files l') = <[path := new_file (euid (log_files l))]> (files (log_files l))) l.
Proof.
  intros Ho Hf. apply wp_zoom. unfold open_active_file, sys_open_append. apply wp_bind, wp_bind, wp_plain_ok; [done|].
  apply wp_bind, wp_gets. simpl. rewrite Hf. apply wp_bind, wp_modify, wp_ret. simpl negb. cbv iota.
  apply wp_bind, wp_change_ok; [done|]. simpl. apply wp_ret. split_and!; [done|done|]. simpl. by rewrite alter_insert_eq.
Qed.

Lemma rotate_loop_ok m0 rounds l :
  (rounds <= 4)%nat -> shifted m0 (Z.of_nat rounds) (files (log_files l)) -> outcomes (log_files l) = [] ->
  no_directories (files (log_files l)) -> Zlen path < PATH_MAX ->
  wp (rotate_loop path rounds) (fun _ l' => log_open l' = true /\ outcomes (log_files l') = [] /\
    exists m, shifted m0 0 m /\ files (log_files l') = <[path := new_file (euid (log_files l))]> m) l.
Proof.
  revert l. induction rounds as [|rounds IH]; intros l Hr Hs Ho Hd Hp; cbn [rotate_loop].
  { apply wp_bind. eapply wp_mono; [apply open_active_ok; [done|by apply (sh_gap _ _ _ Hs)]|].
    intros b l1 (-> & H2 & H3). apply wp_bind, wp_modify, wp_ret. simpl. split_and!; [done|done|]. eauto. }
  set (i := Z.of_nat (S rounds)) in *. assert (forall j, 0 <= j -> fits (log_name j) = true) as Hfits.
  { intros j Hj. unfold fits. apply Z.ltb_lt. unfold log_name, archive. case_test; rewrite ?length_app; simpl length; lia. }
  apply wp_bind. apply wp_mono with (Q := fun _ l' => shifted m0 i (files (log_files l')) /\ outcomes (log_files l') = [] /\
    no_directories (files (log_files l')) /\ euid (log_files l') = euid (log_files l)).
  { apply wp_when; intros Hb; [|done]. breflect. unfold AUDIT_ARCHIVES in *. apply wp_bind, wp_zoom. unfold sys_unlink_file.
    apply wp_bind, wp_gets. simpl. replace i with 4 in * by lia. rewrite (log_name_archive 4) by lia.
    destruct (files (log_files l) !! log_name 4) as [g|] eqn:Hg.
    - rewrite (Hd 4 g ltac:(lia) Hg). apply wp_change_ok; [done|]. apply wp_ret. simpl. split_and!; [by apply shifted_unlink|done| |done].
      intros j f Hj. rewrite lookup_delete_Some. intros [_ Hf]. by apply (Hd j).
    - apply wp_bind, wp_plain_ok; [done|]. by apply wp_ret, wp_ret. }
  intros [] l1 (Hs1 & Ho1 & Hd1 & He1). assert ((if i =? 1 then path else archive path (i - 1)) = log_name (i - 1)) as ->.
  { unfold log_name. destruct (Z.eqb_spec i 1), (Z.eqb_spec (i - 1) 0); lia || done. }
  rewrite (log_name_archive i) by lia. rewrite !Hfits by lia. simpl negb. simpl orb. cbv iota.
  assert (Z.of_nat rounds = i - 1) as Ei by lia. rewrite <- He1.
  apply wp_bind, wp_zoom. unfold sys_rename_errno. unfold wp at 1, next_outcome, mbind, M_bind. rewrite Ho1. unfold gets at 1. simpl.
  destruct (files (log_files l1) !! log_name (i - 1)) as [f|] eqn:Hf.
  - assert (match files (log_files l1) !! log_name i with Some g => is_directory f || is_directory g | None => false end = false) as ->.
    { rewrite (Hd1 (i - 1) f) by (done || lia). destruct (files (log_files l1) !! log_name i) eqn:Hg; [|done]. simpl. by apply (Hd1 i); [lia|]. }
    specialize (IH (mk_audit_log (log_open l1) (change (fun m => <[log_name i := f]> (delete (log_name (i - 1)) m)) (log_files l1)))).
    simpl in IH |- *. apply IH; [lia| |done| |done]; [rewrite Ei; apply shifted_rename; [lia|done|done]|].
    intros j g Hj. rewrite lookup_insert_Some, lookup_delete_Some. intros [[_ <-]|[_ [_ Hg]]]; [by apply (Hd1 (i - 1)); [lia|]|by apply (Hd1 j)].
  - simpl. apply (IH (mk_audit_log (log_open l1) (log_files l1))); simpl; [lia| |done|done|done]. rewrite Ei.
    apply shifted_missing; [lia|done|done].
Qed.

#[local] Arguments rotate_loop : simpl never.

Lemma write_all_ok data w : outcomes w = [] -> data <> [] ->
  exists w', write_all path data w = Some (0, w') /\ files w' = append_data path data (files w) /\ outcomes w' = [].
Proof. intros Ho Hd. unfold write_all. rewrite Ho. destruct data; [done|]. cbn [write_loop]. eauto. Qed.

Lemma bounded_line (line data : list Z) :
  (if (Zlen line <=? 0) || (Zlen line >=? 512) then None else Some line) = Some data -> data <> [] /\ Zlen data < 512.
Proof. case_test; [done|]. intros [= <-]. breflect. split; [|lia]. intros ->. simpl in *. lia. Qed.

(** An event is logged.  With an open log whose active file is a regular
    file, and no failing system call, the whole line of the event is at the end
    of the active file afterwards.  Below five megabytes nothing else changes;
    from there on each archive has moved up by one, the old active file is the
    first archive, and the active file holds just this line.  So the active
    file never exceeds five megabytes by more than one line. *)
Theorem audit_event_written timestamp event peer detail data l f :
  audit_line timestamp event peer detail = Some (Some data) ->
  log_open l = true -> outcomes (log_files l) = [] -> Zlen path < PATH_MAX ->
  files (log_files l) !! path = Some f -> no_directories (files (log_files l)) ->
  exists l' g, audit_log_event path timestamp event peer detail l = Some (tt, l') /\ log_open l' = true /\
    files (log_files l') !! path = Some g /\ Zlen (content g) < AUDIT_MAX_BYTES + 512 /\
    (Zlen (content f) < AUDIT_MAX_BYTES ->
       content g = content f ++ data /\ forall name, name <> path -> files (log_files l') !! name = files (log_files l) !! name) /\
    (AUDIT_MAX_BYTES <= Zlen (content f) ->
       content g = data /\ forall j h, 0 <= j <= 3 -> files (log_files l) !! log_name j = Some h ->
         files (log_files l') !! log_name (j + 1) = Some h).
Proof.
  intros Hline Hopen Ho Hp Hf Hd.
  assert (data <> [] /\ Zlen data < 512) as [Hne Hlen].
  { pose proof Hline as Hl. rewrite audit_line_eq in Hl. injection Hl as Hl. exact (bounded_line _ _ Hl). }
  match goal with |- exists l' g, _ = Some (tt, l') /\ @?P l' g =>
    assert (wp (audit_log_event path timestamp event peer detail) (fun _ l' => exists g, P l' g) l) as Hwp end.
  2: { destruct (wp_run _ _ _ Hwp) as ([] & l' & E1 & g & E2). by exists l', g. }
  unfold audit_log_event. rewrite Hline. apply wp_bind. eapply wp_lift; [done|]. apply wp_bind, wp_gets, wp_when; [intros _|simpl; congruence].
  apply wp_bind. unfold rotate_if_needed. apply wp_bind, wp_zoom, wp_plain_ok; [done|]. simpl negb. cbv iota.
  apply wp_bind, wp_gets. simpl. rewrite Hf. simpl. apply wp_if; intros Hb; breflect.
  - apply wp_ret. apply wp_bind, wp_gets, wp_when; [intros _|simpl; congruence]. apply wp_bind, wp_zoom. simpl.
    destruct (write_all_ok data (log_files l) Ho Hne) as (w' & E1 & E2 & E3). unfold wp at 1. rewrite E1. apply wp_ret. simpl.
    rewrite E2. unfold append_data. rewrite lookup_alter_eq, Hf. eexists. split; [done|]. split; [done|]. simpl.
    rewrite length_app. split; [lia|]. split; [|lia]. intros _. split; [done|]. intros name Hn. by rewrite lookup_alter_ne.
  - apply wp_bind, wp_zoom, wp_plain_ok; [done|]. apply wp_bind, wp_modify.
    eapply wp_mono; [apply (rotate_loop_ok (files (log_files l))); [done| |done|done|done]|].
    { change (Z.of_nat (Z.to_nat AUDIT_ARCHIVES)) with 4. split; simpl; [done|intros; lia|intros; lia|done]. }
    intros _ l1 (H1 & H2 & m & H3 & H4). apply wp_bind, wp_gets, wp_when; [intros _|simpl; congruence]. apply wp_bind, wp_zoom.
    destruct (write_all_ok data (log_files l1) H2 Hne) as (w' & E1 & E2 & E3). unfold wp at 1. rewrite E1. apply wp_ret. simpl.
    rewrite E2, H4. unfold append_data. rewrite lookup_alter_eq, lookup_insert_eq. eexists. split; [done|]. split; [done|]. simpl.
    split; [unfold AUDIT_MAX_BYTES; lia|]. split; [lia|]. intros _. split; [done|]. intros j h Hj Hh.
    rewrite lookup_alter_ne, lookup_insert_ne; [by apply (sh_above _ _ _ H3)|intros E; rewrite path_name in E; apply log_name_inj in E; lia..].
Qed.
End rotation.

(** * Concrete instances *)

Definition noisy : list Z := txt "bad" ++ [10] ++ txt "2026 event=fake|" ++ [200; 27].

Lemma audit_line_unforgeable_witness :
  exists e p d, audit_line (txt "2026-01-02T03:04:05Z") (txt "login_failure") (Some noisy) None =
      Some (Some (txt "2026-01-02T03:04:05Z" ++ txt " event=" ++ e ++ txt " peer=" ++ p ++ txt " detail=" ++ d ++ [LF])) /\
    e = txt "login_failure".
Proof.
  destruct (audit_line_unforgeable (txt "2026-01-02T03:04:05Z") (txt "login_failure") (Some noisy) None)
    as (e & p & d & E1 & _ & _ & _ & _ & E2).
  - by apply (bool_decide_unpack _).
  - by apply (bool_decide_unpack _).
  - exists e, p, d. split; [exact E1|]. apply E2; [unfold scrubbed; by apply (bool_decide_unpack _)|by apply (bool_decide_unpack _)].
Defined.

Definition small_log : audit_log :=
  mk_audit_log true (mk_store_world (<[txt "/l/a" := new_file 0]> ∅) ∅ [] [] 0 0).

Lemma audit_event_written_witness :
  exists data l' g, audit_line (txt "now") (txt "start") None None = Some (Some data) /\
    audit_log_event (txt "/l/a") (txt "now") (txt "start") None None small_log = Some (tt, l') /\
    files (log_files l') !! txt "/l/a" = Some g /\ content g = [] ++ data.
Proof.
  destruct (audit_line (txt "now") (txt "start") None None) as [[data|]|] eqn:Ed; [|vm_compute in Ed; discriminate..].
  destruct (audit_event_written (txt "/l/a") (txt "now") (txt "start") None None data small_log (new_file 0))
    as (l' & g & E1 & _ & E2 & _ & E3 & _).
  - exact Ed.
  - reflexivity.
  - reflexivity.
  - by apply (bool_decide_unpack _).
  - reflexivity.
  - intros j f Hj Hf. simpl in Hf. apply lookup_insert_Some in Hf as [[_ <-]|[_ Hf]]; [reflexivity|].
    rewrite lookup_empty in Hf. discriminate.
  - exists data, l', g. split; [exact eq_refl|]. split; [exact E1|]. split; [exact E2|]. apply E3. reflexivity.
Defined.
