(* ===== verification/Directories.v ===== *)
(** The directories of the player store and of the audit log: the checks that
    [player_store_open] and [audit_log_open] make before they use them.

    Files are those of [PlayerStore], by path; the kernel does not distinguish
    paths that differ in repeated or final slashes, so they are looked up after
    [squeeze].  [realpath] and the start of libsodium are inputs. *)
From S2P Require Import Prelude AsciiText PlayerStore PlayerRecords AuditLog.

Definition SLASH : Z := 47.

Fixpoint squeeze (path : list Z) : list Z :=
  match path with
  | [] => []
  | b :: path =>
      match squeeze path with
      | [] => if b =? SLASH then [] else [b]
      | c :: rest => if (b =? SLASH) && (c =? SLASH) then c :: rest else b :: c :: rest
      end
  end.

(** The name of a directory in the map; the root is ["/"]. *)
Definition node (path : list Z) : list Z := match squeeze path with [] => [SLASH] | p => p end.

(** [mkdir(path, 0700)]: an existing entry is an answer about the files. *)
Definition sys_mkdir (path : list Z) : M store_world (errno + unit) :=
  ok ← sys_plain;
  w ← gets id;
  if negb (ok : bool) then mret (inl EIO)
  else
    match files w !! node path with
    | Some _ => mret (inl EEXIST)
    | None => modify (change (insert (node path) (mk_file Directory 448 (euid w) [] false))) ;; mret (inr tt)
    end.

(** [lstat]: the entry itself. *)
Definition sys_lstat (path : list Z) : M store_world (option file) :=
  ok ← sys_plain;
  w ← gets id;
  mret (if (ok : bool) then files w !! node path else None).

Definition sys_chmod (path : list Z) (mode : Z) : M store_world bool :=
  sys_change (alter (fun f => f <| file_mode := mode |>) (node path)).

(** [mkdir] unless it exists, then a directory that is no link. *)
Definition checked_directory (path : list Z) : M store_world bool :=
  made ← sys_mkdir path;
  match made with
  | inl EEXIST | inr _ =>
      info ← sys_lstat path;
      mret (match info with Some f => is_directory f | None => false end)
  | inl _ => mret false
  end.

(** The loop of [ensure_private_directory]: [before] is [working] up to [i]. *)
Fixpoint directory_loop (before rest : list Z) : M store_world bool :=
  match rest with
  | [] => checked_directory before
  | c :: rest =>
      ok ← (if c =? SLASH then checked_directory before else mret true);
      if negb (ok : bool) then mret false else directory_loop (before ++ [c]) rest
  end.

Definition ensure_private_directory (path : option (list Z)) : M store_world Z :=
  match path with
  | None => mret (-1)
  | Some path =>
      match c_str path with
      | [] => mret (-1)
      | first :: rest =>
          if strlen path >=? PATH_MAX then mret (-1)
          else
            ok ← directory_loop [first] rest;
            if negb (ok : bool) then mret (-1)
            else
              moded ← sys_chmod (c_str path) 448;
              mret (if negb (moded : bool) then -1 else 0)
      end
  end.

(** The store's directory; [sodium] is whether libsodium is ready. *)
Definition player_store_open (directory_path : option (list Z)) (sodium : bool) (resolved : option (list Z)) (allocated : bool)
    : M store_world (option (list Z)) :=
  match directory_path with
  | None => mret None
  | Some _ =>
      if negb sodium then mret None
      else
        r ← ensure_private_directory directory_path;
        if negb (r =? 0) then mret None
        else
          match resolved with
          | None => mret None
          | Some resolved =>
              if negb allocated then mret None
              else if strlen resolved >=? PATH_MAX then mret None
              else directory ← lift_opt (store_str PATH_MAX resolved); mret (Some directory)
          end
  end.

(** * The log *)

(** The part before the last slash ([strrchr]), if there is one. *)
Fixpoint before_last_slash (path : list Z) : option (list Z) :=
  match path with
  | [] => None
  | b :: path =>
      match before_last_slash path with
      | Some before => Some (b :: before)
      | None => if b =? SLASH then Some [] else None
      end
  end.

Definition ensure_private_parent (path : option (list Z)) : M store_world Z :=
  match path with
  | None => mret (-1)
  | Some path =>
      if strlen path >=? PATH_MAX then mret (-1)
      else
        match before_last_slash (c_str path) with
        | None | Some [] => mret 0
        | Some parent =>
            ok ← checked_directory parent;
            if negb (ok : bool) then mret (-1)
            else
              moded ← sys_chmod parent 448;
              mret (if negb (moded : bool) then -1 else 0)
        end
  end.

(** Whether the log was opened; [allocated] and [mutex] are [calloc] and
    [pthread_mutex_init]. *)
Definition audit_log_open (path : option (list Z)) (allocated mutex : bool) : M store_world bool :=
  match path with
  | None => mret false
  | Some name =>
      match c_str name with
      | [] => mret false
      | _ =>
          if strlen name >=? PATH_MAX then mret false
          else
            r ← ensure_private_parent path;
            if negb (r =? 0) || negb allocated || negb mutex then mret false
            else
              stored ← lift_opt (store_str PATH_MAX name);
              open_active_file stored
      end
  end.

(** * What the checks guarantee *)

(** The files stayed what they were, except that some modes became 0700, and
    what is new is a private directory. *)
Record only_directories (m m' : file_map) : Prop := mk_only {
  od_kept : forall p f, m !! p = Some f -> exists f', m' !! p = Some f' /\ file_kind_of f' = file_kind_of f /\
    content f' = content f /\ file_uid f' = file_uid f /\ (file_mode f' = file_mode f \/ file_mode f' = 448);
  od_new : forall p f, m !! p = None -> m' !! p = Some f -> is_directory f = true /\ file_mode f = 448
}.

#[export] Instance only_preorder : PreOrder only_directories.
Proof.
  split.
  - intros m. split; [intros p f Hf; exists f; by split_and!; try left|congruence].
  - intros m1 m2 m3 [K1 N1] [K2 N2]. split.
    + intros p f Hf. destruct (K1 p f Hf) as (f2 & H2 & E1 & E2 & E3 & E4). destruct (K2 p f2 H2) as (f3 & H3 & E5 & E6 & E7 & E8).
      exists f3. split; [done|]. rewrite E5, E6, E7. split_and!; [done..|]. destruct E8; [|by right]. destruct E4; [left|right]; congruence.
    + intros p f H1 H3. destruct (m2 !! p) as [f2|] eqn:E2; [|by apply (N2 p f)].
      destruct (N1 p f2 H1 E2) as [D M]. destruct (K2 p f2 E2) as (f3 & H4 & E5 & _ & _ & E8). simplify_eq. unfold is_directory in *. rewrite E5.
      split; [done|]. destruct E8; congruence.
Qed.

Definition real_directory (m : file_map) (path : list Z) : Prop := exists f, m !! node path = Some f /\ is_directory f = true.

Lemma real_directory_stays m m' path : only_directories m m' -> real_directory m path -> real_directory m' path.
Proof.
  intros [K _] (f & Hf & Hd). destruct (K _ _ Hf) as (f' & Hf' & E & _). exists f'. split; [done|]. unfold is_directory in *. by rewrite E.
Qed.

Lemma mkdir_only path w : wp (sys_mkdir path) (fun _ w' => only_directories (files w) (files w')) w.
Proof.
  unfold sys_mkdir. apply wp_bind, wp_plain. intros [] os; apply wp_bind, wp_gets; simpl; [|by apply wp_ret].
  destruct (files w !! node path) as [f|] eqn:Ef; [by apply wp_ret|]. apply wp_bind, wp_modify, wp_ret. simpl. split.
  - intros p f Hf. exists f. rewrite lookup_insert_ne by congruence. by split_and!; try left.
  - intros p f Hn. destruct (decide (p = node path)) as [->|Hne]; [rewrite lookup_insert_eq; by intros [= <-]|rewrite lookup_insert_ne by done; congruence].
Qed.

Lemma lstat_spec path w :
  wp (sys_lstat path) (fun info w' => files w' = files w /\ (forall f, info = Some f -> files w !! node path = Some f)) w.
Proof. unfold sys_lstat. apply wp_bind, wp_plain. intros [] os; apply wp_bind, wp_gets, wp_ret; done. Qed.

Lemma checked_spec path w :
  wp (checked_directory path) (fun ok w' => only_directories (files w) (files w') /\ (ok = true -> real_directory (files w') path)) w.
Proof.
  unfold checked_directory. apply wp_bind. eapply wp_mono; [apply mkdir_only|]. intros made w1 H1.
  assert (wp (info ← sys_lstat path; mret (match info with Some f => is_directory f | None => false end))
    (fun ok w' => only_directories (files w) (files w') /\ (ok = true -> real_directory (files w') path)) w1) as Hstat.
  { apply wp_bind. eapply wp_mono; [apply lstat_spec|]. intros info w2 [E2 H2]. apply wp_ret. rewrite E2. split; [done|].
    destruct info as [f|]; [|done]. intros Hd. exists f. by rewrite (H2 f eq_refl). }
  destruct made as [[]|]; try (apply wp_ret; done); exact Hstat.
Qed.

Lemma loop_spec before rest w :
  wp (directory_loop before rest) (fun ok w' => only_directories (files w) (files w') /\ (ok = true ->
    forall a b, before ++ rest = a ++ b -> (length before <= length a)%nat -> b = [] \/ (exists b', b = SLASH :: b') -> real_directory (files w') a)) w.
Proof.
  revert before w. induction rest as [|c rest IH]; intros before w; simpl.
  - eapply wp_mono; [apply checked_spec|]. intros ok w1 [H1 H2]. split; [done|]. intros Hok a b Hab Hl _. rewrite app_nil_r in Hab.
    assert (b = []) as -> by (destruct b; [done|]; subst before; rewrite length_app in Hl; simpl in Hl; lia).
    rewrite app_nil_r in Hab. subst a. by apply H2.
  - apply wp_bind. eapply wp_mono with (Q := fun ok w1 => only_directories (files w) (files w1) /\ (ok = true -> c = SLASH -> real_directory (files w1) before)).
    { destruct (Z.eqb_spec c SLASH) as [->|Hc]; [|by apply wp_ret]. eapply wp_mono; [apply checked_spec|]. intros ok w1 [H1 H2]. auto. }
    intros ok w1 [H1 H2]. destruct ok; simpl; [|by apply wp_ret]. eapply wp_mono; [apply IH|]. intros ok w2 [H3 H4]. split; [by etrans|].
    intros Hok a b Hab Hl Hb. destruct (decide (length before = length a)) as [Hsame|Hmore].
    + apply app_inj_1 in Hab as [-> <-]; [|done]. destruct Hb as [Hb|[b' [= -> _]]]; [done|]. eapply real_directory_stays; [exact H3|by apply H2].
    + apply (H4 Hok a b); [by rewrite <- app_assoc|rewrite length_app; simpl; lia|done].
Qed.

Lemma chmod_only path w :
  wp (sys_chmod path 448) (fun ok w' => only_directories (files w) (files w') /\
    (ok = true -> forall f, files w !! node path = Some f -> exists f', files w' !! node path = Some f' /\ file_mode f' = 448 /\ is_directory f' = is_directory f)) w.
Proof.
  apply wp_sys_change; intros os; simpl; [done|]. split; [split|].
  - intros p f Hf. destruct (decide (p = node path)) as [->|Hne].
    + rewrite lookup_alter_eq, Hf. simpl. eexists. split; [done|]. by split_and!; try right.
    + rewrite lookup_alter_ne by done. exists f. by split_and!; try left.
  - intros p f Hn. destruct (decide (p = node path)) as [->|Hne]; [rewrite lookup_alter_eq, Hn; done|rewrite lookup_alter_ne by done; congruence].
  - intros _ f Hf. rewrite lookup_alter_eq, Hf. simpl. by eexists.
Qed.

Lemma ensure_spec path w :
  wp (ensure_private_directory (Some path)) (fun r w' => only_directories (files w) (files w') /\ (r = 0 ->
    (forall a b, c_str path = a ++ b -> a <> [] -> b = [] \/ (exists b', b = SLASH :: b') -> real_directory (files w') a) /\
    exists f, files w' !! node (c_str path) = Some f /\ is_directory f = true /\ file_mode f = 448)) w.
Proof.
  unfold ensure_private_directory. destruct (c_str path) as [|first rest] eqn:Ep; [by apply wp_ret|].
  apply wp_if; intros _; [by apply wp_ret|]. apply wp_bind. eapply wp_mono; [apply loop_spec|]. intros ok w1 [H1 H2].
  destruct ok; simpl; [|by apply wp_ret]. specialize (H2 eq_refl). rewrite app_comm_cons in H2 || simpl in H2.
  apply wp_bind. eapply wp_mono; [apply chmod_only|]. intros moded w2 [H3 H4]. apply wp_ret. split; [by etrans|].
  destruct moded; simpl; [|done]. intros _. split.
  - intros a b Hab Ha Hb. eapply real_directory_stays; [exact H3|]. apply (H2 a b); [done| |done]. destruct a; [done|]. simpl. lia.
  - destruct (H2 (first :: rest) []) as (f & Hf & Hd); [by rewrite app_nil_r|simpl; lia|by left|].
    destruct (H4 eq_refl f Hf) as (f' & Hf' & Hm & Hd'). exists f'. by rewrite Hd'.
Qed.

(** [C35] The store opens only in a private directory of its own.  If
    [player_store_open] gives a store, every component of the configured path
    is a real directory and no symbolic link, and the last one has mode 0700;
    the path it will use fits its buffer.  Whatever happens and whichever calls
    fail, no existing file is removed, replaced or emptied, and every entry
    that is new is a directory of mode 0700. *)
Theorem store_directory_private path sodium resolved allocated w :
  exists r w', player_store_open (Some path) sodium resolved allocated w = Some (r, w') /\ only_directories (files w) (files w') /\
    (forall directory, r = Some directory -> Zlen directory < PATH_MAX /\
      (forall a b, c_str path = a ++ b -> a <> [] -> b = [] \/ (exists b', b = SLASH :: b') -> real_directory (files w') a) /\
      exists f, files w' !! node (c_str path) = Some f /\ is_directory f = true /\ file_mode f = 448).
Proof.
  apply wp_run with (Q := fun r w' => only_directories (files w) (files w') /\
    (forall directory, r = Some directory -> Zlen directory < PATH_MAX /\
      (forall a b, c_str path = a ++ b -> a <> [] -> b = [] \/ (exists b', b = SLASH :: b') -> real_directory (files w') a) /\
      exists f, files w' !! node (c_str path) = Some f /\ is_directory f = true /\ file_mode f = 448)).
  unfold player_store_open. apply wp_if; intros _; [by apply wp_ret|]. apply wp_bind. eapply wp_mono; [apply ensure_spec|].
  intros r w1 [H1 H2]. destruct (Z.eqb_spec r 0) as [->|]; simpl; [|by apply wp_ret]. destruct resolved as [resolved|]; [|by apply wp_ret].
  apply wp_if; intros _; [by apply wp_ret|]. destruct (Z.geb_spec (strlen resolved) PATH_MAX); [by apply wp_ret|].
  apply wp_bind. eapply wp_lift; [apply store_str_Some; lia|]. apply wp_ret. split; [done|]. intros directory [= <-].
  split; [done|]. by apply H2.
Qed.

(** The audit log opens only under a private parent.  If [audit_log_open]
    succeeds on a path with a parent directory, the parent is a real directory,
    no symbolic link. *)
Theorem log_parent_private path allocated mutex parent w r w' :
  before_last_slash (c_str path) = Some parent -> parent <> [] ->
  ensure_private_parent (Some path) w = Some (r, w') ->
  only_directories (files w) (files w') /\
  (r = 0 -> exists f, files w' !! node parent = Some f /\ is_directory f = true /\ file_mode f = 448) /\
  (r <> 0 -> exists w'', audit_log_open (Some path) allocated mutex w = Some (false, w'')).
Proof.
  intros Hp Hne E1.
  assert (wp (ensure_private_parent (Some path)) (fun r w' => only_directories (files w) (files w') /\
    (r = 0 -> exists f, files w' !! node parent = Some f /\ is_directory f = true /\ file_mode f = 448)) w) as Hspec.
  { unfold ensure_private_parent. apply wp_if; intros _; [by apply wp_ret|]. rewrite Hp. destruct parent as [|b parent]; [done|].
    apply wp_bind. eapply wp_mono; [apply checked_spec|]. intros ok w1 [H1 H2]. destruct ok; simpl; [|by apply wp_ret].
    apply wp_bind. eapply wp_mono; [apply chmod_only|]. intros moded w2 [H3 H4]. apply wp_ret. split; [by etrans|].
    destruct moded; simpl; [|done]. intros _. destruct (H2 eq_refl) as (f & Hf & Hd). destruct (H4 eq_refl f Hf) as (f' & Hf' & Hm & Hd').
    exists f'. by rewrite Hd'. }
  destruct (wp_of_run _ _ _ _ _ Hspec E1) as [H1 H2]. split; [done|]. split; [done|]. intros Hr.
  unfold audit_log_open. destruct (c_str path) as [|b rest]; [by eexists|]. case_match; [by eexists|].
  unfold mbind, M_bind. rewrite E1. destruct (Z.eqb_spec r 0); [done|]. simpl. by eexists.
Qed.
