(* ===== verification/Application.v ===== *)
(** The seam between a transport and the application (terminal_application.h):
    capabilities, the output table a transport offers ([TerminalOutput]), and
    the hooks an application provides.

    A hook is C code that may call back into the transport's output table.  It
    is modelled by the finite tree of the output calls it makes and what it
    does with their results ([app_prog]); the application's own memory is the
    type [AppState], threaded through the hooks.  A transport runs a hook with
    [run_app]. *)
From S2P Require Import Prelude.

Record terminal_capabilities := mk_capabilities {
  cap_width : Z;
  cap_height : Z;
  cap_utf8 : bool;
  cap_ansi : bool;
  cap_color_256 : bool;
  cap_truecolor : bool;
  cap_screen_reader : bool;
  cap_secure_transport : bool;
  cap_gmcp : bool;
  cap_osc8 : bool;
  cap_osc8_send : bool;
  cap_osc8_prompt : bool;
  cap_osc8_tooltip : bool;
  cap_terminal_type : list Z;
  cap_client_name : list Z;
  cap_client_version : list Z
}.

(** The calls of [terminal_output]; a NULL string is [None]. *)
Inductive app_prog (A : Type) : Type :=
| AppRet (a : A)
| AppWriteText (text : option (list Z)) (k : app_prog A)
| AppWritePrompt (text : option (list Z)) (k : app_prog A)
| AppRequestClose (message : option (list Z)) (k : app_prog A)
| AppSendGmcp (package_name json_payload : option (list Z)) (k : Z -> app_prog A)
| AppWriteLink (uri label : option (list Z)) (k : Z -> app_prog A).
Arguments AppRet {A} a.
Arguments AppWriteText {A} text k.
Arguments AppWritePrompt {A} text k.
Arguments AppRequestClose {A} message k.
Arguments AppSendGmcp {A} package_name json_payload k.
Arguments AppWriteLink {A} uri label k.

(** What a transport implements: [struct terminal_output]. *)
Class TerminalOutput (W : Type) := {
  out_write_text : option (list Z) -> M W unit;
  out_write_prompt : option (list Z) -> M W unit;
  out_request_close : option (list Z) -> M W unit;
  out_send_gmcp : option (list Z) -> option (list Z) -> M W Z;
  out_write_link : option (list Z) -> option (list Z) -> M W Z
}.

Fixpoint run_app {W} `{!TerminalOutput W} {A} (p : app_prog A) : M W A :=
  match p with
  | AppRet a => mret a
  | AppWriteText text k => out_write_text text ;; run_app k
  | AppWritePrompt text k => out_write_prompt text ;; run_app k
  | AppRequestClose message k => out_request_close message ;; run_app k
  | AppSendGmcp package_name json_payload k => r ← out_send_gmcp package_name json_payload; run_app (k r)
  | AppWriteLink uri label k => r ← out_write_link uri label; run_app (k r)
  end.

(** [struct terminal_application_hooks]: a hook that is NULL is [None].  The
    session pointer the application returns from [open] is a number; [AS]
    holds everything the application keeps. *)
Record terminal_application_hooks (AS : Type) := mk_hooks {
  hook_open : option (AS -> list Z -> terminal_capabilities -> app_prog (option nat * AS));
  hook_line : option (AS -> nat -> list Z -> app_prog (Z * AS));
  hook_capabilities_changed : option (AS -> nat -> terminal_capabilities -> app_prog AS);
  hook_gmcp : option (AS -> nat -> list Z -> list Z -> app_prog AS);
  hook_poll : option (AS -> nat -> app_prog (Z * AS));
  hook_close : option (AS -> nat -> AS)
}.
Arguments hook_open {AS}.
Arguments hook_line {AS}.
Arguments hook_capabilities_changed {AS}.
Arguments hook_gmcp {AS}.
Arguments hook_poll {AS}.
Arguments hook_close {AS}.

(** Whatever the application does, a property of the transport's state that
    each output call keeps is kept. *)
Lemma wp_run_app {W} `{!TerminalOutput W} {A} (p : app_prog A) (I : W -> Prop) (w : W) :
  (forall t w, I w -> wp (out_write_text t) (fun _ => I) w) ->
  (forall t w, I w -> wp (out_write_prompt t) (fun _ => I) w) ->
  (forall t w, I w -> wp (out_request_close t) (fun _ => I) w) ->
  (forall a b w, I w -> wp (out_send_gmcp a b) (fun _ => I) w) ->
  (forall a b w, I w -> wp (out_write_link a b) (fun _ => I) w) ->
  I w -> wp (run_app p) (fun _ => I) w.
Proof.
  intros H1 H2 H3 H4 H5. revert w. induction p as [a|t k IH|t k IH|t k IH|a b k IH|a b k IH]; intros w Hw; simpl.
  - done.
  - apply wp_bind. eapply wp_mono; [by apply H1|]. auto.
  - apply wp_bind. eapply wp_mono; [by apply H2|]. auto.
  - apply wp_bind. eapply wp_mono; [by apply H3|]. auto.
  - apply wp_bind. eapply wp_mono; [by apply H4|]. auto.
  - apply wp_bind. eapply wp_mono; [by apply H5|]. auto.
Qed.

(** * The life of an application session

    What a transport does to the application, seen from the application: the
    session pointer the transport holds, and the application's memory. *)

(** [a] is a result of the hook, for some answers of the output calls. *)
Fixpoint may_end {A} (p : app_prog A) (a : A) : Prop :=
  match p with
  | AppRet b => b = a
  | AppWriteText _ k | AppWritePrompt _ k | AppRequestClose _ k => may_end k a
  | AppSendGmcp _ _ k | AppWriteLink _ _ k => exists r, may_end (k r) a
  end.

Lemma run_may_end {W} `{!TerminalOutput W} {A} (p : app_prog A) (w w' : W) a :
  run_app p w = Some (a, w') -> may_end p a.
Proof.
  revert w. induction p as [b|t k IH|t k IH|t k IH|x y k IH|x y k IH]; intros w; simpl.
  - by intros [= <- _].
  - intros (? & w1 & _ & Hr)%bind_run. by eapply IH.
  - intros (? & w1 & _ & Hr)%bind_run. by eapply IH.
  - intros (? & w1 & _ & Hr)%bind_run. by eapply IH.
  - intros (r & w1 & _ & Hr)%bind_run. exists r. by eapply IH.
  - intros (r & w1 & _ & Hr)%bind_run. exists r. by eapply IH.
Qed.

(** The calls that are in order: a session is opened when none is held; every
    other hook gets the session that is held; closing gives it up. *)
Inductive hook_call {AS} (hooks : terminal_application_hooks AS) : option nat * AS -> option nat * AS -> Prop :=
| call_open open a name caps handle a' :
    hook_open hooks = Some open -> may_end (open a name caps) (handle, a') -> hook_call hooks (None, a) (handle, a')
| call_line on_line a handle line r a' :
    hook_line hooks = Some on_line -> may_end (on_line a handle line) (r, a') -> hook_call hooks (Some handle, a) (Some handle, a')
| call_capabilities changed a handle caps a' :
    hook_capabilities_changed hooks = Some changed -> may_end (changed a handle caps) a' ->
    hook_call hooks (Some handle, a) (Some handle, a')
| call_gmcp handler a handle package_name json_payload a' :
    hook_gmcp hooks = Some handler -> may_end (handler a handle package_name json_payload) a' ->
    hook_call hooks (Some handle, a) (Some handle, a')
| call_poll poll a handle r a' :
    hook_poll hooks = Some poll -> may_end (poll a handle) (r, a') -> hook_call hooks (Some handle, a) (Some handle, a')
| call_close close a handle :
    hook_close hooks = Some close -> hook_call hooks (Some handle, a) (None, close a handle).

(** Any number of calls in order. *)
Definition hook_calls {AS} (hooks : terminal_application_hooks AS) : relation (option nat * AS) := rtc (hook_call hooks).

#[export] Instance hook_calls_preorder {AS} (hooks : terminal_application_hooks AS) : PreOrder (hook_calls hooks).
Proof. unfold hook_calls. apply _. Qed.

Lemma hook_calls_once {AS} (hooks : terminal_application_hooks AS) x y : hook_call hooks x y -> hook_calls hooks x y.
Proof. apply rtc_once. Qed.

(** The session that is held when everything is over is closed, where the
    application wants to know. *)
Lemma close_calls {AS} (hooks : terminal_application_hooks AS) o a :
  hook_calls hooks (o, a) (match hook_close hooks with Some _ => None | None => o end,
    match o, hook_close hooks with Some handle, Some close => close a handle | _, _ => a end).
Proof.
  destruct o as [handle|], (hook_close hooks) as [close|] eqn:Ec; try reflexivity.
  apply hook_calls_once. by apply call_close.
Qed.
