(* ===== verification/TelnetSession.v ===== *)
(** One Telnet session (src/telnet_protocol.c): its state, and everything it
    writes.  The world of a session is its own record, the shared policy and
    player store, the audit calls made, the writer calls made and the
    application's memory.  What the code gets from elsewhere (libsodium,
    [mkstemp], the application, the MSSP snapshot) is the class
    [Environment]. *)
From S2P Require Import Prelude TelnetNegotiation TerminalText AsciiText SecurityPolicy PlayerStore Application.

(** * Data *)

Inductive login_state := LOGIN_NAME | LOGIN_PASSWORD | LOGIN_NEW_PASSWORD | LOGIN_CONFIRM_PASSWORD | LOGIN_IN_GAME.

Inductive parser_state := PARSER_DATA | PARSER_IAC | PARSER_OPTION | PARSER_SB_OPTION | PARSER_SB_DATA | PARSER_SB_IAC.

#[export] Instance login_state_eq : EqDecision login_state.
Proof. solve_decision. Defined.

Definition TERMINAL_TYPE_IS : Z := 0.
Definition TERMINAL_TYPE_SEND : Z := 1.
Definition CHARSET_REQUEST : Z := 1.
Definition CHARSET_ACCEPTED : Z := 2.
Definition CHARSET_REJECTED : Z := 3.
Definition NEW_ENVIRON_IS : Z := 0.
Definition NEW_ENVIRON_SEND : Z := 1.
Definition NEW_ENVIRON_INFO : Z := 2.
Definition NEW_ENVIRON_VAR : Z := 0.
Definition NEW_ENVIRON_VAL : Z := 1.
Definition NEW_ENVIRON_ESC : Z := 2.
Definition NEW_ENVIRON_USERVAR : Z := 3.

Definition TELNET_MTTS_ANSI : Z := 1.
Definition TELNET_MTTS_VT100 : Z := 2.
Definition TELNET_MTTS_UTF8 : Z := 4.
Definition TELNET_MTTS_256_COLORS : Z := 8.
Definition TELNET_MTTS_SCREEN_READER : Z := 64.
Definition TELNET_MTTS_TRUECOLOR : Z := 256.
Definition TELNET_MTTS_MNES : Z := 512.

Definition GMCP_PACKAGE_MAX_BYTES : Z := 96.
Definition GMCP_JSON_MAX_BYTES : Z := 3968.
Definition PENDING_GMCP_CORE_MAX : Z := 4.
Definition INPUT_BYTES_PER_WINDOW : Z := 65536.
Definition INPUT_BYTES_WINDOW_MS : Z := 5000.
Definition INPUT_LINES_PER_WINDOW : Z := 30.
Definition INPUT_LINES_WINDOW_MS : Z := 10000.
Definition COMMANDS_PER_WINDOW : Z := 25.
Definition COMMANDS_WINDOW_MS : Z := 5000.
Definition SUBNEGOTIATION_MAX_BYTES : Z := 4096.
Definition APPLICATION_LINE_MAX : Z := 512.
Definition MSSP_PAYLOAD_MAX_BYTES : Z := 2048.
Definition PROTOCOL_VIOLATION_LIMIT : Z := 8.
Definition TERMINAL_TYPE_REQUEST_LIMIT : Z := 4.
Definition TELNET_TERMINAL_TYPE_MAX : Z := 40.
Definition TELNET_CLIENT_NAME_MAX : Z := 40.
Definition TELNET_CLIENT_VERSION_MAX : Z := 40.
(** [char line[513]] and [char remote_id[96]] *)
Definition LINE_SIZE : Z := 513.
Definition REMOTE_ID_SIZE : Z := 96.

Definition DEFAULT_TERMINAL_WIDTH : Z := 80.
Definition DEFAULT_TERMINAL_HEIGHT : Z := 24.
Definition MIN_TERMINAL_WIDTH : Z := 20.
Definition MAX_TERMINAL_WIDTH : Z := 500.
Definition MIN_TERMINAL_HEIGHT : Z := 5.
Definition MAX_TERMINAL_HEIGHT : Z := 200.

Record rate_window := mk_rate { started_ms : Z; used : Z }.

Record pending_gmcp_core_message := mk_pending_gmcp { pending_package_name : list Z; pending_json_payload : list Z }.

Record telnet_mssp_status := mk_mssp_status {
  mssp_name : list Z;
  mssp_players : Z;
  mssp_uptime : Z;
  mssp_telnet_port : Z;
  mssp_telnet_tls_port : Z;
  mssp_codebase : list Z
}.

Record telnet_terminal_info := mk_terminal {
  width : Z;
  height : Z;
  local_binary : bool;
  remote_binary : bool;
  local_suppress_go_ahead : bool;
  remote_suppress_go_ahead : bool;
  local_eor : bool;
  new_environ : bool;
  utf8_enabled : bool;
  secure_transport : bool;
  mtts_flags : Z;
  ansi : bool;
  vt100 : bool;
  color_256 : bool;
  truecolor : bool;
  screen_reader : bool;
  mnes : bool;
  mssp : bool;
  gmcp : bool;
  osc8 : bool;
  osc8_send : bool;
  osc8_prompt : bool;
  osc8_tooltip : bool;
  terminal_type : list Z;
  client_name : list Z;
  client_version : list Z
}.

(** The three strings of [telnet_terminal_info] are their whole arrays of 41
    bytes: a refused copy can leave a mixture in them.  Arrays with a length
    field hold their live part: [subnegotiation] and
    [line]; strings hold their content; [pending_password] is its bytes.
    Pointers to the store, the policy, the log and the application are
    components of the world. *)
Record telnet_session := mk_session {
  remote_id : list Z;
  application_session : option nat;
  mssp_sent : bool;
  pending_gmcp_core : list pending_gmcp_core_message;
  login : login_state;
  parser : parser_state;
  pending_telnet_command : Z;
  options : telnet_q;
  echo_desired : bool;
  terminal_type_requests_sent : Z;
  terminal_type_waiting : bool;
  last_terminal_type : list Z;
  charset_request_sent : bool;
  charset_utf8 : bool;
  new_environ_requested : bool;
  mnes_observed : bool;
  insecure_warning_shown : bool;
  subnegotiation_option : Z;
  subnegotiation : list Z;
  started : bool;
  close_requested : bool;
  protocol_violations : Z;
  pending_cr : bool;
  line : list Z;
  line_overflow : bool;
  player_name : list Z;
  pending_password : list Z;
  terminal : telnet_terminal_info;
  byte_window : rate_window;
  line_window : rate_window;
  command_window : rate_window
}.

Definition eta_terminal t := mk_terminal (width t) (height t) (local_binary t) (remote_binary t)
  (local_suppress_go_ahead t) (remote_suppress_go_ahead t) (local_eor t) (new_environ t) (utf8_enabled t)
  (secure_transport t) (mtts_flags t) (ansi t) (vt100 t) (color_256 t) (truecolor t) (screen_reader t) (mnes t)
  (mssp t) (gmcp t) (osc8 t) (osc8_send t) (osc8_prompt t) (osc8_tooltip t) (terminal_type t) (client_name t)
  (client_version t).
#[export] Instance set_width : Setter width := ltac:(setter_of eta_terminal width).
#[export] Instance set_height : Setter height := ltac:(setter_of eta_terminal height).
#[export] Instance set_local_binary : Setter local_binary := ltac:(setter_of eta_terminal local_binary).
#[export] Instance set_remote_binary : Setter remote_binary := ltac:(setter_of eta_terminal remote_binary).
#[export] Instance set_local_sga : Setter local_suppress_go_ahead := ltac:(setter_of eta_terminal local_suppress_go_ahead).
#[export] Instance set_remote_sga : Setter remote_suppress_go_ahead := ltac:(setter_of eta_terminal remote_suppress_go_ahead).
#[export] Instance set_local_eor : Setter local_eor := ltac:(setter_of eta_terminal local_eor).
#[export] Instance set_new_environ : Setter new_environ := ltac:(setter_of eta_terminal new_environ).
#[export] Instance set_utf8_enabled : Setter utf8_enabled := ltac:(setter_of eta_terminal utf8_enabled).
#[export] Instance set_mtts_flags : Setter mtts_flags := ltac:(setter_of eta_terminal mtts_flags).
#[export] Instance set_ansi : Setter ansi := ltac:(setter_of eta_terminal ansi).
#[export] Instance set_vt100 : Setter vt100 := ltac:(setter_of eta_terminal vt100).
#[export] Instance set_color_256 : Setter color_256 := ltac:(setter_of eta_terminal color_256).
#[export] Instance set_truecolor : Setter truecolor := ltac:(setter_of eta_terminal truecolor).
#[export] Instance set_screen_reader : Setter screen_reader := ltac:(setter_of eta_terminal screen_reader).
#[export] Instance set_mnes : Setter mnes := ltac:(setter_of eta_terminal mnes).
#[export] Instance set_mssp : Setter mssp := ltac:(setter_of eta_terminal mssp).
#[export] Instance set_gmcp : Setter gmcp := ltac:(setter_of eta_terminal gmcp).
#[export] Instance set_osc8 : Setter osc8 := ltac:(setter_of eta_terminal osc8).
#[export] Instance set_osc8_send : Setter osc8_send := ltac:(setter_of eta_terminal osc8_send).
#[export] Instance set_osc8_prompt : Setter osc8_prompt := ltac:(setter_of eta_terminal osc8_prompt).
#[export] Instance set_osc8_tooltip : Setter osc8_tooltip := ltac:(setter_of eta_terminal osc8_tooltip).
#[export] Instance set_terminal_type : Setter terminal_type := ltac:(setter_of eta_terminal terminal_type).
#[export] Instance set_client_name : Setter client_name := ltac:(setter_of eta_terminal client_name).
#[export] Instance set_client_version : Setter client_version := ltac:(setter_of eta_terminal client_version).

Definition eta_session s := mk_session (remote_id s) (application_session s) (mssp_sent s) (pending_gmcp_core s)
  (login s) (parser s) (pending_telnet_command s) (options s) (echo_desired s) (terminal_type_requests_sent s)
  (terminal_type_waiting s) (last_terminal_type s) (charset_request_sent s) (charset_utf8 s)
  (new_environ_requested s) (mnes_observed s) (insecure_warning_shown s) (subnegotiation_option s)
  (subnegotiation s) (started s) (close_requested s) (protocol_violations s) (pending_cr s) (line s)
  (line_overflow s) (player_name s) (pending_password s) (terminal s) (byte_window s) (line_window s)
  (command_window s).
#[export] Instance set_application_session : Setter application_session := ltac:(setter_of eta_session application_session).
#[export] Instance set_mssp_sent : Setter mssp_sent := ltac:(setter_of eta_session mssp_sent).
#[export] Instance set_pending_gmcp : Setter pending_gmcp_core := ltac:(setter_of eta_session pending_gmcp_core).
#[export] Instance set_login : Setter login := ltac:(setter_of eta_session login).
#[export] Instance set_parser : Setter parser := ltac:(setter_of eta_session parser).
#[export] Instance set_pending_command : Setter pending_telnet_command := ltac:(setter_of eta_session pending_telnet_command).
#[export] Instance set_options : Setter options := ltac:(setter_of eta_session options).
#[export] Instance set_echo_desired : Setter echo_desired := ltac:(setter_of eta_session echo_desired).
#[export] Instance set_tt_requests : Setter terminal_type_requests_sent := ltac:(setter_of eta_session terminal_type_requests_sent).
#[export] Instance set_tt_waiting : Setter terminal_type_waiting := ltac:(setter_of eta_session terminal_type_waiting).
#[export] Instance set_last_tt : Setter last_terminal_type := ltac:(setter_of eta_session last_terminal_type).
#[export] Instance set_charset_request_sent : Setter charset_request_sent := ltac:(setter_of eta_session charset_request_sent).
#[export] Instance set_charset_utf8 : Setter charset_utf8 := ltac:(setter_of eta_session charset_utf8).
#[export] Instance set_environ_requested : Setter new_environ_requested := ltac:(setter_of eta_session new_environ_requested).
#[export] Instance set_mnes_observed : Setter mnes_observed := ltac:(setter_of eta_session mnes_observed).
#[export] Instance set_warning_shown : Setter insecure_warning_shown := ltac:(setter_of eta_session insecure_warning_shown).
#[export] Instance set_sub_option : Setter subnegotiation_option := ltac:(setter_of eta_session subnegotiation_option).
#[export] Instance set_subnegotiation : Setter subnegotiation := ltac:(setter_of eta_session subnegotiation).
#[export] Instance set_started : Setter started := ltac:(setter_of eta_session started).
#[export] Instance set_close_requested : Setter close_requested := ltac:(setter_of eta_session close_requested).
#[export] Instance set_violations : Setter protocol_violations := ltac:(setter_of eta_session protocol_violations).
#[export] Instance set_pending_cr : Setter pending_cr := ltac:(setter_of eta_session pending_cr).
#[export] Instance set_line : Setter line := ltac:(setter_of eta_session line).
#[export] Instance set_line_overflow : Setter line_overflow := ltac:(setter_of eta_session line_overflow).
#[export] Instance set_player_name : Setter player_name := ltac:(setter_of eta_session player_name).
#[export] Instance set_pending_password : Setter pending_password := ltac:(setter_of eta_session pending_password).
#[export] Instance set_terminal : Setter terminal := ltac:(setter_of eta_session terminal).
#[export] Instance set_byte_window : Setter byte_window := ltac:(setter_of eta_session byte_window).
#[export] Instance set_line_window : Setter line_window := ltac:(setter_of eta_session line_window).
#[export] Instance set_command_window : Setter command_window := ltac:(setter_of eta_session command_window).

(** * The world of a session *)

Class Environment := {
  env_pwhash :: Pwhash;
  env_mkstemp :: Mkstemp;
  AppState : Type;
  application : terminal_application_hooks AppState;
  (** the snapshot the [n]th call of [mssp_query] returns *)
  mssp_query : option (nat -> telnet_mssp_status);
  store_directory : list Z
}.

(** One call of [audit_log_event]. *)
Record audit_call := mk_audit { audit_event : list Z; audit_peer : list Z; audit_detail : list Z }.

Record world {E : Environment} := mk_world {
  session : telnet_session;
  policy : security_policy;
  store : store_world;
  (** calls of [audit_log_event], oldest first *)
  trail : list audit_call;
  (** calls of the writer, oldest first *)
  wire : list (list Z);
  mssp_calls : nat;
  app_state : AppState
}.

Definition eta_world {E : Environment} (w : world) :=
  mk_world E (session w) (policy w) (store w) (trail w) (wire w) (mssp_calls w) (app_state w).
Ltac world_setter proj :=
  let v := fresh "v" in
  let r := fresh "r" in
  intros v r;
  let t := eval unfold eta_world in (eta_world r) in
  match eval pattern (proj r) in t with
  | ?F _ => let u := eval cbv beta in (F v) in exact u
  end.
#[export] Instance set_session {E : Environment} : Setter session := ltac:(world_setter session).
#[export] Instance set_policy {E : Environment} : Setter policy := ltac:(world_setter policy).
#[export] Instance set_store {E : Environment} : Setter store := ltac:(world_setter store).
#[export] Instance set_trail {E : Environment} : Setter trail := ltac:(world_setter trail).
#[export] Instance set_wire {E : Environment} : Setter wire := ltac:(world_setter wire).
#[export] Instance set_mssp_calls {E : Environment} : Setter mssp_calls := ltac:(world_setter mssp_calls).
#[export] Instance set_app_state {E : Environment} : Setter app_state := ltac:(world_setter app_state).

(** The bytes sent so far. *)
Definition sent {E : Environment} (w : world) : list Z := concat (wire w).

(** * Rate windows *)

Definition rate_consume (window : rate_window) (amount limit window_ms now_ms : Z) : rate_window * bool :=
  let window :=
    if (started_ms window =? 0) || (now_ms <? started_ms window) || (now_ms - started_ms window >=? window_ms)
    then mk_rate now_ms 0 else window in
  if (amount >? limit) || (used window >? limit - amount) then (window, false)
  else (mk_rate (started_ms window) (used window + amount), true).

(** * Small helpers *)

Section output.
Context {E : Environment}.
Abbreviation Tel := (M world).

Definition get_session : Tel telnet_session := gets session.
Definition upd (f : telnet_session -> telnet_session) : Tel unit := modify (fun w => w <| session := f (session w) |>).
Definition upd_terminal (f : telnet_terminal_info -> telnet_terminal_info) : Tel unit :=
  upd (fun s => s <| terminal := f (terminal s) |>).
Definition with_policy {A} (m : M security_policy A) : Tel A := zoom policy (fun p w => w <| policy := p |>) m.
Definition with_store {A} (m : M store_world A) : Tel A := zoom store (fun p w => w <| store := p |>) m.

(** [sodium_memzero(session->line, ...)] with [line_length = 0]. *)
Definition wipe_line : Tel unit := upd (fun s => s <| line := [] |>).

(** ** Output *)

Definition audit (event detail : list Z) : Tel unit :=
  modify (fun w => w <| trail := trail w ++ [mk_audit event (remote_id (session w)) detail] |>).

Definition write_raw (data : list Z) : Tel unit :=
  s ← get_session;
  when ((Zlen data >? 0) && negb (close_requested s)) (modify (fun w => w <| wire := wire w ++ [data] |>)).

(** The writer calls of [write_telnet_data]: the runs between IAC bytes, and a
    doubled IAC for each. *)
Fixpoint telnet_chunks (run data : list Z) : list (list Z) :=
  match data with
  | [] => match run with [] => [] | _ => [run] end
  | byte :: data =>
      if negb (byte =? TELNET_IAC) then telnet_chunks (run ++ [byte]) data
      else (match run with [] => [] | _ => [run] end) ++ [TELNET_IAC; TELNET_IAC] :: telnet_chunks [] data
  end.

Definition write_telnet_data (data : list Z) : Tel unit := for_each (telnet_chunks [] data) write_raw.

Definition write_text (text : list Z) : Tel unit := write_telnet_data (c_str text).

Definition write_prompt_marker : Tel unit :=
  s ← get_session;
  if local_eor (terminal s) then write_raw [TELNET_IAC; TELNET_EOR]
  else when (negb (local_suppress_go_ahead (terminal s))) (write_raw [TELNET_IAC; TELNET_GA]).

Definition write_prompt_text (text : list Z) : Tel unit := write_text text ;; write_prompt_marker.

Definition warn_insecure_password_once : Tel unit :=
  s ← get_session;
  if secure_transport (terminal s) || insecure_warning_shown s then mret tt
  else
    upd (fun s => s <| insecure_warning_shown := true |>) ;;
    write_text (crlf ++ txt "[Notice: plain Telnet is not encrypted; use the TLS endpoint when available.]" ++ crlf).

Definition write_untrusted_text (text : list Z) : Tel unit :=
  safe ← lift_opt (local_str 256 (terminal_text_sanitize (Some (c_str text)) 256));
  write_text safe.

Definition write_telnet_option_raw (command option : Z) : Tel unit := write_raw [TELNET_IAC; command; option].

Definition q_send_callback (send : Z * Z) : Tel unit := write_telnet_option_raw (fst send) (snd send).

(** [telnet_q_request(&session->options, ..., q_send_callback, session)] *)
Definition q_request (direction : telnet_q_direction) (option : Z) (enable : bool) : Tel unit :=
  s ← get_session;
  let '(q, sends) := telnet_q_request (options s) direction option enable in
  upd (fun s => s <| options := q |>) ;;
  for_each sends q_send_callback.

Definition request_close (event message : option (list Z)) : Tel unit :=
  s ← get_session;
  if close_requested s then mret tt
  else
    match message with Some m => write_text m | None => mret tt end ;;
    upd (fun s => s <| close_requested := true |>) ;;
    match event with Some e => audit e (txt "session close requested") | None => mret tt end.

Definition send_subnegotiation (option : Z) (payload : list Z) : Tel unit :=
  write_raw [TELNET_IAC; TELNET_SB; option] ;;
  for_each payload (fun byte =>
    if byte =? TELNET_IAC then write_raw [TELNET_IAC; TELNET_IAC] else write_raw [byte]) ;;
  write_raw [TELNET_IAC; TELNET_SE].

Definition note_protocol_violation (detail : list Z) : Tel unit :=
  upd (fun s => s <| protocol_violations := protocol_violations s + 1 |>) ;;
  audit (txt "telnet_protocol_violation") detail ;;
  s ← get_session;
  when (protocol_violations s >=? PROTOCOL_VIOLATION_LIMIT)
    (request_close (Some (txt "telnet_protocol_abuse")) (Some (txt "Protocol error." ++ crlf))).

Definition audit_player_event (event : list Z) : Tel unit :=
  s ← get_session;
  let detail := txt "player=" ++ (match player_name s with [] => txt "-" | name => name end) in
  audit event (if Zlen detail >=? 96 then txt "player=truncated" else detail).

(** ** GMCP output *)

Definition gmcp_char (ch : Z) : bool :=
  let letter := ((65 <=? ch) && (ch <=? 90)) || ((97 <=? ch) && (ch <=? 122)) in
  let digit := (48 <=? ch) && (ch <=? 57) in
  negb (negb letter && negb digit && negb (ch =? 46) && negb (ch =? 95) && negb (ch =? 45)).

Definition gmcp_package_valid (package_name : option (list Z)) : bool :=
  match package_name with
  | None => false
  | Some name =>
      let length := strlen name in
      if (length =? 0) || (length >? GMCP_PACKAGE_MAX_BYTES) then false else forallb gmcp_char (c_str name)
  end.

(** The message put together in [payload[SUBNEGOTIATION_MAX_BYTES]]. *)
Definition gmcp_message (package json : list Z) : option (list Z) :=
  payload ← append SUBNEGOTIATION_MAX_BYTES [] package;
  if negb (Zlen json =? 0) then
    payload ← push SUBNEGOTIATION_MAX_BYTES payload 32;
    append SUBNEGOTIATION_MAX_BYTES payload json
  else Some payload.

Definition send_gmcp_message (package_name json_payload : option (list Z)) : Tel Z :=
  s ← get_session;
  if negb (gmcp (terminal s)) || negb (gmcp_package_valid package_name) then mret (-1)
  else
    let package := c_str (default [] package_name) in
    let json := c_str (default [] json_payload) in
    if negb (Zlen json =? 0) && ((Zlen json >? GMCP_JSON_MAX_BYTES) || negb (terminal_text_utf8_valid json)) then mret (-1)
    else
      if Zlen package + (if negb (Zlen json =? 0) then 1 + Zlen json else 0) >? SUBNEGOTIATION_MAX_BYTES then mret (-1)
      else
        payload ← lift_opt (gmcp_message package json);
        send_subnegotiation TELNET_OPT_GMCP payload ;; mret 0.

(** ** The output table given to the application *)

Definition osc_uri_safe (uri : option (list Z)) : bool :=
  match uri with
  | None => false
  | Some uri =>
      let uri := c_str uri in
      if (Zlen uri =? 0) || (Zlen uri >? 1024) || negb (terminal_text_utf8_valid uri) then false
      else forallb (fun ch => negb ((ch <? 32) || (ch =? 127) || (ch =? 27))) uri
  end.

(** The calls of [write_telnet_data]: the text with each bare LF replaced by
    CR LF; [previous] is the byte before the cursor. *)
Fixpoint application_chunks (run : list Z) (previous : option Z) (text : list Z) : list (list Z) :=
  match text with
  | [] => match run with [] => [] | _ => [run] end
  | ch :: text =>
      if (ch =? LF) && negb (bool_decide (previous = Some CR))
      then (match run with [] => [] | _ => [run] end) ++ crlf :: application_chunks [] (Some ch) text
      else application_chunks (run ++ [ch]) (Some ch) text
  end.

Definition write_application_text (text : list Z) : Tel unit :=
  for_each (application_chunks [] None (c_str text)) write_telnet_data.

Definition application_write_text (text : option (list Z)) : Tel unit :=
  match text with Some text => write_application_text text | None => mret tt end.

Definition application_write_prompt (text : option (list Z)) : Tel unit :=
  match text with
  | Some text => write_application_text text ;; write_prompt_marker
  | None => mret tt
  end.

Definition application_request_close (message : option (list Z)) : Tel unit :=
  request_close (Some (txt "application_close")) message.

Definition application_send_gmcp (package_name json_payload : option (list Z)) : Tel Z :=
  send_gmcp_message package_name json_payload.

Definition application_write_link (uri label : option (list Z)) : Tel Z :=
  match label with
  | None => mret (-1)
  | Some label =>
      s ← get_session;
      safe_label ← lift_opt (local_str 512 (terminal_text_sanitize (Some (c_str label)) 512));
      if negb (osc8 (terminal s)) || negb (osc_uri_safe uri)
         || (bytes_eqb (take 5 (c_str (default [] uri))) (txt "send:") && negb (osc8_send (terminal s)))
         || (bytes_eqb (take 7 (c_str (default [] uri))) (txt "prompt:") && negb (osc8_prompt (terminal s)))
      then write_text safe_label ;; mret 0
      else
        write_telnet_data (27 :: txt "]8;;") ;;
        write_telnet_data (c_str (default [] uri)) ;;
        write_telnet_data [27; 92] ;;
        write_text safe_label ;;
        write_telnet_data (27 :: txt "]8;;" ++ [27; 92]) ;;
        mret 0
  end.

#[export] Instance telnet_output : TerminalOutput world := {|
  out_write_text := application_write_text;
  out_write_prompt := application_write_prompt;
  out_request_close := application_request_close;
  out_send_gmcp := application_send_gmcp;
  out_write_link := application_write_link
|}.

(** Runs a hook on the application's memory. *)
Definition call_app {A} (f : AppState -> app_prog (A * AppState)) : Tel A :=
  a ← gets app_state;
  '(r, a') ← run_app (f a);
  modify (fun w => w <| app_state := a' |>) ;;
  mret r.
End output.
