(* ===== verification/TelnetOptions.v ===== *)
(** Options and capabilities of a Telnet session: which options are accepted,
    MSSP and GMCP, the capability probes and the metadata derived from the
    negotiator, and the reception of an option command. *)
From S2P Require Import Prelude TelnetNegotiation TerminalText AsciiText SecurityPolicy PlayerStore Application.
From S2P Require Import TelnetSession.

(** [snprintf("%llu")] of a 64-bit number: at most twenty digits. *)
Fixpoint decimal_loop (fuel : nat) (n : Z) (acc : list Z) : list Z :=
  match fuel with
  | O => acc
  | S fuel => let acc := (48 + n mod 10) :: acc in if n <? 10 then acc else decimal_loop fuel (n / 10) acc
  end.
Definition decimal (n : Z) : list Z := decimal_loop 20 n [].

(** * MSSP *)

(** [Some None] is the result -1; [None] a store outside the payload array. *)
Definition mssp_append_pair (payload : list Z) (payload_size : Z) (name value : list Z) : option (option (list Z)) :=
  let name := c_str name in
  let value := c_str value in
  if (Zlen name =? 0) || (Zlen payload + 2 + Zlen name + Zlen value >? payload_size) then Some None
  else if negb (forallb (fun ch => ((65 <=? ch) && (ch <=? 90)) || (ch =? 32)) name) then Some None
  else if existsb (fun ch => (ch =? 0) || (ch =? 1) || (ch =? 2) || (ch =? TELNET_IAC)) value then Some None
  else
    payload ← push payload_size payload 1;
    payload ← append payload_size payload name;
    payload ← push payload_size payload 2;
    payload ← append payload_size payload value;
    Some (Some payload).

(** Pairs appended until one fails. *)
Fixpoint mssp_append_pairs (payload : list Z) (payload_size : Z) (pairs : list (list Z * list Z))
    : option (option (list Z)) :=
  match pairs with
  | [] => Some (Some payload)
  | (name, value) :: pairs =>
      r ← mssp_append_pair payload payload_size name value;
      match r with
      | None => Some None
      | Some payload => mssp_append_pairs payload payload_size pairs
      end
  end.

Section options.
Context {E : Environment}.
Abbreviation Tel := (M world).

Definition q_accept_callback (s : telnet_session) (direction : telnet_q_direction) (option : Z) : bool :=
  match direction with
  | TELNET_Q_LOCAL =>
      if (option =? TELNET_OPT_BINARY) || (option =? TELNET_OPT_SUPPRESS_GO_AHEAD)
         || (option =? TELNET_OPT_END_OF_RECORD) || (option =? TELNET_OPT_CHARSET) || (option =? TELNET_OPT_GMCP)
      then true
      else if option =? TELNET_OPT_MSSP then match mssp_query with Some _ => true | None => false end
      else if option =? TELNET_OPT_ECHO then echo_desired s
      else false
  | TELNET_Q_REMOTE =>
      (option =? TELNET_OPT_BINARY) || (option =? TELNET_OPT_SUPPRESS_GO_AHEAD)
      || (option =? TELNET_OPT_TERMINAL_TYPE) || (option =? TELNET_OPT_NAWS)
      || (option =? TELNET_OPT_NEW_ENVIRON) || (option =? TELNET_OPT_CHARSET)
  end.

Definition enabled (direction : telnet_q_direction) (option : Z) : Tel bool :=
  s ← get_session; mret (telnet_q_enabled (options s) direction option).

(** The five mandatory pairs and the two optional ports; [inl true] is a
    failure that is audited, [inl false] one that is not. *)
Definition mssp_payload (status : telnet_mssp_status) : option (bool + list Z) :=
  let name := match c_str (mssp_name status) with [] => txt "mud-terminal-core" | n => n end in
  let codebase := match c_str (mssp_codebase status) with [] => txt "mud-terminal-core" | n => n end in
  let size := MSSP_PAYLOAD_MAX_BYTES in
  r ← mssp_append_pairs [] size
        [(txt "NAME", name); (txt "PLAYERS", decimal (mssp_players status));
         (txt "UPTIME", decimal (mssp_uptime status)); (txt "CHARSET", txt "UTF-8"); (txt "CODEBASE", codebase)];
  match r with
  | None => Some (inl true)
  | Some payload =>
      r ← mssp_append_pairs payload size
            (if mssp_telnet_port status =? 0 then [] else [(txt "PORT", decimal (mssp_telnet_port status))]);
      match r with
      | None => Some (inl false)
      | Some payload =>
          r ← mssp_append_pairs payload size
                (if mssp_telnet_tls_port status =? 0 then [] else [(txt "SSL", decimal (mssp_telnet_tls_port status))]);
          match r with
          | None => Some (inl false)
          | Some payload => Some (inr payload)
          end
      end
  end.

Definition send_mssp_status : Tel unit :=
  s ← get_session;
  match mssp_query with
  | None => mret tt
  | Some query =>
      if mssp_sent s || negb (telnet_q_enabled (options s) TELNET_Q_LOCAL TELNET_OPT_MSSP) then mret tt
      else
        n ← gets mssp_calls;
        modify (fun w => w <| mssp_calls := S n |>) ;;
        payload ← lift_opt (mssp_payload (query n));
        match payload with
        | inl audited => when audited (audit (txt "mssp_status_error") (txt "unable to encode MSSP snapshot"))
        | inr payload =>
            upd (fun s => s <| mssp_sent := true |>) ;;
            send_subnegotiation TELNET_OPT_MSSP payload
        end
  end.

(** * GMCP input *)

Definition gmcp_package_equal (left right : list Z) : bool := equal_ignore_case (c_str left) (c_str right).

Definition gmcp_core_handshake_package (package_name : list Z) : bool :=
  gmcp_package_equal package_name (txt "Core.Hello") || gmcp_package_equal package_name (txt "Core.Supports.Set")
  || gmcp_package_equal package_name (txt "Core.Supports.Add")
  || gmcp_package_equal package_name (txt "Core.Supports.Remove").

Definition queue_pre_auth_gmcp_core (package_name json_payload : list Z) : Tel unit :=
  s ← get_session;
  match hook_gmcp application with
  | None => mret tt
  | Some _ =>
      if negb (gmcp_core_handshake_package package_name) then mret tt
      else if Zlen (pending_gmcp_core s) >=? PENDING_GMCP_CORE_MAX
      then audit (txt "gmcp_core_queue_full") (txt "early Core handshake message dropped")
      else
        name ← lift_opt (store_str (GMCP_PACKAGE_MAX_BYTES + 1) package_name);
        json ← lift_opt (if Zlen json_payload <=? GMCP_JSON_MAX_BYTES then Some json_payload else None);
        queue ← lift_opt (push PENDING_GMCP_CORE_MAX (pending_gmcp_core s) (mk_pending_gmcp name json));
        upd (fun s => s <| pending_gmcp_core := queue |>)
  end.

Definition deliver_gmcp (handler : AppState -> nat -> list Z -> list Z -> app_prog AppState)
    (handle : nat) (package_name json_payload : list Z) : Tel unit :=
  a ← gets app_state;
  a' ← run_app (handler a handle package_name json_payload);
  modify (fun w => w <| app_state := a' |>).

Definition replay_pre_auth_gmcp_core : Tel unit :=
  s ← get_session;
  match application_session s, hook_gmcp application with
  | Some handle, Some handler =>
      for_each (pending_gmcp_core s) (fun m =>
        deliver_gmcp handler handle (pending_package_name m) (pending_json_payload m))
  | _, _ => mret tt
  end ;;
  upd (fun s => s <| pending_gmcp_core := [] |>).

(** The package name before the first space, put with its terminator into
    [package_name]; [Some None] is the early return for one that is too long,
    [None] a store outside the array. *)
Fixpoint gmcp_split (package data : list Z) : option (option (list Z * option (list Z))) :=
  match data with
  | [] => package ← local_str (GMCP_PACKAGE_MAX_BYTES + 1) package; Some (Some (package, None))
  | byte :: data =>
      if byte =? 32 then package ← local_str (GMCP_PACKAGE_MAX_BYTES + 1) package; Some (Some (package, Some data))
      else if Zlen package >=? GMCP_PACKAGE_MAX_BYTES then Some None
      else package ← push (GMCP_PACKAGE_MAX_BYTES + 1) package byte; gmcp_split package data
  end.

Definition handle_gmcp : Tel unit :=
  s ← get_session;
  if negb (telnet_q_enabled (options s) TELNET_Q_LOCAL TELNET_OPT_GMCP) || (Zlen (subnegotiation s) =? 0) then mret tt
  else
    split ← lift_opt (gmcp_split [] (subnegotiation s));
    match split with
    | None => audit (txt "gmcp_invalid_message") (txt "package name too long")
    | Some (package_name, body) =>
        if negb (gmcp_package_valid (Some package_name))
        then audit (txt "gmcp_invalid_message") (txt "invalid package name")
        else
          let json := default [] body in
          if (Zlen json >? GMCP_JSON_MAX_BYTES) || negb (terminal_text_utf8_valid json)
          then audit (txt "gmcp_invalid_message") (txt "invalid or oversized UTF-8 body")
          else
            json ← lift_opt (local_str (GMCP_JSON_MAX_BYTES + 1) json);
            let package_name := c_str package_name in
            when (gmcp_package_equal package_name (txt "Core.Ping"))
              (send_gmcp_message (Some (txt "Core.Ping")) None ;; mret tt) ;;
            match application_session s, hook_gmcp application with
            | Some handle, Some handler => deliver_gmcp handler handle package_name json
            | _, _ => queue_pre_auth_gmcp_core package_name json
            end
    end.

(** * Capabilities *)

Definition copy_terminal_capabilities (s : telnet_session) : terminal_capabilities :=
  let t := terminal s in
  mk_capabilities (width t) (height t) (utf8_enabled t) (ansi t) (color_256 t) (truecolor t) (screen_reader t)
    (secure_transport t) (gmcp t) (osc8 t) (osc8_send t) (osc8_prompt t) (osc8_tooltip t) (terminal_type t)
    (client_name t) (client_version t).

Definition notify_application_capabilities : Tel unit :=
  s ← get_session;
  match application_session s, hook_capabilities_changed application with
  | Some handle, Some changed =>
      a ← gets app_state;
      a' ← run_app (changed a handle (copy_terminal_capabilities s));
      modify (fun w => w <| app_state := a' |>)
  | _, _ => mret tt
  end.

Definition has_flag (flags flag : Z) : bool := negb (Z.land flags flag =? 0).

Definition apply_mtts_flags (flags : Z) : Tel unit :=
  upd_terminal (fun t => t
    <| mtts_flags := flags |>
    <| ansi := has_flag flags TELNET_MTTS_ANSI |>
    <| vt100 := has_flag flags TELNET_MTTS_VT100 |>
    <| color_256 := has_flag flags TELNET_MTTS_256_COLORS |>
    <| truecolor := has_flag flags TELNET_MTTS_TRUECOLOR |>
    <| screen_reader := has_flag flags TELNET_MTTS_SCREEN_READER |>
    <| mnes := has_flag flags TELNET_MTTS_MNES |>).

Definition refresh_utf8_metadata : Tel unit :=
  upd (fun s => s <| terminal := (terminal s)
    <| utf8_enabled := charset_utf8 s || has_flag (mtts_flags (terminal s)) TELNET_MTTS_UTF8 |> |>).

Definition request_terminal_type : Tel unit :=
  s ← get_session;
  if terminal_type_waiting s || (terminal_type_requests_sent s >=? TERMINAL_TYPE_REQUEST_LIMIT)
     || negb (telnet_q_enabled (options s) TELNET_Q_REMOTE TELNET_OPT_TERMINAL_TYPE)
  then mret tt
  else
    upd (fun s => s <| terminal_type_requests_sent := terminal_type_requests_sent s + 1 |>
                    <| terminal_type_waiting := true |>) ;;
    send_subnegotiation TELNET_OPT_TERMINAL_TYPE [TERMINAL_TYPE_SEND].

Definition request_charset : Tel unit :=
  s ← get_session;
  if charset_request_sent s || negb (local_binary (terminal s)) || negb (remote_binary (terminal s))
     || negb (telnet_q_enabled (options s) TELNET_Q_LOCAL TELNET_OPT_CHARSET)
  then mret tt
  else
    upd (fun s => s <| charset_request_sent := true |>) ;;
    send_subnegotiation TELNET_OPT_CHARSET (CHARSET_REQUEST :: txt ";UTF-8").

Definition new_environ_request : list Z :=
  let var n := NEW_ENVIRON_VAR :: n in
  let uservar n := NEW_ENVIRON_USERVAR :: n in
  NEW_ENVIRON_SEND ::
    var (txt "CLIENT_NAME") ++ var (txt "CLIENT_VERSION") ++ var (txt "CHARSET") ++ var (txt "MTTS") ++
    var (txt "TERMINAL_TYPE") ++
    uservar (txt "CLIENT_NAME") ++ uservar (txt "CLIENT_VERSION") ++ uservar (txt "CHARSET") ++
    uservar (txt "MTTS") ++ uservar (txt "TERMINAL_TYPE") ++ uservar (txt "SCREEN_READER") ++
    uservar (txt "OSC_HYPERLINKS") ++ uservar (txt "OSC_HYPERLINKS_SEND") ++
    uservar (txt "OSC_HYPERLINKS_PROMPT") ++ uservar (txt "OSC_HYPERLINKS_TOOLTIP").

Definition request_new_environ : Tel unit :=
  s ← get_session;
  if new_environ_requested s || negb (telnet_q_enabled (options s) TELNET_Q_REMOTE TELNET_OPT_NEW_ENVIRON)
  then mret tt
  else
    upd (fun s => s <| new_environ_requested := true |>) ;;
    send_subnegotiation TELNET_OPT_NEW_ENVIRON new_environ_request.

Definition update_option_metadata : Tel unit :=
  upd (fun s => let q := options s in s <| terminal := (terminal s)
    <| local_binary := telnet_q_enabled q TELNET_Q_LOCAL TELNET_OPT_BINARY |>
    <| remote_binary := telnet_q_enabled q TELNET_Q_REMOTE TELNET_OPT_BINARY |>
    <| local_suppress_go_ahead := telnet_q_enabled q TELNET_Q_LOCAL TELNET_OPT_SUPPRESS_GO_AHEAD |>
    <| remote_suppress_go_ahead := telnet_q_enabled q TELNET_Q_REMOTE TELNET_OPT_SUPPRESS_GO_AHEAD |>
    <| local_eor := telnet_q_enabled q TELNET_Q_LOCAL TELNET_OPT_END_OF_RECORD |>
    <| new_environ := telnet_q_enabled q TELNET_Q_REMOTE TELNET_OPT_NEW_ENVIRON |>
    <| mssp := telnet_q_enabled q TELNET_Q_LOCAL TELNET_OPT_MSSP |>
    <| gmcp := telnet_q_enabled q TELNET_Q_LOCAL TELNET_OPT_GMCP |>
    <| mnes := has_flag (mtts_flags (terminal s)) TELNET_MTTS_MNES || mnes_observed s |> |>) ;;
  refresh_utf8_metadata ;;
  request_terminal_type ;;
  request_charset ;;
  request_new_environ ;;
  notify_application_capabilities.

Definition negotiate_operational_options : Tel unit :=
  q_request TELNET_Q_LOCAL TELNET_OPT_BINARY true ;;
  q_request TELNET_Q_REMOTE TELNET_OPT_BINARY true ;;
  q_request TELNET_Q_LOCAL TELNET_OPT_SUPPRESS_GO_AHEAD true ;;
  q_request TELNET_Q_REMOTE TELNET_OPT_SUPPRESS_GO_AHEAD true ;;
  q_request TELNET_Q_LOCAL TELNET_OPT_END_OF_RECORD true ;;
  q_request TELNET_Q_REMOTE TELNET_OPT_NAWS true ;;
  q_request TELNET_Q_REMOTE TELNET_OPT_TERMINAL_TYPE true ;;
  q_request TELNET_Q_LOCAL TELNET_OPT_CHARSET true ;;
  q_request TELNET_Q_REMOTE TELNET_OPT_CHARSET true ;;
  q_request TELNET_Q_REMOTE TELNET_OPT_NEW_ENVIRON true ;;
  when (match mssp_query with Some _ => true | None => false end) (q_request TELNET_Q_LOCAL TELNET_OPT_MSSP true) ;;
  q_request TELNET_Q_LOCAL TELNET_OPT_GMCP true.

Definition password_echo_off : Tel unit :=
  upd (fun s => s <| echo_desired := true |>) ;; q_request TELNET_Q_LOCAL TELNET_OPT_ECHO true.
Definition password_echo_on : Tel unit :=
  upd (fun s => s <| echo_desired := false |>) ;; q_request TELNET_Q_LOCAL TELNET_OPT_ECHO false.

(** * Option commands *)

Definition receive_telnet_option (command option : Z) : Tel unit :=
  s ← get_session;
  let on q := telnet_q_enabled q in
  let was_terminal_type := on (options s) TELNET_Q_REMOTE TELNET_OPT_TERMINAL_TYPE in
  let was_local_charset := on (options s) TELNET_Q_LOCAL TELNET_OPT_CHARSET in
  let was_new_environ := on (options s) TELNET_Q_REMOTE TELNET_OPT_NEW_ENVIRON in
  let was_mssp := on (options s) TELNET_Q_LOCAL TELNET_OPT_MSSP in
  let '(q, sends) := telnet_q_receive (options s) command option (q_accept_callback s) in
  upd (fun s => s <| options := q |>) ;;
  for_each sends q_send_callback ;;
  when (was_terminal_type && negb (on q TELNET_Q_REMOTE TELNET_OPT_TERMINAL_TYPE))
    (unknown ← lift_opt (strcpy_into (terminal_type (terminal s)) (txt "UNKNOWN"));
     upd (fun s => s <| terminal_type_requests_sent := 0 |> <| terminal_type_waiting := false |>
                     <| last_terminal_type := [] |>
                     <| terminal := (terminal s) <| terminal_type := unknown |> |>)) ;;
  when (was_local_charset && negb (on q TELNET_Q_LOCAL TELNET_OPT_CHARSET))
    (upd (fun s => s <| charset_request_sent := false |>)) ;;
  when (was_new_environ && negb (on q TELNET_Q_REMOTE TELNET_OPT_NEW_ENVIRON))
    (upd (fun s => s <| new_environ_requested := false |> <| mnes_observed := false |>
                     <| terminal := (terminal s) <| osc8 := false |> <| osc8_send := false |>
                          <| osc8_prompt := false |> <| osc8_tooltip := false |> |>)) ;;
  when (was_mssp && negb (on q TELNET_Q_LOCAL TELNET_OPT_MSSP))
    (upd (fun s => s <| mssp_sent := false |>)) ;;
  when (negb (on q TELNET_Q_LOCAL TELNET_OPT_CHARSET) && negb (on q TELNET_Q_REMOTE TELNET_OPT_CHARSET))
    (upd (fun s => s <| charset_utf8 := false |>)) ;;
  update_option_metadata ;;
  s' ← get_session;
  when (negb was_mssp && mssp (terminal s')) send_mssp_status.
End options.
