(* ===== verification/TelnetLogin.v ===== *)
(** The account dialogue of a Telnet session and the commands after it: one
    function per login state, and the line they run on. *)
From S2P Require Import Prelude TelnetNegotiation TerminalText AsciiText SecurityPolicy PlayerStore Application.
From S2P Require Import TelnetSession TelnetOptions.

Section login.
Context {E : Environment}.
Abbreviation Tel := (M world).

Definition line_text (s : string) : list Z := crlf ++ txt s ++ crlf.

Definition set_login_state (l : login_state) : Tel unit := upd (fun s => s <| login := l |>).
Definition forget_player_name : Tel unit := upd (fun s => s <| player_name := [] |>).
Definition clear_pending_password : Tel unit := upd (fun s => s <| pending_password := token_clear |>).

Definition enter_game : Tel unit :=
  set_login_state LOGIN_IN_GAME ;;
  audit_player_event (txt "login_success") ;;
  s ← get_session;
  match hook_open application with
  | Some open =>
      handle ← call_app (fun a => open a (player_name s) (copy_terminal_capabilities s));
      upd (fun s => s <| application_session := handle |>) ;;
      match handle with
      | None => request_close (Some (txt "application_open_rejected")) None
      | Some _ => replay_pre_auth_gmcp_core
      end
  | None =>
      write_text (crlf ++ txt "Welcome, ") ;;
      write_untrusted_text (player_name s) ;;
      write_text (txt ". You are now in game." ++ crlf ++
        txt "Type PING to test the session, HELP for commands, or QUIT to disconnect." ++ crlf) ;;
      write_prompt_text (txt "> ")
  end.

Definition process_player_name : Tel unit :=
  s ← get_session;
  if negb (player_store_name_valid (Some (line s))) then
    write_text (line_text "New player names must be 3-15 characters and use only letters, numbers, '_' or '-'.") ;;
    write_prompt_text (txt "Player name: ")
  else
    name ← lift_opt (store_str (PLAYER_NAME_MAX + 1) (line s));
    upd (fun s => s <| player_name := name |>) ;;
    exists_ ← with_store (player_store_exists store_directory name);
    if exists_ <? 0 then
      audit_player_event (txt "player_record_rejected") ;;
      forget_player_name ;;
      write_text (line_text "That player record could not be read safely.") ;;
      write_prompt_text (txt "Player name: ")
    else if exists_ =? 1 then
      set_login_state LOGIN_PASSWORD ;;
      password_echo_off ;;
      warn_insecure_password_once ;;
      write_prompt_text (txt "Password: ")
    else
      set_login_state LOGIN_NEW_PASSWORD ;;
      password_echo_off ;;
      warn_insecure_password_once ;;
      write_text (txt "New player. ") ;;
      write_prompt_text (txt "Create a password (8-128 characters): ").

Definition allow_auth (s : telnet_session) (now_ms : Z) : Tel (bool * Z) :=
  with_policy (security_policy_allow_auth_attempt (Some (remote_id s)) (Some (player_name s)) now_ms).

Definition process_existing_password (now_ms : Z) : Tel unit :=
  s ← get_session;
  '(allowed, _) ← allow_auth s now_ms;
  if negb allowed then
    wipe_line ;;
    audit_player_event (txt "login_throttled") ;;
    write_text (line_text "Login is temporarily locked. Try again later.") ;;
    write_prompt_text (txt "Password: ")
  else
    '(verified, rehashed) ← with_store (player_store_verify_password store_directory (player_name s) (line s));
    wipe_line ;;
    if verified =? 1 then
      with_policy (security_policy_note_auth_success (Some (remote_id s)) (Some (player_name s)) now_ms) ;;
      when (negb (rehashed =? 0)) (audit_player_event (txt "password_hash_upgraded")) ;;
      password_echo_on ;;
      enter_game
    else
      with_policy (security_policy_note_auth_failure (Some (remote_id s)) (Some (player_name s)) now_ms) ;;
      audit_player_event (txt "login_failure") ;;
      '(allowed, _) ← allow_auth s now_ms;
      if negb allowed then
        request_close (Some (txt "login_lockout"))
          (Some (line_text "Incorrect password." ++
                 txt "Too many failed passwords. Try again in 5 minutes." ++ crlf))
      else
        write_text (line_text "Incorrect password.") ;;
        write_prompt_text (txt "Password: ").

Definition process_new_password : Tel unit :=
  s ← get_session;
  if Zlen (line s) <? PLAYER_PASSWORD_MIN then
    wipe_line ;;
    write_text (line_text "Password must contain at least 8 characters.") ;;
    write_prompt_text (txt "Create password: ")
  else
    allowed ← lift_opt (player_store_password_allowed (Some (player_name s)) (Some (line s)));
    if negb (allowed =? 1) then
      wipe_line ;;
      audit_player_event (txt "weak_password_rejected") ;;
      write_text (line_text "Choose a less common password.") ;;
      write_prompt_text (txt "Create password: ")
    else
      '(prepared, token) ← with_store (player_store_prepare_password (line s) (pending_password s));
      upd (fun s => s <| pending_password := token |>) ;;
      if negb (prepared =? 0) then
        wipe_line ;;
        password_echo_on ;;
        set_login_state LOGIN_NAME ;;
        forget_player_name ;;
        write_text (line_text "Unable to prepare the password securely.") ;;
        write_prompt_text (txt "Player name: ")
      else
        wipe_line ;;
        set_login_state LOGIN_CONFIRM_PASSWORD ;;
        write_text crlf ;;
        write_prompt_text (txt "Confirm password: ").

Definition process_password_confirmation (now_ms : Z) : Tel unit :=
  s ← get_session;
  let matched := player_store_password_matches (pending_password s) (line s) in
  wipe_line ;;
  if negb (matched =? 1) then
    clear_pending_password ;;
    set_login_state LOGIN_NEW_PASSWORD ;;
    write_text (line_text "Passwords did not match.") ;;
    write_prompt_text (txt "Create password: ")
  else
    '(allowed, _) ← with_policy (security_policy_allow_account_creation (Some (remote_id s)) now_ms);
    if negb allowed then
      clear_pending_password ;;
      password_echo_on ;;
      set_login_state LOGIN_NAME ;;
      forget_player_name ;;
      audit (txt "account_creation_throttled") (txt "new account rate limit") ;;
      write_text (line_text "Account creation is temporarily limited.") ;;
      write_prompt_text (txt "Player name: ")
    else
      created ← with_store (player_store_create store_directory (player_name s) (pending_password s));
      clear_pending_password ;;
      if negb (created =? 0) then
        password_echo_on ;;
        set_login_state LOGIN_NAME ;;
        audit_player_event (txt "account_creation_failed") ;;
        forget_player_name ;;
        write_text (line_text "The player account could not be created. It may already exist.") ;;
        write_prompt_text (txt "Player name: ")
      else
        audit_player_event (txt "account_created") ;;
        with_policy (security_policy_note_auth_success (Some (remote_id s)) (Some (player_name s)) now_ms) ;;
        password_echo_on ;;
        enter_game.

Definition process_command (now_ms : Z) : Tel unit :=
  s ← get_session;
  let '(window, ok) := rate_consume (command_window s) 1 COMMANDS_PER_WINDOW COMMANDS_WINDOW_MS now_ms in
  upd (fun s => s <| command_window := window |>) ;;
  if negb ok then
    request_close (Some (txt "command_flood")) (Some (txt "Command rate limit exceeded." ++ crlf))
  else
    match application_session s, hook_line application with
    | Some handle, Some on_line =>
        result ← call_app (fun a => on_line a handle (line s));
        when (negb (result =? 0)) (request_close (Some (txt "application_line_close")) None)
    | _, _ =>
        if bytes_eqb (c_str (line s)) [] then write_prompt_text (txt "> ")
        else if ascii_equal_ignore_case (line s) (txt "PING") then
          write_text (txt "PONG" ++ crlf) ;; write_prompt_text (txt "> ")
        else if ascii_equal_ignore_case (line s) (txt "HELP") then
          write_text (txt "Commands: HELP, PING, QUIT" ++ crlf) ;; write_prompt_text (txt "> ")
        else if ascii_equal_ignore_case (line s) (txt "QUIT") then
          request_close (Some (txt "client_quit")) (Some (txt "Goodbye." ++ crlf))
        else
          write_text (txt "Unknown command." ++ crlf) ;; write_prompt_text (txt "> ")
    end.

(** A password is being typed. *)
Definition password_state (l : login_state) : bool :=
  match l with LOGIN_PASSWORD | LOGIN_NEW_PASSWORD | LOGIN_CONFIRM_PASSWORD => true | _ => false end.

Definition process_complete_line (now_ms : Z) : Tel unit :=
  s ← get_session;
  let '(window, ok) := rate_consume (line_window s) 1 INPUT_LINES_PER_WINDOW INPUT_LINES_WINDOW_MS now_ms in
  upd (fun s => s <| line_window := window |>) ;;
  if negb ok then
    wipe_line ;;
    request_close (Some (txt "line_flood")) (Some (txt "Input rate limit exceeded." ++ crlf))
  else if line_overflow s then
    upd (fun s => s <| line := [] |> <| line_overflow := false |>) ;;
    if password_state (login s) then
      write_text (line_text "Password input is too long.") ;;
      match login s with
      | LOGIN_PASSWORD => write_prompt_text (txt "Password: ")
      | _ =>
          clear_pending_password ;;
          set_login_state LOGIN_NEW_PASSWORD ;;
          write_prompt_text (txt "Create password: ")
      end
    else
      match application_session s with
      | Some _ => request_close (Some (txt "application_input_overflow")) (Some (txt "Input is too long." ++ crlf))
      | None => write_text (txt "Input is too long." ++ crlf) ;; write_prompt_text (txt "> ")
      end
  else
    (** [session->line[session->line_length] = '\0'] *)
    lift_opt (if Zlen (line s) <? LINE_SIZE then Some tt else None) ;;
    match login s with
    | LOGIN_NAME => process_player_name
    | LOGIN_PASSWORD => process_existing_password now_ms
    | LOGIN_NEW_PASSWORD => process_new_password
    | LOGIN_CONFIRM_PASSWORD => process_password_confirmation now_ms
    | LOGIN_IN_GAME => process_command now_ms
    end ;;
    upd (fun s => s <| line := [] |> <| line_overflow := false |>).

(** * Data bytes *)

Definition append_line_byte (byte : Z) : Tel unit :=
  s ← get_session;
  if (byte =? 8) || (byte =? 127) then upd (fun s => s <| line := removelast (line s) |>)
  else if byte <? 32 then mret tt
  else
    let limit := if password_state (login s) then PLAYER_PASSWORD_MAX else APPLICATION_LINE_MAX in
    if Zlen (line s) >=? limit then upd (fun s => s <| line_overflow := true |>)
    else
      l ← lift_opt (push LINE_SIZE (line s) byte);
      upd (fun s => s <| line := l |>).

Definition receive_data_byte (byte now_ms : Z) : Tel unit :=
  s ← get_session;
  (** whether the byte is still to be treated after a pending CR *)
  more ←
    (if pending_cr s then
       upd (fun s => s <| pending_cr := false |>) ;;
       if byte =? LF then process_complete_line now_ms ;; mret false
       else if byte =? 0 then append_line_byte CR ;; mret false
       else append_line_byte CR ;; s ← get_session; mret (negb (close_requested s))
     else mret true);
  if negb more then mret tt
  else if byte =? CR then upd (fun s => s <| pending_cr := true |>)
  else if byte =? LF then process_complete_line now_ms
  else if byte =? 0 then mret tt
  else append_line_byte byte.

Definition clear_current_input : Tel unit :=
  upd (fun s => s <| line := [] |> <| line_overflow := false |> <| pending_cr := false |>).

Definition write_current_prompt : Tel unit :=
  s ← get_session;
  match login s with
  | LOGIN_NAME => write_prompt_text (txt "Player name: ")
  | LOGIN_PASSWORD => write_prompt_text (txt "Password: ")
  | LOGIN_NEW_PASSWORD => write_prompt_text (txt "Create password: ")
  | LOGIN_CONFIRM_PASSWORD => write_prompt_text (txt "Confirm password: ")
  | LOGIN_IN_GAME => write_prompt_text (txt "> ")
  end.

Definition interrupt_current_input : Tel unit :=
  clear_current_input ;;
  s ← get_session;
  when (bool_decide (login s = LOGIN_CONFIRM_PASSWORD))
    (clear_pending_password ;; set_login_state LOGIN_NEW_PASSWORD) ;;
  write_text crlf ;;
  write_current_prompt.

Definition handle_control_command (command : Z) : Tel unit :=
  if command =? TELNET_AYT then write_text (line_text "[Server is here]") ;; write_current_prompt
  else if (command =? TELNET_IP) || (command =? TELNET_BRK) then interrupt_current_input
  else if command =? TELNET_EC then upd (fun s => s <| line := removelast (line s) |>)
  else if command =? TELNET_EL then clear_current_input
  else if command =? TELNET_SE then note_protocol_violation (txt "SE received outside subnegotiation")
  else mret tt.
End login.
