(* ===== verification/TelnetSubnegotiation.v ===== *)
(** Subnegotiation payloads: window size, terminal type and MTTS, character
    set, and the environment reports. *)
From S2P Require Import Prelude TelnetNegotiation TerminalText AsciiText SecurityPolicy PlayerStore Application.
From S2P Require Import TelnetSession TelnetOptions.

(** * Pure parsers *)

Definition clamp_dimension (value minimum maximum fallback : Z) : Z :=
  if value =? 0 then fallback
  else if value <? minimum then minimum
  else if value >? maximum then maximum
  else value.

Fixpoint printable_prefix (input : list Z) : list Z :=
  match input with
  | [] => []
  | ch :: input => if (ch <? 32) || (ch >? 126) then [] else ch :: printable_prefix input
  end.

(** The array [output] after the call, and the returned flag; a refused input
    leaves its printable prefix, without a terminator, in the array.  [None] is
    a store outside the array. *)
Definition copy_printable_ascii (output input : list Z) : option (list Z * bool) :=
  if Zlen input >=? Zlen output then Some (output, false)
  else
    let copied := printable_prefix input in
    if Zlen copied =? Zlen input then output ← memcpy_into output (input ++ [0]); Some (output, true)
    else output ← memcpy_into output copied; Some (output, false).

Fixpoint parse_decimal_loop (parsed : Z) (bytes : list Z) : option Z :=
  match bytes with
  | [] => Some parsed
  | byte :: bytes =>
      if (byte <? 48) || (byte >? 57) then None
      else
        let digit := byte - 48 in
        if parsed >? (2 ^ 32 - 1 - digit) / 10 then None
        else parse_decimal_loop (wrap32 (wrap32 (parsed * 10) + digit)) bytes
  end.

Definition parse_decimal_u32 (bytes : list Z) : option Z :=
  match bytes with
  | [] => None
  | _ => parse_decimal_loop 0 bytes
  end.

(** The scan of the offered names: [field] is the current one. *)
Fixpoint charset_scan (separator : Z) (field payload : list Z) : bool :=
  match payload with
  | [] => negb (Zlen field =? 0) && bytes_equal_ignore_case field (txt "UTF-8")
  | byte :: payload =>
      if byte =? separator then
        if negb (Zlen field =? 0) && bytes_equal_ignore_case field (txt "UTF-8") then true
        else charset_scan separator [] payload
      else if (byte <? 32) || (byte >? 126) then false
      else charset_scan separator (field ++ [byte]) payload
  end.

Definition charset_list_contains_utf8 (payload : list Z) : bool :=
  match payload with
  | request :: separator :: (_ :: _) as names =>
      if negb (request =? CHARSET_REQUEST) then false
      else if (separator =? TELNET_IAC) || (separator <? 32) then false
      else charset_scan separator [] (drop 2 payload)
  | _ => false
  end.

Definition env_name_equals (name : list Z) (expected : list Z) : bool := bytes_equal_ignore_case name expected.

Definition env_value_enabled (value : list Z) : bool :=
  bytes_eqb value [49] || bytes_equal_ignore_case value (txt "TRUE") || bytes_equal_ignore_case value (txt "YES")
  || bytes_equal_ignore_case value (txt "ON").

(** One field of an environment report, decoded into a local array of [size]
    bytes.  [Some None] is the early [return]; otherwise the decoded bytes,
    whether a VAL ended them, and the rest; [None] a store outside the array.
    Only a name ([is_name]) may be ended by VAL. *)
Fixpoint environ_field (is_name : bool) (size : Z) (field data : list Z) : option (option (list Z * bool * list Z)) :=
  match data with
  | [] => Some (Some (field, false, []))
  | byte :: rest =>
      if byte =? NEW_ENVIRON_ESC then
        match rest with
        | [] => Some None
        | quoted :: rest =>
            if Zlen field >=? size then Some None
            else field ← push size field quoted; environ_field is_name size field rest
        end
      else if is_name && (byte =? NEW_ENVIRON_VAL) then Some (Some (field, true, rest))
      else if (byte =? NEW_ENVIRON_VAR) || (byte =? NEW_ENVIRON_USERVAR) then Some (Some (field, false, data))
      else if (byte =? NEW_ENVIRON_VAL) || (Zlen field >=? size) then Some None
      else field ← push size field byte; environ_field is_name size field rest
  end.

Section subnegotiation.
Context {E : Environment}.
Abbreviation Tel := (M world).

(** * NAWS *)

Definition handle_naws : Tel unit :=
  s ← get_session;
  if negb (telnet_q_enabled (options s) TELNET_Q_REMOTE TELNET_OPT_NAWS) then mret tt
  else
    match subnegotiation s with
    | [b0; b1; b2; b3] =>
        let w := Z.lor (Z.shiftl b0 8) b1 in
        let h := Z.lor (Z.shiftl b2 8) b3 in
        upd_terminal (fun t => t
          <| width := clamp_dimension w MIN_TERMINAL_WIDTH MAX_TERMINAL_WIDTH DEFAULT_TERMINAL_WIDTH |>
          <| height := clamp_dimension h MIN_TERMINAL_HEIGHT MAX_TERMINAL_HEIGHT DEFAULT_TERMINAL_HEIGHT |>)
    | _ => note_protocol_violation (txt "malformed NAWS payload")
    end.

(** * Terminal type *)

Definition ends_with (text suffix : list Z) : bool :=
  (Zlen text >=? Zlen suffix) && ascii_equal_ignore_case (drop (length text - length suffix) text) suffix.

Definition infer_terminal_type_capabilities (terminal_type : list Z) : Tel unit :=
  (if ascii_equal_ignore_case terminal_type (txt "ANSI") then upd_terminal (fun t => t <| ansi := true |>)
   else if ascii_equal_ignore_case terminal_type (txt "VT100") then
     upd_terminal (fun t => t <| ansi := true |> <| vt100 := true |>)
   else when (ascii_equal_ignore_case terminal_type (txt "XTERM"))
     (upd_terminal (fun t => t <| ansi := true |> <| vt100 := true |>))) ;;
  when (ends_with terminal_type (txt "-256COLOR")) (upd_terminal (fun t => t <| color_256 := true |>)) ;;
  when (ends_with terminal_type (txt "-TRUECOLOR"))
    (upd_terminal (fun t => t <| color_256 := true |> <| truecolor := true |>)).

Definition parse_mtts_report (bytes : list Z) : Tel bool :=
  if (Zlen bytes >? 5) && bytes_equal_ignore_case (take 5 bytes) (txt "MTTS ") then
    match parse_decimal_u32 (drop 5 bytes) with
    | Some flags => apply_mtts_flags flags ;; refresh_utf8_metadata ;; mret true
    | None => mret false
    end
  else mret false.

Definition handle_terminal_type : Tel unit :=
  s ← get_session;
  if negb (telnet_q_enabled (options s) TELNET_Q_REMOTE TELNET_OPT_TERMINAL_TYPE) then mret tt
  else
    upd (fun s => s <| terminal_type_waiting := false |>) ;;
    match subnegotiation s with
    | kind :: (_ :: _) as type_bytes =>
        if negb (kind =? TERMINAL_TYPE_IS) then note_protocol_violation (txt "malformed terminal type payload")
        else
          let input := drop 1 (subnegotiation s) in
          copied ← (if Zlen input >? TELNET_TERMINAL_TYPE_MAX then mret false
                    else '(_, ok) ← lift_opt (copy_printable_ascii (replicate 41 0) input); mret ok);
          if negb copied
          then note_protocol_violation (txt "invalid terminal type payload")
          else
            let reported := match input with [] => txt "UNKNOWN" | _ => input end in
            let repeated := negb (bytes_eqb (last_terminal_type s) [])
                            && ascii_equal_ignore_case (last_terminal_type s) reported in
            is_mtts ← parse_mtts_report reported;
            when (negb is_mtts)
              (if terminal_type_requests_sent s =? 1 then
                 name ← lift_opt (strcpy_into (client_name (terminal s)) reported);
                 type ← lift_opt (strcpy_into (terminal_type (terminal s)) reported);
                 upd_terminal (fun t => t <| client_name := name |> <| terminal_type := type |>) ;;
                 infer_terminal_type_capabilities reported
               else when (terminal_type_requests_sent s =? 2)
                 (type ← lift_opt (strcpy_into (terminal_type (terminal s)) reported);
                  upd_terminal (fun t => t <| terminal_type := type |>) ;;
                  infer_terminal_type_capabilities reported)) ;;
            last ← lift_opt (store_str (TELNET_TERMINAL_TYPE_MAX + 1) reported);
            upd (fun s => s <| last_terminal_type := last |>) ;;
            if (terminal_type_requests_sent s =? 1) && ascii_equal_ignore_case reported (txt "ANSI") then mret tt
            else when (negb repeated) request_terminal_type
    | _ => note_protocol_violation (txt "malformed terminal type payload")
    end.

(** * CHARSET *)

Definition handle_charset : Tel unit :=
  s ← get_session;
  let remote := telnet_q_enabled (options s) TELNET_Q_REMOTE TELNET_OPT_CHARSET in
  let local := telnet_q_enabled (options s) TELNET_Q_LOCAL TELNET_OPT_CHARSET in
  if negb remote && negb local then mret tt
  else
    match subnegotiation s with
    | [] => note_protocol_violation (txt "empty CHARSET payload")
    | kind :: _ =>
        if kind =? CHARSET_REQUEST then
          if negb remote then mret tt
          else if local_binary (terminal s) && remote_binary (terminal s)
                  && charset_list_contains_utf8 (subnegotiation s) then
            send_subnegotiation TELNET_OPT_CHARSET (CHARSET_ACCEPTED :: txt "UTF-8") ;;
            upd (fun s => s <| charset_utf8 := true |>) ;;
            refresh_utf8_metadata ;;
            audit (txt "telnet_charset") (txt "UTF-8 accepted")
          else send_subnegotiation TELNET_OPT_CHARSET [CHARSET_REJECTED]
        else if negb local || negb (charset_request_sent s) then mret tt
        else if (kind =? CHARSET_ACCEPTED) && (Zlen (subnegotiation s) =? 6)
                && bytes_equal_ignore_case (drop 1 (subnegotiation s)) (txt "UTF-8") then
          upd (fun s => s <| charset_utf8 := true |>) ;;
          refresh_utf8_metadata ;;
          audit (txt "telnet_charset") (txt "UTF-8 accepted")
        else if kind =? CHARSET_REJECTED then
          upd (fun s => s <| charset_utf8 := false |>) ;;
          refresh_utf8_metadata
        else note_protocol_violation (txt "malformed CHARSET response")
    end.

(** * NEW-ENVIRON *)

Definition apply_new_environ_value (token : Z) (name value : list Z) : Tel unit :=
  let observe := when (token =? NEW_ENVIRON_VAR) (upd (fun s => s <| mnes_observed := true |>)) in
  if env_name_equals name (txt "CLIENT_NAME") then
    observe ;;
    s ← get_session;
    '(copied, _) ← lift_opt (copy_printable_ascii (client_name (terminal s)) value);
    upd_terminal (fun t => t <| client_name := copied |>)
  else if env_name_equals name (txt "CLIENT_VERSION") then
    observe ;;
    s ← get_session;
    '(copied, _) ← lift_opt (copy_printable_ascii (client_version (terminal s)) value);
    upd_terminal (fun t => t <| client_version := copied |>)
  else if env_name_equals name (txt "TERMINAL_TYPE") then
    observe ;;
    s ← get_session;
    '(copied, ok) ← lift_opt (copy_printable_ascii (terminal_type (terminal s)) value);
    upd_terminal (fun t => t <| terminal_type := copied |>) ;;
    when ok (infer_terminal_type_capabilities (c_str copied))
  else if env_name_equals name (txt "CHARSET") then
    observe ;;
    when (bytes_equal_ignore_case value (txt "UTF-8"))
      (upd (fun s => s <| charset_utf8 := true |>) ;; refresh_utf8_metadata)
  else if env_name_equals name (txt "MTTS") then
    observe ;;
    match parse_decimal_u32 value with
    | Some flags => apply_mtts_flags flags ;; refresh_utf8_metadata
    | None => mret tt
    end
  else if negb (token =? NEW_ENVIRON_USERVAR) then mret tt
  else if env_name_equals name (txt "SCREEN_READER") then
    upd_terminal (fun t => t <| screen_reader := env_value_enabled value |>)
  else if env_name_equals name (txt "OSC_HYPERLINKS") then
    upd_terminal (fun t => t <| osc8 := env_value_enabled value |>)
  else if env_name_equals name (txt "OSC_HYPERLINKS_SEND") then
    upd_terminal (fun t => t <| osc8_send := env_value_enabled value |>)
  else if env_name_equals name (txt "OSC_HYPERLINKS_PROMPT") then
    upd_terminal (fun t => t <| osc8_prompt := env_value_enabled value |>)
  else when (env_name_equals name (txt "OSC_HYPERLINKS_TOOLTIP"))
    (upd_terminal (fun t => t <| osc8_tooltip := env_value_enabled value |>)).

(** The fields of a report, each applied as it is read; [false] is the early
    [return], which leaves out the final refresh.  Every round consumes its
    token, so the length of the payload is fuel enough; running out of it
    would be a fault. *)
Fixpoint environ_loop (fuel : nat) (data : list Z) : Tel bool :=
  match fuel, data with
  | _, [] => mret true
  | O, _ => lift_opt (None : option bool)
  | S fuel, token :: data =>
      if negb (token =? NEW_ENVIRON_VAR) && negb (token =? NEW_ENVIRON_USERVAR) then mret false
      else
        name ← lift_opt (environ_field true 64 [] data);
        match name with
        | None => mret false
        | Some (name, has_value, data) =>
            value ← lift_opt (if (has_value : bool) then environ_field false 128 [] data else Some (Some ([], false, data)));
            match value with
            | None => mret false
            | Some (value, _, data) =>
                when (Zlen name >? 0) (apply_new_environ_value token name value) ;;
                environ_loop fuel data
            end
        end
  end.

Definition handle_new_environ : Tel unit :=
  s ← get_session;
  if negb (telnet_q_enabled (options s) TELNET_Q_REMOTE TELNET_OPT_NEW_ENVIRON) then mret tt
  else
    match subnegotiation s with
    | [] => mret tt
    | command :: data =>
        if negb (command =? NEW_ENVIRON_IS) && negb (command =? NEW_ENVIRON_INFO) then mret tt
        else
          finished ← environ_loop (length data) data;
          when finished update_option_metadata
    end.

Definition finish_subnegotiation : Tel unit :=
  s ← get_session;
  let option := subnegotiation_option s in
  (if option =? TELNET_OPT_NAWS then handle_naws
   else if option =? TELNET_OPT_TERMINAL_TYPE then handle_terminal_type
   else if option =? TELNET_OPT_CHARSET then handle_charset
   else if option =? TELNET_OPT_NEW_ENVIRON then handle_new_environ
   else when (option =? TELNET_OPT_GMCP) handle_gmcp) ;;
  upd (fun s => s <| subnegotiation := [] |>).
End subnegotiation.
