(* ===== verification/TelnetParser.v ===== *)
(** The byte parser of a Telnet session and the session's public operations:
    create, start, feed, poll, the queries and destroy. *)
From S2P Require Import Prelude TelnetNegotiation TerminalText AsciiText SecurityPolicy PlayerStore Application.
From S2P Require Import TelnetSession TelnetOptions TelnetLogin TelnetSubnegotiation.

Section parser.
Context {E : Environment}.
Abbreviation Tel := (M world).

Definition set_parser_state (p : parser_state) : Tel unit := upd (fun s => s <| parser := p |>).

(** [session->subnegotiation[session->subnegotiation_length++] = byte], unless
    the array is full. *)
Definition subnegotiation_append (byte : Z) : Tel bool :=
  s ← get_session;
  if Zlen (subnegotiation s) >=? SUBNEGOTIATION_MAX_BYTES then
    request_close (Some (txt "telnet_subnegotiation_overflow")) (Some (txt "Protocol error." ++ crlf)) ;; mret false
  else
    data ← lift_opt (push SUBNEGOTIATION_MAX_BYTES (subnegotiation s) byte);
    upd (fun s => s <| subnegotiation := data |>) ;; mret true.

(** The body of the loop. *)
Definition parse_byte (now_ms byte : Z) : Tel unit :=
  s ← get_session;
  match parser s with
  | PARSER_DATA =>
      if byte =? TELNET_IAC then set_parser_state PARSER_IAC else receive_data_byte byte now_ms
  | PARSER_IAC =>
      if byte =? TELNET_IAC then receive_data_byte TELNET_IAC now_ms ;; set_parser_state PARSER_DATA
      else if (byte =? TELNET_WILL) || (byte =? TELNET_WONT) || (byte =? TELNET_DO) || (byte =? TELNET_DONT) then
        upd (fun s => s <| pending_telnet_command := byte |> <| parser := PARSER_OPTION |>)
      else if byte =? TELNET_SB then set_parser_state PARSER_SB_OPTION
      else handle_control_command byte ;; set_parser_state PARSER_DATA
  | PARSER_OPTION =>
      receive_telnet_option (pending_telnet_command s) byte ;; set_parser_state PARSER_DATA
  | PARSER_SB_OPTION =>
      upd (fun s => s <| subnegotiation_option := byte |> <| subnegotiation := [] |> <| parser := PARSER_SB_DATA |>)
  | PARSER_SB_DATA =>
      if byte =? TELNET_IAC then set_parser_state PARSER_SB_IAC
      else subnegotiation_append byte ;; mret tt
  | PARSER_SB_IAC =>
      if byte =? TELNET_SE then finish_subnegotiation ;; set_parser_state PARSER_DATA
      else if byte =? TELNET_IAC then
        stored ← subnegotiation_append TELNET_IAC;
        when stored (set_parser_state PARSER_SB_DATA)
      else
        note_protocol_violation (txt "malformed subnegotiation") ;;
        set_parser_state PARSER_SB_DATA
  end.

Fixpoint parse_bytes (now_ms : Z) (data : list Z) : Tel unit :=
  match data with
  | [] => mret tt
  | byte :: data =>
      s ← get_session;
      if close_requested s then mret tt else parse_byte now_ms byte ;; parse_bytes now_ms data
  end.

Definition telnet_session_feed_at (data : list Z) (now_ms : Z) : Tel Z :=
  s ← get_session;
  if close_requested s then mret (-1)
  else
    let '(window, ok) := rate_consume (byte_window s) (Zlen data) INPUT_BYTES_PER_WINDOW INPUT_BYTES_WINDOW_MS now_ms in
    upd (fun s => s <| byte_window := window |>) ;;
    if negb ok then
      request_close (Some (txt "byte_flood")) (Some (txt "Input rate limit exceeded." ++ crlf)) ;; mret (-1)
    else
      parse_bytes now_ms data ;;
      s ← get_session;
      mret (if close_requested s then -1 else 0).

(** The clock reading [clock_gettime] gives, seconds and nanoseconds; [None] if
    it fails. *)
Definition monotonic_milliseconds (now : option (Z * Z)) : Z :=
  match now with
  | None => 1
  | Some (sec, nsec) => wrap64 (wrap64 (wrap64 sec * 1000) + wrap64 nsec / 1000000)
  end.

Definition telnet_session_feed (clock : option (Z * Z)) (data : list Z) : Tel Z :=
  telnet_session_feed_at data (monotonic_milliseconds clock).

(** A zeroed string array holding [text]. *)
Definition string_array (size : nat) (text : list Z) : list Z := text ++ replicate (size - length text) 0.

(** [None]: the remote identifier does not fit.  The other tests of the C
    function are for NULL pointers and failed allocation. *)
Definition telnet_session_create (remote_id : list Z) (transport_secure : bool) : option telnet_session :=
  if strlen remote_id >=? REMOTE_ID_SIZE then None
  else
    Some (mk_session (c_str remote_id) None false [] LOGIN_NAME PARSER_DATA 0 telnet_q_init false 0 false [] false false
            false false false 0 [] false false 0 false [] false [] token_clear
            (mk_terminal DEFAULT_TERMINAL_WIDTH DEFAULT_TERMINAL_HEIGHT false false false false false false false
               transport_secure 0 false false false false false false false false false false false false
               (string_array 41 (txt "UNKNOWN")) (string_array 41 (txt "UNKNOWN")) (replicate 41 0))
            (mk_rate 0 0) (mk_rate 0 0) (mk_rate 0 0)).

Definition banner : list Z :=
  crlf ++ txt "========================================" ++ crlf ++ txt "        Welcome, traveler." ++ crlf ++
  txt "========================================" ++ crlf ++ crlf.

Definition telnet_session_start : Tel unit :=
  s ← get_session;
  if started s then mret tt
  else
    upd (fun s => s <| started := true |>) ;;
    negotiate_operational_options ;;
    write_text banner ;;
    write_prompt_text (txt "Player name: ").

Definition telnet_session_poll : Tel Z :=
  s ← get_session;
  if close_requested s then mret (-1)
  else
    stop ← match application_session s, hook_poll application with
           | Some handle, Some poll => r ← call_app (fun a => poll a handle); mret (negb (r =? 0))
           | _, _ => mret false
           end;
    if (stop : bool) then request_close (Some (txt "application_poll_close")) None ;; mret (-1)
    else s ← get_session; mret (if close_requested s then -1 else 0).

Definition telnet_session_is_in_game (s : telnet_session) : bool :=
  match login s with LOGIN_IN_GAME => true | _ => false end.
Definition telnet_session_should_close (s : telnet_session) : bool := close_requested s.
Definition telnet_session_player_name (s : telnet_session) : list Z :=
  if telnet_session_is_in_game s then player_name s else [].
Definition telnet_session_get_terminal_info (s : telnet_session) : telnet_terminal_info := terminal s.

(** The part of [telnet_session_destroy] that is visible outside: the
    application is told, once. *)
Definition telnet_session_destroy : Tel unit :=
  s ← get_session;
  match application_session s, hook_close application with
  | Some handle, Some close =>
      modify (fun w => w <| app_state := close (app_state w) handle |>) ;;
      upd (fun s => s <| application_session := None |>)
  | _, _ => mret tt
  end ;;
  clear_pending_password.
End parser.
