(* ===== verification/TelnetOutput.v ===== *)
(** What a session puts on the wire.  Every complete function of the session
    emits a well-formed piece of a Telnet stream, whatever text the
    application or the client supplied; [outputs] relates the worlds before
    and after a function that only writes and audits. *)
From S2P Require Import Prelude TelnetNegotiation TerminalText AsciiText SecurityPolicy PlayerStore Application.
From S2P Require Import TelnetSession.

(** * Well-formed Telnet streams

    The receiving automaton of RFC 854 for what a server may send: data,
    doubled IAC, GA and EOR marks, option commands, subnegotiations. *)

Inductive out_state := ODATA | OIAC | OOPTION | OSB_OPTION | OSB | OSB_IAC | OBAD.

Definition out_step (st : out_state) (b : Z) : out_state :=
  match st with
  | ODATA => if b =? TELNET_IAC then OIAC else ODATA
  | OIAC =>
      if (b =? TELNET_IAC) || (b =? TELNET_GA) || (b =? TELNET_EOR) then ODATA
      else if (b =? TELNET_WILL) || (b =? TELNET_WONT) || (b =? TELNET_DO) || (b =? TELNET_DONT) then OOPTION
      else if b =? TELNET_SB then OSB_OPTION
      else OBAD
  | OOPTION => ODATA
  | OSB_OPTION => OSB
  | OSB => if b =? TELNET_IAC then OSB_IAC else OSB
  | OSB_IAC => if b =? TELNET_IAC then OSB else if b =? TELNET_SE then ODATA else OBAD
  | OBAD => OBAD
  end.

Definition out_run (st : out_state) (l : list Z) : out_state := fold_left out_step l st.

(** The stream stops between two items. *)
Definition framed (l : list Z) : Prop := out_run ODATA l = ODATA.

Lemma out_run_app st a b : out_run st (a ++ b) = out_run (out_run st a) b.
Proof. apply fold_left_app. Qed.

Lemma framed_app a b : framed a -> framed b -> framed (a ++ b).
Proof. unfold framed. intros Ha Hb. by rewrite out_run_app, Ha. Qed.

Lemma framed_nil : framed [].
Proof. done. Qed.

(** ** IAC quoting *)

Definition quote_iac (data : list Z) : list Z :=
  flat_map (fun b => if b =? TELNET_IAC then [TELNET_IAC; TELNET_IAC] else [b]) data.

Lemma telnet_chunks_concat run data : concat (telnet_chunks run data) = run ++ quote_iac data.
Proof.
  revert run. induction data as [|b data IH]; intros run; simpl.
  - destruct run; simpl; by rewrite ?app_nil_r.
  - destruct (Z.eqb_spec b TELNET_IAC); simpl.
    + rewrite concat_app. simpl. rewrite IH. simpl. destruct run; simpl; [done|]. by rewrite app_nil_r.
    + rewrite IH. by rewrite <- (assoc_L (++)).
Qed.

Lemma framed_quote data : framed (quote_iac data).
Proof.
  induction data as [|b data IH]; [done|]. simpl. apply framed_app; [|done].
  unfold framed. destruct (Z.eqb_spec b TELNET_IAC); [done|]. simpl. by destruct (Z.eqb_spec b TELNET_IAC).
Qed.

Lemma out_run_sb payload : out_run OSB (quote_iac payload) = OSB.
Proof.
  induction payload as [|b data IH]; [done|]. simpl. rewrite out_run_app.
  destruct (Z.eqb_spec b TELNET_IAC); simpl; [done|]. by destruct (Z.eqb_spec b TELNET_IAC).
Qed.

Lemma framed_subnegotiation option payload :
  framed ([TELNET_IAC; TELNET_SB; option] ++ quote_iac payload ++ [TELNET_IAC; TELNET_SE]).
Proof. unfold framed. rewrite !out_run_app. change (out_run ODATA [TELNET_IAC; TELNET_SB; option]) with OSB. by rewrite out_run_sb. Qed.

(** * Writer calls *)

Section output.
Context {E : Environment}.

Definition nonempty (c : list Z) : bool := match c with [] => false | _ => true end.

(** The world after the writer was offered the chunks [cs]. *)
Definition emits (cs : list (list Z)) (w : world) : world :=
  if close_requested (session w) then w else w <| wire := wire w ++ List.filter nonempty cs |>.

Lemma emits_session cs w : session (emits cs w) = session w.
Proof. unfold emits. by destruct (close_requested _). Qed.

Lemma emits_nil w : emits [] w = w.
Proof. unfold emits. destruct (close_requested _); [done|]. simpl. rewrite app_nil_r. by destruct w. Qed.

Lemma emits_app cs cs' w : emits cs' (emits cs w) = emits (cs ++ cs') w.
Proof.
  unfold emits. destruct (close_requested (session w)) eqn:C; [by rewrite C|]. simpl. rewrite C.
  by rewrite List.filter_app, (assoc_L (++)).
Qed.

Lemma concat_filter_nonempty cs : concat (List.filter nonempty cs) = concat cs.
Proof. induction cs as [|[|b c] cs IH]; simpl; [done|done|]. by rewrite IH. Qed.

Lemma write_raw_run data w : write_raw data w = Some (tt, emits [data] w).
Proof.
  unfold write_raw, get_session, gets, mbind, M_bind, when, modify, emits. simpl.
  destruct data as [|b data]; simpl.
  - destruct (close_requested _); [done|]. rewrite app_nil_r. by destruct w.
  - destruct (close_requested _); [done|]. simpl. done.
Qed.

Lemma for_each_emits {A} (l : list A) (f : A -> M world unit) (g : A -> list (list Z)) :
  (forall x w, f x w = Some (tt, emits (g x) w)) ->
  forall w, for_each l f w = Some (tt, emits (flat_map g l) w).
Proof.
  intros Hf. induction l as [|x l IH]; intros w; simpl; [by rewrite emits_nil|].
  unfold mbind, M_bind. rewrite Hf, IH. by rewrite emits_app.
Qed.

Lemma write_telnet_data_run data w : write_telnet_data data w = Some (tt, emits (telnet_chunks [] data) w).
Proof.
  unfold write_telnet_data. rewrite (for_each_emits _ _ (fun c => [c])) by apply write_raw_run.
  f_equal. f_equal. f_equal. induction (telnet_chunks [] data) as [|c l IH]; simpl; [done|]. by rewrite IH.
Qed.

Lemma send_subnegotiation_run option payload w :
  exists cs, send_subnegotiation option payload w = Some (tt, emits cs w) /\
    concat cs = [TELNET_IAC; TELNET_SB; option] ++ quote_iac payload ++ [TELNET_IAC; TELNET_SE].
Proof.
  eexists. unfold send_subnegotiation, mbind, M_bind. rewrite write_raw_run.
  rewrite (for_each_emits payload _ (fun b => if b =? TELNET_IAC then [[TELNET_IAC; TELNET_IAC]] else [[b]])).
  - rewrite write_raw_run, !emits_app. split; [done|]. rewrite !concat_app. simpl.
    assert (concat (flat_map (fun b => if b =? TELNET_IAC then [[TELNET_IAC; TELNET_IAC]] else [[b]]) payload)
            = quote_iac payload) as ->; [|done].
    clear w. induction payload as [|b payload IH]; [done|]. simpl. rewrite concat_app, IH. by case_test.
  - intros b w'. case_test; apply write_raw_run.
Qed.
End output.
