(* ===== verification/TelnetInvariant.v ===== *)
(** The invariant of a session's options, capabilities and output, and the
    relation [steady] of the functions that leave the dialogue and the parser
    alone: all output, negotiation, capability and GMCP code, and every call
    into the application. *)
From S2P Require Import Prelude TelnetNegotiation TerminalText AsciiText SecurityPolicy PlayerStore Application.
From S2P Require Import TelnetSession TelnetOptions TelnetSubnegotiation TelnetOutput.

(** * The invariant *)

(** A 41-byte string array: it always holds a terminator. *)
Definition string41 (a : list Z) : Prop := length a = 41%nat /\ a !! 40%nat = Some 0.

Definition gmcp_message_ok (m : pending_gmcp_core_message) : Prop :=
  gmcp_package_valid (Some (pending_package_name m)) = true /\ Zlen (pending_json_payload m) <= GMCP_JSON_MAX_BYTES.

Record core_session (s : telnet_session) : Prop := mk_core {
  co_options : q_ok (options s);
  co_width : MIN_TERMINAL_WIDTH <= width (terminal s) <= MAX_TERMINAL_WIDTH;
  co_height : MIN_TERMINAL_HEIGHT <= height (terminal s) <= MAX_TERMINAL_HEIGHT;
  co_type : string41 (terminal_type (terminal s));
  co_client : string41 (client_name (terminal s));
  co_version : string41 (client_version (terminal s));
  co_requests : 0 <= terminal_type_requests_sent s <= TERMINAL_TYPE_REQUEST_LIMIT;
  co_queue : Zlen (pending_gmcp_core s) <= PENDING_GMCP_CORE_MAX;
  co_messages : Forall gmcp_message_ok (pending_gmcp_core s);
  co_violations : 0 <= protocol_violations s;
  co_abuse : protocol_violations s < PROTOCOL_VIOLATION_LIMIT \/ close_requested s = true
}.

(** The flags the rest of the code reads are those of the negotiator. *)
Record cached (s : telnet_session) : Prop := mk_cached {
  ca_lb : local_binary (terminal s) = telnet_q_enabled (options s) TELNET_Q_LOCAL TELNET_OPT_BINARY;
  ca_rb : remote_binary (terminal s) = telnet_q_enabled (options s) TELNET_Q_REMOTE TELNET_OPT_BINARY;
  ca_ls : local_suppress_go_ahead (terminal s) = telnet_q_enabled (options s) TELNET_Q_LOCAL TELNET_OPT_SUPPRESS_GO_AHEAD;
  ca_rs : remote_suppress_go_ahead (terminal s) = telnet_q_enabled (options s) TELNET_Q_REMOTE TELNET_OPT_SUPPRESS_GO_AHEAD;
  ca_eor : local_eor (terminal s) = telnet_q_enabled (options s) TELNET_Q_LOCAL TELNET_OPT_END_OF_RECORD;
  ca_env : new_environ (terminal s) = telnet_q_enabled (options s) TELNET_Q_REMOTE TELNET_OPT_NEW_ENVIRON;
  ca_mssp : mssp (terminal s) = telnet_q_enabled (options s) TELNET_Q_LOCAL TELNET_OPT_MSSP;
  ca_gmcp : gmcp (terminal s) = telnet_q_enabled (options s) TELNET_Q_LOCAL TELNET_OPT_GMCP
}.

(** The dialogue, the parser and the rate windows. *)
Definition frame (s : telnet_session) :=
  (login s, player_name s, line s, line_overflow s, pending_password s, application_session s,
   (parser s, pending_telnet_command s, subnegotiation_option s, subnegotiation s, pending_cr s),
   (started s, remote_id s, byte_window s, line_window s, command_window s)).

Section steady.
Context {E : Environment}.

(** What the application sees of a session. *)
Definition app_view (w : world) : option nat * AppState := (application_session (session w), app_state w).

(** Output and the trail only grow, nothing is written after a close, and the
    application is called in order. *)
Record evolves (w0 w : world) : Prop := mk_evolves {
  evo_wire : wire w0 `prefix_of` wire w;
  evo_trail : trail w0 `prefix_of` trail w;
  evo_close : close_requested (session w0) = true -> close_requested (session w) = true /\ wire w = wire w0;
  evo_app : hook_calls application (app_view w0) (app_view w)
}.

Record steady (w0 w : world) : Prop := mk_steady {
  st_evolves : evolves w0 w;
  st_frame : frame (session w) = frame (session w0);
  st_policy : policy w = policy w0;
  st_store : store w = store w0
}.

(** [good c w0 w]: a world reached steadily from [w0], with the invariant; the
    cached flags are up to date if [c]. *)
Record good (c : bool) (w0 w : world) : Prop := mk_good {
  gd_core : core_session (session w);
  gd_wire : framed (sent w);
  gd_cached : c = true -> cached (session w);
  gd_steady : steady w0 w
}.

Lemma evolves_refl w : evolves w w.
Proof. by split. Qed.

Lemma evolves_trans w0 w1 w2 : evolves w0 w1 -> evolves w1 w2 -> evolves w0 w2.
Proof.
  intros [H1 H2 H3 H4] [G1 G2 G3 G4]. split; [by etrans|by etrans| |by etrans].
  intros Hc. destruct (H3 Hc) as [Hc1 E1]. destruct (G3 Hc1) as [? E2]. split; [done|congruence].
Qed.

Lemma steady_refl w : steady w w.
Proof. by split; [apply evolves_refl|..]. Qed.

Lemma steady_trans w0 w1 w2 : steady w0 w1 -> steady w1 w2 -> steady w0 w2.
Proof. intros [] []. split; [by eapply evolves_trans|congruence..]. Qed.

Lemma good_refl c w : core_session (session w) -> framed (sent w) -> (c = true -> cached (session w)) -> good c w w.
Proof. intros. split; auto using steady_refl. Qed.

Lemma good_trans c c' w0 w1 w2 : good c w0 w1 -> good c' w1 w2 -> good c' w0 w2.
Proof. intros [] []. split; auto. by eapply steady_trans. Qed.

Lemma good_anchor c w0 w : good c w0 w -> good c w w.
Proof. intros []. by apply good_refl. Qed.

Lemma good_weaken c w0 w : good true w0 w -> good c w0 w.
Proof. intros []. split; auto. Qed.

(** ** Basic steps *)

Lemma good_emits c w0 w cs : good c w0 w -> framed (concat cs) -> good c w0 (emits cs w).
Proof.
  intros Hg Hcs. unfold emits. destruct (close_requested (session w)) eqn:C; [done|].
  destruct Hg as [H1 H2 H3 [[H4 H5 H6 HA] H7 H8 H9]].
  split; auto.
  - unfold sent. simpl. rewrite concat_app, concat_filter_nonempty. by apply framed_app.
  - split; auto. split; [by apply prefix_app_r|done| |done].
    intros Hc. apply H6 in Hc as [? _]. congruence.
Qed.

Lemma good_audit c w0 w tr : good c w0 w -> good c w0 (w <| trail := trail w ++ tr |>).
Proof.
  intros [H1 H2 H3 [[H4 H5 H6 HA] H7 H8 H9]]. split; auto. split; auto. split; auto. by apply prefix_app_r.
Qed.

Lemma good_session c c' w0 w f :
  good c w0 w -> frame (f (session w)) = frame (session w) ->
  (close_requested (session w) = true -> close_requested (f (session w)) = true) ->
  core_session (f (session w)) -> (c' = true -> cached (f (session w))) ->
  good c' w0 (w <| session := f (session w) |>).
Proof.
  intros [H1 H2 H3 [[H4 H5 H6 HA] H7 H8 H9]] Hf Hc Hcore Hca. split; auto. split; simpl; auto; [|congruence].
  split; auto; simpl.
  - intros H0. apply H6 in H0 as [? ?]. auto.
  - unfold app_view in *. simpl. unfold frame in Hf. by replace (application_session (f (session w))) with (application_session (session w)) by congruence.
Qed.

Lemma wp_upd f (Q : unit -> world -> Prop) w : Q tt (w <| session := f (session w) |>) -> wp (upd f) Q w.
Proof. done. Qed.

Lemma wp_session {A} (k : telnet_session -> M world A) Q w :
  wp (k (session w)) Q w -> wp (s ← get_session; k s) Q w.
Proof. done. Qed.

Lemma good_handle c w0 w : good c w0 w -> application_session (session w) = application_session (session w0).
Proof. intros Hg. pose proof (st_frame _ _ (gd_steady _ _ _ Hg)) as Hf. unfold frame in Hf. congruence. Qed.

(** The application's memory after a call in order. *)
Lemma good_app c w0 w a :
  good c w0 w -> hook_call application (app_view w) (application_session (session w), a) -> good c w0 (w <| app_state := a |>).
Proof.
  intros [H1 H2 H3 [[H4 H5 H6 HA] H7 H8 H9]] Hcall. split; auto. split; auto. split; auto.
  etrans; [exact HA|]. by apply hook_calls_once.
Qed.

(** ** Writing *)

Lemma write_raw_good c w0 w data :
  good c w0 w -> framed data -> wp (write_raw data) (fun _ => good c w0) w.
Proof.
  intros Hg Hd. unfold wp. rewrite write_raw_run. apply good_emits; [done|]. simpl. by rewrite app_nil_r.
Qed.

Lemma write_telnet_data_good c w0 w data : good c w0 w -> wp (write_telnet_data data) (fun _ => good c w0) w.
Proof.
  intros Hg. unfold wp. rewrite write_telnet_data_run. apply good_emits; [done|].
  rewrite telnet_chunks_concat. simpl. apply framed_quote.
Qed.

Lemma write_text_good c w0 w text : good c w0 w -> wp (write_text text) (fun _ => good c w0) w.
Proof. apply write_telnet_data_good. Qed.

Lemma send_subnegotiation_good c w0 w option payload :
  good c w0 w -> wp (send_subnegotiation option payload) (fun _ => good c w0) w.
Proof.
  intros Hg. unfold wp. destruct (send_subnegotiation_run option payload w) as (cs & -> & Hcs).
  apply good_emits; [done|]. rewrite Hcs. apply framed_subnegotiation.
Qed.

Lemma audit_good c w0 w event detail : good c w0 w -> wp (audit event detail) (fun _ => good c w0) w.
Proof. intros Hg. apply wp_modify. by apply good_audit. Qed.

Lemma upd_good c w0 w f :
  good c w0 w -> frame (f (session w)) = frame (session w) ->
  (close_requested (session w) = true -> close_requested (f (session w)) = true) ->
  (core_session (session w) -> core_session (f (session w))) ->
  (c = true -> cached (session w) -> cached (f (session w))) ->
  wp (upd f) (fun _ => good c w0) w.
Proof. intros Hg Hf Hc Hcore Hca. apply wp_upd. destruct Hg. eapply good_session; eauto. by split. Qed.
End steady.

#[export] Hint Resolve write_telnet_data_good write_text_good send_subnegotiation_good audit_good : session.

(** * Symbolic execution of session functions

    [tel] runs a function whose pieces are known to keep [good]: reads of the
    session, branches and updates are executed, known functions are applied
    from the [session] database. *)

Ltac core_tac := let H := fresh in intros H; destruct H; constructor; simpl in *; auto; try lia.

Ltac tel_step :=
  lazymatch goal with
  | |- wp (get_session ≫= _) _ _ => apply wp_session
  | |- wp (_ ≫= _) _ _ => apply wp_bind
  | |- wp (mret _) _ _ => apply wp_ret
  | |- wp (gets _) _ _ => apply wp_gets
  | |- wp (when _ _) _ _ => apply wp_when; intros ?
  | |- wp (if ?b then _ else _) _ _ =>
      lazymatch type of b with bool => apply wp_if; intros ? | _ => destruct b eqn:? end
  | |- wp (upd_terminal _) _ _ => unfold upd_terminal
  | |- wp (upd _) _ _ =>
      eapply wp_mono; [eapply upd_good; [eassumption | reflexivity | done | core_tac | let Hc := fresh in intros Hc; core_tac] | intros [] ? ?]
  | |- wp (match ?x with _ => _ end) _ _ => destruct x eqn:?
  | |- wp _ _ _ => eapply wp_mono; [solve [eauto with session] | intros ? ? ?]
  | |- good _ _ _ => assumption
  end; cbv beta zeta in *.
Ltac tel := repeat tel_step.

Section functions.
Context {E : Environment}.

Lemma write_prompt_marker_good c w0 w : good c w0 w -> wp write_prompt_marker (fun _ => good c w0) w.
Proof. intros Hg. unfold write_prompt_marker. tel; by apply write_raw_good. Qed.
#[local] Hint Resolve write_prompt_marker_good : session.

Lemma write_prompt_text_good c w0 w text : good c w0 w -> wp (write_prompt_text text) (fun _ => good c w0) w.
Proof. intros Hg. unfold write_prompt_text. tel. Qed.

Lemma warn_insecure_good c w0 w : good c w0 w -> wp warn_insecure_password_once (fun _ => good c w0) w.
Proof. intros Hg. unfold warn_insecure_password_once. tel. Qed.
#[local] Hint Resolve write_prompt_text_good warn_insecure_good : session.

Lemma write_untrusted_text_good c w0 w text : good c w0 w -> wp (write_untrusted_text text) (fun _ => good c w0) w.
Proof.
  intros Hg. unfold write_untrusted_text. apply wp_bind. eapply wp_lift; [by apply sanitize_ascii_local|]. tel.
Qed.

Lemma request_close_good c w0 w event message : good c w0 w -> wp (request_close event message) (fun _ => good c w0) w.
Proof. intros Hg. unfold request_close. destruct message, event; tel. Qed.
#[local] Hint Resolve write_untrusted_text_good request_close_good : session.

(** The eighth violation closes the session: the bound on the counter is
    restored by the close at the end. *)
Lemma note_violation_good c w0 w detail : good c w0 w -> wp (note_protocol_violation detail) (fun _ => good c w0) w.
Proof.
  intros Hg. unfold note_protocol_violation. generalize (txt "Protocol error." ++ crlf). intros message.
  destruct (close_requested (session w)) eqn:C; [by tel; right|].
  destruct (Z.ltb_spec (protocol_violations (session w) + 1) PROTOCOL_VIOLATION_LIMIT) as [Hv|Hv]; [by tel; left|].
  apply wp_bind, wp_upd, wp_bind, wp_modify, wp_session, wp_when; simpl; intros Hb; breflect; [|lia].
  unfold request_close. apply wp_session, wp_if; simpl; [congruence|intros _]. apply wp_bind.
  unfold wp at 1, write_text. rewrite write_telnet_data_run.
  set (tr := [mk_audit _ _ _]). set (cs := telnet_chunks _ _).
  set (f := fun s => s <| protocol_violations := protocol_violations s + 1 |>).
  match goal with |- wp _ _ ?w1 => replace w1 with
    ((emits cs (w <| trail := trail w ++ tr |>)) <| session := f (session w) |>) by (unfold emits; cbn [session set_field set_session set_trail close_requested set_violations f]; by rewrite C) end.
  apply wp_bind, wp_upd, audit_good.
  pose proof (good_emits c w0 _ cs (good_audit c w0 w tr Hg)) as Hg1.
  assert (framed (concat cs)) as Hcs by (unfold cs; rewrite telnet_chunks_concat; apply framed_quote).
  specialize (Hg1 Hcs). set (w1 := emits cs (w <| trail := trail w ++ tr |>)) in *.
  assert (session w = session w1) as Es by by unfold w1; rewrite emits_session.
  pose proof (good_session c c w0 w1 (fun s => (f s) <| close_requested := true |>) Hg1) as H. simpl in H.
  cbn [session set_field set_session]. rewrite Es. apply H; [reflexivity|done| |].
  - destruct Hg1 as [[] _ _ _]. constructor; simpl; auto; lia.
  - intros Hc. destruct Hg1 as [_ _ Hca _]. destruct (Hca Hc). by constructor.
Qed.
#[local] Hint Resolve note_violation_good : session.

Lemma audit_player_event_good c w0 w event : good c w0 w -> wp (audit_player_event event) (fun _ => good c w0) w.
Proof. intros Hg. unfold audit_player_event. tel. Qed.

(** A message within the limit is put together inside the array. *)
Lemma gmcp_message_Some package json :
  (Zlen package + (if negb (Zlen json =? 0) then 1 + Zlen json else 0) >? SUBNEGOTIATION_MAX_BYTES) = false ->
  gmcp_message package json = Some (package ++ match json with [] => [] | _ => 32 :: json end).
Proof.
  intros H. apply not_true_iff_false in H. rewrite Z.gtb_lt in H. unfold gmcp_message.
  rewrite append_Some by (simpl; case_match; lia). cbn [mbind option_bind app].
  destruct json as [|b json]; [by rewrite app_nil_r|].
  destruct (Z.eqb_spec (Zlen (b :: json)) 0) as [E0|_]; [cbn [length] in E0; lia|]. cbn [negb] in H |- *.
  rewrite push_Some by lia. cbn [mbind option_bind]. rewrite append_Some by (rewrite Zlen_snoc; lia).
  by rewrite <- (assoc_L (++)).
Qed.

Lemma send_gmcp_message_good c w0 w p j : good c w0 w -> wp (send_gmcp_message p j) (fun _ => good c w0) w.
Proof.
  intros Hg. unfold send_gmcp_message. tel_step. tel_step; [tel|]. tel_step; [tel|]. tel_step; [tel|].
  tel_step. eapply wp_lift; [by apply gmcp_message_Some|]. tel.
Qed.
#[local] Hint Resolve audit_player_event_good send_gmcp_message_good : session.

(** ** The application *)

Lemma write_application_text_good c w0 w t : good c w0 w -> wp (write_application_text t) (fun _ => good c w0) w.
Proof. intros Hg. apply wp_for_each; [done|]. intros x w' _ Hw. tel. Qed.
#[local] Hint Resolve write_application_text_good : session.

Lemma application_write_link_good c w0 w uri label :
  good c w0 w -> wp (application_write_link uri label) (fun _ => good c w0) w.
Proof.
  intros Hg. unfold application_write_link. destruct label as [label|]; [|tel]. apply wp_session, wp_bind.
  eapply wp_lift; [by apply sanitize_ascii_local|]. tel.
Qed.
#[local] Hint Resolve application_write_link_good : session.

(** ** The output table leaves the application's memory alone *)

Definition quiet {A} (m : M world A) : Prop := forall w a w', m w = Some (a, w') -> app_state w' = app_state w.

Lemma quiet_ret {A} (a : A) : quiet (mret a).
Proof. by intros w b w' [= _ <-]. Qed.

Lemma quiet_bind {A B} (m : M world A) (k : A -> M world B) : quiet m -> (forall a, quiet (k a)) -> quiet (m ≫= k).
Proof. intros Hm Hk w b w' (a & w1 & E1 & E2)%bind_run. apply Hm in E1. apply Hk in E2. congruence. Qed.

Lemma quiet_gets {A} (f : world -> A) : quiet (gets f).
Proof. by intros w b w' [= _ <-]. Qed.

Lemma quiet_lift {A} (o : option A) : quiet (lift_opt o).
Proof. intros w b w'. unfold lift_opt. destruct o; [by intros [= _ <-]|done]. Qed.

Lemma quiet_modify (f : world -> world) : (forall w, app_state (f w) = app_state w) -> quiet (modify f).
Proof. intros Hf w b w' [= _ <-]. apply Hf. Qed.

Lemma quiet_for_each {A} (l : list A) (f : A -> M world unit) : (forall x, quiet (f x)) -> quiet (for_each l f).
Proof. intros Hf. induction l as [|x l IH]; cbn [for_each]; [apply quiet_ret|by apply quiet_bind]. Qed.

Ltac quiet_tac :=
  repeat lazymatch goal with
  | |- quiet (mret _) => apply quiet_ret
  | |- quiet (gets _) => apply quiet_gets
  | |- quiet (lift_opt _) => apply quiet_lift
  | |- quiet (modify _) => apply quiet_modify; reflexivity
  | |- quiet (_ ≫= _) => apply quiet_bind; [|intros ?]
  | |- quiet (for_each _ _) => apply quiet_for_each; intros ?
  | |- quiet (match ?x with _ => _ end) => destruct x
  end.

Lemma quiet_write_raw data : quiet (write_raw data).
Proof. unfold write_raw, get_session, when. quiet_tac. Qed.

Lemma quiet_write_text text : quiet (write_text text).
Proof. apply quiet_for_each, quiet_write_raw. Qed.

Lemma quiet_application_text text : quiet (write_application_text text).
Proof. apply quiet_for_each. intros ?. apply quiet_for_each, quiet_write_raw. Qed.

Lemma quiet_marker : quiet write_prompt_marker.
Proof. unfold write_prompt_marker, get_session, when. quiet_tac; apply quiet_write_raw. Qed.

Lemma quiet_close event message : quiet (request_close event message).
Proof. unfold request_close, get_session, upd, audit. quiet_tac; apply quiet_write_text. Qed.

Lemma quiet_gmcp p j : quiet (send_gmcp_message p j).
Proof. unfold send_gmcp_message, send_subnegotiation, get_session. quiet_tac; apply quiet_write_raw. Qed.

Lemma quiet_link uri label : quiet (application_write_link uri label).
Proof.
  unfold application_write_link, write_text, write_telnet_data, get_session. quiet_tac; apply quiet_write_raw.
Qed.

Lemma quiet_run_app {A} (p : app_prog A) : quiet (run_app p).
Proof.
  induction p as [b|t k IH|t k IH|t k IH|x y k IH|x y k IH]; simpl; [apply quiet_ret|apply quiet_bind; [|auto]..].
  - destruct t; [apply quiet_application_text|apply quiet_ret].
  - destruct t; [|apply quiet_ret]. apply quiet_bind; [apply quiet_application_text|intros _; apply quiet_marker].
  - apply quiet_close.
  - apply quiet_gmcp.
  - apply quiet_link.
Qed.

(** Whatever a hook does through its output table keeps the invariant. *)
Lemma run_app_good {A} c w0 w (p : app_prog A) : good c w0 w -> wp (run_app p) (fun _ => good c w0) w.
Proof.
  apply wp_run_app; clear w; simpl.
  - intros [t|] w Hw; simpl; tel.
  - intros [t|] w Hw; simpl; tel.
  - intros t w Hw. unfold application_request_close. tel.
  - intros a b w Hw. unfold application_send_gmcp. tel.
  - intros a b w Hw. tel.
Qed.

(** The end of a hook: the memory it was given is still there, and its result
    is one of the hook's. *)
Lemma run_app_ends {A} c w0 w (p : app_prog A) :
  good c w0 w -> wp (run_app p) (fun a w' => good c w0 w' /\ app_state w' = app_state w /\ may_end p a) w.
Proof.
  intros Hg. destruct (wp_run _ _ _ (run_app_good c w0 w p Hg)) as (a & w' & E1 & H). unfold wp. rewrite E1.
  split_and!; [done|by eapply quiet_run_app|by eapply run_may_end].
Qed.

(** A call of a hook on the session that is held. *)
Lemma call_app_good {A} c w0 w (f : AppState -> app_prog (A * AppState)) handle :
  good c w0 w -> application_session (session w0) = Some handle ->
  (forall a r a', may_end (f a) (r, a') -> hook_call application (Some handle, a) (Some handle, a')) ->
  wp (call_app f) (fun _ => good c w0) w.
Proof.
  intros Hg Hh Hf. unfold call_app. apply wp_bind, wp_gets, wp_bind. eapply wp_mono; [by eapply run_app_ends|].
  intros [r a] w1 (Hg1 & Ea & Hend). apply wp_bind, wp_modify, wp_ret. apply good_app; [done|].
  unfold app_view. rewrite (good_handle _ _ _ Hg1), Hh, Ea. by eapply Hf.
Qed.

Lemma app_update_good c w0 w (f : AppState -> app_prog AppState) handle :
  good c w0 w -> application_session (session w0) = Some handle ->
  (forall a a', may_end (f a) a' -> hook_call application (Some handle, a) (Some handle, a')) ->
  wp (a ← gets app_state; a' ← run_app (f a); modify (fun w => w <| app_state := a' |>)) (fun _ => good c w0) w.
Proof.
  intros Hg Hh Hf. apply wp_bind, wp_gets, wp_bind. eapply wp_mono; [by eapply run_app_ends|].
  intros a w1 (Hg1 & Ea & Hend). apply wp_modify. apply good_app; [done|].
  unfold app_view. rewrite (good_handle _ _ _ Hg1), Hh, Ea. by eapply Hf.
Qed.

Lemma line_call_good c w0 w on_line handle l :
  good c w0 w -> application_session (session w0) = Some handle -> hook_line application = Some on_line ->
  wp (call_app (fun a => on_line a handle l)) (fun _ => good c w0) w.
Proof. intros Hg Hh Hl. eapply call_app_good; eauto using call_line. Qed.

Lemma poll_call_good c w0 w poll handle :
  good c w0 w -> application_session (session w0) = Some handle -> hook_poll application = Some poll ->
  wp (call_app (fun a => poll a handle)) (fun _ => good c w0) w.
Proof. intros Hg Hh Hl. eapply call_app_good; eauto using call_poll. Qed.

Lemma deliver_gmcp_good c w0 w handler handle p j :
  good c w0 w -> application_session (session w0) = Some handle -> hook_gmcp application = Some handler ->
  wp (deliver_gmcp handler handle p j) (fun _ => good c w0) w.
Proof. intros Hg Hh Hl. unfold deliver_gmcp. eapply app_update_good; eauto using call_gmcp. Qed.

Lemma notify_good c w0 w : good c w0 w -> wp notify_application_capabilities (fun _ => good c w0) w.
Proof.
  intros Hg. unfold notify_application_capabilities. apply wp_session.
  rewrite (good_handle _ _ _ Hg).
  destruct (application_session _) eqn:Eh, (hook_capabilities_changed application) eqn:Ec; [|by apply wp_ret..].
  eapply app_update_good; eauto using call_capabilities.
Qed.
#[local] Hint Resolve notify_good : session.

Lemma replay_good c w0 w : good c w0 w -> wp replay_pre_auth_gmcp_core (fun _ => good c w0) w.
Proof.
  intros Hg. unfold replay_pre_auth_gmcp_core. apply wp_session, wp_bind.
  apply wp_mono with (Q := fun _ => good c w0).
  - rewrite (good_handle _ _ _ Hg). destruct (application_session _) eqn:Eh, (hook_gmcp application) eqn:Ec; [|by apply wp_ret..].
    apply wp_for_each; [done|]. intros x w' _ Hw. by eapply deliver_gmcp_good.
  - intros [] w1 Hg1. tel.
Qed.
End functions.

#[export] Hint Resolve write_prompt_marker_good write_prompt_text_good warn_insecure_good write_untrusted_text_good
  request_close_good note_violation_good audit_player_event_good send_gmcp_message_good write_application_text_good
  application_write_link_good notify_good replay_good : session.
