(* ===== verification/TelnetCapabilities.v ===== *)
(** Negotiation, capability and subnegotiation code keeps the session's
    invariant: option commands keep the cached flags equal to the negotiator's
    state, and no payload, however malformed, leaves an array. *)
From S2P Require Import Prelude TelnetNegotiation TerminalText AsciiText SecurityPolicy PlayerStore Application.
From S2P Require Import TelnetSession TelnetOptions TelnetSubnegotiation TelnetOutput TelnetInvariant.

(** * String arrays *)

Lemma string41_memcpy a src : string41 a -> Zlen src < 41 -> exists a', memcpy_into a src = Some a' /\ string41 a'.
Proof.
  intros [Hl Hz] Hs. unfold memcpy_into. rewrite Hl. destruct (Z.leb_spec (Zlen src) (Z.of_nat 41)); [|lia].
  eexists. split; [done|]. split; [rewrite length_app, length_drop; lia|].
  rewrite lookup_app_r by lia. rewrite lookup_drop. by replace (length src + (40 - length src))%nat with 40%nat by lia.
Qed.

Lemma string41_strcpy a src :
  string41 a -> strlen src <= 40 -> exists a', strcpy_into a src = Some a' /\ string41 a'.
Proof.
  intros [Hl Hz] Hs. unfold strlen in Hs. unfold strcpy_into, memcpy_into. rewrite Hl, length_app. simpl.
  destruct (Z.leb_spec (Z.of_nat (length (c_str src) + 1)) (Z.of_nat 41)); [|lia].
  eexists. split; [done|]. split; [rewrite length_app, length_drop, length_app; simpl; lia|].
  destruct (decide (length (c_str src) = 40)%nat) as [E|E].
  - rewrite lookup_app_l by (rewrite length_app; simpl; lia). rewrite lookup_app_r by lia. by rewrite E.
  - rewrite lookup_app_r by (rewrite length_app; simpl; lia). rewrite lookup_drop, length_app. simpl. by replace (length (c_str src) + 1 + (40 - (length (c_str src) + 1)))%nat with 40%nat by lia.
Qed.

Lemma printable_prefix_le l : (length (printable_prefix l) <= length l)%nat.
Proof. induction l as [|b l IH]; simpl; [lia|]. case_test; simpl; lia. Qed.

Lemma string41_copy a input : string41 a -> exists a' ok, copy_printable_ascii a input = Some (a', ok) /\ string41 a'.
Proof.
  intros Ha. unfold copy_printable_ascii. rewrite (proj1 Ha). destruct (Z.geb_spec (Zlen input) (Z.of_nat 41)); [eauto|].
  pose proof (printable_prefix_le input). destruct (Z.eqb_spec (Zlen (printable_prefix input)) (Zlen input)) as [E|E].
  - destruct (string41_memcpy a input Ha) as (a0 & _ & Ha0); [lia|].
    destruct Ha as [Hl Hz]. unfold memcpy_into. rewrite Hl, length_app. simpl.
    destruct (Z.leb_spec (Z.of_nat (length input + 1)) (Z.of_nat 41)); [|lia]. do 2 eexists. split; [done|].
    split; [rewrite length_app, length_drop, length_app; simpl; lia|]. destruct (decide (length input = 40)%nat) as [E'|E'].
    + rewrite lookup_app_l by (rewrite length_app; simpl; lia). rewrite lookup_app_r by lia. by rewrite E'.
    + rewrite lookup_app_r by (rewrite length_app; simpl; lia). rewrite lookup_drop, length_app. simpl.
      by replace (length input + 1 + (40 - (length input + 1)))%nat with 40%nat by lia.
  - destruct (string41_memcpy a (printable_prefix input) Ha) as (a' & -> & Ha'); [lia|]. simpl. eauto.
Qed.

(** ** Local arrays *)

(** A field of an environment report is decoded inside its array, whatever the
    bytes, and leaves no more than it was given. *)
Lemma environ_field_runs is_name size field data :
  exists r, environ_field is_name size field data = Some r /\
    forall f v rest, r = Some (f, v, rest) -> (length rest <= length data)%nat.
Proof.
  remember (length data) as n eqn:Hn. revert field data Hn. induction (lt_wf n) as [n _ IH]. intros field data ->.
  assert (forall r : option (list Z * bool * list Z), (forall f v rest, r = Some (f, v, rest) -> (length rest <= length data)%nat) ->
    exists r', Some r = Some r' /\ forall f v rest, r' = Some (f, v, rest) -> (length rest <= length data)%nat) as Hstop by eauto.
  destruct data as [|byte data]; cbn [environ_field]; [apply Hstop; by intros ??? [= <- <- <-]|].
  assert (forall f x tail, (length tail < length (byte :: data))%nat -> Zlen f < size ->
    exists r, (field ← push size f x; environ_field is_name size field tail) = Some r /\
      forall f v rest, r = Some (f, v, rest) -> (length rest <= length (byte :: data))%nat) as Hgo.
  { intros f x tail Ht Hf. rewrite push_Some by done. cbn [mbind option_bind].
    edestruct (IH (length tail)) as (r & -> & Hr); [done|done|]. exists r. split; [done|]. intros ??? E%Hr. lia. }
  case_test.
  - destruct data as [|quoted data]; [by apply Hstop|]. case_test; [by apply Hstop|]. breflect. apply Hgo; simpl; lia.
  - case_test; [apply Hstop; intros ??? [= <- <- <-]; simpl; lia|].
    case_test; [apply Hstop; by intros ??? [= <- <- <-]|]. case_test; [by apply Hstop|]. breflect; apply Hgo; simpl; lia.
Qed.

Lemma gmcp_split_runs p data :
  Zlen p <= GMCP_PACKAGE_MAX_BYTES -> exists r, gmcp_split p data = Some r /\
    forall name body, r = Some (name, body) -> Zlen name <= GMCP_PACKAGE_MAX_BYTES.
Proof.
  revert p. induction data as [|b data IH]; intros p Hp; simpl.
  - rewrite local_str_Some by lia. simpl. eexists. split; [done|]. by intros ?? [= <- <-].
  - case_test; [rewrite local_str_Some by lia; simpl; eexists; split; [done|]; by intros ?? [= <- <-]|].
    case_test; [by eexists; split|]. breflect. rewrite push_Some by lia. simpl. apply IH. rewrite Zlen_snoc. lia.
Qed.

Lemma mssp_append_runs size pairs payload : exists r, mssp_append_pairs payload size pairs = Some r.
Proof.
  revert payload. induction pairs as [|[name value] pairs IH]; intros payload; cbn [mssp_append_pairs]; [eauto|].
  assert (exists r, mssp_append_pair payload size name value = Some r) as [r ->].
  { unfold mssp_append_pair. case_test; [eauto|]. case_test; [eauto|]. case_test; [eauto|]. breflect.
    rewrite push_Some by lia. cbn [mbind option_bind]. rewrite append_Some by (rewrite Zlen_snoc; lia). cbn [mbind option_bind].
    rewrite push_Some by (rewrite !length_app; simpl; lia). cbn [mbind option_bind].
    rewrite append_Some by (rewrite !length_app; simpl; lia). simpl. eauto. }
  simpl. destruct r; eauto.
Qed.

Lemma mssp_payload_runs status : exists r, mssp_payload status = Some r.
Proof.
  unfold mssp_payload. repeat (match goal with |- context [mssp_append_pairs ?p ?s ?l] =>
    destruct (mssp_append_runs s l p) as [[?|] ->] end; cbn [mbind option_bind]; [|eauto]). eauto.
Qed.

Section capabilities.
Context {E : Environment}.

Lemma q_send_good c w0 w l : (forall x, x ∈ l -> command_kind (fst x) <> None) ->
  good c w0 w -> wp (for_each l q_send_callback) (fun _ => good c w0) w.
Proof.
  intros Hl Hg. apply wp_for_each; [done|]. intros [cmd o] w' Hx Hw. apply Hl in Hx. simpl in Hx.
  unfold q_send_callback, write_telnet_option_raw. apply write_raw_good; [done|]. unfold framed, out_run. simpl.
  unfold command_kind in Hx. destruct (_ =? TELNET_WILL) eqn:E1; [breflect; by subst|].
  destruct (_ =? TELNET_WONT) eqn:E2; [breflect; by subst|]. destruct (_ =? TELNET_DO) eqn:E3; [breflect; by subst|].
  destruct (_ =? TELNET_DONT) eqn:E4; [breflect; by subst|]. done.
Qed.

Lemma request_sends q d o e x : x ∈ snd (telnet_q_request q d o e) -> command_kind (fst x) <> None.
Proof.
  unfold telnet_q_request. destruct (select_side q d o) as [[] []], e, d; simpl; intros Hx;
    rewrite ?list_elem_of_singleton in Hx; try (by apply elem_of_nil in Hx); by subst.
Qed.

Lemma receive_sends q cmd o a x : x ∈ snd (telnet_q_receive q cmd o a) -> command_kind (fst x) <> None.
Proof.
  unfold telnet_q_receive, receive_positive, receive_negative. destruct (command_kind cmd) as [[d [|]]|]; simpl.
  - destruct (select_side q d o) as [[] []], (a d o), d; simpl; intros Hx;
      rewrite ?list_elem_of_singleton in Hx; try (by apply elem_of_nil in Hx); by subst.
  - destruct (select_side q d o) as [[] []], d; simpl; intros Hx;
      rewrite ?list_elem_of_singleton in Hx; try (by apply elem_of_nil in Hx); by subst.
  - intros Hx. by apply elem_of_nil in Hx.
Qed.

(** A request to enable never changes what is enabled; a request to disable
    only its own option. *)
Lemma enabled_request_same q d o d' o' :
  q_ok q -> is_byte o -> is_byte o' ->
  telnet_q_enabled (fst (telnet_q_request q d o true)) d' o' = telnet_q_enabled q d' o'.
Proof.
  intros Hq Ho Ho'. destruct (decide ((d', o') = (d, o))) as [[= -> ->]|Hne].
  - unfold telnet_q_enabled. destruct (request_one_side q d o true Hq Ho) as (-> & _).
    unfold request_side. destruct (select_side q d o) as [[] []]; done.
  - apply enabled_request_frame; auto. apply Ho'.
Qed.

Lemma q_request_good c w0 w d o e :
  is_byte o -> (c = true -> e = true \/ o = TELNET_OPT_ECHO) ->
  good c w0 w -> wp (q_request d o e) (fun _ => good c w0) w.
Proof.
  intros Ho Hc Hg. unfold q_request. apply wp_session.
  destruct (telnet_q_request (options (session w)) d o e) as [q sends] eqn:Eq.
  assert (q = fst (telnet_q_request (options (session w)) d o e)) as Hq by by rewrite Eq.
  assert (sends = snd (telnet_q_request (options (session w)) d o e)) as Hs by by rewrite Eq.
  pose proof (co_options _ (gd_core _ _ _ Hg)) as Hok.
  apply wp_bind. eapply wp_mono.
  - apply upd_good; [exact Hg|reflexivity|done| |].
    + core_tac. subst q. by apply q_ok_request.
    + intros Hct [H1 H2 H3 H4 H5 H6 H7 H8].
      assert (forall d' o', o' <> TELNET_OPT_ECHO -> is_byte o' ->
        telnet_q_enabled q d' o' = telnet_q_enabled (options (session w)) d' o') as Hframe.
      { intros d' o' Hne Ho'. subst q. destruct (Hc Hct) as [->| ->]; [by apply enabled_request_same|].
        apply enabled_request_frame; auto; [apply Ho'|congruence]. }
      constructor; simpl; rewrite Hframe; done.
  - intros [] w1 Hg1. apply q_send_good; [|done]. intros x Hx. subst sends. by eapply request_sends.
Qed.

Lemma q_enable_good c w0 w d o : is_byte o -> good c w0 w -> wp (q_request d o true) (fun _ => good c w0) w.
Proof. intros Ho Hg. apply q_request_good; auto. Qed.
#[local] Hint Resolve q_enable_good : session.
#[local] Hint Extern 1 (is_byte _) => done : session.

Lemma negotiate_good w0 w : good true w0 w -> wp negotiate_operational_options (fun _ => good true w0) w.
Proof. intros Hg. unfold negotiate_operational_options. tel. Qed.

Lemma echo_off_good w0 w : good true w0 w -> wp password_echo_off (fun _ => good true w0) w.
Proof. intros Hg. unfold password_echo_off. tel_step. tel_step. by apply q_request_good; [|left|]. Qed.

Lemma echo_on_good w0 w : good true w0 w -> wp password_echo_on (fun _ => good true w0) w.
Proof. intros Hg. unfold password_echo_on. tel_step. tel_step. by apply q_request_good; [|right|]. Qed.

Lemma mssp_calls_good c w0 w n : good c w0 w -> good c w0 (w <| mssp_calls := n |>).
Proof. intros [H1 H2 H3 [[H4 H5 H6 HA] H7 H8 H9]]. split; auto. split; auto. by split. Qed.

Lemma send_mssp_good c w0 w : good c w0 w -> wp send_mssp_status (fun _ => good c w0) w.
Proof.
  intros Hg. unfold send_mssp_status. tel_step. tel_step; [|by apply wp_ret]. tel_step; [by apply wp_ret|].
  apply wp_bind, wp_gets, wp_bind, wp_modify.
  pose proof (mssp_calls_good c w0 w (S (mssp_calls w)) Hg) as Hg1. set (w1 := w <| mssp_calls := _ |>) in *.
  clearbody w1. apply wp_bind.
  match goal with |- wp (lift_opt (mssp_payload ?st)) _ _ => destruct (mssp_payload_runs st) as [r Er] end.
  eapply wp_lift; [exact Er|]. tel.
Qed.

Lemma queue_good c w0 w p j :
  good c w0 w -> gmcp_package_valid (Some p) = true -> Zlen j <= GMCP_JSON_MAX_BYTES ->
  wp (queue_pre_auth_gmcp_core p j) (fun _ => good c w0) w.
Proof.
  intros Hg Hp Hj. unfold queue_pre_auth_gmcp_core. tel_step. tel_step; [|by apply wp_ret]. tel_step; [by apply wp_ret|].
  tel_step; [tel|]. breflect. apply wp_bind.
  assert (strlen p <= GMCP_PACKAGE_MAX_BYTES) as Hl.
  { unfold gmcp_package_valid in Hp. destruct (_ || _) eqn:E1 in Hp; [done|]. breflect. lia. }
  eapply wp_lift; [apply store_str_Some; lia|]. apply wp_bind.
  eapply wp_lift; [by destruct (Z.leb_spec (Zlen j) GMCP_JSON_MAX_BYTES); [|lia]|]. apply wp_bind.
  eapply wp_lift; [by apply push_Some|].
  eapply wp_mono; [apply upd_good; [exact Hg|reflexivity|done| |]|by intros [] ? ?].
  - core_tac; [rewrite Zlen_snoc; lia|]. apply Forall_snoc; [done|]. split; [|done]. simpl.
    unfold gmcp_package_valid in *. unfold strlen in *. by rewrite !c_str_idemp.
  - intros Hc. core_tac.
Qed.

Lemma handle_gmcp_good c w0 w : good c w0 w -> wp handle_gmcp (fun _ => good c w0) w.
Proof.
  intros Hg. unfold handle_gmcp. tel_step. tel_step; [by apply wp_ret|].
  destruct (gmcp_split_runs [] (subnegotiation (session w))) as (r & Er & _); [done|].
  apply wp_bind. eapply wp_lift; [exact Er|].
  destruct r as [[name body]|]; [|tel]. tel_step; [tel|]. tel_step; [tel|]. breflect.
  tel_step. eapply wp_lift; [apply local_str_Some; lia|].
  assert (gmcp_package_valid (Some (c_str name)) = true) as Hv.
  { unfold gmcp_package_valid, strlen in *. by rewrite c_str_idemp. }
  tel_step. apply wp_mono with (Q := fun _ => good c w0); [tel|]. intros [] w1 Hg1.
  rewrite (good_handle _ _ _ Hg).
  destruct (application_session _) eqn:Eh, (hook_gmcp application) eqn:Ec; [by eapply deliver_gmcp_good|..]; by apply queue_good.
Qed.

Lemma refresh_utf8_good c w0 w : good c w0 w -> wp refresh_utf8_metadata (fun _ => good c w0) w.
Proof. intros Hg. unfold refresh_utf8_metadata. tel. Qed.

Lemma apply_mtts_good c w0 w flags : good c w0 w -> wp (apply_mtts_flags flags) (fun _ => good c w0) w.
Proof. intros Hg. unfold apply_mtts_flags. tel. Qed.

Lemma request_terminal_type_good c w0 w : good c w0 w -> wp request_terminal_type (fun _ => good c w0) w.
Proof. intros Hg. unfold request_terminal_type. tel. all: breflect; unfold TERMINAL_TYPE_REQUEST_LIMIT in *; lia. Qed.

Lemma request_charset_good c w0 w : good c w0 w -> wp request_charset (fun _ => good c w0) w.
Proof. intros Hg. unfold request_charset. tel. Qed.

Lemma request_new_environ_good c w0 w : good c w0 w -> wp request_new_environ (fun _ => good c w0) w.
Proof. intros Hg. unfold request_new_environ. tel. Qed.
End capabilities.

#[export] Hint Resolve negotiate_good echo_off_good echo_on_good send_mssp_good handle_gmcp_good refresh_utf8_good
  apply_mtts_good request_terminal_type_good request_charset_good request_new_environ_good : session.

Section handlers.
Context {E : Environment}.

(** ** The metadata refresh re-establishes the cached flags *)

Lemma update_metadata_good c w0 w : good c w0 w -> wp update_option_metadata (fun _ => good true w0) w.
Proof.
  intros Hg. unfold update_option_metadata. apply wp_bind, wp_upd. cbv zeta.
  match goal with |- wp _ _ (w <| session := ?s1 |>) => assert (good true w0 (w <| session := s1 |>)) as Hg1 end.
  { eapply (good_session c true w0 w (fun s => _)); [exact Hg|reflexivity|done| |].
    - destruct Hg as [[] _ _ _]. constructor; simpl; auto.
    - intros _. constructor; reflexivity. }
  set (w1 := w <| session := _ |>) in *. clearbody w1. tel.
Qed.

Lemma receive_option_good w0 w command option :
  is_byte option -> good true w0 w -> wp (receive_telnet_option command option) (fun _ => good true w0) w.
Proof.
  intros Ho Hg. unfold receive_telnet_option. apply wp_session. cbv zeta.
  destruct (telnet_q_receive (options (session w)) command option (q_accept_callback (session w))) as [q sends] eqn:Eq.
  assert (q = fst (telnet_q_receive (options (session w)) command option (q_accept_callback (session w)))) as Hq by by rewrite Eq.
  assert (sends = snd (telnet_q_receive (options (session w)) command option (q_accept_callback (session w)))) as Hs by by rewrite Eq.
  pose proof (good_weaken false _ _ Hg) as Hg0. pose proof (gd_core _ _ _ Hg) as Hcore.
  apply wp_bind. eapply wp_mono; [apply (upd_good false w0); [exact Hg0|reflexivity|done| |done]|intros [] w1 Hg1; cbv beta in *].
  { core_tac. subst q. by apply q_ok_receive. }
  apply wp_bind. eapply wp_mono; [apply q_send_good; [|exact Hg1]|intros [] w2 Hg2; cbv beta in *].
  { intros x Hx. subst sends. by eapply receive_sends. }
  destruct (string41_strcpy (terminal_type (terminal (session w))) (txt "UNKNOWN")) as (u & Eu & Hu); [apply Hcore|done|].
  apply wp_bind. apply wp_mono with (Q := fun _ => good false w0).
  { apply wp_when; intros _; [|done]. apply wp_bind. eapply wp_lift; [done|]. tel; done. }
  intros [] w3 Hg3.
  repeat (tel_step; [apply wp_mono with (Q := fun _ => good false w0); [by tel|intros [] ? ?]]).
  apply wp_bind. eapply wp_mono; [eapply update_metadata_good; eassumption|]. intros [] w4 Hg4. tel.
Qed.
#[local] Hint Resolve update_metadata_good : session.

(** ** Subnegotiation handlers *)

Lemma clamp_range v lo hi fb : lo <= hi -> lo <= fb <= hi -> 0 <= v -> lo <= clamp_dimension v lo hi fb <= hi.
Proof. intros. unfold clamp_dimension. repeat case_test; breflect; lia. Qed.

Lemma handle_naws_good w0 w :
  Forall is_byte (subnegotiation (session w)) -> good true w0 w -> wp handle_naws (fun _ => good true w0) w.
Proof.
  intros Hb Hg. unfold handle_naws. tel_step. tel_step; [by apply wp_ret|].
  destruct (subnegotiation (session w)) as [|b0 [|b1 [|b2 [|b3 [|b4 l]]]]]; try (tel; fail). cbv zeta.
  assert (forall a b, is_byte a -> is_byte b -> 0 <= Z.lor (Z.shiftl a 8) b) as Hpos.
  { intros a b [Ha _] [Hb' _]. apply Z.lor_nonneg. split; [by apply Z.shiftl_nonneg|done]. }
  repeat match goal with H : Forall _ (_ :: _) |- _ => inversion H; clear H; subst end.
  unfold upd_terminal. eapply wp_mono; [apply upd_good; [exact Hg|reflexivity|done| |intros Hc; core_tac]|by intros [] ? ?].
  core_tac; by apply clamp_range; auto.
Qed.

Lemma infer_good c w0 w t : good c w0 w -> wp (infer_terminal_type_capabilities t) (fun _ => good c w0) w.
Proof.
  intros Hg. unfold infer_terminal_type_capabilities. apply wp_bind. apply wp_mono with (Q := fun _ => good c w0); [tel|].
  intros [] w1 Hg1. tel.
Qed.

Lemma parse_mtts_good c w0 w b : good c w0 w -> wp (parse_mtts_report b) (fun _ => good c w0) w.
Proof. intros Hg. unfold parse_mtts_report. tel. Qed.
#[local] Hint Resolve infer_good parse_mtts_good : session.

Lemma printable_full l : Zlen (printable_prefix l) = Zlen l -> Forall (fun b => b <> 0) l.
Proof.
  induction l as [|b l IH]; simpl; [constructor|]. case_test; simpl; intros H; [lia|].
  breflect. constructor; [lia|]. apply IH. lia.
Qed.

Lemma handle_terminal_type_good w0 w : good true w0 w -> wp handle_terminal_type (fun _ => good true w0) w.
Proof.
  intros Hg. unfold handle_terminal_type. tel_step. tel_step; [by apply wp_ret|]. tel_step. tel_step.
  destruct (subnegotiation (session w)) as [|k [|b l]]; [tel|tel|]. tel_step; [tel|]. cbv zeta.
  change (drop 1 (k :: b :: l)) with (b :: l). set (input := b :: l) in *.
  destruct (string41_copy (replicate 41 0) input) as (a & ok & Ea & _); [done|]. tel_step.
  apply wp_if; intros Hlen; [apply wp_ret; cbn [negb]; cbv iota; tel|]. breflect. tel_step. eapply wp_lift; [exact Ea|].
  cbv beta iota. apply wp_ret. tel_step; [tel|].
  assert (strlen input <= 40) as Hl.
  { unfold strlen. pose proof (c_str_length_le input). unfold TELNET_TERMINAL_TYPE_MAX in *. lia. }
  apply wp_bind. eapply wp_mono; [by apply parse_mtts_good|]. intros mtts w2 Hg2. cbv beta in *.
  pose proof (gd_core _ _ _ Hg) as Hcore. pose proof (gd_core _ _ _ Hg2) as Hcore2.
  destruct (string41_strcpy (client_name (terminal (session w))) input) as (a1 & E1 & S1); [apply Hcore|done|].
  destruct (string41_strcpy (terminal_type (terminal (session w))) input) as (a2 & E2 & S2); [apply Hcore|done|].
  apply wp_bind. apply wp_mono with (Q := fun _ => good true w0).
  { apply wp_when; intros _; [|done]. apply wp_if; intros _.
    - apply wp_bind. eapply wp_lift; [exact E1|]. apply wp_bind. eapply wp_lift; [exact E2|]. tel; done.
    - apply wp_when; intros _; [|done]. apply wp_bind. eapply wp_lift; [exact E2|]. tel; done. }
  intros [] w3 Hg3. apply wp_bind. eapply wp_lift; [apply store_str_Some; unfold TELNET_TERMINAL_TYPE_MAX; lia|]. tel.
Qed.

Lemma handle_charset_good w0 w : good true w0 w -> wp handle_charset (fun _ => good true w0) w.
Proof. intros Hg. unfold handle_charset. tel. Qed.

Lemma apply_environ_good c w0 w t n v : good c w0 w -> wp (apply_new_environ_value t n v) (fun _ => good c w0) w.
Proof.
  intros Hg. unfold apply_new_environ_value. cbv zeta.
  repeat (apply wp_if; intros ?).
  all: try (apply wp_bind; apply wp_mono with (Q := fun _ => good c w0); [tel|intros [] w1 Hg1]).
  1, 2, 3: apply wp_session; pose proof (gd_core _ _ _ Hg1) as Hcore; apply wp_bind;
    edestruct string41_copy as (a & ok & Ea & Ha); [|eapply wp_lift; [exact Ea|]; cbv beta iota; tel; done]; apply Hcore.
  all: tel.
Qed.
#[local] Hint Resolve apply_environ_good : session.

Lemma environ_loop_good c w0 w fuel data :
  (length data <= fuel)%nat -> good c w0 w -> wp (environ_loop fuel data) (fun _ => good c w0) w.
Proof.
  revert w data. induction fuel as [|fuel IH]; intros w [|token data] Hf Hg; simpl in Hf |- *; [by apply wp_ret|lia|by apply wp_ret|].
  tel_step; [by apply wp_ret|]. destruct (environ_field_runs true 64 [] data) as (r & Er & Hr).
  apply wp_bind. eapply wp_lift; [exact Er|]. destruct r as [[[name has] rest]|]; [|by apply wp_ret]. specialize (Hr _ _ _ eq_refl).
  destruct (environ_field_runs false 128 [] rest) as (r' & Er' & Hr').
  apply wp_bind. eapply (wp_lift _ (if has then r' else Some ([], false, rest))); [by destruct has|].
  assert (forall f v l, (if has then r' else Some ([], false, rest)) = Some (f, v, l) -> (length l <= length rest)%nat) as Hl.
  { intros f v l. destruct has; [apply Hr'|by intros [= <- <- <-]]. }
  destruct (if has then r' else _) as [[[value h] rest']|]; [|by apply wp_ret]. specialize (Hl _ _ _ eq_refl).
  apply wp_bind. apply wp_mono with (Q := fun _ => good c w0); [tel|]. intros [] w1 Hg1. apply IH; [lia|done].
Qed.
#[local] Hint Resolve environ_loop_good Nat.le_refl : session.

Lemma handle_new_environ_good w0 w : good true w0 w -> wp handle_new_environ (fun _ => good true w0) w.
Proof. intros Hg. unfold handle_new_environ. tel. Qed.
End handlers.

#[export] Hint Resolve update_metadata_good receive_option_good handle_terminal_type_good handle_charset_good
  handle_new_environ_good : session.
