(* ===== verification/TelnetDialogue.v ===== *)
(** The account dialogue: the invariant of a session's login state, line and
    secrets, and the specification of the line and login functions.  [talk]
    tracks the dialogue fields through a function exactly, while everything
    else keeps its invariant. *)
From S2P Require Import Prelude TelnetNegotiation TerminalText AsciiText SecurityPolicy RecordTable PolicyInvariant.
From S2P Require Import PolicyTheorems PlayerStore PlayerStoreTheorems PlayerRecords PlayerAccounts Application.
From S2P Require Import TelnetSession TelnetOptions TelnetLogin TelnetSubnegotiation TelnetOutput TelnetInvariant.
From S2P Require Import TelnetCapabilities.

(** * The dialogue part of a session *)

Record dialogue := mk_dialogue {
  d_login : login_state;
  d_name : list Z;
  d_line : list Z;
  d_overflow : bool;
  d_password : list Z;
  d_app : option nat;
  d_lines : rate_window;
  d_commands : rate_window
}.

Definition eta_dialogue d := mk_dialogue (d_login d) (d_name d) (d_line d) (d_overflow d) (d_password d) (d_app d)
  (d_lines d) (d_commands d).
#[export] Instance set_d_login : Setter d_login := ltac:(setter_of eta_dialogue d_login).
#[export] Instance set_d_name : Setter d_name := ltac:(setter_of eta_dialogue d_name).
#[export] Instance set_d_line : Setter d_line := ltac:(setter_of eta_dialogue d_line).
#[export] Instance set_d_overflow : Setter d_overflow := ltac:(setter_of eta_dialogue d_overflow).
#[export] Instance set_d_password : Setter d_password := ltac:(setter_of eta_dialogue d_password).
#[export] Instance set_d_app : Setter d_app := ltac:(setter_of eta_dialogue d_app).
#[export] Instance set_d_lines : Setter d_lines := ltac:(setter_of eta_dialogue d_lines).
#[export] Instance set_d_commands : Setter d_commands := ltac:(setter_of eta_dialogue d_commands).

Definition dialogue_of (s : telnet_session) : dialogue :=
  mk_dialogue (login s) (player_name s) (line s) (line_overflow s) (pending_password s) (application_session s)
    (line_window s) (command_window s).

(** The rest of [frame]. *)
Definition pview (s : telnet_session) :=
  (parser s, pending_telnet_command s, subnegotiation_option s, subnegotiation s, pending_cr s, started s, remote_id s,
   byte_window s).

(** * The invariant *)

Definition line_limit (l : login_state) : Z := if password_state l then PLAYER_PASSWORD_MAX else APPLICATION_LINE_MAX.

(** Only printable and eight-bit bytes reach the line. *)
Definition line_byte (b : Z) : Prop := 32 <= b < 256 /\ b <> 127.

Record dialogue_ok (d : dialogue) : Prop := mk_dialogue_ok {
  ok_line_bytes : Forall line_byte (d_line d);
  ok_line_length : Zlen (d_line d) <= line_limit (d_login d);
  (** a name is held exactly while its account is being dealt with *)
  ok_name : match d_login d with
            | LOGIN_NAME => d_name d = []
            | _ => player_store_name_valid (Some (d_name d)) = true /\ Forall (fun b => b <> 0) (d_name d)
            end;
  (** a verifier is held only between the two password prompts *)
  ok_password : match d_login d with
                | LOGIN_CONFIRM_PASSWORD => exists h, token_hash (d_password d) = Some h /\ hash_ok h
                | _ => d_password d = token_clear
                end;
  ok_app : d_app d <> None -> d_login d = LOGIN_IN_GAME;
  ok_lines : 0 <= used (d_lines d) <= INPUT_LINES_PER_WINDOW;
  ok_commands : 0 <= used (d_commands d) <= COMMANDS_PER_WINDOW
}.

Record parser_ok (s : telnet_session) : Prop := mk_parser_ok {
  ok_sub_length : Zlen (subnegotiation s) <= SUBNEGOTIATION_MAX_BYTES;
  ok_sub_bytes : Forall is_byte (subnegotiation s);
  ok_bytes_window : 0 <= used (byte_window s) <= INPUT_BYTES_PER_WINDOW
}.

Lemma parser_ok_pview s s' : pview s' = pview s -> parser_ok s -> parser_ok s'.
Proof. unfold pview. intros [= _ _ _ E _ _ _ E'] []. constructor; congruence. Qed.

Section dialogue.
Context {E : Environment} {PL : PwhashLaws env_pwhash} {ML : MkstempLaws env_mkstemp}.

Record world_ok (w : world) : Prop := mk_world_ok {
  wo_core : core_session (session w);
  wo_wire : framed (sent w);
  wo_cached : cached (session w);
  wo_dialogue : dialogue_ok (dialogue_of (session w));
  wo_parser : parser_ok (session w);
  wo_policy : policy_ok (policy w)
}.

(** [talk w0 w d]: [w] is reached from [w0], its dialogue is [d], and apart
    from the dialogue the invariant holds. *)
Record talk (w0 w : world) (d : dialogue) : Prop := mk_talk {
  tk_evolves : evolves w0 w;
  tk_core : core_session (session w);
  tk_wire : framed (sent w);
  tk_cached : cached (session w);
  tk_pview : pview (session w) = pview (session w0);
  tk_policy : policy_ok (policy w);
  tk_dialogue : dialogue_of (session w) = d
}.

Lemma talk_start w : world_ok w -> talk w w (dialogue_of (session w)).
Proof. intros []. split; auto using evolves_refl. Qed.

Lemma talk_finish w0 w d : world_ok w0 -> talk w0 w d -> dialogue_ok d -> world_ok w.
Proof. intros [] [] Hd. split; auto; [congruence|]. by eapply parser_ok_pview. Qed.

Lemma frame_split s s' : frame s' = frame s -> dialogue_of s' = dialogue_of s /\ pview s' = pview s.
Proof. unfold frame, dialogue_of, pview. intros [=]. split; congruence. Qed.

(** Steady functions keep the dialogue, the policy and the store. *)
Lemma talk_good {A} w0 w d (m : M world A) :
  (forall w1, good true w w1 -> wp m (fun _ => good true w) w1) ->
  talk w0 w d ->
  wp m (fun _ w' => talk w0 w' d /\ policy w' = policy w /\ store w' = store w) w.
Proof.
  intros Hm []. eapply wp_mono; [apply Hm; by apply good_refl|].
  intros _ w' [H1 H2 H3 [H4 H5 H6 H7]]. apply frame_split in H5 as [H5 H5']. split; [|done].
  split; auto; [by eapply evolves_trans|congruence|congruence|congruence].
Qed.

Lemma talk_steady {A} w0 w d (m : M world A) :
  (forall w1, good true w w1 -> wp m (fun _ => good true w) w1) ->
  talk w0 w d -> wp m (fun _ w' => talk w0 w' d) w.
Proof. intros Hm Ht. eapply wp_mono; [by apply talk_good|]. by intros ? ? [? _]. Qed.

(** A store to a dialogue field. *)
Lemma talk_upd_eq w0 w d f g :
  talk w0 w d -> dialogue_of (f (session w)) = g (dialogue_of (session w)) ->
  application_session (f (session w)) = application_session (session w) ->
  pview (f (session w)) = pview (session w) -> close_requested (f (session w)) = close_requested (session w) ->
  (core_session (session w) -> core_session (f (session w))) -> (cached (session w) -> cached (f (session w))) ->
  wp (upd f) (fun _ w' => talk w0 w' (g d) /\ policy w' = policy w /\ store w' = store w /\
    remote_id (session w') = remote_id (session w)) w.
Proof.
  intros [[] H2 H3 H4 H5 H6 H7] Hd Ha Hp Hc Hcore Hca. apply wp_upd. split; simpl.
  - split; simpl; auto; [|congruence|congruence]. split; simpl; auto; [intros H0; rewrite Hc; auto|].
    unfold app_view in *. simpl. by rewrite Ha.
  - split; [done|]. split; [done|]. unfold pview in Hp. congruence.
Qed.

Lemma talk_upd w0 w d f g :
  talk w0 w d -> dialogue_of (f (session w)) = g (dialogue_of (session w)) ->
  application_session (f (session w)) = application_session (session w) ->
  pview (f (session w)) = pview (session w) -> close_requested (f (session w)) = close_requested (session w) ->
  (core_session (session w) -> core_session (f (session w))) -> (cached (session w) -> cached (f (session w))) ->
  wp (upd f) (fun _ w' => talk w0 w' (g d)) w.
Proof. intros. eapply wp_mono; [by eapply talk_upd_eq|]. by intros [] ? [? _]. Qed.

(** Calls of the policy and the store. *)
Lemma talk_policy {A} w0 w d (m : M security_policy A) (Q : A -> world -> Prop) :
  wp m (fun _ => policy_ok) (policy w) -> talk w0 w d ->
  (forall a p', m (policy w) = Some (a, p') -> talk w0 (w <| policy := p' |>) d -> Q a (w <| policy := p' |>)) ->
  wp (with_policy m) Q w.
Proof.
  intros Hm [[] ? ? ? ? ? ?] HQ. apply wp_zoom. destruct (wp_run _ _ _ Hm) as (a & p' & Em & Hp').
  unfold wp. rewrite Em. apply HQ; [done|]. split; auto. by split.
Qed.

Lemma talk_store {A} w0 w d (m : M store_world A) (P : A -> store_world -> Prop) (Q : A -> world -> Prop) :
  wp m P (store w) -> talk w0 w d ->
  (forall a p', m (store w) = Some (a, p') -> P a p' -> talk w0 (w <| store := p' |>) d -> Q a (w <| store := p' |>)) ->
  wp (with_store m) Q w.
Proof.
  intros Hm [[] ? ? ? ? ? ?] HQ. apply wp_zoom. destruct (wp_run _ _ _ Hm) as (a & p' & Em & Hp').
  unfold wp. rewrite Em. apply HQ; [done|done|]. split; auto. by split.
Qed.

(** ** Dialogue stores of the login code *)

Lemma wipe_line_talk w0 w d : talk w0 w d -> wp wipe_line (fun _ w' => talk w0 w' (d <| d_line := [] |>)) w.
Proof. intros Ht. apply (talk_upd w0 w d _ (fun d => d <| d_line := [] |>)); [done|reflexivity..|core_tac|core_tac]. Qed.

Lemma set_login_talk w0 w d l : talk w0 w d -> wp (set_login_state l) (fun _ w' => talk w0 w' (d <| d_login := l |>)) w.
Proof. intros Ht. apply (talk_upd w0 w d _ (fun d => d <| d_login := l |>)); [done|reflexivity..|core_tac|core_tac]. Qed.

Lemma forget_name_talk w0 w d : talk w0 w d -> wp forget_player_name (fun _ w' => talk w0 w' (d <| d_name := [] |>)) w.
Proof. intros Ht. apply (talk_upd w0 w d _ (fun d => d <| d_name := [] |>)); [done|reflexivity..|core_tac|core_tac]. Qed.

Lemma clear_password_talk w0 w d :
  talk w0 w d -> wp clear_pending_password (fun _ w' => talk w0 w' (d <| d_password := token_clear |>)) w.
Proof. intros Ht. apply (talk_upd w0 w d _ (fun d => d <| d_password := token_clear |>)); [done|reflexivity..|core_tac|core_tac]. Qed.

Lemma reset_line_talk w0 w d :
  talk w0 w d -> wp (upd (fun s => s <| line := [] |> <| line_overflow := false |>))
    (fun _ w' => talk w0 w' (d <| d_line := [] |> <| d_overflow := false |>)) w.
Proof.
  intros Ht. apply (talk_upd w0 w d _ (fun d => d <| d_line := [] |> <| d_overflow := false |>)); [done|reflexivity..|core_tac|core_tac].
Qed.
End dialogue.

(** * The login automaton *)

(** Symbolic execution of the login code. *)
Ltac talk_step :=
  lazymatch goal with
  | |- wp (get_session ≫= _) _ _ => apply wp_session
  | |- wp (_ ≫= _) _ _ => apply wp_bind
  | |- wp (mret _) _ _ => apply wp_ret
  | |- wp (when _ _) _ _ => apply wp_when; intros ?
  | |- wp (if ?b then _ else _) _ _ =>
      lazymatch type of b with bool => apply wp_if; intros ? | _ => destruct b eqn:? end
  | |- wp wipe_line _ _ => eapply wp_mono; [eapply wipe_line_talk; eassumption | intros [] ? ?]
  | |- wp (set_login_state _) _ _ => eapply wp_mono; [eapply set_login_talk; eassumption | intros [] ? ?]
  | |- wp forget_player_name _ _ => eapply wp_mono; [eapply forget_name_talk; eassumption | intros [] ? ?]
  | |- wp clear_pending_password _ _ => eapply wp_mono; [eapply clear_password_talk; eassumption | intros [] ? ?]
  | |- wp _ _ _ =>
      eapply wp_mono; [eapply talk_steady; [intros; solve [eauto with session] | eassumption] | intros ? ? ?]
  end; cbv beta zeta in *.
Ltac talk_go := repeat talk_step.

Section login.
Context {E : Environment} {PL : PwhashLaws env_pwhash} {ML : MkstempLaws env_mkstemp}.

(** What entering the game takes, at the line that does it: the policy allows
    an attempt for this peer and account and the store verifies the typed
    password; or the typed password matches the pending verifier, the policy
    allows a creation, and the store creates the account. *)
Definition authenticated (now : Z) (w : world) (d : dialogue) : Prop :=
  (d_login d = LOGIN_PASSWORD /\
   exists retry p' rehashed st',
     security_policy_allow_auth_attempt (Some (remote_id (session w))) (Some (d_name d)) now (policy w)
       = Some ((true, retry), p') /\
     player_store_verify_password store_directory (d_name d) (d_line d) (store w) = Some ((1, rehashed), st')) \/
  (d_login d = LOGIN_CONFIRM_PASSWORD /\
   player_store_password_matches (d_password d) (d_line d) = 1 /\
   exists retry p' st',
     security_policy_allow_account_creation (Some (remote_id (session w))) now (policy w) = Some ((true, retry), p') /\
     player_store_create store_directory (d_name d) (d_password d) (store w) = Some (0, st')).

Inductive login_edge (now : Z) (w : world) (d d' : dialogue) : Prop :=
| edge_stay : d_login d' = d_login d -> d_name d' = d_name d -> login_edge now w d d'
| edge_existing st : d_login d = LOGIN_NAME -> d_login d' = LOGIN_PASSWORD -> d_name d' = d_line d ->
    player_store_exists store_directory (d_line d) (store w) = Some (1, st) -> login_edge now w d d'
| edge_new st : d_login d = LOGIN_NAME -> d_login d' = LOGIN_NEW_PASSWORD -> d_name d' = d_line d ->
    player_store_exists store_directory (d_line d) (store w) = Some (0, st) -> login_edge now w d d'
| edge_chosen : d_login d = LOGIN_NEW_PASSWORD -> d_login d' = LOGIN_CONFIRM_PASSWORD -> d_name d' = d_name d ->
    player_store_password_allowed (Some (d_name d)) (Some (d_line d)) = Some 1 -> login_edge now w d d'
| edge_retype : d_login d = LOGIN_CONFIRM_PASSWORD -> d_login d' = LOGIN_NEW_PASSWORD -> d_name d' = d_name d ->
    login_edge now w d d'
| edge_abandon : d_login d = LOGIN_NEW_PASSWORD \/ d_login d = LOGIN_CONFIRM_PASSWORD -> d_login d' = LOGIN_NAME ->
    login_edge now w d d'
| edge_enter : authenticated now w d -> d_login d' = LOGIN_IN_GAME -> d_name d' = d_name d -> login_edge now w d d'.

(** A login function ends in a dialogue that is well formed once the line is
    reset, along an edge of the automaton. *)
Definition lands (now : Z) (w0 w : world) (d : dialogue) (w' : world) : Prop :=
  exists d', talk w0 w' d' /\ dialogue_ok (d' <| d_line := [] |> <| d_overflow := false |>) /\ login_edge now w d d'.

(** The application is attached: the call of [open] and the store of the
    session pointer together. *)
Lemma open_talk w0 w d open name caps :
  talk w0 w d -> d_app d = None -> hook_open application = Some open ->
  wp (call_app (fun a => open a name caps))
    (fun handle w' => talk w0 (w' <| session := (session w') <| application_session := handle |> |>) (d <| d_app := handle |>)) w.
Proof.
  intros Ht Ha Ho. unfold call_app. apply wp_bind, wp_gets, wp_bind.
  assert (wp (run_app (open (app_state w) name caps)) (fun r w' => talk w0 w' d /\ app_state w' = app_state w /\
    may_end (open (app_state w) name caps) r) w) as Hrun.
  { destruct (wp_run _ _ _ (talk_steady w0 w d (run_app (open (app_state w) name caps)) ltac:(intros; by apply run_app_good) Ht)) as (r & w' & E1 & H).
    unfold wp. rewrite E1. split_and!; [done|by eapply quiet_run_app|by eapply run_may_end]. }
  eapply wp_mono; [exact Hrun|]. intros [handle a] w1 ([[V1 V2 V3 V4] H2 H3 H4 H5 H6 H7] & Ea & Hend). apply wp_bind, wp_modify, wp_ret.
  split; simpl; auto; [|by destruct H2; constructor|by destruct H4; constructor|by rewrite <- H7].
  split; simpl; auto. etrans; [exact V4|]. apply hook_calls_once. unfold app_view. simpl.
  assert (application_session (session w1) = None) as -> by (rewrite <- Ha, <- H7; done). rewrite Ea. by eapply call_open.
Qed.

Lemma enter_game_talk w0 w d :
  talk w0 w d -> d_app d = None -> wp enter_game (fun _ w' => exists app, talk w0 w' (d <| d_login := LOGIN_IN_GAME |> <| d_app := app |>)) w.
Proof.
  intros Ht Ha. unfold enter_game. talk_step. talk_step. talk_step. talk_step. talk_step.
  destruct (hook_open application) as [open|] eqn:Eo.
  - apply wp_bind. eapply wp_mono; [eapply open_talk; [eassumption|exact Ha|done]|].
    intros handle w3 Ht3. cbv beta in *. apply wp_bind, wp_upd. destruct handle; talk_go; eexists; eassumption.
  - talk_go. exists (d_app d). eassumption.
Qed.

Lemma line_bytes_nonzero l : Forall line_byte l -> Forall (fun b => b <> 0) l.
Proof. intros H. eapply Forall_impl; [exact H|]. intros b [? _]. lia. Qed.

Lemma lands_stay now w0 w d w' d' :
  dialogue_ok d -> talk w0 w' d' -> d' = d \/ d' = d <| d_line := [] |> -> lands now w0 w d w'.
Proof.
  intros Hd Ht Hd'. exists d'. split; [done|]. destruct Hd. split.
  - destruct Hd' as [-> | ->]; constructor; simpl; auto; unfold line_limit; case_test; done.
  - by destruct Hd' as [-> | ->]; apply edge_stay.
Qed.

Lemma name_valid_length name : player_store_name_valid (Some name) = true -> strlen name <= 15.
Proof. intros [? _]%name_valid_iff. lia. Qed.

Lemma exists_spec dir name w :
  wp (player_store_exists dir name) (fun r _ => r = 1 \/ r = 0 \/ r = -1) w.
Proof.
  unfold player_store_exists. apply wp_bind. eapply wp_mono; [apply load_record_spec|].
  intros [code|rec] w' _; apply wp_ret; [|auto]. case_test; auto.
Qed.

Lemma process_player_name_lands now w0 w d :
  talk w0 w d -> dialogue_ok d -> d_login d = LOGIN_NAME ->
  wp process_player_name (fun _ w' => lands now w0 w d w') w.
Proof.
  intros Ht Hd Hl. pose proof (tk_dialogue _ _ _ Ht) as Ed.
  assert (line (session w) = d_line d) as El by by rewrite <- Ed.
  assert (d_name d = []) as En by (pose proof (ok_name _ Hd) as Hn; by rewrite Hl in Hn).
  unfold process_player_name. apply wp_session. rewrite El.
  talk_step; [talk_go; eapply lands_stay; eauto|]. breflect.
  pose proof (line_bytes_nonzero _ (ok_line_bytes _ Hd)) as Hnz.
  apply wp_bind. eapply wp_lift.
  { apply store_str_Some. pose proof (name_valid_length _ H). unfold PLAYER_NAME_MAX. lia. }
  rewrite c_str_id by done. apply wp_bind.
  eapply wp_mono; [apply (talk_upd_eq w0 w d _ (fun d => d <| d_name := d_line d |>)); [done| |done|done|done|core_tac|core_tac]|].
  { unfold dialogue_of; simpl. by rewrite El. }
  intros [] w1 (Ht1 & _ & Es & _). apply wp_bind. eapply talk_store; [apply exists_spec|exact Ht1|].
  intros r st Er Hr Ht2. rewrite Es in Er. clear Ht1. set (w2 := w1 <| store := st |>) in *. clearbody w2.
  assert (forall l pw w3, (l = LOGIN_PASSWORD \/ l = LOGIN_NEW_PASSWORD) -> talk w0 w3 pw ->
    pw = d <| d_name := d_line d |> <| d_login := l |> -> login_edge now w d pw -> lands now w0 w d w3) as Hland.
  { intros l pw w3 Hl' Ht3 -> He. eexists. split; [exact Ht3|]. split; [|exact He]. destruct Hd.
    constructor; simpl in *; auto; rewrite ?Hl in *; destruct Hl' as [-> | ->]; simpl; auto; try done;
      intros Ha; specialize (ok_app0 Ha); congruence. }
  destruct Hr as [-> |[-> | ->]]; cbn [Z.ltb Z.eqb Z.compare Pos.eqb].
  - talk_go. eapply Hland; [by left|eassumption|done|]. by eapply edge_existing.
  - talk_go. eapply Hland; [by right|eassumption|done|]. by eapply edge_new.
  - talk_go. eapply lands_stay; [done|eassumption|]. left. destruct d; simpl in *. by subst.
Qed.

(** ** The policy calls *)

Lemma allow_auth_ok peer name now p :
  policy_ok p -> u64 now -> c_str name <> [] ->
  wp (security_policy_allow_auth_attempt (Some peer) (Some name) now) (fun _ => policy_ok) p.
Proof. intros. eapply wp_mono; [by apply allow_auth_spec|]. by intros r p' [(? & _) _]. Qed.

Lemma note_success_ok peer name now p :
  policy_ok p -> u64 now -> c_str name <> [] ->
  wp (security_policy_note_auth_success (Some peer) (Some name) now) (fun _ => policy_ok) p.
Proof. intros. eapply wp_mono; [by apply note_success_spec|]. by intros r p' (? & _). Qed.

Lemma note_failure_ok peer name now p :
  policy_ok p -> u64 now -> c_str name <> [] ->
  wp (security_policy_note_auth_failure (Some peer) (Some name) now) (fun _ => policy_ok) p.
Proof. intros. eapply wp_mono; [by apply note_failure_spec|]. by intros r p' (? & _). Qed.

Lemma allow_creation_ok peer now p :
  policy_ok p -> u64 now ->
  wp (security_policy_allow_account_creation (Some peer) now) (fun _ => policy_ok) p.
Proof. intros. eapply wp_mono; [by apply allow_creation_spec|]. by intros r p' [(? & _) _]. Qed.

Lemma verify_runs name pw st :
  wp (player_store_verify_password store_directory name pw) (fun _ _ => True) st.
Proof. eapply wp_mono; [apply verify_password_spec|done]. Qed.

Lemma valid_name_nonempty d : dialogue_ok d -> d_login d <> LOGIN_NAME -> c_str (d_name d) <> [].
Proof.
  intros Hd Hl Hc. pose proof (ok_name _ Hd) as Hn.
  assert (player_store_name_valid (Some (d_name d)) = true) as Hv by (destruct (d_login d); tauto).
  apply name_valid_iff in Hv as [Hlen _]. unfold strlen in Hlen. rewrite Hc in Hlen. simpl in Hlen. lia.
Qed.

Lemma not_in_game d : dialogue_ok d -> d_login d <> LOGIN_IN_GAME -> d_app d = None.
Proof. intros Hd Hl. destruct (d_app d) eqn:Ea; [|done]. destruct Hl. apply (ok_app _ Hd). by rewrite Ea. Qed.

Lemma process_existing_password_lands now w0 w d :
  talk w0 w d -> dialogue_ok d -> d_login d = LOGIN_PASSWORD -> u64 now ->
  wp (process_existing_password now) (fun _ w' => lands now w0 w d w') w.
Proof.
  intros Ht Hd Hl Hnow. pose proof (tk_dialogue _ _ _ Ht) as Ed.
  assert (line (session w) = d_line d) as El by by rewrite <- Ed.
  assert (player_name (session w) = d_name d) as En by by rewrite <- Ed.
  pose proof (valid_name_nonempty d Hd ltac:(congruence)) as Hne.
  unfold process_existing_password. apply wp_session. unfold allow_auth. rewrite El, En.
  apply wp_bind. eapply talk_policy; [apply allow_auth_ok; [apply Ht|done|done]|exact Ht|].
  intros [allowed retry] p1 Ea Ht1. cbv beta.
  apply wp_if; intros Hb; [talk_go; eapply lands_stay; eauto|]. apply negb_false_iff in Hb. subst allowed.
  apply wp_bind. eapply talk_store; [apply verify_runs|exact Ht1|].
  intros [verified rehashed] st Ev _ Ht2. cbn [store set_field set_policy] in Ev. clear Ht1.
  set (w2 := (w <| policy := p1 |>) <| store := st |>) in *. clearbody w2.
  apply wp_bind. eapply wp_mono; [eapply wipe_line_talk; exact Ht2|]. intros [] w3 Ht3. cbv beta in *.
  apply wp_if; intros Hv; breflect.
  - apply wp_bind. eapply talk_policy; [apply note_success_ok; [apply Ht3|done|done]|exact Ht3|].
    intros [] p2 _ Ht4. set (w4 := w3 <| policy := p2 |>) in *. clearbody w4.
    apply wp_bind. apply wp_mono with (Q := fun _ w' => talk w0 w' (d <| d_line := [] |>)); [talk_go; eassumption|].
    intros [] w5 Ht5. talk_step. talk_step. eapply wp_mono; [eapply enter_game_talk; [eassumption|exact (not_in_game d Hd ltac:(congruence))]|].
    intros [] w6 [app Ht6]. eexists. split; [exact Ht6|]. split.
    + destruct Hd. constructor; simpl in *; auto; try done; rewrite Hl in *; done.
    + apply edge_enter; [|done|done]. left. split; [done|]. subst verified. eauto 10.
  - apply wp_bind. eapply talk_policy; [apply note_failure_ok; [apply Ht3|done|done]|exact Ht3|].
    intros [] p2 _ Ht4. set (w4 := w3 <| policy := p2 |>) in *. clearbody w4.
    talk_step. talk_step. apply wp_bind.
    eapply talk_policy; [apply allow_auth_ok; [by eapply tk_policy|done|done]|eassumption|].
    intros [allowed retry2] p3 _ Ht6. cbv beta. talk_go; eapply lands_stay; eauto.
Qed.

(** Back to the name prompt. *)
Lemma lands_abandon now w0 w d w' d' :
  dialogue_ok d -> d_login d = LOGIN_NEW_PASSWORD \/ d_login d = LOGIN_CONFIRM_PASSWORD ->
  talk w0 w' d' -> d_login d' = LOGIN_NAME -> d_name d' = [] -> d_password d' = token_clear -> d_app d' = d_app d ->
  d_lines d' = d_lines d -> d_commands d' = d_commands d -> lands now w0 w d w'.
Proof.
  intros Hd Hl Ht H1 H2 H3 H4 H5 H6. exists d'. split; [done|]. split; [|by apply edge_abandon].
  destruct Hd. constructor; simpl; rewrite ?H1, ?H2, ?H3, ?H4, ?H5, ?H6 in *; auto; try done.
  intros Ha. specialize (ok_app0 Ha). destruct Hl; congruence.
Qed.

Lemma process_new_password_lands now w0 w d :
  talk w0 w d -> dialogue_ok d -> d_login d = LOGIN_NEW_PASSWORD ->
  wp process_new_password (fun _ w' => lands now w0 w d w') w.
Proof.
  intros Ht Hd Hl. pose proof (tk_dialogue _ _ _ Ht) as Ed.
  assert (line (session w) = d_line d) as El by by rewrite <- Ed.
  assert (player_name (session w) = d_name d) as En by by rewrite <- Ed.
  assert (pending_password (session w) = token_clear) as Ep.
  { pose proof (ok_password _ Hd) as Hp. rewrite Hl in Hp. rewrite <- Hp. by rewrite <- Ed. }
  unfold process_new_password. apply wp_session. rewrite El, En, Ep.
  talk_step; [talk_go; eapply lands_stay; eauto|].
  destruct (password_allowed_runs (Some (d_name d)) (Some (d_line d))) as [allowed Ea]. apply wp_bind. eapply wp_lift; [exact Ea|].
  apply wp_if; intros Hb; [talk_go; eapply lands_stay; eauto|].
  apply negb_false_iff, Z.eqb_eq in Hb. subst allowed. apply wp_bind. eapply talk_store; [apply prepare_spec|exact Ht|].
  intros [prepared token] st _ Hp Ht1. set (w1 := w <| store := st |>) in *. clearbody w1. cbv beta.
  apply wp_bind. eapply wp_mono; [apply (talk_upd w0 w1 d _ (fun d => d <| d_password := token |>));
    [done|reflexivity..|core_tac|core_tac]|]. intros [] w2 Ht2. cbv beta in *.
  cbn [fst snd] in Hp. destruct Hp as [(-> & h & Hh & Hok & _)|(-> & Htok)]; cbn [Z.eqb negb].
  - talk_go. eexists. split; [eassumption|]. split; [|by apply edge_chosen].
    destruct Hd. constructor; simpl in *; auto; try done; rewrite ?Hl in *; eauto.
    intros Ha. specialize (ok_app0 Ha). done.
  - assert (token = token_clear) as -> by (by destruct Htok).
    talk_go. eapply lands_abandon; eauto.
Qed.

Lemma process_confirmation_lands now w0 w d :
  talk w0 w d -> dialogue_ok d -> d_login d = LOGIN_CONFIRM_PASSWORD -> u64 now ->
  wp (process_password_confirmation now) (fun _ w' => lands now w0 w d w') w.
Proof.
  intros Ht Hd Hl Hnow. pose proof (tk_dialogue _ _ _ Ht) as Ed.
  assert (line (session w) = d_line d) as El by by rewrite <- Ed.
  assert (player_name (session w) = d_name d) as En by by rewrite <- Ed.
  assert (pending_password (session w) = d_password d) as Ep by by rewrite <- Ed.
  pose proof (valid_name_nonempty d Hd ltac:(congruence)) as Hne.
  unfold process_password_confirmation. apply wp_session. cbv zeta. rewrite El, En, Ep. apply wp_bind.
  eapply wp_mono; [apply (talk_upd_eq w0 w d _ (fun d => d <| d_line := [] |>)); [done|reflexivity..|core_tac|core_tac]|].
  intros [] w1 (Ht1 & Ep1 & Es1 & _). cbv beta in *.
  apply wp_if; intros Hm; breflect.
  { talk_go. eexists. split; [eassumption|]. split; [|by apply edge_retype].
    destruct Hd. constructor; simpl in *; auto; try done; rewrite ?Hl in *; auto. intros Ha. specialize (ok_app0 Ha). done. }
  apply wp_bind. eapply talk_policy; [apply allow_creation_ok; [apply Ht1|done]|exact Ht1|].
  intros [allowed retry] p2 Ea Ht2. rewrite Ep1 in Ea. cbv beta. apply wp_if; intros Hb; breflect.
  { talk_go. eapply lands_abandon; eauto. }
  subst allowed. apply wp_bind. eapply talk_store; [apply create_runs|exact Ht2|].
  intros created st Ec _ Ht3. cbn [store set_field set_policy] in Ec. rewrite Es1 in Ec. clear Ht1 Ht2.
  set (w3 := (w1 <| policy := p2 |>) <| store := st |>) in *. clearbody w3. talk_step. talk_step.
  apply wp_if; intros Hc; breflect.
  { talk_go. eapply lands_abandon; eauto. }
  subst created. talk_step. talk_step. apply wp_bind.
  eapply talk_policy; [apply note_success_ok; [by eapply tk_policy|done|done]|eassumption|].
  intros [] p4 _ Ht5. match type of Ht5 with talk _ ?w5 _ => set (w5' := w5) in *; clearbody w5' end.
  talk_step. talk_step. eapply wp_mono; [eapply enter_game_talk; [eassumption|exact (not_in_game d Hd ltac:(congruence))]|].
  intros [] w6 [app Ht6]. eexists. split; [exact Ht6|]. split.
  - destruct Hd. constructor; simpl in *; auto; try done; rewrite Hl in *; done.
  - apply edge_enter; [|done|done]. right. split; [done|]. split; [done|]. eauto 10.
Qed.

Lemma rate_consume_ok win amount limit ms now :
  0 <= amount -> 0 <= used win <= limit -> 0 <= used (fst (rate_consume win amount limit ms now)) <= limit.
Proof.
  intros Ha Hu. unfold rate_consume. match goal with |- context [if ?b then mk_rate ?n 0 else win] =>
    set (win' := if b then mk_rate n 0 else win) in * end.
  assert (0 <= used win' <= limit) by (subst win'; case_test; simpl; lia). clearbody win'.
  case_test; simpl; [done|]. breflect. lia.
Qed.

Lemma process_command_lands now w0 w d :
  talk w0 w d -> dialogue_ok d -> d_login d = LOGIN_IN_GAME ->
  wp (process_command now) (fun _ w' => lands now w0 w d w') w.
Proof.
  intros Ht Hd Hl. pose proof (tk_dialogue _ _ _ Ht) as Ed.
  assert (command_window (session w) = d_commands d) as Ec by by rewrite <- Ed.
  unfold process_command. apply wp_session. rewrite Ec.
  pose proof (rate_consume_ok (d_commands d) 1 COMMANDS_PER_WINDOW COMMANDS_WINDOW_MS now ltac:(lia) (ok_commands _ Hd)) as Hw.
  destruct (rate_consume _ _ _ _ _) as [window ok]. simpl in Hw. apply wp_bind.
  eapply wp_mono; [apply (talk_upd w0 w d _ (fun d => d <| d_commands := window |>)); [done|reflexivity..|core_tac|core_tac]|].
  intros [] w1 Ht1. cbv beta in *.
  apply wp_mono with (Q := fun _ w' => talk w0 w' (d <| d_commands := window |>)).
  { apply wp_if; intros Hb; [talk_go; eassumption|]. destruct (application_session _) eqn:Eh, (hook_line application) eqn:Eo; [|talk_go; eassumption..].
    assert (application_session (session w1) = Some n) as Eh1.
    { pose proof (tk_dialogue _ _ _ Ht1) as E1. rewrite <- Eh. apply (f_equal d_app) in Ed, E1. simpl in Ed, E1. congruence. }
    apply wp_bind. eapply wp_mono; [eapply talk_steady; [intros; by eapply line_call_good|eassumption]|].
    intros result w2 Ht2. talk_go; eassumption. }
  intros [] w2 Ht2. eexists. split; [exact Ht2|]. split; [|by apply edge_stay].
  destruct Hd. constructor; simpl in *; auto; unfold line_limit; case_test; done.
Qed.

Lemma login_edge_ext now w w1 d d' :
  policy w1 = policy w -> store w1 = store w -> remote_id (session w1) = remote_id (session w) ->
  login_edge now w1 d d' -> login_edge now w d d'.
Proof.
  intros E1 E2 E3. destruct 1 as [| | | | | |Ha]; try (rewrite E2 in *); eauto using login_edge.
  apply edge_enter; [|done|done]. unfold authenticated in *. by rewrite E1, E2, E3 in Ha.
Qed.

(** One complete step of the session: the invariant, the growth of the
    outputs, and at most one edge of the login automaton. *)
Record stepped (now : Z) (w w' : world) : Prop := mk_stepped {
  sp_ok : world_ok w';
  sp_evolves : evolves w w';
  sp_edge : login_edge now w (dialogue_of (session w)) (dialogue_of (session w'));
  sp_pview : pview (session w') = pview (session w)
}.

Lemma stepped_talk now w w' d :
  world_ok w -> talk w w' d -> dialogue_ok d -> login_edge now w (dialogue_of (session w)) d -> stepped now w w'.
Proof.
  intros Hw Ht Hd He. pose proof (talk_finish _ _ _ Hw Ht Hd). destruct Ht. split; auto. by rewrite tk_dialogue0.
Qed.

Lemma stepped_refl now w : world_ok w -> stepped now w w.
Proof. intros Hw. split; [done|apply evolves_refl|by apply edge_stay|done]. Qed.

(** Steady functions are steps. *)
Lemma stepped_good {A} now w (m : M world A) :
  (forall w1, good true w w1 -> wp m (fun _ => good true w) w1) -> world_ok w -> wp m (fun _ w' => stepped now w w') w.
Proof.
  intros Hm Hw. eapply wp_mono; [apply (talk_steady w w (dialogue_of (session w)) m Hm); by apply talk_start|].
  intros a w' Ht. cbv beta in Ht. eapply stepped_talk; [done|exact Ht|apply Hw|by apply edge_stay].
Qed.

Lemma reset_ok d : dialogue_ok d -> dialogue_ok (d <| d_line := [] |> <| d_overflow := false |>).
Proof. intros []. constructor; simpl; auto. unfold line_limit. by case_test. Qed.

Lemma process_complete_line_stepped now w :
  world_ok w -> u64 now -> wp (process_complete_line now) (fun _ w' => stepped now w w') w.
Proof.
  intros Hw Hnow. unfold process_complete_line. apply wp_session. pose proof (talk_start w Hw) as Ht.
  set (d := dialogue_of (session w)) in *. pose proof (wo_dialogue w Hw) as Hd. fold d in Hd.
  change (line_window (session w)) with (d_lines d). change (line_overflow (session w)) with (d_overflow d).
  change (login (session w)) with (d_login d). change (line (session w)) with (d_line d).
  change (application_session (session w)) with (d_app d).
  pose proof (rate_consume_ok (d_lines d) 1 INPUT_LINES_PER_WINDOW INPUT_LINES_WINDOW_MS now ltac:(lia) (ok_lines _ Hd)) as Hwin.
  destruct (rate_consume _ _ _ _ _) as [window ok]. simpl in Hwin. apply wp_bind.
  eapply wp_mono; [apply (talk_upd_eq w w d _ (fun d => d <| d_lines := window |>)); [done|reflexivity..|core_tac|core_tac]|].
  intros [] w1 (Ht1 & Ep & Es & Er). cbv beta in *. set (d1 := d <| d_lines := window |>) in *.
  assert (dialogue_ok d1) as Hd1 by (destruct Hd; by constructor).
  assert (forall d2, login_edge now w1 d1 d2 -> login_edge now w d d2) as Hedge.
  { intros d2 He. eapply login_edge_ext in He; eauto. by destruct He; eauto using login_edge. }
  apply wp_if; intros Hb.
  { talk_go. eapply stepped_talk; [done|eassumption| |by apply edge_stay].
    destruct Hd1. constructor; simpl; auto. unfold line_limit. by case_test. }
  apply wp_if; intros Hov.
  - apply wp_bind. eapply wp_mono; [eapply reset_line_talk; exact Ht1|]. intros [] w2 Ht2. cbv beta in *.
    pose proof (reset_ok _ Hd1) as Hd2.
    apply wp_if; intros Hpw.
    + talk_step. talk_step. destruct (d_login d) eqn:Hl; try done.
      * talk_go. eapply stepped_talk; [done|eassumption|done|by apply edge_stay].
      * talk_go. eapply stepped_talk; [done|eassumption| |by apply edge_stay].
        destruct Hd2. constructor; simpl in *; auto; rewrite ?Hl in *; auto.
      * talk_go. eapply stepped_talk; [done|eassumption| |by apply edge_retype].
        destruct Hd2. constructor; simpl in *; auto; rewrite ?Hl in *; auto. intros Ha. by specialize (ok_app0 Ha).
    + destruct (d_app d); talk_go; (eapply stepped_talk; [done|eassumption|done|by apply edge_stay]).
  - apply wp_bind. eapply wp_lift.
    { destruct (Z.ltb_spec (Zlen (d_line d)) LINE_SIZE) as [_|Hlen]; [done|]. pose proof (ok_line_length _ Hd) as Hll.
      unfold line_limit, LINE_SIZE, PLAYER_PASSWORD_MAX, APPLICATION_LINE_MAX in *. destruct (password_state _); lia. }
    apply wp_bind. apply wp_mono with (Q := fun _ w' => lands now w w1 d1 w').
    { destruct (d_login d) eqn:Hl.
      - by apply process_player_name_lands.
      - by apply process_existing_password_lands.
      - by apply process_new_password_lands.
      - by apply process_confirmation_lands.
      - by apply process_command_lands. }
    intros [] w2 (d2 & Ht2 & Hd2 & He). eapply wp_mono; [eapply reset_line_talk; exact Ht2|]. intros [] w3 Ht3. cbv beta in *.
    eapply stepped_talk; [done|exact Ht3|done|]. apply Hedge in He. by destruct He; eauto using login_edge.
Qed.
End login.
