(* ===== verification/TelnetTheorems.v ===== *)
(** The session's main theorems: no input faults it or breaks its invariant,
    whatever the application does; a session enters the game only by
    authentication; the parser undoes the framing of subnegotiations. *)
From S2P Require Import Prelude TelnetNegotiation TerminalText AsciiText SecurityPolicy RecordTable PolicyInvariant.
From S2P Require Import PolicyTheorems PlayerStore PlayerStoreTheorems PlayerRecords PlayerAccounts Application.
From S2P Require Import TelnetSession TelnetOptions TelnetLogin TelnetSubnegotiation TelnetParser TelnetOutput.
From S2P Require Import TelnetInvariant TelnetCapabilities TelnetDialogue.

Section parser.
Context {E : Environment} {PL : PwhashLaws env_pwhash} {ML : MkstempLaws env_mkstemp}.

(** A step of the parser: like [stepped], but the parser's own fields move. *)
Record moved (now : Z) (w w' : world) : Prop := mk_moved {
  mv_ok : world_ok w';
  mv_evolves : evolves w w';
  mv_edge : login_edge now w (dialogue_of (session w)) (dialogue_of (session w'));
  mv_remote : remote_id (session w') = remote_id (session w)
}.

Lemma stepped_moved now w w' : stepped now w w' -> moved now w w'.
Proof. intros []. split; auto. unfold pview in *. congruence. Qed.

(** A store to parser fields, before or after a step. *)
Definition parser_store (f : telnet_session -> telnet_session) (w : world) : Prop :=
  dialogue_of (f (session w)) = dialogue_of (session w) /\ close_requested (f (session w)) = close_requested (session w) /\
  remote_id (f (session w)) = remote_id (session w) /\ (core_session (session w) -> core_session (f (session w))) /\
  (cached (session w) -> cached (f (session w))) /\ (parser_ok (session w) -> parser_ok (f (session w))).

Ltac parser_store_tac :=
  unfold parser_store; split_and!; [reflexivity..|core_tac|core_tac|let H := fresh in intros H; destruct H; constructor; simpl; auto].

Lemma parser_store_ok f w : parser_store f w -> world_ok w -> world_ok (w <| session := f (session w) |>).
Proof.
  intros (H1 & H2 & H3 & H4 & H5 & H6) []. constructor; simpl; auto. by rewrite H1.
Qed.

Lemma evolves_session w f : close_requested (f (session w)) = close_requested (session w) ->
  application_session (f (session w)) = application_session (session w) -> evolves w (w <| session := f (session w) |>).
Proof. intros H Ha. split; simpl; auto; [by rewrite H|]. unfold app_view. simpl. by rewrite Ha. Qed.

Lemma dialogue_handle (s s' : telnet_session) : dialogue_of s' = dialogue_of s -> application_session s' = application_session s.
Proof. intros H. by apply (f_equal d_app) in H. Qed.

Lemma moved_before now f w w' : parser_store f w -> moved now (w <| session := f (session w) |>) w' -> moved now w w'.
Proof.
  intros (H1 & H2 & H3 & _) []. split; auto; simpl in *.
  - eapply evolves_trans; [apply evolves_session; [done|by apply dialogue_handle]|exact mv_evolves0].
  - rewrite <- H1. eapply login_edge_ext; [| | |exact mv_edge0]; done.
  - congruence.
Qed.

Lemma moved_after now f w w' : parser_store f w' -> moved now w w' -> moved now w (w' <| session := f (session w') |>).
Proof.
  intros Hf []. pose proof Hf as (H1 & H2 & H3 & _). split; simpl.
  - by apply parser_store_ok.
  - eapply evolves_trans; [exact mv_evolves0|apply evolves_session; [done|by apply dialogue_handle]].
  - by rewrite H1.
  - congruence.
Qed.

Lemma wp_before {A} now f w (m : M world A) :
  parser_store f w -> wp m (fun _ w' => moved now (w <| session := f (session w) |>) w') (w <| session := f (session w) |>) ->
  wp (upd f ;; m) (fun _ w' => moved now w w') w.
Proof. intros Hf Hm. apply wp_bind, wp_upd. eapply wp_mono; [exact Hm|]. intros a w' H. by eapply moved_before. Qed.

Lemma wp_after {A} now f w (m : M world A) :
  (forall w', parser_store f w') -> wp m (fun _ w' => moved now w w') w ->
  wp (m ;; upd f) (fun _ w' => moved now w w') w.
Proof. intros Hf Hm. apply wp_bind. eapply wp_mono; [exact Hm|]. intros a w' H. apply wp_upd. by apply moved_after. Qed.

Lemma moved_refl now w : world_ok w -> moved now w w.
Proof. intros. by apply stepped_moved, stepped_refl. Qed.

Lemma upd_moved now f w : parser_store f w -> world_ok w -> wp (upd f) (fun _ w' => moved now w w') w.
Proof. intros Hf Hw. apply wp_upd. apply moved_after; [done|]. by apply moved_refl. Qed.

(** ** Data bytes *)

Lemma append_line_byte_stepped now b w :
  is_byte b -> world_ok w -> wp (append_line_byte b) (fun _ w' => stepped now w w') w.
Proof.
  intros Hb Hw. unfold append_line_byte. apply wp_session. pose proof (talk_start w Hw) as Ht.
  pose proof (wo_dialogue w Hw) as Hd.
  assert (forall l ov, Forall line_byte l -> Zlen l <= line_limit (login (session w)) ->
    dialogue_ok ((dialogue_of (session w)) <| d_line := l |> <| d_overflow := ov |>)) as Hline
    by (intros l ov Hl1 Hl2; destruct Hd; by constructor).
  apply wp_if; intros Hdel.
  { eapply wp_mono; [apply (talk_upd w w (dialogue_of (session w)) _ (fun d => d <| d_line := removelast (d_line d) |>));
      [exact Ht|reflexivity..|core_tac|core_tac]|]. intros [] w' Ht'. cbv beta in *.
    eapply stepped_talk; [done|exact Ht'| |by apply edge_stay]. destruct Hd.
    constructor; simpl in *; auto with bytes. pose proof (removelast_length_le (line (session w))). lia. }
  apply wp_if; intros Hctl; [apply wp_ret; by apply stepped_refl|]. cbv zeta. breflect.
  change (if password_state (login (session w)) then PLAYER_PASSWORD_MAX else APPLICATION_LINE_MAX)
    with (line_limit (login (session w))).
  apply wp_if; intros Hlim; breflect.
  - eapply wp_mono; [apply (talk_upd w w (dialogue_of (session w)) _ (fun d => d <| d_overflow := true |>)); [exact Ht|reflexivity..|core_tac|core_tac]|].
    intros [] w' Ht'. cbv beta in *. eapply stepped_talk; [done|exact Ht'| |by apply edge_stay]. destruct Hd. by constructor.
  - assert (line_limit (login (session w)) < LINE_SIZE) as Hsize by (unfold line_limit; by case_test).
    apply wp_bind. eapply wp_lift; [apply push_Some; lia|].
    eapply wp_mono; [apply (talk_upd w w (dialogue_of (session w)) _ (fun d => d <| d_line := d_line d ++ [b] |>)); [exact Ht|reflexivity..|core_tac|core_tac]|].
    intros [] w' Ht'. cbv beta in *. eapply stepped_talk; [done|exact Ht'| |by apply edge_stay].
    apply (Hline (line (session w) ++ [b]) (line_overflow (session w))).
    + apply Forall_snoc; [apply Hd|]. unfold line_byte, is_byte in *. lia.
    + rewrite Zlen_snoc. lia.
Qed.

(** Carriage returns never reach the line. *)
Lemma append_cr w : append_line_byte CR w = Some (tt, w).
Proof. done. Qed.

Lemma receive_data_byte_moved now b w :
  is_byte b -> u64 now -> world_ok w -> wp (receive_data_byte b now) (fun _ w' => moved now w w') w.
Proof.
  intros Hb Hnow Hw. unfold receive_data_byte. apply wp_session, wp_bind.
  set (more := fun (m : bool) => if negb m then mret tt
    else if b =? CR then upd (fun s => s <| pending_cr := true |>)
    else if b =? LF then process_complete_line now
    else if b =? 0 then mret tt
    else append_line_byte b).
  assert (forall w1, world_ok w1 -> wp (more true) (fun _ w' => moved now w1 w') w1) as Hmore.
  { intros w1 Hw1. unfold more. simpl.
    apply wp_if; intros _; [apply upd_moved; [parser_store_tac|done]|].
    apply wp_if; intros _; [eapply wp_mono; [by apply process_complete_line_stepped|]; intros; by apply stepped_moved|].
    apply wp_if; intros _; [by apply wp_ret, moved_refl|].
    eapply wp_mono; [by apply (append_line_byte_stepped now)|]. intros; by apply stepped_moved. }
  apply wp_if; intros Hcr; [|by apply wp_ret, Hmore].
  apply wp_bind, wp_upd. set (f := fun s => s <| pending_cr := false |>).
  assert (parser_store f w) as Hf by parser_store_tac. pose proof (parser_store_ok _ _ Hf Hw) as Hw1.
  set (w1 := w <| session := f (session w) |>) in *.
  apply wp_if; intros Hlf.
  { apply wp_bind. eapply wp_mono; [by apply process_complete_line_stepped|]. intros [] w2 H2.
    apply wp_ret, wp_ret. eapply moved_before; [exact Hf|]. by apply stepped_moved. }
  apply wp_if; intros Hz.
  { apply wp_bind. unfold wp at 1. rewrite append_cr. apply wp_ret, wp_ret.
    eapply moved_before; [exact Hf|]. by apply moved_refl. }
  apply wp_bind. unfold wp at 1. rewrite append_cr. apply wp_session, wp_ret.
  change (wp (more (negb (close_requested (session w1)))) (fun _ w' => moved now w w') w1).
  destruct (close_requested (session w1)); cbn [negb].
  - apply wp_ret. eapply moved_before; [exact Hf|]. by apply moved_refl.
  - eapply wp_mono; [by apply Hmore|]. intros [] w2 H2. by eapply moved_before.
Qed.

(** ** Control commands and subnegotiations *)

Lemma clear_input_moved now w : world_ok w -> wp clear_current_input (fun _ w' => moved now w w') w.
Proof.
  intros Hw. apply wp_upd. destruct Hw as [H1 H2 H3 H4 H5 H6]. split; simpl.
  - split; simpl; auto; [by destruct H1; constructor|by destruct H3; constructor| |by destruct H5; constructor].
    apply (reset_ok (dialogue_of (session w)) H4).
  - split; simpl; auto. reflexivity.
  - by apply edge_stay.
  - done.
Qed.

Lemma moved_then now w w1 w2 :
  moved now w w1 -> stepped now w1 w2 ->
  d_login (dialogue_of (session w1)) = d_login (dialogue_of (session w)) ->
  d_name (dialogue_of (session w1)) = d_name (dialogue_of (session w)) ->
  d_login (dialogue_of (session w2)) = d_login (dialogue_of (session w1)) \/
    d_login (dialogue_of (session w1)) = LOGIN_CONFIRM_PASSWORD /\ d_login (dialogue_of (session w2)) = LOGIN_NEW_PASSWORD ->
  d_name (dialogue_of (session w2)) = d_name (dialogue_of (session w1)) ->
  moved now w w2.
Proof.
  intros [] [] E1 E2 E3 E4. split; auto.
  - by eapply evolves_trans.
  - destruct E3 as [E3|[E3 E3']]; [apply edge_stay; congruence|apply edge_retype; congruence].
  - unfold pview in *. congruence.
Qed.

Lemma write_current_prompt_good c w0 w : good c w0 w -> wp write_current_prompt (fun _ => good c w0) w.
Proof. intros Hg. unfold write_current_prompt. apply wp_session. destruct (login (session w)); tel. Qed.
#[local] Hint Resolve write_current_prompt_good : session.

Lemma interrupt_moved now w : world_ok w -> wp interrupt_current_input (fun _ w' => moved now w w') w.
Proof.
  intros Hw. unfold interrupt_current_input, clear_current_input. apply wp_bind, wp_upd.
  set (f := fun s => s <| line := [] |> <| line_overflow := false |> <| pending_cr := false |>).
  pose proof (clear_input_moved now w Hw) as H1. unfold clear_current_input, wp, upd, modify in H1. fold f in H1.
  set (w1 := w <| session := f (session w) |>) in *. apply wp_session.
  pose proof (talk_start w1 (mv_ok _ _ _ H1)) as Ht. pose proof (wo_dialogue w1 (mv_ok _ _ _ H1)) as Hd.
  apply wp_bind. apply wp_mono with (Q := fun _ w2 => exists d2, talk w1 w2 d2 /\ dialogue_ok d2 /\
    d_name d2 = d_name (dialogue_of (session w1)) /\
    (d_login d2 = d_login (dialogue_of (session w1)) \/
     d_login (dialogue_of (session w1)) = LOGIN_CONFIRM_PASSWORD /\ d_login d2 = LOGIN_NEW_PASSWORD)).
  { apply wp_when; intros Hb; [|eexists; split; [exact Ht|auto]].
    apply bool_decide_eq_true in Hb.
    assert (d_login (dialogue_of (session w1)) = LOGIN_CONFIRM_PASSWORD) as Hb' by exact Hb. clear Hb. rename Hb' into Hb.
    apply wp_bind. eapply wp_mono; [eapply clear_password_talk; exact Ht|]. intros [] w2 Ht2. cbv beta in *.
    eapply wp_mono; [eapply set_login_talk; exact Ht2|]. intros [] w3 Ht3. cbv beta in *. eexists. split; [exact Ht3|].
    split; [|auto]. pose proof (ok_name _ Hd) as Hname. rewrite Hb in Hname. constructor.
    - apply Hd.
    - done.
    - exact Hname.
    - done.
    - intros Ha. pose proof (ok_app _ Hd Ha). congruence.
    - apply Hd.
    - apply Hd. }
  intros [] w2 (d2 & Ht2 & Hd2 & En & El).
  apply wp_mono with (Q := fun _ w3 => talk w1 w3 d2).
  { apply wp_bind. eapply wp_mono; [eapply talk_steady; [intros; solve [eauto with session]|exact Ht2]|]. intros [] w3 Ht3.
    eapply talk_steady; [intros; solve [eauto with session]|exact Ht3]. }
  intros [] w3 Ht3. pose proof (tk_dialogue _ _ _ Ht3) as Ed.
  eapply moved_then; [exact H1| |done|done|by rewrite Ed|by rewrite Ed].
  eapply stepped_talk; [apply H1|exact Ht3|done|]. destruct El as [El|[El El']]; [by apply edge_stay|by apply edge_retype].
Qed.

Lemma handle_control_moved now c w : world_ok w -> wp (handle_control_command c) (fun _ w' => moved now w w') w.
Proof.
  intros Hw. unfold handle_control_command.
  assert (forall m : M world unit, (forall w1, good true w w1 -> wp m (fun _ => good true w) w1) ->
    wp m (fun _ w' => moved now w w') w) as Hsteady.
  { intros m Hm. eapply wp_mono; [by apply (stepped_good now)|]. intros; by apply stepped_moved. }
  apply wp_if; intros _; [apply Hsteady; intros w1 Hg; tel|].
  apply wp_if; intros _; [by apply interrupt_moved|].
  apply wp_if; intros _.
  { eapply wp_mono; [apply (append_line_byte_stepped now 8 w); [done|done]|]. intros; by apply stepped_moved. }
  apply wp_if; intros _; [by apply clear_input_moved|].
  apply wp_if; intros _; [apply Hsteady; intros w1 Hg; tel|]. by apply wp_ret, moved_refl.
Qed.

Lemma finish_subnegotiation_moved now w : world_ok w -> wp finish_subnegotiation (fun _ w' => moved now w w') w.
Proof.
  intros Hw. unfold finish_subnegotiation. apply wp_session. cbv zeta.
  apply wp_after; [intros w'; parser_store_tac; simpl; lia|].
  eapply wp_mono; [apply (stepped_good now w); [|done]|intros; by apply stepped_moved].
  intros w1 Hg. assert (Forall is_byte (subnegotiation (session w1))) as Hb.
  { pose proof (st_frame _ _ (gd_steady _ _ _ Hg)) as Hf. unfold frame in Hf.
    replace (subnegotiation (session w1)) with (subnegotiation (session w)) by congruence. apply Hw. }
  apply wp_if; intros _; [by apply handle_naws_good|]. tel.
Qed.

(** ** One byte *)

Lemma steady_moved {A} now w (m : M world A) :
  (forall w1, good true w w1 -> wp m (fun _ => good true w) w1) -> world_ok w -> wp m (fun _ w' => moved now w w') w.
Proof. intros Hm Hw. eapply wp_mono; [by apply (stepped_good now)|]. intros; by apply stepped_moved. Qed.

Lemma subnegotiation_append_moved now b w :
  is_byte b -> world_ok w -> wp (subnegotiation_append b) (fun _ w' => moved now w w') w.
Proof.
  intros Hb Hw. unfold subnegotiation_append. apply wp_session. apply wp_if; intros Hl.
  { apply wp_bind. eapply wp_mono; [apply (steady_moved now w); [intros; solve [eauto with session]|done]|]. intros [] w' H. by apply wp_ret. }
  breflect. apply wp_bind. eapply wp_lift; [by apply push_Some|]. apply wp_bind.
  eapply wp_mono; [apply (upd_moved now); [|done]|intros [] w' H; by apply wp_ret].
  parser_store_tac.
  - rewrite Zlen_snoc. lia.
  - apply Forall_snoc; [apply Hw|done].
Qed.

Lemma set_parser_store p w : parser_store (fun s => s <| parser := p |>) w.
Proof. parser_store_tac. Qed.

Lemma parse_byte_moved now b w :
  is_byte b -> u64 now -> world_ok w -> wp (parse_byte now b) (fun _ w' => moved now w w') w.
Proof.
  intros Hb Hnow Hw. unfold parse_byte, set_parser_state. apply wp_session. destruct (parser (session w)).
  - apply wp_if; intros _; [by apply upd_moved; [apply set_parser_store|]|by apply receive_data_byte_moved].
  - apply wp_if; intros _; [apply wp_after; [intros; apply set_parser_store|by apply receive_data_byte_moved]|].
    apply wp_if; intros _; [apply upd_moved; [parser_store_tac|done]|].
    apply wp_if; intros _; [by apply upd_moved; [apply set_parser_store|]|].
    apply wp_after; [intros; apply set_parser_store|by apply handle_control_moved].
  - apply wp_after; [intros; apply set_parser_store|]. apply (steady_moved now w); [|done]. intros w1 Hg. by apply receive_option_good.
  - apply upd_moved; [|done]. parser_store_tac. simpl. lia.
  - apply wp_if; intros _; [by apply upd_moved; [apply set_parser_store|]|]. apply wp_bind.
    eapply wp_mono; [by apply (subnegotiation_append_moved now)|]. intros ok w1 H. by apply wp_ret.
  - apply wp_if; intros _; [apply wp_after; [intros; apply set_parser_store|by apply finish_subnegotiation_moved]|].
    apply wp_if; intros _.
    + apply wp_bind. eapply wp_mono; [by apply (subnegotiation_append_moved now)|]. intros ok w1 H.
      apply wp_when; intros _; [|done]. apply wp_upd, moved_after; [apply set_parser_store|done].
    + apply wp_after; [intros; apply set_parser_store|]. apply (steady_moved now w); [|done]. intros w1 Hg. tel.
Qed.

(** ** Many bytes *)

(** The game is never left, and the player's name is fixed in it. *)
Lemma game_absorbing now w d d' :
  login_edge now w d d' -> d_login d = LOGIN_IN_GAME -> d_login d' = LOGIN_IN_GAME /\ d_name d' = d_name d.
Proof.
  intros He Hl. destruct He as [H1 H2| | | | | |Ha]; try congruence; [split; congruence| |].
  - destruct H; congruence.
  - destruct Ha as [[Ha _]|[Ha _]]; congruence.
Qed.

(** The byte at which a run of the parser enters the game, if it does. *)
Definition enters (now : Z) (data : list Z) (w w' : world) : Prop :=
  login (session w) <> LOGIN_IN_GAME -> login (session w') = LOGIN_IN_GAME ->
  exists before byte after wi wj, data = before ++ byte :: after /\
    parse_bytes now before w = Some (tt, wi) /\ login (session wi) <> LOGIN_IN_GAME /\
    parse_byte now byte wi = Some (tt, wj) /\ login (session wj) = LOGIN_IN_GAME /\
    authenticated now wi (dialogue_of (session wi)) /\ player_name (session wi) = player_name (session w').

Record fed (now : Z) (data : list Z) (w w' : world) : Prop := mk_fed {
  fd_ok : world_ok w';
  fd_evolves : evolves w w';
  fd_remote : remote_id (session w') = remote_id (session w);
  fd_game : login (session w) = LOGIN_IN_GAME ->
            login (session w') = LOGIN_IN_GAME /\ player_name (session w') = player_name (session w);
  fd_enters : enters now data w w'
}.

Lemma parse_bytes_fed now data w :
  Forall is_byte data -> u64 now -> world_ok w -> wp (parse_bytes now data) (fun _ w' => fed now data w w') w.
Proof.
  intros Hdata Hnow. revert w. induction Hdata as [|b data Hb Hdata IH]; intros w Hw; simpl.
  { apply wp_ret. split; auto using evolves_refl. by intros ??. }
  apply wp_session. apply wp_if; intros Hc.
  { apply wp_ret. split; auto using evolves_refl. by intros ??. }
  apply wp_bind. destruct (wp_run _ _ _ (parse_byte_moved now b w Hb Hnow Hw)) as ([] & w1 & E1 & [Hok1 Hev1 Hed1 Hre1]).
  unfold wp at 1. rewrite E1. eapply wp_mono; [by apply IH|]. intros [] w2 [Hok2 Hev2 Hre2 Hg2 Hen2]. split.
  - done.
  - by eapply evolves_trans.
  - congruence.
  - intros Hl. destruct (game_absorbing _ _ _ _ Hed1 Hl) as [Hl1 Hn1]. destruct (Hg2 Hl1) as [Hl2 Hn2].
    split; [done|]. rewrite Hn2. exact Hn1.
  - intros Hl Hl2. destruct (decide (login (session w1) = LOGIN_IN_GAME)) as [Hl1|Hl1].
    + exists [], b, data, w, w1. split_and!; try done.
      * simpl in Hed1. destruct Hed1; simpl in *; congruence.
      * destruct (Hg2 Hl1) as [_ ->]. destruct Hed1; simpl in *; congruence.
    + destruct (Hen2 Hl1 Hl2) as (bf & by_ & af & wi & wj & -> & Eb & Hrest). exists (b :: bf), by_, af, wi, wj.
      split; [done|]. split; [|exact Hrest]. simpl. unfold mbind, M_bind, get_session, gets. by rewrite Hc, E1.
Qed.
End parser.
