(* ===== verification/TelnetStream.v ===== *)
(** Streams against the parser: what a session sends is what its peer
    receives.  The parser undoes the framing of subnegotiations and of GMCP
    messages, and collects a typed line exactly. *)
From S2P Require Import Prelude TelnetNegotiation TerminalText AsciiText SecurityPolicy PlayerStore Application.
From S2P Require Import TelnetSession TelnetOptions TelnetLogin TelnetSubnegotiation TelnetParser TelnetOutput.
From S2P Require Import TelnetInvariant TelnetCapabilities TelnetDialogue TelnetTheorems.

Section stream.
Context {E : Environment}.

(** One unread byte of an open session. *)
Lemma parse_bytes_cons now b data w :
  close_requested (session w) = false ->
  parse_bytes now (b :: data) w = (parse_byte now b ;; parse_bytes now data) w.
Proof. intros Hc. simpl. unfold mbind, M_bind, get_session, gets. by rewrite Hc. Qed.

Lemma parse_bytes_closed now data w : close_requested (session w) = true -> parse_bytes now data w = Some (tt, w).
Proof. intros Hc. destruct data; [done|]. simpl. unfold mbind, M_bind, get_session, gets. by rewrite Hc. Qed.

Lemma parse_bytes_app now a b w : parse_bytes now (a ++ b) w = (parse_bytes now a ;; parse_bytes now b) w.
Proof.
  revert w. induction a as [|x a IH]; intros w; [done|].
  destruct (close_requested (session w)) eqn:Hc.
  - unfold mbind, M_bind. by rewrite !parse_bytes_closed.
  - simpl app. unfold mbind, M_bind. rewrite !parse_bytes_cons by done. unfold mbind, M_bind.
    destruct (parse_byte now x w) as [[[] w1]|]; [|done]. rewrite IH. done.
Qed.

(** A byte that only moves the parser. *)
Lemma parse_step now b data f w :
  close_requested (session w) = false -> parse_byte now b w = Some (tt, w <| session := f (session w) |>) ->
  parse_bytes now (b :: data) w = parse_bytes now data (w <| session := f (session w) |>).
Proof. intros Hc Hb. rewrite parse_bytes_cons by done. unfold mbind, M_bind. by rewrite Hb. Qed.

(** ** Subnegotiations *)

Definition collecting (option : Z) (payload : list Z) (p : parser_state) (w : world) : world :=
  w <| session := (session w) <| subnegotiation_option := option |> <| subnegotiation := payload |> <| parser := p |> |>.

Lemma parse_payload_byte now option got b rest w :
  close_requested (session w) = false -> Zlen got < SUBNEGOTIATION_MAX_BYTES ->
  parse_bytes now (quote_iac [b] ++ rest) (collecting option got PARSER_SB_DATA w) =
  parse_bytes now rest (collecting option (got ++ [b]) PARSER_SB_DATA w).
Proof.
  intros Hc Hl. assert (subnegotiation_append b (collecting option got PARSER_SB_DATA w) =
    Some (true, collecting option (got ++ [b]) PARSER_SB_DATA w)) as Happ.
  { unfold subnegotiation_append, mbind, M_bind, get_session, gets, lift_opt. simpl.
    destruct (Z.geb_spec (Zlen got) SUBNEGOTIATION_MAX_BYTES); [lia|]. by rewrite push_Some. }
  assert (quote_iac [b] ++ rest = if b =? TELNET_IAC then TELNET_IAC :: TELNET_IAC :: rest else b :: rest) as ->
    by (unfold quote_iac; simpl; by case_test).
  destruct (Z.eqb_spec b TELNET_IAC) as [->|Hb].
  - rewrite (parse_step now TELNET_IAC _ (fun s => s <| parser := PARSER_SB_IAC |>)) by done.
    rewrite parse_bytes_cons by done. unfold parse_byte, mbind, M_bind, get_session, gets. simpl.
    unfold subnegotiation_append, mbind, M_bind, get_session, gets, lift_opt. simpl.
    destruct (Z.geb_spec (Zlen got) SUBNEGOTIATION_MAX_BYTES); [lia|]. by rewrite push_Some.
  - rewrite parse_bytes_cons by done. unfold parse_byte at 1. unfold mbind, M_bind, get_session, gets. simpl.
    destruct (Z.eqb_spec b TELNET_IAC); [done|]. by rewrite Happ.
Qed.

Lemma parse_payload now option payload got rest w :
  close_requested (session w) = false -> Zlen got + Zlen payload <= SUBNEGOTIATION_MAX_BYTES ->
  parse_bytes now (quote_iac payload ++ rest) (collecting option got PARSER_SB_DATA w) =
  parse_bytes now rest (collecting option (got ++ payload) PARSER_SB_DATA w).
Proof.
  intros Hc. revert got. induction payload as [|b payload IH]; intros got Hl; [by rewrite app_nil_r|].
  change (b :: payload) with ([b] ++ payload) in *. unfold quote_iac. rewrite flat_map_app, <- (assoc_L (++)).
  fold (quote_iac [b]) (quote_iac payload). rewrite length_app in Hl. simpl length in Hl.
  rewrite parse_payload_byte by (done || lia). rewrite IH by (rewrite length_app; simpl; lia).
  by rewrite <- (assoc_L (++)).
Qed.

(** The bytes of a whole subnegotiation. *)
Definition subnegotiation_bytes (option : Z) (payload : list Z) : list Z :=
  [TELNET_IAC; TELNET_SB; option] ++ quote_iac payload ++ [TELNET_IAC; TELNET_SE].

Lemma parse_subnegotiation now option payload rest w :
  parser (session w) = PARSER_DATA -> close_requested (session w) = false ->
  Zlen payload <= SUBNEGOTIATION_MAX_BYTES ->
  parse_bytes now (subnegotiation_bytes option payload ++ rest) w =
  (finish_subnegotiation ;; set_parser_state PARSER_DATA ;; parse_bytes now rest) (collecting option payload PARSER_SB_IAC w).
Proof.
  intros Hp Hc Hl. unfold subnegotiation_bytes. rewrite <- !(assoc_L (++)). simpl app.
  rewrite (parse_step now TELNET_IAC _ (fun s => s <| parser := PARSER_IAC |>)); [|done|].
  2: { unfold parse_byte, mbind, M_bind, get_session, gets. by rewrite Hp. }
  rewrite (parse_step now TELNET_SB _ (fun s => s <| parser := PARSER_SB_OPTION |>)); [|done|done].
  rewrite (parse_step now option _ (fun s => s <| subnegotiation_option := option |> <| subnegotiation := [] |>
    <| parser := PARSER_SB_DATA |>)); [|done|done].
  change (parse_bytes now (quote_iac payload ++ [TELNET_IAC; TELNET_SE] ++ rest) (collecting option [] PARSER_SB_DATA w) =
    (finish_subnegotiation ;; set_parser_state PARSER_DATA ;; parse_bytes now rest) (collecting option payload PARSER_SB_IAC w)).
  rewrite (parse_payload now option payload []) by done. simpl app.
  rewrite (parse_step now TELNET_IAC _ (fun s => s <| parser := PARSER_SB_IAC |>)); [|done|done].
  rewrite parse_bytes_cons by done. unfold parse_byte at 1. unfold mbind, M_bind, get_session, gets. simpl.
  by destruct (finish_subnegotiation _) as [[[] w1]|].
Qed.
End stream.

(** ** What the sender emits *)

Lemma send_subnegotiation_sent {E : Environment} option payload w :
  close_requested (session w) = false ->
  exists w', send_subnegotiation option payload w = Some (tt, w') /\ session w' = session w /\
    sent w' = sent w ++ subnegotiation_bytes option payload.
Proof.
  intros Hc. destruct (send_subnegotiation_run option payload w) as (cs & -> & Hcs). eexists. split; [done|].
  split; [apply emits_session|]. unfold emits, sent. rewrite Hc. simpl. by rewrite concat_app, concat_filter_nonempty, Hcs.
Qed.

(** ** GMCP messages *)

Lemma gmcp_split_spec package name rest :
  Forall (fun b => b <> 32) name -> Zlen package + Zlen name <= GMCP_PACKAGE_MAX_BYTES ->
  gmcp_split package (name ++ rest) =
    match rest with [] => Some (Some (package ++ name, None)) | _ => gmcp_split (package ++ name) rest end.
Proof.
  intros Hname. revert package. induction Hname as [|b name Hb Hname IH]; intros package Hl.
  - rewrite app_nil_r. destruct rest; [|done]. simpl. rewrite local_str_Some by (simpl in Hl; lia). done.
  - simpl app. cbn [gmcp_split]. destruct (Z.eqb_spec b 32); [done|]. simpl length in Hl.
    destruct (Z.geb_spec (Zlen package) GMCP_PACKAGE_MAX_BYTES); [lia|].
    rewrite push_Some by lia. cbn [mbind option_bind].
    rewrite IH by (rewrite length_app; simpl; lia). by rewrite <- (assoc_L (++)).
Qed.

Lemma gmcp_valid_facts package :
  gmcp_package_valid (Some package) = true ->
  Forall (fun b => b <> 32) (c_str package) /\ 0 < Zlen (c_str package) <= GMCP_PACKAGE_MAX_BYTES /\
  gmcp_package_valid (Some (c_str package)) = true.
Proof.
  unfold gmcp_package_valid, strlen. rewrite c_str_idemp. case_test; [done|]. intros H. breflect. split_and!; auto; [|lia..].
  apply List.Forall_forall. intros b Hb. rewrite forallb_forall in H. specialize (H b Hb). intros ->. done.
Qed.

(** The payload of a message, and what the receiver makes of it. *)
Definition gmcp_payload (package json : list Z) : list Z := package ++ match json with [] => [] | _ => 32 :: json end.

Lemma gmcp_split_payload package json :
  Forall (fun b => b <> 32) package -> Zlen package <= GMCP_PACKAGE_MAX_BYTES ->
  exists body, gmcp_split [] (gmcp_payload package json) = Some (Some (package, body)) /\ default [] body = json.
Proof.
  intros H1 H2. unfold gmcp_payload. rewrite gmcp_split_spec by (simpl; auto; lia). destruct json as [|b json].
  - by exists None.
  - exists (Some (b :: json)). split; [|done]. simpl. by rewrite local_str_Some by lia.
Qed.

Lemma send_gmcp_sent {E : Environment} package json w w' :
  send_gmcp_message (Some package) (Some json) w = Some (0, w') -> close_requested (session w) = false ->
  gmcp_package_valid (Some package) = true /\ Zlen (gmcp_payload (c_str package) (c_str json)) <= SUBNEGOTIATION_MAX_BYTES /\
  Zlen (c_str json) <= GMCP_JSON_MAX_BYTES /\ terminal_text_utf8_valid (c_str json) = true /\
  sent w' = sent w ++ subnegotiation_bytes TELNET_OPT_GMCP (gmcp_payload (c_str package) (c_str json)).
Proof.
  intros Hrun Hc. unfold send_gmcp_message, mbind, M_bind, get_session, gets in Hrun. cbn [from_option] in Hrun. unfold id in Hrun.
  destruct (negb (gmcp _) || _) eqn:G1; [done|]. destruct (negb (_ =? 0) && _) eqn:G2; [done|].
  destruct (Zlen (c_str package) + _ >? _) eqn:G3; [done|]. rewrite gmcp_message_Some in Hrun by done.
  fold (gmcp_payload (c_str package) (c_str json)) in Hrun. cbn [lift_opt] in Hrun.
  assert (Zlen (gmcp_payload (c_str package) (c_str json)) <= SUBNEGOTIATION_MAX_BYTES) as G4.
  { unfold gmcp_payload. rewrite length_app. apply not_true_iff_false in G3. rewrite Z.gtb_lt in G3.
    destruct (c_str json) as [|b l]; [simpl in *; lia|].
    destruct (Z.eqb_spec (Zlen (b :: l)) 0); simpl length in *; [lia|]. cbn [negb] in G3. lia. }
  clear G3.
  destruct (send_subnegotiation_sent TELNET_OPT_GMCP (gmcp_payload (c_str package) (c_str json)) w Hc) as (w1 & E1 & E2 & E3).
  rewrite E1 in Hrun. injection Hrun as <-. breflect; split_and!; auto; try lia.
  - unfold GMCP_JSON_MAX_BYTES. lia.
  - destruct (c_str json); [done|]. simpl in *. lia.
Qed.

#[local] Arguments gmcp_package_valid : simpl never.
#[local] Arguments gmcp_package_equal : simpl never.
#[local] Arguments gmcp_split : simpl never.
#[local] Arguments terminal_text_utf8_valid : simpl never.

(** [C25] Subnegotiations survive the wire.  The bytes one session sends for an
    option and a payload, however many IAC bytes the payload holds, make the
    parser of another session, wherever the stream goes on, deliver exactly
    that option and payload to [finish_subnegotiation], and return to plain
    data. *)
Theorem subnegotiation_roundtrip {E1 E2 : Environment} option payload (w1 : @world E1) (w2 : @world E2) now rest :
  close_requested (session w1) = false -> close_requested (session w2) = false ->
  parser (session w2) = PARSER_DATA -> Zlen payload <= SUBNEGOTIATION_MAX_BYTES ->
  exists w1' bytes,
    send_subnegotiation option payload w1 = Some (tt, w1') /\ sent w1' = sent w1 ++ bytes /\
    parse_bytes now (bytes ++ rest) w2 =
      (finish_subnegotiation ;; set_parser_state PARSER_DATA ;; parse_bytes now rest)
        (collecting option payload PARSER_SB_IAC w2).
Proof.
  intros Hc1 Hc2 Hp Hl. destruct (send_subnegotiation_sent option payload w1 Hc1) as (w1' & E1' & _ & E3).
  exists w1', (subnegotiation_bytes option payload). split; [done|]. split; [done|]. by apply parse_subnegotiation.
Qed.

(** [C24] GMCP messages survive the wire.  When [send_gmcp_message] of a
    session that is not closing reports success for a package other than
    Core.Ping (which the receiver also answers), the bytes it sent make a peer that has GMCP enabled and an
    application that handles it call the handler once, with the same package
    name and the same body, and go back to plain data. *)
Theorem gmcp_roundtrip {E1 E2 : Environment} package json (w1 w1' : @world E1) (w2 : @world E2) now handle handler :
  send_gmcp_message (Some package) (Some json) w1 = Some (0, w1') -> close_requested (session w1) = false ->
  close_requested (session w2) = false -> parser (session w2) = PARSER_DATA ->
  telnet_q_enabled (options (session w2)) TELNET_Q_LOCAL TELNET_OPT_GMCP = true ->
  application_session (session w2) = Some handle -> hook_gmcp application = Some handler ->
  gmcp_package_equal package (txt "Core.Ping") = false ->
  exists bytes,
    sent w1' = sent w1 ++ bytes /\
    parse_bytes now bytes w2 =
      (deliver_gmcp handler handle (c_str package) (c_str json) ;;
       upd (fun s => s <| subnegotiation := [] |>) ;; set_parser_state PARSER_DATA)
        (collecting TELNET_OPT_GMCP (gmcp_payload (c_str package) (c_str json)) PARSER_SB_IAC w2).
Proof.
  intros Hs Hc1 Hc2 Hp Hon Happ Hook Hping. destruct (send_gmcp_sent _ _ _ _ Hs Hc1) as (Hv & Hl & Hj & Hu & Hsent).
  exists (subnegotiation_bytes TELNET_OPT_GMCP (gmcp_payload (c_str package) (c_str json))). split; [done|].
  rewrite <- (app_nil_r (subnegotiation_bytes _ _)). rewrite parse_subnegotiation by done.
  destruct (gmcp_valid_facts _ Hv) as (H32 & Hlen & Hv').
  destruct (gmcp_split_payload (c_str package) (c_str json)) as (body & Esplit & Ebody); [done|lia|].
  assert (Zlen (gmcp_payload (c_str package) (c_str json)) <> 0) as Hne
    by (unfold gmcp_payload; rewrite length_app; lia).
  unfold finish_subnegotiation, mbind, M_bind, get_session, gets. simpl. unfold when. simpl.
  unfold handle_gmcp, mbind, M_bind, get_session, gets. simpl. rewrite Hon. simpl.
  destruct (Z.eqb_spec (Zlen (gmcp_payload (c_str package) (c_str json))) 0); [lia|].
  rewrite Esplit. unfold lift_opt at 1. cbn [option_bind]. rewrite Hv', Ebody, Hu. simpl. destruct (Z.gtb_spec (Zlen (c_str json)) GMCP_JSON_MAX_BYTES); [lia|]. simpl.
  rewrite local_str_Some by lia. simpl.
  rewrite c_str_idemp. unfold gmcp_package_equal in *. rewrite c_str_idemp, Hping. simpl. rewrite Happ, Hook.
  by destruct (deliver_gmcp _ _ _ _ _) as [[[] w3]|].
Qed.

(** ** Typed lines *)

Section typing.
Context {E : Environment}.

(** The session with [text] on its line, between two data bytes. *)
Definition typing (text : list Z) (w : world) : world :=
  w <| session := (session w) <| line := text |> <| pending_cr := false |> <| parser := PARSER_DATA |> |>.

Lemma typing_start w :
  parser (session w) = PARSER_DATA -> pending_cr (session w) = false -> w = typing (line (session w)) w.
Proof. destruct w as [[] ? ? ? ? ? ?]. simpl. by intros -> ->. Qed.

Lemma parse_byte_quoted now w :
  parser (session w) = PARSER_IAC ->
  parse_byte now TELNET_IAC w = (receive_data_byte TELNET_IAC now ;; set_parser_state PARSER_DATA) w.
Proof. intros Hp. unfold parse_byte, mbind, M_bind, get_session, gets. by rewrite Hp. Qed.

Lemma parse_byte_data now b w :
  parser (session w) = PARSER_DATA -> b <> TELNET_IAC -> parse_byte now b w = receive_data_byte b now w.
Proof.
  intros Hp Hb. unfold parse_byte, mbind, M_bind, get_session, gets. rewrite Hp. by destruct (Z.eqb_spec b TELNET_IAC).
Qed.

Lemma type_byte now got b rest w :
  close_requested (session w) = false -> line_byte b -> Zlen got < line_limit (login (session w)) ->
  parse_bytes now (quote_iac [b] ++ rest) (typing got w) = parse_bytes now rest (typing (got ++ [b]) w).
Proof.
  intros Hc [Hb Hd] Hl.
  assert (forall p, receive_data_byte b now ((typing got w) <| session := (session (typing got w)) <| parser := p |> |>) =
    Some (tt, (typing (got ++ [b]) w) <| session := (session (typing (got ++ [b]) w)) <| parser := p |> |>)) as Hrecv.
  { intros p. unfold receive_data_byte, mbind, M_bind, get_session, gets. simpl. unfold CR, LF.
    destruct (Z.eqb_spec b 13); [lia|]. destruct (Z.eqb_spec b 10); [lia|]. destruct (Z.eqb_spec b 0); [lia|].
    unfold append_line_byte, mbind, M_bind, get_session, gets. simpl.
    destruct (Z.eqb_spec b 8); [lia|]. destruct (Z.eqb_spec b 127); [lia|]. destruct (Z.ltb_spec b 32); [lia|]. simpl.
    fold (line_limit (login (session w))). destruct (Z.geb_spec (Zlen got) (line_limit (login (session w)))); [lia|].
    rewrite push_Some; [done|]. unfold line_limit in Hl. revert Hl. case_test; unfold LINE_SIZE, PLAYER_PASSWORD_MAX, APPLICATION_LINE_MAX; lia. }
  assert (quote_iac [b] ++ rest = if b =? TELNET_IAC then TELNET_IAC :: TELNET_IAC :: rest else b :: rest) as ->
    by (unfold quote_iac; simpl; by case_test).
  destruct (Z.eqb_spec b TELNET_IAC) as [->|Hi].
  - rewrite (parse_step now TELNET_IAC _ (fun s => s <| parser := PARSER_IAC |>)) by done.
    rewrite parse_bytes_cons by done. unfold mbind, M_bind. rewrite parse_byte_quoted by done.
    unfold mbind, M_bind. by rewrite Hrecv.
  - rewrite parse_bytes_cons by done. unfold mbind, M_bind. rewrite parse_byte_data by done.
    pose proof (Hrecv PARSER_DATA) as Hr.
    change (receive_data_byte b now (typing got w) = Some (tt, typing (got ++ [b]) w)) in Hr. by rewrite Hr.
Qed.

Lemma type_text now text got rest w :
  close_requested (session w) = false -> Forall line_byte text -> Zlen got + Zlen text <= line_limit (login (session w)) ->
  parse_bytes now (quote_iac text ++ rest) (typing got w) = parse_bytes now rest (typing (got ++ text) w).
Proof.
  intros Hc Htext. revert got. induction Htext as [|b text Hb Htext IH]; intros got Hl; [by rewrite app_nil_r|].
  change (b :: text) with ([b] ++ text) in *. unfold quote_iac. rewrite flat_map_app, <- (assoc_L (++)).
  fold (quote_iac [b]) (quote_iac text). rewrite length_app in Hl. simpl length in Hl.
  rewrite type_byte by (done || lia). rewrite IH by (rewrite length_app; simpl; lia).
  by rewrite <- (assoc_L (++)).
Qed.

Lemma type_line now text rest w :
  parser (session w) = PARSER_DATA -> pending_cr (session w) = false -> line (session w) = [] ->
  close_requested (session w) = false -> Forall line_byte text -> Zlen text <= line_limit (login (session w)) ->
  parse_bytes now (quote_iac text ++ CR :: LF :: rest) w =
    (process_complete_line now ;; parse_bytes now rest) (typing text w).
Proof.
  intros Hp Hcr Hline Hc Htext Hl. rewrite (typing_start w Hp Hcr) at 1. rewrite Hline.
  rewrite (type_text now text []) by done. simpl app.
  rewrite (parse_step now CR _ (fun s => s <| pending_cr := true |>)) by done.
  rewrite parse_bytes_cons by done. unfold parse_byte at 1. unfold mbind, M_bind, get_session, gets. simpl.
  unfold receive_data_byte, mbind, M_bind, get_session, gets. simpl. unfold typing. simpl.
  by destruct (process_complete_line now _) as [[[] w1]|].
Qed.
End typing.
