(* ===== verification/TelnetProgress.v ===== *)
(** What a session achieves: a player who types the right password enters the
    game, and no typed secret outlives its line. *)
From S2P Require Import Prelude TelnetNegotiation TerminalText AsciiText SecurityPolicy RecordTable PolicyInvariant PolicyTheorems.
From S2P Require Import PlayerStore PlayerStoreTheorems PlayerRecords PlayerAccounts Application.
From S2P Require Import TelnetSession TelnetOptions TelnetLogin TelnetSubnegotiation TelnetParser TelnetOutput.
From S2P Require Import TelnetInvariant TelnetCapabilities TelnetDialogue TelnetTheorems TelnetStream.

Section progress.
Context {E : Environment} {PL : PwhashLaws env_pwhash} {ML : MkstempLaws env_mkstemp}.

(** The policy admits the attempt of this peer on this account, and the store
    verifies the password on the line. *)
Definition credentials (now : Z) (password : list Z) (w : world) : Prop :=
  exists retry p' rehashed st',
    security_policy_allow_auth_attempt (Some (remote_id (session w))) (Some (player_name (session w))) now (policy w)
      = Some ((true, retry), p') /\
    player_store_verify_password store_directory (player_name (session w)) password (store w) = Some ((1, rehashed), st').

Lemma process_existing_password_enters now w0 w d :
  talk w0 w d -> dialogue_ok d -> d_login d = LOGIN_PASSWORD -> u64 now -> credentials now (line (session w)) w ->
  wp (process_existing_password now) (fun _ w' => login (session w') = LOGIN_IN_GAME) w.
Proof.
  intros Ht Hd Hl Hnow (retry & p' & rehashed & st' & Ha & Hv). pose proof (tk_dialogue _ _ _ Ht) as Ed.
  assert (player_name (session w) = d_name d) as En by by rewrite <- Ed.
  pose proof (valid_name_nonempty d Hd ltac:(congruence)) as Hne. rewrite <- En in Hne.
  unfold process_existing_password. apply wp_session. unfold allow_auth.
  apply wp_bind. eapply talk_policy; [apply allow_auth_ok; [apply Ht|done|done]|exact Ht|].
  intros [allowed retry1] p1 Ea Ht1. cbv beta. rewrite Ha in Ea. injection Ea as <- <- <-. simpl negb. cbv iota.
  apply wp_bind. eapply talk_store; [apply verify_runs|exact Ht1|].
  intros [verified rehashed1] st Ev _ Ht2. cbn [store set_field set_policy] in Ev. rewrite Hv in Ev. injection Ev as <- <- <-.
  set (w2 := (w <| policy := p' |>) <| store := st' |>) in *.
  generalize dependent w2. intros w2 Ht2.
  apply wp_bind. eapply wp_mono; [eapply wipe_line_talk; exact Ht2|]. intros [] w3 Ht3. cbv beta in *. simpl.
  apply wp_bind. eapply talk_policy; [apply note_success_ok; [apply Ht3|done|done]|exact Ht3|].
  intros [] p2 _ Ht4. set (w4 := w3 <| policy := p2 |>) in *. clearbody w4.
  apply wp_bind. apply wp_mono with (Q := fun _ w' => talk w0 w' (d <| d_line := [] |>)).
  { apply wp_when; intros _; [|done]. eapply talk_steady; [intros; solve [eauto with session]|exact Ht4]. }
  intros [] w5 Ht5. apply wp_bind. eapply wp_mono; [eapply talk_steady; [intros; solve [eauto with session]|exact Ht5]|].
  intros [] w6 Ht6. eapply wp_mono; [eapply enter_game_talk; [exact Ht6|exact (not_in_game d Hd ltac:(congruence))]|].
  intros [] w7 [app Ht7]. pose proof (tk_dialogue _ _ _ Ht7) as Ed7. by injection Ed7.
Qed.

(** The world in which a line has just been typed. *)
Lemma typing_ok text w :
  world_ok w -> Forall line_byte text -> Zlen text <= line_limit (login (session w)) -> world_ok (typing text w).
Proof.
  intros [H1 H2 H3 H4 H5 H6] Ht Hl. split; simpl; auto; [by destruct H1; constructor|by destruct H3; constructor| |].
  - destruct H4. by constructor.
  - destruct H5. by constructor.
Qed.

Lemma complete_line_enters now w :
  world_ok w -> u64 now -> login (session w) = LOGIN_PASSWORD -> line_overflow (session w) = false ->
  snd (rate_consume (line_window (session w)) 1 INPUT_LINES_PER_WINDOW INPUT_LINES_WINDOW_MS now) = true ->
  credentials now (line (session w)) w ->
  wp (process_complete_line now) (fun _ w' => login (session w') = LOGIN_IN_GAME) w.
Proof.
  intros Hw Hnow Hl Hov Hrate Hcred. unfold process_complete_line. apply wp_session.
  pose proof (rate_consume_ok (line_window (session w)) 1 INPUT_LINES_PER_WINDOW INPUT_LINES_WINDOW_MS now ltac:(lia)
    (ok_lines _ (wo_dialogue _ Hw))) as Hwin.
  destruct (rate_consume _ _ _ _ _) as [window ok]. simpl in Hrate, Hwin. subst ok. apply wp_bind, wp_upd. simpl negb. cbv iota.
  rewrite Hov. apply wp_bind. eapply wp_lift.
  { destruct (Z.ltb_spec (Zlen (line (session w))) LINE_SIZE) as [_|Hlen]; [done|].
    pose proof (ok_line_length _ (wo_dialogue _ Hw)) as Hll. simpl in Hll.
    unfold line_limit, LINE_SIZE, PLAYER_PASSWORD_MAX, APPLICATION_LINE_MAX in *. destruct (password_state _); lia. }
  rewrite Hl. apply wp_bind. set (w1 := w <| session := (session w) <| line_window := window |> |>).
  assert (world_ok w1) as Hw1.
  { destruct Hw as [H1 H2 H3 H4 H5 H6]. split; simpl; auto; [by destruct H1; constructor|by destruct H3; constructor| |].
    - destruct H4. by constructor.
    - destruct H5. by constructor. }
  eapply wp_mono; [eapply process_existing_password_enters; [by apply talk_start|apply Hw1|exact Hl|done|exact Hcred]|].
  intros [] w2 Hg. by apply wp_upd.
Qed.

(** [C7] Logging in works.  In a session that waits for the password of an
    existing account, typing a line whose password the store verifies, while
    the policy admits the attempt and the input rates are not exceeded, enters
    the game under the account's name: one feed of the password and CR LF is
    enough, and the session stays well formed. *)
Theorem login_completes now password w :
  world_ok w -> u64 now -> close_requested (session w) = false -> login (session w) = LOGIN_PASSWORD ->
  parser (session w) = PARSER_DATA -> pending_cr (session w) = false -> line (session w) = [] ->
  line_overflow (session w) = false ->
  Forall line_byte password -> Zlen password <= PLAYER_PASSWORD_MAX ->
  snd (rate_consume (byte_window (session w)) (Zlen (quote_iac password ++ crlf)) INPUT_BYTES_PER_WINDOW
        INPUT_BYTES_WINDOW_MS now) = true ->
  snd (rate_consume (line_window (session w)) 1 INPUT_LINES_PER_WINDOW INPUT_LINES_WINDOW_MS now) = true ->
  credentials now password w ->
  exists r w', telnet_session_feed_at (quote_iac password ++ crlf) now w = Some (r, w') /\
    telnet_session_is_in_game (session w') = true /\ telnet_session_player_name (session w') = player_name (session w) /\
    world_ok w'.
Proof.
  intros Hw Hnow Hc Hl Hp Hcr Hline Hov Hpass Hlen Hbytes Hlines Hcred.
  unfold telnet_session_feed_at, mbind, M_bind, get_session, gets. rewrite Hc.
  pose proof (rate_consume_ok (byte_window (session w)) (Zlen (quote_iac password ++ crlf)) INPUT_BYTES_PER_WINDOW
    INPUT_BYTES_WINDOW_MS now ltac:(lia) (ok_bytes_window _ (wo_parser w Hw))) as Hwin.
  destruct (rate_consume (byte_window _) _ _ _ _) as [window ok]. simpl in Hbytes, Hwin. subst ok.
  set (w1 := w <| session := (session w) <| byte_window := window |> |>).
  assert (world_ok w1) as Hw1.
  { apply (parser_store_ok (fun s => s <| byte_window := window |>)); [|done].
    unfold parser_store; split_and!; [reflexivity..|core_tac|core_tac|]. intros []; by constructor. }
  change (upd (fun s => s <| byte_window := window |>) w) with (Some (tt, w1)). cbv beta iota delta [negb].
  assert (line_limit (login (session w1)) = PLAYER_PASSWORD_MAX) as Hlim by (simpl; by rewrite Hl).
  unfold crlf. rewrite (type_line now password [] w1 Hp Hcr Hline Hc Hpass ltac:(rewrite Hlim; exact Hlen)).
  assert (world_ok (typing password w1)) as Hw2 by (apply typing_ok; [done|done|by rewrite Hlim]).
  destruct (wp_run _ _ _ (wp_and _ _ _ _ (complete_line_enters now (typing password w1) Hw2 Hnow Hl Hov Hlines Hcred)
    (process_complete_line_stepped now (typing password w1) Hw2 Hnow))) as ([] & w3 & E3 & Hg & [S1 S2 S3 S4]).
  unfold mbind, M_bind. rewrite E3. simpl. eexists _, w3. split; [done|].
  unfold telnet_session_player_name, telnet_session_is_in_game. rewrite Hg. split_and!; [done| |done].
  simpl in S3. destruct S3; simpl in *; congruence.
Qed.

(** ** Secrets *)

Lemma complete_line_wiped now w :
  world_ok w -> u64 now -> wp (process_complete_line now) (fun _ w' => line (session w') = []) w.
Proof.
  intros Hw Hnow. destruct (wp_run _ _ _ (process_complete_line_stepped now w Hw Hnow)) as ([] & w' & Er & _).
  unfold wp. rewrite Er. pose proof (talk_start w Hw) as Ht.
  assert (forall w1 w2 d, talk w1 w2 d -> d_line d = [] -> line (session w2) = []) as Hend.
  { intros w1 w2 d Ht2 Hd. pose proof (tk_dialogue _ _ _ Ht2) as <-. exact Hd. }
  apply bind_run in Er as (s & w0 & [= <- <-] & Er). destruct (rate_consume _ _ _ _ _) as [window ok].
  apply bind_run in Er as ([] & w1 & E1 & Er).
  assert (talk w w1 ((dialogue_of (session w)) <| d_lines := window |>)) as Ht1.
  { refine (wp_of_run _ (fun _ w1 => talk w w1 _) _ _ _ _ E1).
    apply (talk_upd w w _ _ (fun d => d <| d_lines := window |>)); [exact Ht|reflexivity..|core_tac|core_tac]. }
  revert Er. case_test; [|case_test].
  - intros Er. refine (wp_of_run _ (fun _ w2 => line (session w2) = []) _ _ _ _ Er). talk_go. by eapply Hend.
  - intros Er. refine (wp_of_run _ (fun _ w2 => line (session w2) = []) _ _ _ _ Er).
    apply wp_bind. eapply wp_mono; [eapply reset_line_talk; exact Ht1|]. intros [] w2 Ht2. cbv beta in *.
    apply wp_if; intros _; [|destruct (application_session _); talk_go; by eapply Hend].
    talk_step. talk_step. destruct (login _); talk_go; by eapply Hend.
  - intros Er. apply bind_run in Er as (? & w2 & _ & Er). apply bind_run in Er as (? & w3 & _ & Er).
    by injection Er as <-.
Qed.

(** [C19] Secrets do not outlive their line.  When a line is complete, whatever
    state the dialogue was in, whatever was typed and whatever it led to, the
    line buffer is empty afterwards, and a password verifier is held only while
    the confirmation of a new account's password is awaited. *)
Theorem secrets_cleared now w :
  world_ok w -> u64 now ->
  exists w', process_complete_line now w = Some (tt, w') /\ line (session w') = [] /\
    (login (session w') <> LOGIN_CONFIRM_PASSWORD -> pending_password (session w') = token_clear).
Proof.
  intros Hw Hnow. destruct (wp_run _ _ _ (wp_and _ _ _ _ (complete_line_wiped now w Hw Hnow)
    (process_complete_line_stepped now w Hw Hnow))) as ([] & w' & Er & Hl & [Hok _ _ _]).
  exists w'. split; [done|]. split; [done|]. intros Hn. pose proof (ok_password _ (wo_dialogue _ Hok)) as Hp. simpl in Hp.
  by destruct (login (session w')).
Qed.
End progress.
