(* ===== verification/TelnetReports.v ===== *)
(** The parsers of client reports and the status report, against their
    specifications: decimal numbers, character set offers, environment
    reports, printable text, MSSP; and the input rate limit. *)
From S2P Require Import Prelude TelnetNegotiation TerminalText AsciiText SecurityPolicy PlayerStore Application.
From S2P Require Import TelnetSession TelnetOptions TelnetSubnegotiation TelnetOutput TelnetInvariant TelnetCapabilities.

(** * Decimal numbers *)

Definition is_digit (b : Z) : Prop := 48 <= b <= 57.
Definition decimal_value (bytes : list Z) : Z := fold_left (fun n b => 10 * n + (b - 48)) bytes 0.

Lemma decimal_value_snoc l b : decimal_value (l ++ [b]) = 10 * decimal_value l + (b - 48).
Proof. unfold decimal_value. by rewrite fold_left_app. Qed.

Lemma decimal_fold_ge l n : Forall is_digit l -> 0 <= n -> n <= fold_left (fun n b => 10 * n + (b - 48)) l n.
Proof.
  intros Hl. revert n. induction Hl as [|b l Hb Hl IH]; intros n Hn; simpl; [lia|].
  unfold is_digit in Hb. etrans; [|apply IH; lia]. lia.
Qed.

Lemma parse_decimal_loop_spec parsed bytes v :
  0 <= parsed < 2 ^ 32 ->
  parse_decimal_loop parsed bytes = Some v <->
  Forall is_digit bytes /\ v = fold_left (fun n b => 10 * n + (b - 48)) bytes parsed /\ v < 2 ^ 32.
Proof.
  revert parsed. induction bytes as [|b bytes IH]; intros parsed Hp; simpl.
  { split; [intros [= <-]; split_and!; [constructor|done|lia]|intros (_ & -> & _); done]. }
  case_test; breflect.
  1,2: split; [done|intros (Hd & _); apply Forall_cons in Hd as [Hd _]; unfold is_digit in Hd; lia].
  pose proof (Z.div_mod (2 ^ 32 - 1 - (b - 48)) 10 ltac:(lia)). pose proof (Z.mod_pos_bound (2 ^ 32 - 1 - (b - 48)) 10 ltac:(lia)).
  assert (0 <= parsed * 10) by lia.
  case_test; breflect.
  - split; [done|]. intros (Hd & -> & Hlt). apply Forall_cons in Hd as [_ Hd].
    pose proof (decimal_fold_ge bytes (10 * parsed + (b - 48)) Hd ltac:(lia)). lia.
  - assert (wrap32 (wrap32 (parsed * 10) + (b - 48)) = 10 * parsed + (b - 48)) as ->.
    { unfold wrap32. rewrite (Z.mod_small (parsed * 10)) by lia. rewrite Z.mod_small by lia. lia. }
    rewrite IH by lia. rewrite Forall_cons. unfold is_digit at 2. intuition lia.
Qed.

(** [parse_decimal_u32] accepts exactly the nonempty strings of decimal
    digits whose value fits 32 bits, and returns that value: its overflow test
    never refuses a number that fits nor lets one wrap. *)
Theorem parse_decimal_exact bytes v :
  parse_decimal_u32 bytes = Some v <->
  bytes <> [] /\ Forall is_digit bytes /\ v = decimal_value bytes /\ decimal_value bytes < 2 ^ 32.
Proof.
  unfold parse_decimal_u32, decimal_value. destruct bytes as [|b bytes]; [by split; [|intros []]|].
  rewrite (parse_decimal_loop_spec 0) by done. intuition congruence.
Qed.

(** ** Printing *)

Lemma decimal_loop_spec fuel n acc :
  0 <= n < 10 ^ Z.of_nat fuel -> (0 < fuel)%nat ->
  exists ds, decimal_loop fuel n acc = ds ++ acc /\ ds <> [] /\ Forall is_digit ds /\ decimal_value ds = n /\
    (length ds <= fuel)%nat.
Proof.
  revert n acc. induction fuel as [|fuel IH]; intros n acc Hn Hf; [lia|]. cbn [decimal_loop].
  pose proof (Z.mod_pos_bound n 10 ltac:(lia)). pose proof (Z.div_mod n 10 ltac:(lia)).
  assert (is_digit (48 + n mod 10)) as Hd by (unfold is_digit; lia).
  destruct (Z.ltb_spec n 10).
  - exists [48 + n mod 10]. split_and!; [done|done|by apply Forall_singleton|unfold decimal_value; simpl; rewrite Z.mod_small by lia; lia|simpl; lia].
  - assert (0 <= n / 10 < 10 ^ Z.of_nat fuel) as Hq.
    { rewrite Nat2Z.inj_succ, Z.pow_succ_r in Hn by lia. split; [apply Z.div_pos; lia|]. apply Z.div_lt_upper_bound; lia. }
    destruct fuel as [|fuel]; [simpl in Hq; lia|].
    destruct (IH (n / 10) ((48 + n mod 10) :: acc) Hq ltac:(lia)) as (ds & -> & G1 & G2 & G3 & G4).
    exists (ds ++ [48 + n mod 10]). split_and!.
    + by rewrite <- (assoc_L (++)).
    + by destruct ds.
    + by apply Forall_snoc.
    + rewrite decimal_value_snoc, G3. lia.
    + rewrite length_app. simpl. lia.
Qed.

Lemma decimal_spec n : u64 n -> decimal n <> [] /\ Forall is_digit (decimal n) /\ decimal_value (decimal n) = n /\
  Zlen (decimal n) <= 20.
Proof.
  intros Hn. unfold decimal. destruct (decimal_loop_spec 20 n []) as (ds & -> & H1 & H2 & H3 & H4); [|lia|].
  - unfold u64 in Hn. change (10 ^ Z.of_nat 20) with 100000000000000000000. lia.
  - rewrite app_nil_r. split_and!; auto. lia.
Qed.

(** * The input rate limit *)

(** The admitted calls, amount and time, of a sequence of calls. *)
Fixpoint rate_run (limit window_ms : Z) (window : rate_window) (calls : list (Z * Z)) : list (Z * Z) :=
  match calls with
  | [] => []
  | (amount, now) :: calls =>
      let '(window, ok) := rate_consume window amount limit window_ms now in
      (if ok then [(amount, now)] else []) ++ rate_run limit window_ms window calls
  end.

(** What was admitted in the [window_ms] milliseconds from [t] on. *)
Definition amount_in (t window_ms : Z) (admitted : list (Z * Z)) : Z :=
  foldr (fun '(amount, now) sum => (if (t <=? now) && (now <? t + window_ms) then amount else 0) + sum) 0 admitted.

(** Calls at times that do not decrease, from [last] on. *)
Fixpoint calls_from (last : Z) (calls : list (Z * Z)) : Prop :=
  match calls with
  | [] => True
  | (amount, now) :: calls => 0 <= amount /\ last <= now /\ calls_from now calls
  end.

Lemma amount_in_app t d a b : amount_in t d (a ++ b) = amount_in t d a + amount_in t d b.
Proof. induction a as [|[x now] a IH]; simpl; [done|]. rewrite IH. lia. Qed.

Lemma amount_in_late limit d window t last calls :
  t + d <= last -> calls_from last calls -> amount_in t d (rate_run limit d window calls) = 0.
Proof.
  revert window last. induction calls as [|[x now] calls IH]; intros window last Ht Hc; simpl; [done|].
  destruct Hc as (Hx & Hn & Hc). destruct (rate_consume _ _ _ _ _) as [window' ok]. rewrite amount_in_app.
  rewrite (IH window' now) by (done || lia). destruct ok; simpl; [|done].
  destruct (Z.ltb_spec now (t + d)); [lia|]. by rewrite andb_false_r.
Qed.

(** [older] was admitted in earlier windows, [current] in this one. *)
Record rate_inv (limit t : Z) (window : rate_window) (last older current : Z) : Prop := mk_rate_inv {
  ri_used : 0 <= current <= used window /\ used window <= limit;
  ri_older : 0 <= older <= limit;
  ri_start : 0 <= started_ms window <= last;
  ri_before : 0 < older -> t <= started_ms window /\ 0 < started_ms window;
  ri_seen : 0 < current -> t <= last;
  ri_fresh : started_ms window = 0 -> older = 0
}.

Lemma rate_inv_bound limit d t window last older current calls :
  0 < d -> 0 < last \/ started_ms window = 0 /\ 0 <= last -> calls_from (Z.max 1 last) calls -> rate_inv limit t window last older current ->
  older + current + amount_in t d (rate_run limit d window calls) <= 2 * limit.
Proof.
  intros Hd. revert window last older current.
  induction calls as [|[x now] calls IH]; intros window last older current Hlast Hc [[U1 U2] O S B C F]; simpl; [lia|].
  destruct Hc as (Hx & Hn & Hc). assert (0 < now) as Hpos by lia.
  unfold rate_consume. set (reset := (started_ms window =? 0) || _ || _). destruct reset eqn:Hr; unfold reset in Hr.
  - destruct (decide (0 < older)) as [Ho|Ho].
    + destruct (B Ho) as [B1 B2]. assert (t + d <= now) as Hlate by (breflect; lia).
      match goal with |- context [let '(_, _) := ?r in _] => destruct r as [window' ok] end.
      rewrite amount_in_app, (amount_in_late limit d window' t now) by (done || lia).
      destruct ok; simpl; [|lia]. destruct (Z.ltb_spec now (t + d)); [lia|]. rewrite andb_false_r. lia.
    + assert (older = 0) as -> by lia. clear Hr reset. simpl.
      destruct ((x >? limit) || _) eqn:Hok; simpl.
      * specialize (IH (mk_rate now 0) now current 0). simpl in IH. rewrite Z.add_0_r in IH.
        apply IH; [lia|by rewrite Z.max_r by lia|split; simpl; lia].
      * breflect. set (y := if (t <=? now) && (now <? t + d) then x else 0).
        assert (0 <= y <= x /\ (0 < y -> t <= now)) as Hy
          by (unfold y; destruct (Z.leb_spec t now), (Z.ltb_spec now (t + d)); simpl; lia).
        specialize (IH (mk_rate now x) now current y). simpl in IH. rewrite Z.add_assoc.
        apply IH; [lia|by rewrite Z.max_r by lia|split; simpl; lia].
  - breflect. destruct ((x >? limit) || _) eqn:Hok; simpl.
    + apply (IH window now); [lia|by rewrite Z.max_r by lia|split; lia].
    + breflect. rewrite Z.add_assoc. set (y := if (t <=? now) && (now <? t + d) then x else 0).
      assert (0 <= y <= x /\ (0 < y -> t <= now)) as Hy by (unfold y; destruct (Z.leb_spec t now), (Z.ltb_spec now (t + d)); simpl; lia).
      specialize (IH (mk_rate (started_ms window) (used window + x)) now older (current + y)). simpl in IH.
      rewrite <- (Z.add_assoc older current y). apply IH; [lia|by rewrite Z.max_r by lia|split; simpl; lia].
Qed.

(** At clock reading 0 every call starts a new window. *)
Lemma rate_run_at_zero limit window_ms window calls :
  Forall (fun c => 0 <= fst c <= limit /\ snd c = 0) calls -> 0 <= started_ms window ->
  rate_run limit window_ms window calls = calls.
Proof.
  intros Hc. revert window. induction Hc as [|[x now] calls [Hx Hn] _ IH]; intros window Hs; simpl in *; [done|]. subst now.
  unfold rate_consume. assert ((started_ms window =? 0) || (0 <? started_ms window) = true) as ->
    by (destruct (Z.eqb_spec (started_ms window) 0), (Z.ltb_spec 0 (started_ms window)); simpl; lia || done).
  simpl. destruct (Z.gtb_spec x limit); [lia|]. destruct (Z.gtb_spec 0 (limit - x)); [lia|]. simpl. by rewrite IH.
Qed.

(** [C39] What the rate limiter limits.  Whatever amounts are asked for at
    whatever times, as long as the clock readings are positive and do not run
    backwards, the amounts a fresh window admits within any [window_ms]
    milliseconds add up to at most twice the limit (the windows are not
    sliding: one may end and the next begin inside the interval).  At clock
    reading 0, which is also what a failed clock reads, there is no limit on
    the sum: every call up to the limit is admitted, whatever the window. *)
Theorem rate_limit_bound limit window_ms calls t :
  0 <= limit -> 0 < window_ms ->
  (calls_from 1 calls -> amount_in t window_ms (rate_run limit window_ms (mk_rate 0 0) calls) <= 2 * limit) /\
  (Forall (fun c => 0 <= fst c <= limit /\ snd c = 0) calls ->
     forall window, 0 <= started_ms window -> rate_run limit window_ms window calls = calls).
Proof.
  intros Hl Hd. split; [|intros Hc window Hs; by apply rate_run_at_zero].
  intros Hc. pose proof (rate_inv_bound limit window_ms t (mk_rate 0 0) 0 0 0 calls Hd) as H. simpl in H.
  apply H; [lia|done|split; simpl; lia].
Qed.

(** * Character set offers *)

Definition printable (b : Z) : Prop := 32 <= b <= 126.

(** The names of a list, split at a separator. *)
Fixpoint split_names (separator : Z) (field names : list Z) : list (list Z) :=
  match names with
  | [] => [field]
  | b :: names =>
      if b =? separator then field :: split_names separator [] names else split_names separator (field ++ [b]) names
  end.

Definition is_utf8_name (name : list Z) : Prop := map ascii_lower name = txt "utf-8".

Lemma is_utf8_name_eq name :
  negb (Zlen name =? 0) && bytes_equal_ignore_case name (txt "UTF-8") = true <-> is_utf8_name name.
Proof.
  rewrite andb_true_iff, bytes_equal_iff. unfold is_utf8_name. change (map ascii_lower (c_str (txt "UTF-8"))) with (txt "utf-8").
  split; [by intros [_ H]|]. intros H. split; [|done]. by destruct name.
Qed.

Lemma utf8_name_printable name b : is_utf8_name name -> b ∈ name -> printable b.
Proof.
  unfold is_utf8_name. intros H Hb. assert (ascii_lower b ∈ txt "utf-8") as Hin.
  { rewrite <- H. by apply list_elem_of_fmap_2. }
  unfold txt in Hin. simpl in Hin. unfold printable. unfold ascii_lower in Hin. revert Hin. case_test; breflect;
    intros Hin; rewrite !elem_of_cons, elem_of_nil in Hin; lia.
Qed.

Lemma split_names_head separator field names :
  exists rest others, split_names separator field names = (field ++ rest) :: others.
Proof.
  revert field. induction names as [|b names IH]; intros field; simpl; [exists [], []; by rewrite app_nil_r|].
  case_test; [eexists [], _; by rewrite app_nil_r|]. destruct (IH (field ++ [b])) as (rest & others & ->).
  exists (b :: rest), others. by rewrite <- (assoc_L (++)).
Qed.

(** Some name is UTF-8 and every byte of the names before it is printable. *)
Definition offers (all : list (list Z)) : Prop :=
  exists before name after, all = before ++ name :: after /\ is_utf8_name name /\ Forall (Forall printable) before.

Lemma offers_cons name all : offers (name :: all) <-> is_utf8_name name \/ Forall printable name /\ offers all.
Proof.
  split.
  - intros ([|n before] & x & after & [= -> ->] & Hx & Hb); [by left|]. right. apply Forall_cons in Hb as [H1 H2].
    split; [done|]. by exists before, x, after.
  - intros [H|[H (before & x & after & -> & Hx & Hb)]]; [by exists [], name, all|].
    exists (name :: before), x, after. split; [done|]. split; [done|]. by constructor.
Qed.

Lemma charset_scan_spec separator field names :
  Forall printable field -> charset_scan separator field names = true <-> offers (split_names separator field names).
Proof.
  revert field. induction names as [|b names IH]; intros field Hf; simpl.
  - rewrite is_utf8_name_eq, offers_cons. split; [by left|]. intros [H|[_ (before & x & after & H & _)]]; [done|].
    by destruct before.
  - destruct (Z.eqb_spec b separator) as [->|Hb].
    + rewrite offers_cons, <- is_utf8_name_eq, <- (IH []) by constructor. case_test; [by split; [left|]|].
      split; [by right|]. by intros [?|[_ ?]].
    + destruct ((b <? 32) || (b >? 126)) eqn:Hp.
      * split; [done|]. destruct (split_names_head separator (field ++ [b]) names) as (rest & others & ->).
        rewrite offers_cons. assert (b ∈ (field ++ [b]) ++ rest) as Hin
          by (rewrite !elem_of_app; left; right; constructor).
        intros [H|[H _]]; [apply (utf8_name_printable _ b) in H; [|done]|rewrite Forall_forall in H; specialize (H b Hin)];
          unfold printable in H; breflect; lia.
      * apply IH. apply Forall_snoc; [done|]. unfold printable. breflect. lia.
Qed.

(** A character set request is answered by its content: the request is
    taken as offering UTF-8 exactly if it is a REQUEST with a separator that is
    neither IAC nor a control byte and some name of the list, split at that
    separator, is UTF-8 in any letter case, the names before it being printable
    text. *)
Theorem charset_offer_spec payload :
  charset_list_contains_utf8 payload = true <->
  exists separator names, payload = CHARSET_REQUEST :: separator :: names /\ names <> [] /\
    separator <> TELNET_IAC /\ 32 <= separator /\ offers (split_names separator [] names).
Proof.
  unfold charset_list_contains_utf8. split.
  - destruct payload as [|request [|separator [|n names]]]; [done..|]. case_test; [done|]. case_test; [done|]. breflect.
    intros Hs%charset_scan_spec; [|constructor]. subst request. exists separator, (n :: names). simpl in Hs. by split_and!.
  - intros (separator & names & -> & Hne & H1 & H2 & H3). destruct names as [|n names]; [done|].
    apply charset_scan_spec in H3; [|constructor]. rewrite Z.eqb_refl. simpl negb. cbv iota.
    destruct (Z.eqb_spec separator TELNET_IAC); [done|]. destruct (Z.ltb_spec separator 32); [lia|]. done.
Qed.

(** * Environment reports *)

(** RFC 1572: the four codes are quoted inside a field. *)
Definition environ_escape (field : list Z) : list Z :=
  flat_map (fun b => if (b =? NEW_ENVIRON_VAR) || (b =? NEW_ENVIRON_VAL) || (b =? NEW_ENVIRON_ESC) || (b =? NEW_ENVIRON_USERVAR)
                     then [NEW_ENVIRON_ESC; b] else [b]) field.

Record environ_entry := mk_entry { entry_token : Z; entry_name : list Z; entry_value : list Z }.

Definition environ_encode (entries : list environ_entry) : list Z :=
  flat_map (fun e => entry_token e :: environ_escape (entry_name e) ++ NEW_ENVIRON_VAL :: environ_escape (entry_value e)) entries.

Definition entry_ok (e : environ_entry) : Prop :=
  (entry_token e = NEW_ENVIRON_VAR \/ entry_token e = NEW_ENVIRON_USERVAR) /\
  0 < Zlen (entry_name e) <= 64 /\ Zlen (entry_value e) <= 128.

Lemma environ_field_escape is_name size field l rest :
  Zlen field + Zlen l <= size ->
  environ_field is_name size field (environ_escape l ++ rest) = environ_field is_name size (field ++ l) rest.
Proof.
  revert field. induction l as [|b l IH]; intros field Hl; [by rewrite app_nil_r|].
  simpl length in Hl. unfold environ_escape. cbn [flat_map]. fold (environ_escape l). rewrite <- (assoc_L (++)).
  assert (environ_field is_name size field
    ((if (b =? NEW_ENVIRON_VAR) || (b =? NEW_ENVIRON_VAL) || (b =? NEW_ENVIRON_ESC) || (b =? NEW_ENVIRON_USERVAR)
      then [NEW_ENVIRON_ESC; b] else [b]) ++ environ_escape l ++ rest) =
    environ_field is_name size (field ++ [b]) (environ_escape l ++ rest)) as ->.
  { destruct (Z.geb_spec (Zlen field) size); [lia|].
    destruct (_ || _) eqn:Hb; cbn [app environ_field].
    - rewrite Z.eqb_refl. destruct (Z.geb_spec (Zlen field) size); [lia|]. by rewrite push_Some by lia.
    - breflect. repeat (match goal with |- context [b =? ?c] => destruct (Z.eqb_spec b c); [done|] end).
      rewrite andb_false_r. simpl. destruct (Z.geb_spec (Zlen field) size); [lia|]. by rewrite push_Some by lia. }
  rewrite IH by (rewrite length_app; simpl; lia). by rewrite <- (assoc_L (++)).
Qed.

(** Where the next entry starts, or the report ends. *)
Definition entry_start (data : list Z) : Prop :=
  match data with [] => True | b :: _ => b = NEW_ENVIRON_VAR \/ b = NEW_ENVIRON_USERVAR end.

Lemma environ_encode_start entries : Forall entry_ok entries -> entry_start (environ_encode entries).
Proof. intros [|e entries' [H _] _]; [done|]. exact H. Qed.

Lemma environ_field_end size field data : entry_start data -> environ_field false size field data = Some (Some (field, false, data)).
Proof. destruct data as [|b data]; [done|]. by intros [->| ->]. Qed.

Lemma environ_field_val size field data :
  environ_field true size field (NEW_ENVIRON_VAL :: data) = Some (Some (field, true, data)).
Proof. done. Qed.

Section environ.
Context {E : Environment}.

Lemma environ_loop_enough fuel data w :
  (length data <= fuel)%nat -> environ_loop fuel data w = environ_loop (length data) data w.
Proof.
  remember (length data) as n eqn:Hn. revert fuel data w Hn. induction n as [n IH] using lt_wf_ind.
  intros fuel [|token data] w -> Hf; [by destruct fuel|]. destruct fuel as [|fuel]; [simpl in Hf; lia|].
  cbn [length environ_loop]. simpl in Hf. case_test; [done|]. unfold mbind, M_bind, lift_opt.
  destruct (environ_field_runs true 64 [] data) as (r & -> & Hr). destruct r as [[[name has_value] data1]|]; [|done].
  specialize (Hr _ _ _ eq_refl). destruct (environ_field_runs false 128 [] data1) as (r' & Er' & Hr').
  assert (exists x, (if has_value then environ_field false 128 [] data1 else Some (Some ([], false, data1))) = Some x /\
    forall f v l, x = Some (f, v, l) -> (length l <= length data1)%nat) as (x & -> & Hx).
  { destruct has_value; [eauto|]. eexists. split; [done|]. by intros ??? [= <- <- <-]. }
  destruct x as [[[value v] data2]|]; [|done]. specialize (Hx _ _ _ eq_refl).
  destruct (when _ _ _) as [[[] w1]|]; [|done].
  rewrite (IH (length data2)) by (simpl; lia || done). symmetry. apply (IH (length data2)); simpl; lia || done.
Qed.

Lemma environ_loop_encode entries w fuel :
  Forall entry_ok entries -> (length (environ_encode entries) <= fuel)%nat ->
  environ_loop fuel (environ_encode entries) w =
  (for_each entries (fun e => apply_new_environ_value (entry_token e) (entry_name e) (entry_value e)) ;; mret true) w.
Proof.
  intros Hok. revert w fuel. induction Hok as [|e entries He Hok IH]; intros w fuel Hf; [by destruct fuel|].
  destruct He as (Htoken & [Hn1 Hn2] & Hv).
  assert (environ_encode (e :: entries) = entry_token e :: environ_escape (entry_name e) ++
    NEW_ENVIRON_VAL :: environ_escape (entry_value e) ++ environ_encode entries) as Eenc.
  { unfold environ_encode. cbn [flat_map]. by rewrite <- app_comm_cons, <- (assoc_L (++)), <- app_comm_cons. }
  rewrite Eenc in Hf |- *. destruct fuel as [|fuel]; [simpl in Hf; lia|]. cbn [environ_loop length] in Hf |- *.
  assert (negb (entry_token e =? NEW_ENVIRON_VAR) && negb (entry_token e =? NEW_ENVIRON_USERVAR) = false) as ->
    by (destruct Htoken as [-> | ->]; done).
  unfold mbind at 1, M_bind at 1. rewrite environ_field_escape by (simpl; lia). rewrite environ_field_val. cbn [lift_opt].
  unfold mbind at 1, M_bind at 1. rewrite environ_field_escape by (simpl; lia).
  rewrite environ_field_end by by apply environ_encode_start. cbn [lift_opt app]. destruct (Z.gtb_spec (Zlen (entry_name e)) 0); [|lia]. cbn [when for_each].
  rewrite !length_app in Hf. simpl in Hf. rewrite length_app in Hf.
  unfold mbind, M_bind. destruct (apply_new_environ_value _ _ _ w) as [[[] w1]|]; [|done].
  rewrite IH by lia. done.
Qed.

Lemma handle_environ_encode w entries :
  telnet_q_enabled (options (session w)) TELNET_Q_REMOTE TELNET_OPT_NEW_ENVIRON = true ->
  Forall entry_ok entries ->
  subnegotiation (session w) = NEW_ENVIRON_IS :: environ_encode entries \/
    subnegotiation (session w) = NEW_ENVIRON_INFO :: environ_encode entries ->
  handle_new_environ w =
    (for_each entries (fun e => apply_new_environ_value (entry_token e) (entry_name e) (entry_value e)) ;;
     update_option_metadata) w.
Proof.
  intros Hon Hok Hsub. unfold handle_new_environ. unfold mbind at 1, M_bind at 1, get_session, gets. rewrite Hon. simpl negb. cbv iota.
  assert (forall f : M world bool, f w = (for_each entries (fun e => apply_new_environ_value (entry_token e) (entry_name e) (entry_value e)) ;; mret true) w ->
    (finished ← f; when finished update_option_metadata) w =
    (for_each entries (fun e => apply_new_environ_value (entry_token e) (entry_name e) (entry_value e)) ;; update_option_metadata) w) as Hgo.
  { intros f Hfw. unfold mbind, M_bind in *. rewrite Hfw. by destruct (for_each _ _ w) as [[[] w1]|]. }
  destruct Hsub as [-> | ->]; simpl negb; simpl andb; cbv iota; apply Hgo; by apply environ_loop_encode.
Qed.

(** [C26] Environment reports are read back.  A report that encodes a list of
    variables by RFC 1572, whatever bytes their names and values hold (names of
    1 to 64 bytes, values of up to 128), has the effect of applying exactly
    these variables in order and then refreshing the capabilities.  For every
    payload, well formed or not, the loop stops on its own: more fuel than the
    payload has bytes changes nothing. *)
Theorem environ_roundtrip w entries data fuel :
  telnet_q_enabled (options (session w)) TELNET_Q_REMOTE TELNET_OPT_NEW_ENVIRON = true ->
  Forall entry_ok entries ->
  subnegotiation (session w) = NEW_ENVIRON_IS :: environ_encode entries \/
    subnegotiation (session w) = NEW_ENVIRON_INFO :: environ_encode entries ->
  (length data <= fuel)%nat ->
  handle_new_environ w =
    (for_each entries (fun e => apply_new_environ_value (entry_token e) (entry_name e) (entry_value e)) ;;
     update_option_metadata) w /\
  environ_loop fuel data w = environ_loop (length data) data w.
Proof. intros Hon Hok Hsub Hf. split; [by apply handle_environ_encode|by apply environ_loop_enough]. Qed.
End environ.

(** ** Text values *)

Lemma printable_prefix_stop good bad rest :
  Forall printable good -> ~ printable bad -> printable_prefix (good ++ bad :: rest) = good.
Proof.
  intros Hg Hb. induction Hg as [|b good Hp Hg IH]; simpl; unfold printable in *.
  - destruct (Z.ltb_spec bad 32); [done|]. destruct (Z.gtb_spec bad 126); [done|]. lia.
  - destruct (Z.ltb_spec b 32); [lia|]. destruct (Z.gtb_spec b 126); [lia|]. simpl. by rewrite IH.
Qed.

Lemma printable_prefix_all text : Forall printable text -> printable_prefix text = text.
Proof.
  induction 1 as [|b text Hp Ht IH]; simpl; [done|]. unfold printable in *.
  destruct (Z.ltb_spec b 32); [lia|]. destruct (Z.gtb_spec b 126); [lia|]. simpl. by rewrite IH.
Qed.

(** [copy_printable_ascii] on every input.  A printable text that fits
    replaces the string.  A text that does not fit leaves the array alone.  But
    a text refused for a byte that is not printable is not without effect: its
    printable prefix has overwritten the start of the array, so the string
    there becomes the new prefix continued by the tail of the old one. *)
Theorem copy_printable_effects output old padding text good bad rest :
  output = old ++ 0 :: padding -> Forall (fun b => b <> 0) old -> Forall printable good -> ~ printable bad ->
  Forall printable text ->
  (Zlen text < Zlen output ->
     exists copied, copy_printable_ascii output text = Some (copied, true) /\ c_str copied = text) /\
  (Zlen output <= Zlen text -> copy_printable_ascii output text = Some (output, false)) /\
  (Zlen (good ++ bad :: rest) < Zlen output ->
     exists copied, copy_printable_ascii output (good ++ bad :: rest) = Some (copied, false) /\
     ((length good <= length old)%nat -> c_str copied = good ++ drop (length good) old)).
Proof.
  intros Ho Hold Hg Hb Ht.
  assert (forall l, Forall printable l -> Forall (fun b => b <> 0) l) as Hnz
    by (intros l Hl; eapply Forall_impl; [exact Hl|]; unfold printable; lia).
  unfold copy_printable_ascii. split_and!.
  - intros Hl. destruct (Z.geb_spec (Zlen text) (Zlen output)); [lia|]. rewrite printable_prefix_all, Z.eqb_refl by done.
    unfold memcpy_into. rewrite length_app. simpl length.
    destruct (Z.leb_spec (Z.of_nat (length text + 1)) (Zlen output)); [|lia]. eexists. split; [done|].
    rewrite <- (assoc_L (++)). apply c_str_app_nul. auto.
  - intros Hl. by destruct (Z.geb_spec (Zlen text) (Zlen output)); [|lia].
  - intros Hl. destruct (Z.geb_spec (Zlen (good ++ bad :: rest)) (Zlen output)); [lia|].
    rewrite printable_prefix_stop by done. rewrite length_app. simpl length.
    destruct (Z.eqb_spec (Zlen good) (Z.of_nat (length good + S (length rest)))); [lia|].
    rewrite length_app in Hl. simpl length in Hl. unfold memcpy_into. destruct (Z.leb_spec (Zlen good) (Zlen output)); [|lia].
    eexists. split; [done|]. intros Hle.
    subst output. rewrite drop_app_le by done. rewrite (assoc_L (++)). apply c_str_app_nul. apply Forall_app.
    split; [auto|]. by apply Forall_drop.
Qed.

(** * MSSP *)

(** A variable and its value on the wire. *)
Definition mssp_pair (name value : list Z) : list Z := 1 :: name ++ 2 :: value.

Definition mssp_clean (value : list Z) : Prop := Forall (fun b => b <> 0 /\ b <> 1 /\ b <> 2 /\ b <> TELNET_IAC) value.

Lemma mssp_append_Some payload size name value :
  forallb (fun ch => ((65 <=? ch) && (ch <=? 90)) || (ch =? 32)) name = true -> name <> [] -> c_str name = name ->
  mssp_clean value -> Zlen payload + 2 + Zlen name + Zlen value <= size ->
  mssp_append_pair payload size name value = Some (Some (payload ++ mssp_pair name value)).
Proof.
  intros Hn Hne Hc Hv Hl. unfold mssp_append_pair. rewrite Hc.
  assert (c_str value = value) as -> by (apply c_str_id; eapply Forall_impl; [exact Hv|]; intros b Hb; apply Hb).
  destruct (Z.eqb_spec (Zlen name) 0); [by destruct name|]. destruct (Z.gtb_spec (Zlen payload + 2 + Zlen name + Zlen value) size); [lia|].
  rewrite Hn. simpl negb. cbv iota. simpl orb. cbv iota. destruct (existsb _ value) eqn:He.
  2: { rewrite push_Some by lia. cbn [mbind option_bind]. rewrite append_Some by (rewrite Zlen_snoc; lia). cbn [mbind option_bind].
       rewrite push_Some by (rewrite !length_app; simpl; lia). cbn [mbind option_bind].
       rewrite append_Some by (rewrite !length_app; simpl; lia). cbn [mbind option_bind]. unfold mssp_pair.
       by rewrite <- !(assoc_L (++)). }
  apply existsb_exists in He as (b & Hin & Hb). unfold mssp_clean in Hv. rewrite List.Forall_forall in Hv.
  destruct (Hv b Hin) as (H1 & H2 & H3 & H4). breflect; lia.
Qed.

Lemma mssp_clean_decimal n : u64 n -> mssp_clean (decimal n) /\ Zlen (decimal n) <= 20.
Proof.
  intros (_ & Hd & _ & Hl)%decimal_spec. split; [|done]. eapply Forall_impl; [exact Hd|]. unfold is_digit, TELNET_IAC. lia.
Qed.

(** The text of a status field, with the program's fallback. *)
Definition mssp_text (field : list Z) : list Z :=
  match c_str field with [] => txt "mud-terminal-core" | text => text end.

Definition mssp_port (name : list Z) (port : Z) : list Z := if port =? 0 then [] else mssp_pair name (decimal port).

Lemma mssp_pair_length name value : Zlen (mssp_pair name value) = 2 + Zlen name + Zlen value.
Proof. unfold mssp_pair. simpl length. rewrite length_app. simpl length. lia. Qed.

Lemma mssp_text_ok field :
  Zlen (c_str field) < 80 -> mssp_clean (c_str field) -> mssp_clean (mssp_text field) /\ Zlen (mssp_text field) < 80.
Proof.
  intros Hl Hc. unfold mssp_text. destruct (c_str field) eqn:Ef; [|done]. split; [|done]. by apply (bool_decide_unpack _).
Qed.

(** Appending a pair of at most 100 bytes while there is room. *)
Lemma mssp_append_fits payload name value n :
  forallb (fun ch => ((65 <=? ch) && (ch <=? 90)) || (ch =? 32)) name = true -> name <> [] -> c_str name = name ->
  mssp_clean value -> Zlen name <= 8 -> Zlen value < 80 -> Zlen payload <= 90 * n -> n < 10 ->
  (forall pairs, mssp_append_pairs payload MSSP_PAYLOAD_MAX_BYTES ((name, value) :: pairs) =
     mssp_append_pairs (payload ++ mssp_pair name value) MSSP_PAYLOAD_MAX_BYTES pairs) /\
  Zlen (payload ++ mssp_pair name value) <= 90 * (n + 1).
Proof.
  intros H1 H2 H3 H4 H5 H6 H7 H8. split.
  { intros pairs. cbn [mssp_append_pairs]. by rewrite mssp_append_Some by (auto; unfold MSSP_PAYLOAD_MAX_BYTES; lia). }
  rewrite length_app, Nat2Z.inj_add, mssp_pair_length. lia.
Qed.

Lemma mssp_port_fits payload name port n :
  forallb (fun ch => ((65 <=? ch) && (ch <=? 90)) || (ch =? 32)) name = true -> name <> [] -> c_str name = name ->
  Zlen name <= 8 -> 0 <= port < 2 ^ 16 -> Zlen payload <= 90 * n -> n < 10 ->
  mssp_append_pairs payload MSSP_PAYLOAD_MAX_BYTES (if port =? 0 then [] else [(name, decimal port)])
    = Some (Some (payload ++ mssp_port name port)) /\ Zlen (payload ++ mssp_port name port) <= 90 * (n + 1).
Proof.
  intros. unfold mssp_port. destruct (port =? 0); [rewrite app_nil_r; split; [done|lia]|].
  destruct (mssp_clean_decimal port ltac:(unfold u64; lia)).
  destruct (mssp_append_fits payload name (decimal port) n) as [-> ?]; auto. lia.
Qed.

(** The status report is always complete.  For every snapshot whose name
    and code base fit their 80-byte fields and hold none of the bytes MSSP
    reserves, the encoder succeeds: the report fits its 2048-byte buffer and
    lists the five mandatory variables in order, numbers as decimals, then each
    configured port. *)
Theorem mssp_payload_complete status :
  Zlen (c_str (mssp_name status)) < 80 -> Zlen (c_str (mssp_codebase status)) < 80 ->
  mssp_clean (c_str (mssp_name status)) -> mssp_clean (c_str (mssp_codebase status)) ->
  0 <= mssp_players status < 2 ^ 32 -> u64 (mssp_uptime status) ->
  0 <= mssp_telnet_port status < 2 ^ 16 -> 0 <= mssp_telnet_tls_port status < 2 ^ 16 ->
  exists payload, mssp_payload status = Some (inr payload) /\ Zlen payload <= MSSP_PAYLOAD_MAX_BYTES /\
    payload = mssp_pair (txt "NAME") (mssp_text (mssp_name status)) ++
              mssp_pair (txt "PLAYERS") (decimal (mssp_players status)) ++
              mssp_pair (txt "UPTIME") (decimal (mssp_uptime status)) ++
              mssp_pair (txt "CHARSET") (txt "UTF-8") ++
              mssp_pair (txt "CODEBASE") (mssp_text (mssp_codebase status)) ++
              mssp_port (txt "PORT") (mssp_telnet_port status) ++
              mssp_port (txt "SSL") (mssp_telnet_tls_port status).
Proof.
  intros H1 H2 H3 H4 H5 H6 H7 H8. destruct (mssp_text_ok _ H1 H3) as [N1 N2]. destruct (mssp_text_ok _ H2 H4) as [B1 B2].
  destruct (mssp_clean_decimal (mssp_players status) ltac:(unfold u64; lia)) as [P1 P2].
  destruct (mssp_clean_decimal (mssp_uptime status) H6) as [U1 U2].
  unfold mssp_payload. fold (mssp_text (mssp_name status)) (mssp_text (mssp_codebase status)).
  destruct (mssp_append_fits [] (txt "NAME") (mssp_text (mssp_name status)) 0 eq_refl ltac:(done) eq_refl N1 ltac:(done) N2
    ltac:(done) ltac:(done)) as [-> L1].
  destruct (mssp_append_fits _ (txt "PLAYERS") (decimal (mssp_players status)) 1 eq_refl ltac:(done) eq_refl P1 ltac:(done) ltac:(lia)
    L1 ltac:(done)) as [-> L2].
  destruct (mssp_append_fits _ (txt "UPTIME") (decimal (mssp_uptime status)) 2 eq_refl ltac:(done) eq_refl U1 ltac:(done) ltac:(lia)
    L2 ltac:(done)) as [-> L3].
  destruct (mssp_append_fits _ (txt "CHARSET") (txt "UTF-8") 3 eq_refl ltac:(done) eq_refl ltac:(by apply (bool_decide_unpack _)) ltac:(done) ltac:(done)
    L3 ltac:(done)) as [-> L4].
  destruct (mssp_append_fits _ (txt "CODEBASE") (mssp_text (mssp_codebase status)) 4 eq_refl ltac:(done) eq_refl B1 ltac:(done) B2
    L4 ltac:(done)) as [-> L5].
  cbn [mssp_append_pairs mbind option_bind]. destruct (mssp_port_fits _ (txt "PORT") _ 5 eq_refl ltac:(done) eq_refl ltac:(done) H7 L5 ltac:(done)) as [-> L6]. cbn [mbind option_bind].
  destruct (mssp_port_fits _ (txt "SSL") _ 6 eq_refl ltac:(done) eq_refl ltac:(done) H8 L6 ltac:(done)) as [-> L7].
  eexists. split; [done|]. split; [unfold MSSP_PAYLOAD_MAX_BYTES; lia|]. by rewrite <- !(assoc_L (++)).
Qed.

(** * Concrete instances *)

Lemma rate_limit_bound_witness :
  amount_in 100 5000 (rate_run 10 5000 (mk_rate 0 0) [(10, 1); (6, 5000); (4, 5001); (6, 5002); (9, 9000); (10, 10001)]) <= 20.
Proof. apply (rate_limit_bound 10 5000 [(10, 1); (6, 5000); (4, 5001); (6, 5002); (9, 9000); (10, 10001)] 100); simpl; lia. Defined.

Lemma copy_printable_effects_witness :
  exists copied, copy_printable_ascii (txt "MUDLET" ++ 0 :: replicate 34 0) (txt "tin" ++ 7 :: txt "y") = Some (copied, false) /\
    c_str copied = txt "tinLET".
Proof.
  destruct (copy_printable_effects (txt "MUDLET" ++ 0 :: replicate 34 0) (txt "MUDLET") (replicate 34 0) []
    (txt "tin") 7 (txt "y") eq_refl) as (_ & _ & H).
  - by apply (bool_decide_unpack _).
  - unfold printable. by apply (bool_decide_unpack _).
  - unfold printable. lia.
  - constructor.
  - destruct H as (copied & E1 & E2); [by apply (bool_decide_unpack _)|]. exists copied. split; [exact E1|].
    apply E2. by apply (bool_decide_unpack _).
Defined.

Lemma mssp_payload_complete_witness :
  exists payload, mssp_payload (mk_mssp_status (txt "Riot") 12 86400 4000 0 []) = Some (inr payload) /\
    Zlen payload <= MSSP_PAYLOAD_MAX_BYTES.
Proof.
  destruct (mssp_payload_complete (mk_mssp_status (txt "Riot") 12 86400 4000 0 [])) as (payload & E1 & E2 & _).
  - by apply (bool_decide_unpack _).
  - by apply (bool_decide_unpack _).
  - unfold mssp_clean. by apply (bool_decide_unpack _).
  - constructor.
  - simpl. lia.
  - unfold u64. simpl. lia.
  - simpl. lia.
  - simpl. lia.
  - exists payload. split; [exact E1|exact E2].
Defined.
