(* ===== verification/HarnessApplication.v ===== *)
(** The sample application (app/harness_application.c) as an instance of the
    application interface, on a heap that can be misused; that no calls in
    order misuse it; and a Telnet session that runs it. *)
From S2P Require Import Prelude TelnetNegotiation AsciiText SecurityPolicy PlayerStore Application TelnetSession TelnetOptions.
From S2P Require Import TelnetLogin TelnetSubnegotiation TelnetParser TelnetOutput TelnetInvariant TelnetCapabilities.
From S2P Require Import TelnetDialogue TelnetTheorems TelnetStream TelnetReports.

(** * The application *)

Record harness_session := mk_harness { account_name : list Z; capabilities : terminal_capabilities }.

(** The heap: the objects that are allocated, what the coming calls of
    [calloc] do ([None] fails, [Some a] takes the address [a] if it is free), and
    whether the program has done what C leaves undefined: used an object that
    is not allocated, or freed it again.  An address that was freed may be
    handed out anew. *)
Record harness := mk_heap { live : gmap nat harness_session; memory : list (option nat); corrupted : bool }.

(** The address [calloc] returns, if any: never that of an allocated object. *)
Definition calloc (h : harness) : option nat * list (option nat) :=
  match memory h with
  | [] => (Some (fresh (dom (live h))), [])
  | None :: rest => (None, rest)
  | Some a :: rest => (Some (match live h !! a with Some _ => fresh (dom (live h)) | None => a end), rest)
  end.

(** [free] of an address. *)
Definition heap_free (h : harness) (a : nat) : harness :=
  match live h !! a with
  | Some _ => mk_heap (delete a (live h)) (memory h) (corrupted h)
  | None => mk_heap (live h) (memory h) true
  end.

(** A use of an object that is not allocated. *)
Definition misused (h : harness) : harness := mk_heap (live h) (memory h) true.

Definition line_equals (line word : list Z) : bool :=
  if negb (Zlen line =? strlen word) then false else equal_ignore_case line (c_str word).

Definition write_prompt {A} (k : app_prog A) : app_prog A := AppWritePrompt (Some (txt "> ")) k.

Definition application_open (h : harness) (name : list Z) (caps : terminal_capabilities) : app_prog (option nat * harness) :=
  let '(allocated, memory') := calloc h in
  match allocated with
  | None => AppRet (None, mk_heap (live h) memory' (corrupted h))
  | Some handle =>
      let h' := mk_heap (<[handle := mk_harness (c_str name) caps]> (live h)) memory' (corrupted h) in
      if Zlen (c_str name) >=? PLAYER_NAME_MAX + 1 then AppRet (None, heap_free h' handle)
      else
        AppWriteText (Some ([LF] ++ txt "Authenticated terminal session." ++ [LF] ++
          txt "Type PING to test the session, HELP for commands, or QUIT to disconnect." ++ [LF]))
          (write_prompt (AppRet (Some handle, h')))
  end.

Definition yes_no (b : bool) : list Z := if b then txt "yes" else txt "no".

Definition capability_summary (c : terminal_capabilities) : list Z :=
  txt "transport=" ++ (if cap_secure_transport c then txt "secure" else txt "plain") ++
  txt " terminal=" ++ (match c_str (cap_terminal_type c) with [] => txt "UNKNOWN" | t => t end) ++
  txt " size=" ++ decimal (cap_width c) ++ txt "x" ++ decimal (cap_height c) ++
  txt " utf8=" ++ yes_no (cap_utf8 c) ++ txt " ansi=" ++ yes_no (cap_ansi c) ++
  txt " 256color=" ++ yes_no (cap_color_256 c) ++ txt " truecolor=" ++ yes_no (cap_truecolor c) ++
  txt " screen_reader=" ++ yes_no (cap_screen_reader c) ++ txt " gmcp=" ++ yes_no (cap_gmcp c) ++
  txt " osc8=" ++ yes_no (cap_osc8 c) ++ [LF].

Definition write_capabilities {A} (session : harness_session) (k : app_prog A) : app_prog A :=
  let buffer := capability_summary (capabilities session) in
  AppWriteText (Some (if Zlen buffer >=? 512 then txt "Capability summary is too large to display." ++ [LF] else buffer)) k.

(** The transports call the hooks with a session only, so that the tests for
    NULL do not come into it. *)
Definition application_line (h : harness) (handle : nat) (line : list Z) : app_prog (Z * harness) :=
  match live h !! handle with
  | None => AppRet (1, misused h)
  | Some session =>
      let prompt := write_prompt (AppRet (0, h)) in
      if line_equals line (txt "PING") then AppWriteText (Some (txt "PONG" ++ [LF])) prompt
      else if line_equals line (txt "WHOAMI") then
        if Zlen (account_name session ++ [LF]) <? 64 then AppWriteText (Some (account_name session ++ [LF])) prompt else prompt
      else if line_equals line (txt "CAPS") then write_capabilities session prompt
      else if line_equals line (txt "LINK") then
        AppWriteLink (Some (txt "https://github.com/riotcore/mud-terminal-core")) (Some (txt "project repository"))
          (fun _ => AppWriteText (Some [LF]) prompt)
      else if line_equals line (txt "HELP") then
        AppWriteText (Some (txt "Commands: HELP, PING, WHOAMI, CAPS, LINK, QUIT" ++ [LF])) prompt
      else if line_equals line (txt "QUIT") then AppRequestClose (Some (txt "Goodbye." ++ [LF])) (AppRet (1, h))
      else if negb (Zlen line =? 0) then AppWriteText (Some (txt "Unknown harness command. Type HELP." ++ [LF])) prompt
      else prompt
  end.

Definition application_capabilities_changed (h : harness) (handle : nat) (caps : terminal_capabilities) : app_prog harness :=
  AppRet (match live h !! handle with
          | Some s => mk_heap (<[handle := mk_harness (account_name s) caps]> (live h)) (memory h) (corrupted h)
          | None => misused h
          end).

Definition application_gmcp (h : harness) (handle : nat) (package_name json_payload : list Z) : app_prog harness := AppRet h.
Definition application_poll (h : harness) (handle : nat) : app_prog (Z * harness) := AppRet (0, h).
Definition application_close (h : harness) (handle : nat) : harness := heap_free h handle.

Definition harness_application_hooks : terminal_application_hooks harness := {|
  hook_open := Some application_open;
  hook_line := Some application_line;
  hook_capabilities_changed := Some application_capabilities_changed;
  hook_gmcp := Some application_gmcp;
  hook_poll := Some application_poll;
  hook_close := Some application_close
|}.

(** * The heap *)

(** Account names fit their arrays. *)
Definition heap_ok (h : harness) : Prop := forall a s, live h !! a = Some s -> Zlen (account_name s) <= PLAYER_NAME_MAX.

Lemma calloc_free h handle memory' : calloc h = (Some handle, memory') -> live h !! handle = None.
Proof.
  assert (live h !! fresh (dom (live h)) = None) as Hf by (apply not_elem_of_dom; apply is_fresh).
  unfold calloc. destruct (memory h) as [|[a|] rest]; [by intros [= <- _]| |done].
  destruct (live h !! a) eqn:Ea; by intros [= <- _].
Qed.

(** What the transport holds of the heap: nothing besides the sessions [others],
    or one session of its own. *)
Definition holds (others : gmap nat harness_session) (x : option nat * harness) : Prop :=
  corrupted x.2 = false /\
  match x.1 with
  | None => live x.2 = others
  | Some a => others !! a = None /\ exists s, live x.2 = <[a := s]> others
  end.

Lemma open_holds others h name caps o h' :
  holds others (None, h) -> may_end (application_open h name caps) (o, h') -> holds others (o, h').
Proof.
  intros [Hc Hl]. simpl in Hc, Hl. unfold application_open, write_prompt. destruct (calloc h) as [[handle|] memory'] eqn:Ea.
  - apply calloc_free in Ea. destruct (_ >=? _); simpl; intros [= <- <-].
    + unfold heap_free, holds. simpl. rewrite lookup_insert_eq. simpl. split; [done|]. by rewrite delete_insert_eq, delete_id.
    + split; [done|]. simpl. rewrite <- Hl. eauto.
  - simpl. intros [= <- <-]. by split.
Qed.

Lemma line_holds others h handle line r h' :
  holds others (Some handle, h) -> may_end (application_line h handle line) (r, h') -> holds others (Some handle, h').
Proof.
  intros Hh. destruct Hh as [Hc (Hf & s & Hl)] eqn:E. clear E. unfold application_line, write_capabilities, write_prompt.
  assert (live h !! handle = Some s) as -> by (simpl in Hl; by rewrite Hl, lookup_insert_eq).
  repeat (case_test; [simpl; repeat case_test; simpl; try (intros [_ H]); try intros H; injection H as _ <-; exact Hh|]).
  simpl. intros H. injection H as _ <-. exact Hh.
Qed.

Lemma changed_holds others h handle caps :
  holds others (Some handle, h) ->
  forall h', may_end (application_capabilities_changed h handle caps) h' -> holds others (Some handle, h').
Proof.
  intros [Hc (Hf & s & Hl)] h' <-. simpl in Hc, Hl. rewrite Hl, lookup_insert_eq. split; [done|]. split; [done|]. simpl.
  rewrite insert_insert_eq. eauto.
Qed.

Lemma close_holds others h handle : holds others (Some handle, h) -> holds others (None, application_close h handle).
Proof.
  intros [Hc (Hf & s & Hl)]. simpl in Hc, Hl. unfold application_close, heap_free. rewrite Hl, lookup_insert_eq.
  split; [done|]. simpl. by rewrite delete_insert_eq, delete_id.
Qed.

(** Calls in order never misuse the heap: what is used is allocated, what is
    freed was allocated, and the sessions of others are left alone. *)
Lemma hook_call_holds others x y : hook_call harness_application_hooks x y -> holds others x -> holds others y.
Proof.
  destruct 1 as [? h name caps o h' [= <-] He|? h handle line r h' [= <-] He|? h handle caps h' [= <-] He|
    ? h handle p j h' [= <-] He|? h handle r h' [= <-] He|? h handle [= <-]]; intros Hx.
  - by eapply open_holds.
  - by eapply line_holds.
  - by eapply changed_holds.
  - simpl in He. by subst.
  - simpl in He. by injection He as _ <-.
  - by apply close_holds.
Qed.

Lemma hook_calls_hold others x y : hook_calls harness_application_hooks x y -> holds others x -> holds others y.
Proof. induction 1 as [|x y z Hxy _ IH]; [done|]. intros Hx. by eapply IH, hook_call_holds. Qed.

(** ** Many connections on one heap *)

(** One of the connections makes a call in order; each has the session pointer
    it holds in [conns]. *)
Inductive crowd_call : list (option nat) * harness -> list (option nat) * harness -> Prop :=
| crowd_step conns i o h o' h' :
    conns !! i = Some o -> hook_call harness_application_hooks (o, h) (o', h') -> crowd_call (conns, h) (<[i := o']> conns, h').

(** Nothing undefined has happened, the allocated sessions are those somebody
    holds, and nobody holds the session of another. *)
Record crowd_ok (x : list (option nat) * harness) : Prop := mk_crowd_ok {
  cr_sound : corrupted x.2 = false;
  cr_held : forall a, is_Some (live x.2 !! a) <-> Some a ∈ x.1;
  cr_own : forall i j a, x.1 !! i = Some (Some a) -> x.1 !! j = Some (Some a) -> i = j
}.

Lemma crowd_holds conns h i o :
  crowd_ok (conns, h) -> conns !! i = Some o ->
  exists others, holds others (o, h) /\ forall a, is_Some (others !! a) <-> exists j, j <> i /\ conns !! j = Some (Some a).
Proof.
  intros [H1 H2 H3] Hi. simpl in *. assert (forall a, Some a ∈ conns <-> exists j, conns !! j = Some (Some a)) as He
    by (intros; apply list_elem_of_lookup). destruct o as [a|].
  - exists (delete a (live h)). split.
    + split; [done|]. split; [by apply lookup_delete_eq|]. destruct (H2 a) as [_ [s Hs]]; [apply He; eauto|].
      exists s. simpl. by rewrite insert_delete_eq, insert_id.
    + intros b. destruct (decide (a = b)) as [<-|Hab].
      * rewrite lookup_delete_eq. split; [by intros []|]. intros (j & Hj & Ej). destruct Hj. by eapply H3.
      * rewrite lookup_delete_ne, H2, He by done. split; [|intros (j & _ & Ej); eauto]. intros (j & Ej). exists j. split; [|done]. intros ->. congruence.
  - exists (live h). split; [done|]. intros b. rewrite H2, He. split; [|intros (j & _ & Ej); eauto]. intros (j & Ej). exists j. split; [|done]. intros ->. congruence.
Qed.

Lemma holds_crowd conns i o others h :
  holds others (o, h) -> (i < length conns)%nat ->
  (forall a, is_Some (others !! a) <-> exists j, j <> i /\ conns !! j = Some (Some a)) ->
  (forall j k a, j <> i -> k <> i -> conns !! j = Some (Some a) -> conns !! k = Some (Some a) -> j = k) ->
  crowd_ok (<[i := o]> conns, h).
Proof.
  intros [Hc Hl] Hi Ho Hown. simpl in Hc, Hl.
  assert (forall j x, <[i := o]> conns !! j = Some x <-> j = i /\ x = o \/ j <> i /\ conns !! j = Some x) as Hlook.
  { intros j x. destruct (decide (j = i)) as [->|Hj].
    - rewrite list_lookup_insert_eq by done. split; [intros [= <-]; auto|by intros [[_ ->]|[? _]]].
    - rewrite list_lookup_insert_ne by done. split; [auto|by intros [[? _]|[_ ?]]]. }
  split; simpl; [done| |].
  - intros a. rewrite list_elem_of_lookup. setoid_rewrite Hlook. destruct o as [b|].
    + destruct Hl as (Hf & s & ->). destruct (decide (a = b)) as [->|Hab].
      * rewrite lookup_insert_eq. split; eauto.
      * rewrite lookup_insert_ne, Ho by done. split; intros (j & Hj); exists j; [by right|]. destruct Hj as [[_ [=]]|Hj]; done.
    + rewrite Hl, Ho. split; intros (j & Hj); exists j; [by right|]. by destruct Hj as [[_ [=]]|Hj].
  - intros j k a. rewrite !Hlook. intros [[-> Ej]|[Hj Ej]] [[-> Ek]|[Hk Ek]]; [done| | |by eapply Hown].
    + subst o. destruct Hl as (Hf & _). assert (is_Some (others !! a)) as [? ?] by (apply Ho; eauto). congruence.
    + subst o. destruct Hl as (Hf & _). assert (is_Some (others !! a)) as [? ?] by (apply Ho; eauto). congruence.
Qed.

(** However the calls of the connections interleave, the heap is never misused
    and no two of them ever share a session. *)
Theorem crowd_safe x y : rtc crowd_call x y -> crowd_ok x -> crowd_ok y.
Proof.
  induction 1 as [|x y z [conns i o h o' h' Hi Hcall] _ IH]; [done|]. intros Hx. apply IH.
  destruct (crowd_holds conns h i o Hx Hi) as (others & Hh & Ho). eapply holds_crowd.
  - by eapply hook_call_holds.
  - by eapply lookup_lt_Some.
  - done.
  - intros j k a _ _. apply (cr_own _ Hx).
Qed.

(** * Text *)

Lemma yes_no_length b : Zlen (yes_no b) <= 3.
Proof. by destruct b. Qed.

(** The capability summary always fits.  For every terminal of 16-bit size
    and a terminal name of at most 40 bytes the summary is shorter than its
    512-byte buffer, so CAPS never answers that it is too large to display; and
    WHOAMI answers with the account name for every session of the heap. *)
Theorem harness_texts_fit h a s :
  heap_ok h -> live h !! a = Some s ->
  0 <= cap_width (capabilities s) < 2 ^ 16 -> 0 <= cap_height (capabilities s) < 2 ^ 16 ->
  Zlen (c_str (cap_terminal_type (capabilities s))) <= 40 ->
  application_line h a (txt "caps") =
    AppWriteText (Some (capability_summary (capabilities s))) (write_prompt (AppRet (0, h))) /\
  application_line h a (txt "WhoAmI") = AppWriteText (Some (account_name s ++ [LF])) (write_prompt (AppRet (0, h))).
Proof.
  intros Hok Hs Hw Hh Ht. unfold application_line. rewrite Hs. split.
  - change (line_equals (txt "caps") (txt "PING")) with false. change (line_equals (txt "caps") (txt "WHOAMI")) with false.
    change (line_equals (txt "caps") (txt "CAPS")) with true. cbv iota zeta. unfold write_capabilities. cbv zeta.
    assert (Zlen (capability_summary (capabilities s)) < 512) as Hl; [|by destruct (Z.geb_spec (Zlen (capability_summary (capabilities s))) 512); [lia|]].
    destruct (decimal_spec (cap_width (capabilities s)) ltac:(unfold u64; lia)) as (_ & _ & _ & Lw).
    destruct (decimal_spec (cap_height (capabilities s)) ltac:(unfold u64; lia)) as (_ & _ & _ & Lh).
    unfold capability_summary.
    assert (Zlen (match c_str (cap_terminal_type (capabilities s)) with [] => txt "UNKNOWN" | t => t end) <= 40) as Lt
      by (by destruct (c_str _)).
    assert (Zlen (if cap_secure_transport (capabilities s) then txt "secure" else txt "plain") <= 6) as Ls by (by case_test).
    repeat rewrite length_app. repeat match goal with |- context [length (yes_no ?b)] =>
      let L := fresh in pose proof (yes_no_length b) as L; revert L; generalize (length (yes_no b)); intros ? ? end.
    repeat match goal with |- context [length (txt ?t)] => let n := eval vm_compute in (length (txt t)) in change (length (txt t)) with n end.
    cbn [length]. lia.
  - change (line_equals (txt "WhoAmI") (txt "PING")) with false. change (line_equals (txt "WhoAmI") (txt "WHOAMI")) with true. cbv iota zeta.
    pose proof (Hok a s Hs) as Hn. unfold PLAYER_NAME_MAX in Hn. rewrite length_app. cbn [length].
    by destruct (Z.ltb_spec (Z.of_nat (length (account_name s) + 1)) 64); [|lia].
Qed.

(** * A session that runs the application *)

Definition harness_environment {P : Pwhash} {T : Mkstemp} (query : option (nat -> telnet_mssp_status)) (directory : list Z)
    : Environment := {|
  env_pwhash := P;
  env_mkstemp := T;
  AppState := harness;
  application := harness_application_hooks;
  mssp_query := query;
  store_directory := directory
|}.

Section quit.
Context {P : Pwhash} {T : Mkstemp} (query : option (nat -> telnet_mssp_status)) (directory : list Z).
#[local] Instance quit_environment : Environment := harness_environment query directory.

Lemma request_close_run event message w :
  close_requested (session w) = false ->
  exists w', request_close (Some event) (Some message) w = Some (tt, w') /\
    session w' = (session w) <| close_requested := true |> /\ sent w' = sent w ++ quote_iac (c_str message) /\
    app_state w' = app_state w.
Proof.
  intros Hc. unfold request_close, mbind, M_bind, get_session, gets. rewrite Hc. unfold write_text. rewrite write_telnet_data_run.
  unfold upd, modify, audit. eexists. split; [done|]. unfold emits, sent. rewrite Hc. simpl.
  by rewrite concat_app, concat_filter_nonempty, telnet_chunks_concat.
Qed.

Lemma quote_iac_id data : Forall (fun b => b <> TELNET_IAC) data -> quote_iac data = data.
Proof.
  induction 1 as [|b data Hb Hd IH]; [done|]. unfold quote_iac. cbn [flat_map]. fold (quote_iac data).
  destruct (Z.eqb_spec b TELNET_IAC); [done|]. by rewrite IH.
Qed.

Lemma quit_letters word b : map ascii_lower word = txt "quit" -> b ∈ word -> line_byte b /\ b <> TELNET_IAC.
Proof.
  intros H Hb. assert (ascii_lower b ∈ txt "quit") as Hin by (rewrite <- H; by apply list_elem_of_fmap_2).
  unfold txt in Hin. simpl in Hin. unfold line_byte, TELNET_IAC. unfold ascii_lower in Hin. revert Hin. case_test; breflect;
    intros Hin; rewrite !elem_of_cons, elem_of_nil in Hin; lia.
Qed.

Lemma quit_line h handle session word :
  live h !! handle = Some session -> map ascii_lower word = txt "quit" ->
  application_line h handle word = AppRequestClose (Some (txt "Goodbye." ++ [LF])) (AppRet (1, h)).
Proof.
  intros Hs Hw. unfold application_line. rewrite Hs.
  assert (forall other, line_equals word other = bool_decide (map ascii_lower (c_str other) = txt "quit")) as Heq.
  { intros other. unfold line_equals, strlen. destruct (Z.eqb_spec (Zlen word) (Zlen (c_str other))) as [E|E]; simpl.
    - apply eq_true_iff_eq. rewrite bool_decide_eq_true, equal_ignore_case_iff, Hw. split; congruence.
    - symmetry. apply bool_decide_eq_false. intros H. rewrite <- Hw in H. apply (f_equal length) in H. rewrite !length_map in H. lia. }
  by rewrite !Heq.
Qed.

(** The command is handled when its line is complete. *)
Lemma quit_command now w handle s :
  close_requested (session w) = false -> login (session w) = LOGIN_IN_GAME -> line_overflow (session w) = false ->
  application_session (session w) = Some handle -> live (app_state w) !! handle = Some s ->
  map ascii_lower (line (session w)) = txt "quit" ->
  snd (rate_consume (line_window (session w)) 1 INPUT_LINES_PER_WINDOW INPUT_LINES_WINDOW_MS now) = true ->
  snd (rate_consume (command_window (session w)) 1 COMMANDS_PER_WINDOW COMMANDS_WINDOW_MS now) = true ->
  exists w', process_complete_line now w = Some (tt, w') /\ close_requested (session w') = true /\
    sent w' = sent w ++ txt "Goodbye." ++ [LF].
Proof.
  intros Hc Hl Hov Happ Hs Hw Hrate Hcmd.
  assert (wp (process_complete_line now) (fun _ w' => close_requested (session w') = true /\
    sent w' = sent w ++ txt "Goodbye." ++ [LF]) w) as Hwp.
  2: { destruct (wp_run _ _ _ Hwp) as ([] & w' & E1 & E2). by exists w'. }
  unfold process_complete_line. apply wp_session.
  destruct (rate_consume (line_window _) _ _ _ _) as [window ok]. simpl in Hrate. subst ok. apply wp_bind, wp_upd.
  simpl negb. cbv iota. rewrite Hov, Hl.
  assert (Zlen (line (session w)) = 4) as Hlen.
  { apply (f_equal length) in Hw. rewrite length_map in Hw. change (length (txt "quit")) with 4%nat in Hw. lia. }
  rewrite Hlen. apply wp_bind. eapply wp_lift; [reflexivity|]. apply wp_bind. unfold process_command. apply wp_session.
  simpl command_window. destruct (rate_consume (command_window _) _ _ _ _) as [window2 ok]. simpl in Hcmd. subst ok.
  apply wp_bind, wp_upd. simpl negb. cbv iota. simpl application_session. rewrite Happ. simpl hook_line. cbv iota.
  apply wp_bind. unfold call_app. apply wp_bind, wp_gets. simpl app_state. simpl line.
  rewrite (quit_line _ _ s) by done. apply wp_bind. cbn [run_app out_request_close telnet_output]. apply wp_bind.
  unfold application_request_close. edestruct request_close_run as (w2 & E1 & E2 & E3 & E4); [|unfold wp at 1; rewrite E1].
  { done. }
  apply wp_ret, wp_bind, wp_modify, wp_ret, wp_when; [intros _|done]. unfold request_close. apply wp_session. simpl. rewrite E2. simpl.
  apply wp_ret, wp_upd. simpl. rewrite E2. split; [done|]. exact E3.
Qed.

(** QUIT quits, end to end.  In a session in the game that runs the
    application, typing QUIT in any letter case, within the rate limits, closes
    the session: the feed returns -1, and the last bytes sent are the farewell.
    It ends in a bare line feed: closing messages of the application do not get
    the CR that its other output does. *)
Theorem quit_closes now word w handle s :
  close_requested (session w) = false -> login (session w) = LOGIN_IN_GAME ->
  parser (session w) = PARSER_DATA -> pending_cr (session w) = false -> line (session w) = [] ->
  line_overflow (session w) = false ->
  application_session (session w) = Some handle -> live (app_state w) !! handle = Some s ->
  map ascii_lower word = txt "quit" ->
  snd (rate_consume (byte_window (session w)) (Zlen (word ++ crlf)) INPUT_BYTES_PER_WINDOW INPUT_BYTES_WINDOW_MS now) = true ->
  snd (rate_consume (line_window (session w)) 1 INPUT_LINES_PER_WINDOW INPUT_LINES_WINDOW_MS now) = true ->
  snd (rate_consume (command_window (session w)) 1 COMMANDS_PER_WINDOW COMMANDS_WINDOW_MS now) = true ->
  exists w', telnet_session_feed_at (word ++ crlf) now w = Some (-1, w') /\
    telnet_session_should_close (session w') = true /\ sent w' = sent w ++ txt "Goodbye." ++ [LF].
Proof.
  intros Hc Hl Hp Hcr Hline Hov Happ Hs Hw Hbytes Hlines Hcmds.
  assert (Forall line_byte word /\ Forall (fun b => b <> TELNET_IAC) word) as [Hw1 Hw2].
  { split; apply Forall_forall; intros b Hb; by apply (quit_letters word b). }
  unfold telnet_session_feed_at, mbind, M_bind, get_session, gets. rewrite Hc.
  destruct (rate_consume (byte_window _) _ _ _ _) as [window ok]. simpl in Hbytes. subst ok.
  set (w1 := w <| session := (session w) <| byte_window := window |> |>).
  change (upd (fun s => s <| byte_window := window |>) w) with (Some (tt, w1)). cbv beta iota delta [negb].
  replace (word ++ crlf) with (quote_iac word ++ [CR; LF]) by (by rewrite (quote_iac_id word Hw2)).
  assert (Zlen word <= line_limit (login (session w1))) as Hlen.
  { apply (f_equal length) in Hw. rewrite length_map in Hw. change (length (txt "quit")) with 4%nat in Hw.
    simpl. rewrite Hl. unfold line_limit, APPLICATION_LINE_MAX. simpl. lia. }
  rewrite (type_line now word [] w1 Hp Hcr Hline Hc Hw1 Hlen).
  destruct (quit_command now (typing word w1) handle s Hc Hl Hov Happ Hs Hw Hlines Hcmds) as (w2 & E1 & E2 & E3).
  unfold mbind, M_bind. rewrite E1. simpl. rewrite E2. by exists w2.
Qed.
End quit.

(** * Concrete instances *)

Definition plain_terminal : terminal_capabilities :=
  mk_capabilities 80 24 true true false false false false false false false false false (txt "XTERM" ++ [0]) [] [].

Definition one_session : harness := mk_heap (<[0%nat := mk_harness (txt "Alice") plain_terminal]> ∅) [] false.

Lemma one_session_ok : heap_ok one_session.
Proof.
  intros a s. simpl. rewrite lookup_insert_Some. intros [[<- <-]|[_ H]]; [|by rewrite lookup_empty in H].
  by apply (bool_decide_unpack _).
Qed.

Lemma harness_texts_fit_witness :
  application_line one_session 0 (txt "caps") =
    AppWriteText (Some (capability_summary plain_terminal)) (write_prompt (AppRet (0, one_session))).
Proof.
  destruct (harness_texts_fit one_session 0 (mk_harness (txt "Alice") plain_terminal)) as [H _].
  - exact one_session_ok.
  - reflexivity.
  - simpl. lia.
  - simpl. lia.
  - by apply (bool_decide_unpack _).
  - exact H.
Defined.
