(* ===== verification/TelnetClaims.v ===== *)
(** What one Telnet session promises over its whole life: any sequence of
    start, feed and poll. *)
From S2P Require Import Prelude TelnetNegotiation TerminalText AsciiText SecurityPolicy RecordTable PolicyInvariant.
From S2P Require Import PolicyTheorems PlayerStore PlayerStoreTheorems PlayerRecords PlayerAccounts Application.
From S2P Require Import TelnetSession TelnetOptions TelnetLogin TelnetSubnegotiation TelnetParser TelnetOutput.
From S2P Require Import TelnetInvariant TelnetCapabilities TelnetDialogue TelnetTheorems.
From S2P Require Import TelnetStream TelnetProgress TelnetReports HarnessApplication.

(** * Lives of a session *)

Inductive session_op := OpStart | OpFeed (data : list Z) (now : Z) | OpPoll.

Definition op_ok (op : session_op) : Prop :=
  match op with OpFeed data now => Forall is_byte data /\ u64 now | _ => True end.

Section life.
Context {E : Environment}.

Definition session_do (op : session_op) : M world Z :=
  match op with
  | OpStart => telnet_session_start ;; mret 0
  | OpFeed data now => telnet_session_feed_at data now
  | OpPoll => telnet_session_poll
  end.

Fixpoint session_run (ops : list session_op) : M world (list Z) :=
  match ops with
  | [] => mret []
  | op :: ops => r ← session_do op; rs ← session_run ops; mret (r :: rs)
  end.

(** The world of a new session. *)
Definition new_world (s : telnet_session) (p : security_policy) (st : store_world) (a : AppState) : world :=
  mk_world E s p st [] [] 0 a.

(** The world in which a feed starts parsing: its bytes are charged first. *)
Definition charged (data : list Z) (now : Z) (w : world) : world :=
  w <| session := (session w) <| byte_window :=
    fst (rate_consume (byte_window (session w)) (Zlen data) INPUT_BYTES_PER_WINDOW INPUT_BYTES_WINDOW_MS now) |> |>.

(** Somewhere in [ops], run from [w], a byte of a feed arrives in a state [wi]
    whose line authenticates the player that [w'] holds. *)
Definition authenticated_in (ops : list session_op) (w w' : world) : Prop :=
  exists ops1 data now ops2 rs1 w1 before byte after wi,
    ops = ops1 ++ OpFeed data now :: ops2 /\ session_run ops1 w = Some (rs1, w1) /\
    data = before ++ byte :: after /\ parse_bytes now before (charged data now w1) = Some (tt, wi) /\
    authenticated now wi (dialogue_of (session wi)) /\ player_name (session wi) = player_name (session w').

Context {PL : PwhashLaws env_pwhash} {ML : MkstempLaws env_mkstemp}.

Lemma string41_array text : (length text <= 40)%nat -> string41 (string_array 41 text).
Proof.
  intros H. unfold string41, string_array. rewrite length_app, length_replicate. split; [lia|].
  rewrite lookup_app_r by lia. apply lookup_replicate_2. lia.
Qed.

Lemma new_world_ok remote secure s p st a :
  telnet_session_create remote secure = Some s -> policy_ok p -> world_ok (new_world s p st a).
Proof.
  unfold telnet_session_create. destruct (_ >=? _); [done|]. intros [= <-] Hp.
  assert (length (txt "UNKNOWN") <= 40)%nat by (apply Nat.leb_le; reflexivity).
  split; simpl; [| |by constructor| |by constructor|done].
  - constructor; simpl; unfold MIN_TERMINAL_WIDTH, MAX_TERMINAL_WIDTH, MIN_TERMINAL_HEIGHT, MAX_TERMINAL_HEIGHT,
      DEFAULT_TERMINAL_WIDTH, DEFAULT_TERMINAL_HEIGHT, TERMINAL_TYPE_REQUEST_LIMIT, PENDING_GMCP_CORE_MAX,
      PROTOCOL_VIOLATION_LIMIT; try lia; auto using q_ok_init, string41_array. by constructor.
  - done.
  - constructor; simpl; auto; try done; unfold line_limit, APPLICATION_LINE_MAX, INPUT_LINES_PER_WINDOW, COMMANDS_PER_WINDOW; simpl; try lia.
Qed.

(** ** Start, feed and poll *)

Lemma request_close_closes event message w :
  wp (request_close event message) (fun _ w' => close_requested (session w') = true) w.
Proof.
  unfold request_close. apply wp_session, wp_if; intros Hc; [by apply wp_ret|]. apply wp_bind.
  assert (forall w1 : world, wp (upd (fun s => s <| close_requested := true |>) ;;
    match event with Some e => audit e (txt "session close requested") | None => mret tt end)
    (fun _ w' => close_requested (session w') = true) w1) as Hend.
  { intros w1. apply wp_bind, wp_upd. destruct event; [by apply wp_modify|by apply wp_ret]. }
  destruct message; [|by apply wp_ret]. unfold wp at 1, write_text. by rewrite write_telnet_data_run.
Qed.


Lemma steady_run {A} w (m : M world A) :
  (forall w1, good true w w1 -> wp m (fun _ => good true w) w1) -> world_ok w ->
  wp m (fun _ w' => world_ok w' /\ evolves w w' /\ dialogue_of (session w') = dialogue_of (session w)) w.
Proof.
  intros Hm Hw. eapply wp_mono; [apply (talk_steady w w (dialogue_of (session w)) m Hm); by apply talk_start|].
  intros a w' Ht. cbv beta in Ht. split; [eapply talk_finish; [done|exact Ht|apply Hw]|]. split; apply Ht.
Qed.

Lemma start_ok w : world_ok w ->
  wp telnet_session_start (fun _ w' => world_ok w' /\ evolves w w' /\ dialogue_of (session w') = dialogue_of (session w)) w.
Proof.
  intros Hw. unfold telnet_session_start. apply wp_session. apply wp_if; intros _.
  { apply wp_ret. auto using evolves_refl. }
  apply wp_bind, wp_upd. set (f := fun s => s <| started := true |>).
  assert (parser_store f w) as Hf.
  { unfold parser_store; split_and!; [reflexivity..|core_tac|core_tac|]. intros []; by constructor. }
  eapply wp_mono; [apply steady_run; [|by apply (parser_store_ok f)]|].
  - intros w1 Hg. generalize banner. intros b. tel.
  - intros [] w' (H1 & H2 & H3). split; [done|]. split; [|done]. eapply evolves_trans; [by apply (evolves_session w f)|done].
Qed.

Lemma poll_ok w : world_ok w ->
  wp telnet_session_poll (fun r w' => world_ok w' /\ evolves w w' /\ dialogue_of (session w') = dialogue_of (session w) /\
    (r = if close_requested (session w') then -1 else 0)) w.
Proof.
  intros Hw. unfold telnet_session_poll. apply wp_session. apply wp_if; intros Hc.
  { apply wp_ret. rewrite Hc. auto using evolves_refl. }
  apply wp_bind. eapply wp_mono; [apply steady_run; [|exact Hw]|].
  - intros w1 Hg. destruct (application_session (session w)) eqn:Eh, (hook_poll application) eqn:Ep; [|by apply wp_ret..].
    apply wp_bind. eapply wp_mono; [by eapply poll_call_good|]. intros r w2 Hg2. by apply wp_ret.
  - intros stop w1 (H1 & H2 & H3). destruct stop.
    + apply wp_bind. eapply wp_mono; [apply wp_and; [apply steady_run; [|exact H1]; intros; solve [eauto with session]|
        apply request_close_closes]|].
      intros [] w2 [(G1 & G2 & G3) G4]. apply wp_ret. rewrite G4. split_and!; auto; [by eapply evolves_trans|congruence].
    + apply wp_session, wp_ret. done.
Qed.

Lemma feed_ok data now w : world_ok w -> Forall is_byte data -> u64 now ->
  wp (telnet_session_feed_at data now) (fun r w' => world_ok w' /\ evolves w w' /\
    (r = if close_requested (session w') then -1 else 0) /\
    (login (session w) = LOGIN_IN_GAME ->
       login (session w') = LOGIN_IN_GAME /\ player_name (session w') = player_name (session w)) /\
    enters now data (charged data now w) w') w.
Proof.
  intros Hw Hdata Hnow. unfold charged. unfold telnet_session_feed_at. apply wp_session. apply wp_if; intros Hc.
  { apply wp_ret. rewrite Hc. split_and!; auto using evolves_refl. by intros ??. }
  pose proof (rate_consume_ok (byte_window (session w)) (Zlen data) INPUT_BYTES_PER_WINDOW INPUT_BYTES_WINDOW_MS now ltac:(lia)
    (ok_bytes_window _ (wo_parser w Hw))) as Hwin.
  destruct (rate_consume _ _ _ _ _) as [window ok]. simpl in Hwin |- *. apply wp_bind, wp_upd.
  set (f := fun s => s <| byte_window := window |>).
  assert (parser_store f w) as Hf.
  { unfold parser_store; split_and!; [reflexivity..|core_tac|core_tac|]. intros []; by constructor. }
  pose proof (parser_store_ok f w Hf Hw) as Hw1. pose proof (evolves_session w f eq_refl eq_refl) as Hev1.
  fold f. set (w1 := w <| session := f (session w) |>) in *. apply wp_if; intros Hb.
  - apply wp_bind. eapply wp_mono; [apply wp_and; [apply steady_run; [|exact Hw1]; intros; solve [eauto with session]|
      apply request_close_closes]|].
    intros [] w2 [(G1 & G2 & G3) G4]. apply wp_ret. rewrite G4.
    assert (login (session w2) = login (session w) /\ player_name (session w2) = player_name (session w)) as [El En].
    { unfold dialogue_of in G3. injection G3. intros. split; congruence. }
    split_and!; auto; [by eapply evolves_trans|intros; split; congruence|]. intros Hl Hl2. by rewrite El in Hl2.
  - apply wp_bind. eapply wp_mono; [by apply parse_bytes_fed|]. intros [] w2 [H1 H2 H3 H4 H5].
    apply wp_session, wp_ret. split_and!; auto. by eapply evolves_trans.
Qed.

(** ** Sequences of operations *)

Record lived (ops : list session_op) (w : world) (rs : list Z) (w' : world) : Prop := mk_lived {
  lv_ok : world_ok w';
  lv_evolves : evolves w w';
  lv_results : length rs = length ops;
  lv_closed : -1 ∈ rs -> close_requested (session w') = true;
  lv_game : login (session w) = LOGIN_IN_GAME ->
            login (session w') = LOGIN_IN_GAME /\ player_name (session w') = player_name (session w);
  lv_enters : login (session w) <> LOGIN_IN_GAME -> login (session w') = LOGIN_IN_GAME -> authenticated_in ops w w'
}.

Lemma same_dialogue (s s' : telnet_session) : dialogue_of s' = dialogue_of s -> login s' = login s /\ player_name s' = player_name s.
Proof. unfold dialogue_of. intros [=]. by split. Qed.

Lemma session_do_lived op w : world_ok w -> op_ok op -> wp (session_do op) (fun r w' => lived [op] w [r] w') w.
Proof.
  intros Hw Hop. destruct op as [|data now|]; simpl.
  - apply wp_bind. eapply wp_mono; [by apply start_ok|]. intros [] w' (H1 & H2 & [H3 H4]%same_dialogue). apply wp_ret.
    split; auto; [by intros ?%list_elem_of_singleton|intros; split; congruence|congruence].
  - destruct Hop as [Hd Hn]. eapply wp_mono; [by apply feed_ok|]. intros r w' (H1 & H2 & -> & H4 & H5). split; auto.
    + intros Hin%list_elem_of_singleton. by destruct (close_requested _).
    + intros Hl Hl'. destruct (H5 Hl Hl') as (bf & b & af & wi & wj & E1 & E2 & _ & _ & _ & E3 & E4).
      by exists [], data, now, [], [], w, bf, b, af, wi.
  - eapply wp_mono; [by apply poll_ok|]. intros r w' (H1 & H2 & [H3 H4]%same_dialogue & ->).
    split; auto; [|intros; split; congruence|congruence]. intros Hin%list_elem_of_singleton. by destruct (close_requested _).
Qed.

Lemma authenticated_in_r op ops r w w1 w' :
  session_do op w = Some (r, w1) -> authenticated_in ops w1 w' -> authenticated_in (op :: ops) w w'.
Proof.
  intros E0 (ops1 & data & now & ops2 & rs1 & w2 & bf & b & af & wi & -> & E1 & Hrest).
  exists (op :: ops1), data, now, ops2, (r :: rs1), w2, bf, b, af, wi. split; [done|]. split; [|exact Hrest].
  simpl. unfold mbind, M_bind. by rewrite E0, E1.
Qed.

Lemma authenticated_in_l op ops w w1 w' :
  authenticated_in [op] w w1 -> player_name (session w') = player_name (session w1) -> authenticated_in (op :: ops) w w'.
Proof.
  intros (ops1 & data & now & ops2 & rs1 & w2 & bf & b & af & wi & E0 & E1 & E2 & E3 & E4 & E5) En.
  destruct ops1 as [|? [|]]; [|done..]. injection E0 as -> _. exists [], data, now, ops, rs1, w2, bf, b, af, wi. split_and!; auto. congruence.
Qed.

Lemma session_run_lived ops w :
  world_ok w -> Forall op_ok ops -> wp (session_run ops) (fun rs w' => lived ops w rs w') w.
Proof.
  intros Hw Hops. revert w Hw. induction Hops as [|op ops Hop Hops IH]; intros w Hw; simpl.
  { apply wp_ret. split; auto using evolves_refl; [by intros ?%elem_of_nil|by intros ??]. }
  destruct (wp_run _ _ _ (session_do_lived op w Hw Hop)) as (r & w1 & E1 & [A1 A2 A3 A4 A5 A6]).
  apply wp_bind. unfold wp at 1. rewrite E1. apply wp_bind. eapply wp_mono; [by apply IH|].
  intros rs w2 [B1 B2 B3 B4 B5 B6]. apply wp_ret. split; auto.
  - by eapply evolves_trans.
  - simpl. congruence.
  - intros [Hr|Hin]%elem_of_cons; [|auto]. apply B2, A4. rewrite Hr. by left.
  - intros Hl. destruct (A5 Hl) as [Hl1 Hn1]. destruct (B5 Hl1). split; congruence.
  - intros Hl Hl2. destruct (decide (login (session w1) = LOGIN_IN_GAME)) as [Hl1|Hl1].
    + eapply authenticated_in_l; [by apply A6|]. by apply B5.
    + eapply authenticated_in_r; [exact E1|]. auto.
Qed.

Lemma session_run_app ops1 ops2 w rs1 w1 :
  session_run ops1 w = Some (rs1, w1) ->
  session_run (ops1 ++ ops2) w = (rs2 ← session_run ops2; mret (rs1 ++ rs2)) w1.
Proof.
  revert w rs1. induction ops1 as [|op ops1 IH]; intros w rs1; simpl.
  - intros [= <- <-]. unfold mbind, M_bind, mret, M_ret. simpl. by destruct (session_run ops2 w) as [[]|].
  - unfold mbind, M_bind, mret, M_ret in *. destruct (session_do op w) as [[r w']|]; [|done].
    destruct (session_run ops1 w') as [[rs w2]|] eqn:E1; [|done]. intros [= <- <-].
    rewrite (IH _ _ E1). by destruct (session_run ops2 w2) as [[]|].
Qed.
End life.

Section claims.
Context {E : Environment} {PL : PwhashLaws env_pwhash} {ML : MkstempLaws env_mkstemp}.

(** [C1] No input faults a session: from the creation of a session, every
    sequence of starts, polls and feeds of arbitrary bytes at arbitrary times
    runs to its end, whatever the application, the store, the hash function
    and the kernel do: no store leaves an array, be it one of the session (line,
    subnegotiation, queue, names) or one on the stack of a function (the name
    and value of an environment variable, the package and body of a GMCP
    message, outgoing messages and reports, sanitized texts), and no loop runs
    on.  At every
    point the session is well formed (negotiator, terminal sizes, string
    arrays, line, name, verifier, counters, rate windows), everything sent so
    far is a well framed Telnet stream, output and audit trail have only grown,
    the application was called in order (a session opened only when none is
    held, every other hook on the one that is held), nothing was sent after the
    session closed, a close is final, and a call returns -1 only once the
    session is closed. *)
Theorem session_robust remote secure s p st a ops1 ops2 :
  telnet_session_create remote secure = Some s -> policy_ok p -> Forall op_ok ops1 -> Forall op_ok ops2 ->
  exists rs1 w1 rs2 w2,
    session_run ops1 (new_world s p st a) = Some (rs1, w1) /\
    session_run (ops1 ++ ops2) (new_world s p st a) = Some (rs1 ++ rs2, w2) /\
    world_ok w1 /\ world_ok w2 /\ evolves w1 w2 /\
    length rs1 = length ops1 /\ length rs2 = length ops2 /\
    (-1 ∈ rs1 -> close_requested (session w1) = true).
Proof.
  intros Hs Hp H1 H2. pose proof (new_world_ok _ _ _ _ st a Hs Hp) as H0.
  destruct (wp_run _ _ _ (session_run_lived ops1 _ H0 H1)) as (rs1 & w1 & E1 & []).
  destruct (wp_run _ _ _ (session_run_lived ops2 _ lv_ok0 H2)) as (rs2 & w2 & E2 & []).
  exists rs1, w1, rs2, w2. split_and!; auto. rewrite (session_run_app _ _ _ _ _ E1).
  unfold mbind, M_bind. by rewrite E2.
Qed.

(** [C2] A session reaches the game only by authentication.  If a session is in
    the game after some operations, then one of its feeds delivered a byte in a
    state where the dialogue was waiting for a password of the player the
    session now holds, and either the policy admitted the attempt of this peer
    on this account and the store verified the typed line against the account's
    record, or the typed line matched the verifier prepared at the previous
    prompt, the policy admitted the creation and the store created the account.
    Once in the game a session stays there under that name. *)
Theorem authentication_required remote secure s p st a ops1 ops2 rs1 w1 rs2 w2 :
  telnet_session_create remote secure = Some s -> policy_ok p -> Forall op_ok ops1 -> Forall op_ok ops2 ->
  session_run ops1 (new_world s p st a) = Some (rs1, w1) -> session_run ops2 w1 = Some (rs2, w2) ->
  login (session w1) = LOGIN_IN_GAME ->
  authenticated_in ops1 (new_world s p st a) w1 /\
  login (session w2) = LOGIN_IN_GAME /\ player_name (session w2) = player_name (session w1).
Proof.
  intros Hs Hp H1 H2 E1 E2 Hg. pose proof (new_world_ok _ _ _ _ st a Hs Hp) as H0.
  destruct (wp_of_run _ _ _ _ _ (session_run_lived ops1 _ H0 H1) E1) as [K1 _ _ _ _ K2].
  destruct (wp_of_run _ _ _ _ _ (session_run_lived ops2 _ K1 H2) E2) as [_ _ _ _ K3 _].
  split; [|by apply K3]. apply K2; [|done].
  unfold telnet_session_create in Hs. destruct (_ >=? _); [done|]. by injection Hs as <-.
Qed.
End claims.

(** * A concrete session *)

(** An application that greets, echoes lines and GMCP messages, and quits on
    [quit]. *)
Definition echo_hooks : terminal_application_hooks nat := {|
  hook_open := Some (fun n name _ => AppWriteText (Some (txt "Hello ")) (AppWritePrompt (Some name) (AppRet (Some 7%nat, S n))));
  hook_line := Some (fun n _ l => if bytes_eqb l (txt "quit") then AppRequestClose (Some (txt "Bye.")) (AppRet (1, n))
                                  else AppWriteText (Some l) (AppRet (0, S n)));
  hook_capabilities_changed := None;
  hook_gmcp := Some (fun n _ package body => AppSendGmcp (Some package) (Some body) (fun _ => AppRet (S n)));
  hook_poll := Some (fun n _ => AppRet (0, n));
  hook_close := Some (fun n _ => 0%nat)
|}.

Definition echo_environment : Environment := {|
  env_pwhash := toy_pwhash;
  env_mkstemp := toy_mkstemp;
  AppState := nat;
  application := echo_hooks;
  mssp_query := None;
  store_directory := txt "/srv/players"
|}.
#[local] Existing Instance echo_environment.
#[local] Existing Instance toy_pwhash_laws.
#[local] Existing Instance toy_mkstemp_laws.

Definition registration : list session_op :=
  [OpStart; OpFeed ([255; 253; 201] ++ txt "Al" ++ [255; 253; 1] ++ txt "ice" ++ [13; 10]) 1000;
   OpFeed (txt "correct horse" ++ [13; 10] ++ txt "correct horse" ++ [13]) 1500; OpFeed [10] 1600].
Definition playing : list session_op := [OpPoll; OpFeed (txt "look" ++ [13; 0; 10] ++ txt "quit" ++ [10] ++ txt "more") 2000; OpPoll].

Lemma playing_ok : Forall op_ok (registration ++ playing).
Proof. repeat constructor; simpl; unfold is_byte, u64; try lia. Qed.

Lemma session_robust_witness :
  exists s rs1 w1 rs2 w2,
    session_run registration (new_world s security_policy_create (empty_store trouble) 0%nat) = Some (rs1, w1) /\
    session_run (registration ++ playing) (new_world s security_policy_create (empty_store trouble) 0%nat)
      = Some (rs1 ++ rs2, w2) /\ evolves w1 w2.
Proof.
  destruct (telnet_session_create (txt "192.0.2.7") true) as [s|] eqn:Es; [|vm_compute in Es; discriminate].
  pose proof playing_ok as [H1 H2]%Forall_app.
  destruct (session_robust (E := echo_environment) (txt "192.0.2.7") true s security_policy_create (empty_store trouble) 0%nat registration playing
    Es policy_create_ok H1 H2) as (rs1 & w1 & rs2 & w2 & E1 & E2 & _ & _ & E3 & _).
  exists s, rs1, w1, rs2, w2. split; [exact E1|]. split; [exact E2|exact E3].
Defined.


(** ** A registered player *)

(** A property of the world a run ends in. *)
Definition ran {E : Environment} {A} (r : option (A * @world E)) (P : @world E -> Prop) : Prop :=
  match r with Some (_, w) => P w | None => False end.

Definition registered (w : world) : Prop :=
  login (session w) = LOGIN_IN_GAME /\ player_name (session w) = txt "Alice" /\
  close_requested (session w) = false /\ parser (session w) = PARSER_DATA /\
  telnet_q_enabled (options (session w)) TELNET_Q_LOCAL TELNET_OPT_GMCP = true /\
  application_session (session w) = Some 7%nat /\
  match send_gmcp_message (Some (txt "Room.Info")) (Some (txt "[1,2]")) w with Some (0, w') => True | _ => False end.

Lemma registration_runs :
  match telnet_session_create (txt "192.0.2.7") true with
  | Some s => ran (session_run registration (new_world s security_policy_create (empty_store []) 0%nat)) registered
  | None => False
  end.
Proof. vm_compute. tauto. Qed.

Lemma registered_run :
  exists s rs w, telnet_session_create (txt "192.0.2.7") true = Some s /\
    session_run registration (new_world s security_policy_create (empty_store []) 0%nat) = Some (rs, w) /\
    registered w /\ world_ok w.
Proof.
  pose proof registration_runs as Hreg. pose proof playing_ok as [H1 _]%Forall_app.
  destruct (telnet_session_create (txt "192.0.2.7") true) as [s|] eqn:Es; [|contradiction].
  destruct (session_run registration (new_world (E := echo_environment) s security_policy_create (empty_store []) 0%nat))
    as [[rs w]|] eqn:E1; [|contradiction].
  exists s, rs, w. split; [exact eq_refl|]. split; [exact E1|]. split; [exact Hreg|].
  exact (lv_ok _ _ _ _ (wp_of_run _ _ _ _ _ (session_run_lived registration _ (new_world_ok _ _ _ _ _ _ Es policy_create_ok) H1) E1)).
Qed.

Lemma authentication_required_witness :
  exists s rs1 w1 rs2 w2,
    session_run registration (new_world s security_policy_create (empty_store []) 0%nat) = Some (rs1, w1) /\
    session_run playing w1 = Some (rs2, w2) /\
    authenticated_in registration (new_world s security_policy_create (empty_store []) 0%nat) w1 /\
    player_name (session w2) = txt "Alice".
Proof.
  destruct registered_run as (s & rs1 & w1 & Es & E1 & (Hg & Hn & _) & Hok). pose proof playing_ok as [H1 H2]%Forall_app.
  destruct (wp_run _ _ _ (session_run_lived playing w1 Hok H2)) as (rs2 & w2 & E2 & _).
  destruct (authentication_required (txt "192.0.2.7") true s security_policy_create (empty_store [])
    (0%nat : @AppState echo_environment) registration playing rs1 w1 rs2 w2 Es policy_create_ok H1 H2 E1 E2 Hg) as (A1 & _ & A3).
  exists s, rs1, w1, rs2, w2. split; [exact E1|]. split; [exact E2|]. split; [exact A1|]. rewrite A3. exact Hn.
Defined.

Lemma subnegotiation_roundtrip_witness :
  exists w w' bytes, registered w /\
    send_subnegotiation TELNET_OPT_NAWS [0; 255; 0; 40] w = Some (tt, w') /\ sent w' = sent w ++ bytes /\
    parse_bytes 9 (bytes ++ []) w =
      (finish_subnegotiation ;; set_parser_state PARSER_DATA ;; parse_bytes 9 [])
        (collecting TELNET_OPT_NAWS [0; 255; 0; 40] PARSER_SB_IAC w).
Proof.
  destruct registered_run as (s & rs & w & _ & _ & Hreg & _). pose proof Hreg as (_ & _ & Hc & Hp & _).
  destruct (subnegotiation_roundtrip TELNET_OPT_NAWS [0; 255; 0; 40] w w 9 [] Hc Hc Hp) as (w' & bytes & Hrest).
  - by apply (bool_decide_unpack _).
  - exists w, w', bytes. split; [exact Hreg|exact Hrest].
Defined.

Lemma gmcp_roundtrip_witness :
  exists w w' bytes handler, registered w /\
    send_gmcp_message (Some (txt "Room.Info")) (Some (txt "[1,2]")) w = Some (0, w') /\ sent w' = sent w ++ bytes /\
    parse_bytes 9 bytes w =
      (deliver_gmcp handler 7 (c_str (txt "Room.Info")) (c_str (txt "[1,2]")) ;;
       upd (fun s => s <| subnegotiation := [] |>) ;; set_parser_state PARSER_DATA)
        (collecting TELNET_OPT_GMCP (gmcp_payload (c_str (txt "Room.Info")) (c_str (txt "[1,2]"))) PARSER_SB_IAC w).
Proof.
  destruct registered_run as (s & rs & w & _ & _ & Hreg & _). pose proof Hreg as (_ & _ & Hc & Hp & Hon & Happ & Hsend).
  destruct (send_gmcp_message _ _ w) as [[[| |] w']|] eqn:Es; try contradiction.
  destruct (gmcp_roundtrip (E2 := echo_environment) (txt "Room.Info") (txt "[1,2]") w w' w 9 7%nat _ Es Hc Hc Hp Hon Happ
    eq_refl eq_refl) as (bytes & B1 & B2).
  exists w, w', bytes. eexists. split; [exact Hreg|]. split; [exact Es|]. split; [exact B1|]. exact B2.
Defined.

(** ** A returning player *)

Definition alice_store : store_world :=
  match player_store_create (txt "/srv/players") (txt "Alice") alice_token (empty_store []) with
  | Some (_, st) => st
  | None => empty_store []
  end.

Definition returning : list session_op := [OpStart; OpFeed (txt "alice" ++ [13; 10]) 3000].

(** Waiting for the password, with nothing typed. *)
Definition waiting (w : world) : Prop :=
  close_requested (session w) = false /\ login (session w) = LOGIN_PASSWORD /\ parser (session w) = PARSER_DATA /\
  pending_cr (session w) = false /\ line (session w) = [] /\ line_overflow (session w) = false /\
  snd (rate_consume (byte_window (session w)) (Zlen (quote_iac (txt "correct horse") ++ crlf)) INPUT_BYTES_PER_WINDOW
        INPUT_BYTES_WINDOW_MS 3500) = true /\
  snd (rate_consume (line_window (session w)) 1 INPUT_LINES_PER_WINDOW INPUT_LINES_WINDOW_MS 3500) = true /\
  match security_policy_allow_auth_attempt (Some (remote_id (session w))) (Some (player_name (session w))) 3500 (policy w) with
  | Some ((true, _), _) => True
  | _ => False
  end /\
  match player_store_verify_password store_directory (player_name (session w)) (txt "correct horse") (store w) with
  | Some ((1, _), _) => True
  | _ => False
  end.

Lemma returning_runs :
  match telnet_session_create (txt "192.0.2.8") true with
  | Some s => ran (session_run returning (new_world s security_policy_create alice_store 0%nat)) waiting
  | None => False
  end.
Proof. vm_compute. tauto. Qed.

Lemma returning_run : exists w : world, waiting w /\ world_ok w /\ credentials 3500 (txt "correct horse") w.
Proof.
  pose proof returning_runs as Hrun.
  destruct (telnet_session_create (txt "192.0.2.8") true) as [s|] eqn:Es; [|contradiction].
  destruct (session_run returning (new_world (E := echo_environment) s security_policy_create alice_store 0%nat))
    as [[rs w]|] eqn:E1; [|contradiction].
  assert (Forall op_ok returning) as Hops by (repeat constructor; simpl; unfold is_byte, u64; try lia).
  exists w. split; [exact Hrun|]. split.
  - exact (lv_ok _ _ _ _ (wp_of_run _ _ _ _ _ (session_run_lived returning _ (new_world_ok _ _ _ _ _ _ Es policy_create_ok) Hops) E1)).
  - destruct Hrun as (_ & _ & _ & _ & _ & _ & _ & _ & Ha & Hv). unfold credentials.
    destruct (security_policy_allow_auth_attempt _ _ _ _) as [[[[] retry] p']|] eqn:Ea; [|contradiction..].
    destruct (player_store_verify_password _ _ _ _) as [[[r rehashed] st']|] eqn:Ev; [|contradiction].
    exists retry, p', rehashed, st'. split; [exact eq_refl|]. destruct r as [|[]|]; try contradiction. exact eq_refl.
Qed.

Lemma login_completes_witness :
  exists (w : world) r w', waiting w /\
    telnet_session_feed_at (quote_iac (txt "correct horse") ++ crlf) 3500 w = Some (r, w') /\
    telnet_session_is_in_game (session w') = true.
Proof.
  destruct returning_run as (w & Hw & Hok & Hcred).
  pose proof Hw as (Hc & Hl & Hp & Hcr & Hline & Hov & Hb & Hr & _).
  destruct (login_completes 3500 (txt "correct horse") w Hok) as (r & w' & E1 & E2 & _); try assumption.
  - unfold u64. lia.
  - unfold line_byte. by apply (bool_decide_unpack _).
  - by apply (bool_decide_unpack _).
  - exists w, r, w'. split; [exact Hw|]. split; [exact E1|exact E2].
Defined.

Lemma secrets_cleared_witness :
  exists w w' : world, waiting w /\ process_complete_line 3500 w = Some (tt, w') /\ line (session w') = [].
Proof.
  destruct returning_run as (w & Hw & Hok & _).
  destruct (secrets_cleared 3500 w Hok) as (w' & E1 & E2 & _).
  - unfold u64. lia.
  - exists w, w'. split; [exact Hw|]. split; [exact E1|exact E2].
Defined.

(** ** A client that reports its environment *)

Definition client_report : list environ_entry :=
  [mk_entry NEW_ENVIRON_VAR (txt "CLIENT_NAME") (txt "Tin" ++ [1] ++ txt "Tin"); mk_entry NEW_ENVIRON_USERVAR (txt "MTTS") (txt "13")].

(** The whole report but for its end. *)
Definition reporting : list session_op :=
  [OpStart; OpFeed ([255; 251; 39; 255; 250; 39; NEW_ENVIRON_IS] ++ environ_encode client_report) 50].

Definition reported (w : world) : Prop :=
  telnet_q_enabled (options (session w)) TELNET_Q_REMOTE TELNET_OPT_NEW_ENVIRON = true /\
  subnegotiation (session w) = NEW_ENVIRON_IS :: environ_encode client_report.

Lemma reporting_runs :
  match telnet_session_create (txt "192.0.2.9") false with
  | Some s => ran (session_run reporting (new_world s security_policy_create (empty_store []) 0%nat)) reported
  | None => False
  end.
Proof. vm_compute. tauto. Qed.

Lemma reporting_run : exists w : world, reported w.
Proof.
  pose proof reporting_runs as Hrun. destruct (telnet_session_create _ _) as [s|]; [|contradiction].
  destruct (session_run _ _) as [[rs w]|]; [|contradiction]. by exists w.
Qed.

Lemma environ_roundtrip_witness :
  exists w : world, reported w /\
    handle_new_environ w =
      (for_each client_report (fun e => apply_new_environ_value (entry_token e) (entry_name e) (entry_value e)) ;;
       update_option_metadata) w /\
    environ_loop 100 [NEW_ENVIRON_VAR; 65; NEW_ENVIRON_ESC] w = environ_loop 3 [NEW_ENVIRON_VAR; 65; NEW_ENVIRON_ESC] w.
Proof.
  destruct reporting_run as (w & Hw). exists w. split; [exact Hw|]. destruct Hw as [Hon Hsub].
  refine (environ_roundtrip w client_report [NEW_ENVIRON_VAR; 65; NEW_ENVIRON_ESC] 100 Hon _ (or_introl Hsub) _).
  - unfold client_report, entry_ok. repeat constructor; simpl; lia.
  - simpl. lia.
Defined.

(** ** A player of the sample application *)

#[local] Existing Instance toy_pwhash.
#[local] Existing Instance toy_mkstemp.

Definition harness_env : Environment := harness_environment None (txt "/srv/players").

(** In the game, between two lines. *)
Definition at_prompt (w : @world harness_env) : Prop :=
  close_requested (session w) = false /\ login (session w) = LOGIN_IN_GAME /\ parser (session w) = PARSER_DATA /\
  pending_cr (session w) = false /\ line (session w) = [] /\ line_overflow (session w) = false /\
  application_session (session w) = Some 0%nat /\
  match live (app_state w) !! 0%nat with Some _ => True | None => False end /\
  snd (rate_consume (byte_window (session w)) (Zlen (txt "Quit" ++ crlf)) INPUT_BYTES_PER_WINDOW INPUT_BYTES_WINDOW_MS 1700) = true /\
  snd (rate_consume (line_window (session w)) 1 INPUT_LINES_PER_WINDOW INPUT_LINES_WINDOW_MS 1700) = true /\
  snd (rate_consume (command_window (session w)) 1 COMMANDS_PER_WINDOW COMMANDS_WINDOW_MS 1700) = true.

Lemma harness_runs :
  match telnet_session_create (txt "192.0.2.7") true with
  | Some s => ran (E := harness_env) (session_run (E := harness_env) registration
      (new_world (E := harness_env) s security_policy_create (empty_store []) (mk_heap ∅ [] false))) at_prompt
  | None => False
  end.
Proof. vm_compute. tauto. Qed.

Lemma harness_run : exists w, at_prompt w.
Proof.
  pose proof harness_runs as Hrun. destruct (telnet_session_create _ _) as [s|]; [|contradiction].
  destruct (session_run _ _) as [[rs w]|]; [|contradiction]. by exists w.
Qed.

Lemma quit_closes_witness :
  exists w w', at_prompt w /\
    telnet_session_feed_at (E := harness_env) (txt "Quit" ++ crlf) 1700 w = Some (-1, w') /\
    sent w' = sent w ++ txt "Goodbye." ++ [LF].
Proof.
  destruct harness_run as (w & Hw). pose proof Hw as (H1 & H2 & H3 & H4 & H5 & H6 & H7 & H8 & H9 & H10 & H11).
  destruct (live (app_state w) !! 0%nat) as [s|] eqn:Hs; [|contradiction].
  destruct (quit_closes None (txt "/srv/players") 1700 (txt "Quit") w 0%nat s H1 H2 H3 H4 H5 H6 H7 Hs eq_refl H9 H10 H11)
    as (w' & E1 & _ & E2).
  exists w, w'. split; [exact Hw|]. split; [exact E1|exact E2].
Defined.
