(* ===== verification/SshTransport.v ===== *)
(** One SSH connection (src/ssh_transport.c).  libssh owns key exchange, packets
    and channels; what it reports to this file are callbacks, and what this file
    asks of it are calls whose results the model takes as inputs.  The state is
    the connection record together with what it shares: the policy, the player
    store, the audit trail and the application's memory.

    - [channel_results] are the results of the coming [ssh_channel_write] calls:
      a value that is not positive is an error, a positive one is a partial
      write, never more than was asked; when the list is used up the channel
      takes everything.
    - [ssh_calls] records the allocation and release of libssh objects and of
      the socket.
    - [ssh_callback] is one callback libssh makes, in any order; [ssh_tick] is
      one turn of the event loop. *)
From S2P Require Import Prelude TerminalText AsciiText SecurityPolicy PlayerStore Application TelnetSession.

(** * Constants *)

Definition SSH_INPUT_LINE_MAX : Z := 512.
Definition SSH_INPUT_BYTES_PER_WINDOW : Z := 65536.
Definition SSH_INPUT_BYTES_WINDOW_MS : Z := 5000.
Definition SSH_INPUT_LINES_PER_WINDOW : Z := 30.
Definition SSH_INPUT_LINES_WINDOW_MS : Z := 10000.
Definition SSH_AUTH_TIMEOUT_MS : Z := 120000.
Definition SSH_IDLE_TIMEOUT_MS : Z := 900000.
Definition SSH_SESSION_MAX_MS : Z := 12 * 60 * 60 * 1000.
Definition SSH_WRITE_CHUNK_MAX : Z := 16384.
Definition UINT16_MAX : Z := 65535.
Definition TERMINAL_TYPE_MAX : Z := 40.
Definition TERMINAL_CLIENT_NAME_MAX : Z := 40.
Definition TERMINAL_CLIENT_VERSION_MAX : Z := 40.
(** [SSH_AUTH_SUCCESS] and [SSH_AUTH_DENIED] of libssh. *)
Definition SSH_AUTH_SUCCESS : Z := 0.
Definition SSH_AUTH_DENIED : Z := 1.

(** * Data *)

(** Pointers to libssh objects are whether they are set.  [conn_line] is the
    live part of [line[513]]; strings hold their content. *)
Record ssh_connection := mk_connection {
  conn_session : bool;
  conn_channel : bool;
  conn_event : bool;
  conn_application_session : option nat;
  conn_peer : list Z;
  conn_account_name : list Z;
  conn_capabilities : terminal_capabilities;
  conn_line : list Z;
  conn_pending_cr : bool;
  conn_escape_state : Z;
  conn_authenticated : bool;
  conn_shell_started : bool;
  conn_close_requested : bool;
  conn_write_failed : bool;
  conn_client_fd : Z;
  conn_fd_attached : bool;
  conn_connected_ms : Z;
  conn_authenticated_ms : Z;
  conn_last_activity_ms : Z;
  conn_byte_window : rate_window;
  conn_line_window : rate_window
}.

Definition eta_connection c := mk_connection (conn_session c) (conn_channel c) (conn_event c)
  (conn_application_session c) (conn_peer c) (conn_account_name c) (conn_capabilities c) (conn_line c)
  (conn_pending_cr c) (conn_escape_state c) (conn_authenticated c) (conn_shell_started c) (conn_close_requested c)
  (conn_write_failed c) (conn_client_fd c) (conn_fd_attached c) (conn_connected_ms c) (conn_authenticated_ms c)
  (conn_last_activity_ms c) (conn_byte_window c) (conn_line_window c).
#[export] Instance set_conn_session : Setter conn_session := ltac:(setter_of eta_connection conn_session).
#[export] Instance set_conn_channel : Setter conn_channel := ltac:(setter_of eta_connection conn_channel).
#[export] Instance set_conn_event : Setter conn_event := ltac:(setter_of eta_connection conn_event).
#[export] Instance set_conn_app : Setter conn_application_session := ltac:(setter_of eta_connection conn_application_session).
#[export] Instance set_conn_account : Setter conn_account_name := ltac:(setter_of eta_connection conn_account_name).
#[export] Instance set_conn_caps : Setter conn_capabilities := ltac:(setter_of eta_connection conn_capabilities).
#[export] Instance set_conn_line : Setter conn_line := ltac:(setter_of eta_connection conn_line).
#[export] Instance set_conn_cr : Setter conn_pending_cr := ltac:(setter_of eta_connection conn_pending_cr).
#[export] Instance set_conn_escape : Setter conn_escape_state := ltac:(setter_of eta_connection conn_escape_state).
#[export] Instance set_conn_auth : Setter conn_authenticated := ltac:(setter_of eta_connection conn_authenticated).
#[export] Instance set_conn_shell : Setter conn_shell_started := ltac:(setter_of eta_connection conn_shell_started).
#[export] Instance set_conn_close : Setter conn_close_requested := ltac:(setter_of eta_connection conn_close_requested).
#[export] Instance set_conn_failed : Setter conn_write_failed := ltac:(setter_of eta_connection conn_write_failed).
#[export] Instance set_conn_fd : Setter conn_client_fd := ltac:(setter_of eta_connection conn_client_fd).
#[export] Instance set_conn_attached : Setter conn_fd_attached := ltac:(setter_of eta_connection conn_fd_attached).
#[export] Instance set_conn_connected_ms : Setter conn_connected_ms := ltac:(setter_of eta_connection conn_connected_ms).
#[export] Instance set_conn_auth_ms : Setter conn_authenticated_ms := ltac:(setter_of eta_connection conn_authenticated_ms).
#[export] Instance set_conn_activity : Setter conn_last_activity_ms := ltac:(setter_of eta_connection conn_last_activity_ms).
#[export] Instance set_conn_bytes : Setter conn_byte_window := ltac:(setter_of eta_connection conn_byte_window).
#[export] Instance set_conn_lines : Setter conn_line_window := ltac:(setter_of eta_connection conn_line_window).

Definition eta_capabilities c := mk_capabilities (cap_width c) (cap_height c) (cap_utf8 c) (cap_ansi c) (cap_color_256 c)
  (cap_truecolor c) (cap_screen_reader c) (cap_secure_transport c) (cap_gmcp c) (cap_osc8 c) (cap_osc8_send c)
  (cap_osc8_prompt c) (cap_osc8_tooltip c) (cap_terminal_type c) (cap_client_name c) (cap_client_version c).
#[export] Instance set_cap_width : Setter cap_width := ltac:(setter_of eta_capabilities cap_width).
#[export] Instance set_cap_height : Setter cap_height := ltac:(setter_of eta_capabilities cap_height).
#[export] Instance set_cap_utf8 : Setter cap_utf8 := ltac:(setter_of eta_capabilities cap_utf8).
#[export] Instance set_cap_ansi : Setter cap_ansi := ltac:(setter_of eta_capabilities cap_ansi).
#[export] Instance set_cap_256 : Setter cap_color_256 := ltac:(setter_of eta_capabilities cap_color_256).
#[export] Instance set_cap_truecolor : Setter cap_truecolor := ltac:(setter_of eta_capabilities cap_truecolor).
#[export] Instance set_cap_type : Setter cap_terminal_type := ltac:(setter_of eta_capabilities cap_terminal_type).
#[export] Instance set_cap_version : Setter cap_client_version := ltac:(setter_of eta_capabilities cap_client_version).

(** What is allocated from and handed back to libssh and the kernel. *)
Inductive ssh_call :=
| BindNew | BindFree | SessionNew | SessionFree | SessionDisconnect | ChannelNew | ChannelFree | ChannelSendEof | ChannelClose
| EventNew | EventFree | EventRemoveSession | AttachFd | CloseFd.

#[export] Instance ssh_call_eq : EqDecision ssh_call.
Proof. solve_decision. Defined.

Record ssh_world {E : Environment} := mk_ssh_world {
  connection : ssh_connection;
  ssh_policy : security_policy;
  ssh_store : store_world;
  ssh_trail : list audit_call;
  (** what [ssh_channel_write] accepted, call by call *)
  channel_sent : list (list Z);
  channel_results : list Z;
  ssh_calls : list ssh_call;
  ssh_app : AppState
}.

Definition eta_ssh_world {E : Environment} (w : ssh_world) :=
  mk_ssh_world E (connection w) (ssh_policy w) (ssh_store w) (ssh_trail w) (channel_sent w) (channel_results w)
    (ssh_calls w) (ssh_app w).
Ltac ssh_world_setter proj :=
  let v := fresh "v" in
  let r := fresh "r" in
  intros v r;
  let t := eval unfold eta_ssh_world in (eta_ssh_world r) in
  match eval pattern (proj r) in t with
  | ?F _ => let u := eval cbv beta in (F v) in exact u
  end.
#[export] Instance set_connection {E : Environment} : Setter connection := ltac:(ssh_world_setter connection).
#[export] Instance set_ssh_policy {E : Environment} : Setter ssh_policy := ltac:(ssh_world_setter ssh_policy).
#[export] Instance set_ssh_store {E : Environment} : Setter ssh_store := ltac:(ssh_world_setter ssh_store).
#[export] Instance set_ssh_trail {E : Environment} : Setter ssh_trail := ltac:(ssh_world_setter ssh_trail).
#[export] Instance set_channel_sent {E : Environment} : Setter channel_sent := ltac:(ssh_world_setter channel_sent).
#[export] Instance set_channel_results {E : Environment} : Setter channel_results := ltac:(ssh_world_setter channel_results).
#[export] Instance set_ssh_calls {E : Environment} : Setter ssh_calls := ltac:(ssh_world_setter ssh_calls).
#[export] Instance set_ssh_app {E : Environment} : Setter ssh_app := ltac:(ssh_world_setter ssh_app).

(** The bytes the channel accepted. *)
Definition ssh_output {E : Environment} (w : ssh_world) : list Z := concat (channel_sent w).

(** * Pure helpers *)

(** The clock reading, seconds and nanoseconds; [None] if [clock_gettime]
    fails. *)
Definition monotonic_or_zero (clock : option (Z * Z)) : Z :=
  match clock with
  | None => 0
  | Some (sec, nsec) => wrap64 (wrap64 (wrap64 sec * 1000) + wrap64 nsec / 1000000)
  end.

(** The inner loop: does [needle] start the text here? *)
Fixpoint prefix_ignore_case (needle text : list Z) : bool :=
  match needle, text with
  | [], _ => true
  | b :: needle', a :: text' => if ascii_lower a =? ascii_lower b then prefix_ignore_case needle' text' else false
  | _ :: _, [] => false
  end.

Fixpoint contains_ignore_case (text needle : list Z) : bool :=
  match text with
  | [] => false
  | _ :: text' => if prefix_ignore_case needle text then true else contains_ignore_case text' needle
  end.

Definition ascii_contains_ignore_case (text needle : list Z) : bool :=
  match c_str needle with
  | [] => true
  | needle => contains_ignore_case (c_str text) needle
  end.

Fixpoint copy_field_loop (room : nat) (input : list Z) : list Z :=
  match room, input with
  | S room, ch :: input => (if (ch >=? 32) && (ch <=? 126) then ch else 63) :: copy_field_loop room input
  | _, _ => []
  end.

(** The content of [output[output_size]] after the call; [output_size] is
    positive at every call. *)
Definition copy_terminal_field (output_size : Z) (input : option (list Z)) : list Z :=
  copy_field_loop (Z.to_nat (output_size - 1)) (c_str (default [] input)).

Definition locale_says_utf8 (value : list Z) : bool :=
  ascii_contains_ignore_case value (txt "utf-8") || ascii_contains_ignore_case value (txt "utf8").

(** * Operations *)

Section connection.
Context {E : Environment}.
Abbreviation Ssh := (M ssh_world).

Definition get_connection : Ssh ssh_connection := gets connection.
Definition upd_connection (f : ssh_connection -> ssh_connection) : Ssh unit :=
  modify (fun w => w <| connection := f (connection w) |>).
Definition upd_capabilities (f : terminal_capabilities -> terminal_capabilities) : Ssh unit :=
  upd_connection (fun c => c <| conn_capabilities := f (conn_capabilities c) |>).
Definition with_ssh_policy {A} (m : M security_policy A) : Ssh A := zoom ssh_policy (fun p w => w <| ssh_policy := p |>) m.
Definition with_ssh_store {A} (m : M store_world A) : Ssh A := zoom ssh_store (fun s w => w <| ssh_store := s |>) m.
Definition ssh_record (c : ssh_call) : Ssh unit := modify (fun w => w <| ssh_calls := ssh_calls w ++ [c] |>).

Definition audit_connection (event detail : list Z) : Ssh unit :=
  modify (fun w => w <| ssh_trail := ssh_trail w ++ [mk_audit event (conn_peer (connection w)) detail] |>).

(** Runs a hook on the application's memory. *)
Definition ssh_call_app `{!TerminalOutput ssh_world} {A} (f : AppState -> app_prog (A * AppState)) : Ssh A :=
  a ← gets ssh_app;
  '(r, a') ← run_app (f a);
  modify (fun w => w <| ssh_app := a' |>) ;;
  mret r.

(** ** Output *)

Definition channel_accept (data : list Z) : Ssh unit := modify (fun w => w <| channel_sent := channel_sent w ++ [data] |>).

(** [ssh_channel_write] on a chunk: the number of bytes it took. *)
Definition ssh_channel_write (chunk : list Z) : Ssh Z :=
  results ← gets channel_results;
  match results with
  | [] => channel_accept chunk ;; mret (Zlen chunk)
  | written :: results =>
      modify (fun w => w <| channel_results := results |>) ;;
      if written <=? 0 then mret written
      else
        let taken := Z.min written (Zlen chunk) in
        channel_accept (take (Z.to_nat taken) chunk) ;; mret taken
  end.

(** The loop on [data + offset]; each turn advances, so [length data] turns are
    enough. *)
Fixpoint write_loop (fuel : nat) (data : list Z) : Ssh Z :=
  match data with
  | [] => mret 0
  | _ =>
      match fuel with
      | O => lift_opt None
      | S fuel =>
          written ← ssh_channel_write (take (Z.to_nat SSH_WRITE_CHUNK_MAX) data);
          if written <=? 0 then
            upd_connection (fun c => c <| conn_write_failed := true |>) ;;
            audit_connection (txt "ssh_write_failure") (txt "channel write failed") ;;
            mret (-1)
          else write_loop fuel (drop (Z.to_nat written) data)
      end
  end.

Definition channel_write_all (data : list Z) : Ssh Z :=
  c ← get_connection;
  if negb (conn_channel c) || conn_write_failed c then mret (-1) else write_loop (length data) data.

(** The loop of [write_terminal_text]: [run] is the text from [start] to the
    cursor, [previous] the byte before the cursor. *)
Fixpoint text_loop (run : list Z) (previous : option Z) (text : list Z) : Ssh Z :=
  let flush := match run with [] => mret 0 | _ => channel_write_all run end in
  match text with
  | [] => flush
  | ch :: text =>
      if (ch =? LF) && negb (bool_decide (previous = Some CR)) then
        r ← flush;
        if negb (r =? 0) then mret (-1)
        else
          r ← channel_write_all crlf;
          if negb (r =? 0) then mret (-1) else text_loop [] (Some ch) text
      else text_loop (run ++ [ch]) (Some ch) text
  end.

Definition write_terminal_text (text : option (list Z)) : Ssh Z :=
  match text with
  | None => mret (-1)
  | Some text => text_loop [] None (c_str text)
  end.

Definition output_write_text (text : option (list Z)) : Ssh unit := write_terminal_text text ;; mret tt.
Definition output_write_prompt (text : option (list Z)) : Ssh unit := write_terminal_text text ;; mret tt.
Definition output_request_close (message : option (list Z)) : Ssh unit :=
  match message with Some m => write_terminal_text (Some m) ;; mret tt | None => mret tt end ;;
  upd_connection (fun c => c <| conn_close_requested := true |>).
Definition output_send_gmcp (package_name json_payload : option (list Z)) : Ssh Z := mret (-1).
Definition output_write_link (uri label : option (list Z)) : Ssh Z :=
  match label with None => mret (-1) | Some label => write_terminal_text (Some label) end.

#[export] Instance ssh_terminal_output : TerminalOutput ssh_world := {|
  out_write_text := output_write_text;
  out_write_prompt := output_write_prompt;
  out_request_close := output_request_close;
  out_send_gmcp := output_send_gmcp;
  out_write_link := output_write_link
|}.

Definition notify_capabilities : Ssh unit :=
  c ← get_connection;
  match conn_application_session c, hook_capabilities_changed application with
  | Some handle, Some changed =>
      a ← gets ssh_app;
      a' ← run_app (changed a handle (conn_capabilities c));
      modify (fun w => w <| ssh_app := a' |>)
  | _, _ => mret tt
  end.

(** ** Callbacks of the server and the channel *)

Definition password_auth_callback (user password : option (list Z)) (clock : option (Z * Z)) : Ssh Z :=
  c ← get_connection;
  match user, password with
  | Some user, Some password =>
      if conn_authenticated c || negb (player_store_name_valid (Some user)) then mret SSH_AUTH_DENIED
      else
        let password := take (Z.to_nat (PLAYER_PASSWORD_MAX + 1)) (c_str password) in
        if (Zlen password <? PLAYER_PASSWORD_MIN) || (Zlen password >? PLAYER_PASSWORD_MAX) then
          audit_connection (txt "ssh_login_failure") (txt "invalid username or password length") ;;
          mret SSH_AUTH_DENIED
        else
          let now_ms := monotonic_or_zero clock in
          admitted ← (if now_ms =? 0 then mret false
                      else '(allowed, _) ← with_ssh_policy
                             (security_policy_allow_auth_attempt (Some (conn_peer c)) (Some user) now_ms);
                           mret allowed);
          if negb (admitted : bool) then
            audit_connection (txt "ssh_login_throttled") (txt "password authentication delayed by shared policy") ;;
            mret SSH_AUTH_DENIED
          else
            '(verified, rehashed) ← with_ssh_store (player_store_verify_password store_directory user password);
            if negb (verified =? 1) then
              with_ssh_policy (security_policy_note_auth_failure (Some (conn_peer c)) (Some user) now_ms) ;;
              audit_connection (txt "ssh_login_failure")
                (if verified <? 0 then txt "credential store error" else txt "invalid credentials") ;;
              mret SSH_AUTH_DENIED
            else
              with_ssh_policy (security_policy_note_auth_success (Some (conn_peer c)) (Some user) now_ms) ;;
              upd_connection (fun c => c <| conn_account_name := copy_terminal_field (PLAYER_NAME_MAX + 1) (Some user) |>
                <| conn_authenticated := true |> <| conn_authenticated_ms := now_ms |> <| conn_last_activity_ms := now_ms |>) ;;
              audit_connection (txt "ssh_login_success")
                (if negb (rehashed =? 0) then txt "password accepted; verifier upgraded" else txt "password accepted") ;;
              mret SSH_AUTH_SUCCESS
  | _, _ => mret SSH_AUTH_DENIED
  end.

(** Whether a channel is handed to libssh; [allocated] and [installed] are the
    results of [ssh_channel_new] and [ssh_set_channel_callbacks]. *)
Definition session_channel_callback (allocated installed : bool) : Ssh bool :=
  c ← get_connection;
  if negb (conn_authenticated c) || conn_channel c then mret false
  else if negb allocated then mret false
  else
    ssh_record ChannelNew ;;
    if negb installed then ssh_record ChannelFree ;; mret false
    else upd_connection (fun c => c <| conn_channel := true |>) ;; mret true.

Definition refresh_term_capabilities (term : option (list Z)) : Ssh unit :=
  let named := match term with Some t => negb (Zlen (c_str t) =? 0) | None => false end in
  let text := default [] term in
  upd_capabilities (fun k => k
    <| cap_terminal_type := copy_terminal_field (TERMINAL_TYPE_MAX + 1) (Some (if named then text else txt "UNKNOWN")) |>
    <| cap_ansi := named && negb (ascii_equal_ignore_case text (txt "dumb")) |>
    <| cap_color_256 := match term with Some t => ascii_contains_ignore_case t (txt "256color") | None => false end |>).

Definition update_window (width height : Z) : Ssh unit :=
  when ((width >? 0) && (width <=? UINT16_MAX)) (upd_capabilities (fun k => k <| cap_width := width |>)) ;;
  when ((height >? 0) && (height <=? UINT16_MAX)) (upd_capabilities (fun k => k <| cap_height := height |>)).

Definition pty_request_callback (term : option (list Z)) (width height : Z) : Ssh Z :=
  update_window width height ;;
  refresh_term_capabilities term ;;
  notify_capabilities ;;
  mret 0.

Definition window_change_callback (width height : Z) : Ssh Z :=
  update_window width height ;;
  notify_capabilities ;;
  mret 0.

Definition env_request_callback (name value : option (list Z)) : Ssh Z :=
  match name, value with
  | Some name, Some value =>
      if ascii_equal_ignore_case name (txt "LANG") || ascii_equal_ignore_case name (txt "LC_CTYPE") then
        when (locale_says_utf8 value)
          (upd_capabilities (fun k => k <| cap_utf8 := true |>) ;; notify_capabilities) ;;
        mret 0
      else if ascii_equal_ignore_case name (txt "COLORTERM") then
        when (ascii_contains_ignore_case value (txt "truecolor") || ascii_contains_ignore_case value (txt "24bit"))
          (upd_capabilities (fun k => k <| cap_truecolor := true |> <| cap_color_256 := true |> <| cap_ansi := true |>) ;;
           notify_capabilities) ;;
        mret 0
      else mret 1
  | _, _ => mret 1
  end.

Definition open_application_session : Ssh Z :=
  match hook_open application with
  | None =>
      write_terminal_text (Some (txt "No terminal application is configured for SSH." ++ [LF])) ;;
      mret (-1)
  | Some open =>
      c ← get_connection;
      handle ← ssh_call_app (fun a => open a (conn_account_name c) (conn_capabilities c));
      upd_connection (fun c => c <| conn_application_session := handle |>) ;;
      match handle with
      | None =>
          audit_connection (txt "ssh_application_rejected") (txt "authenticated application attachment rejected") ;;
          mret (-1)
      | Some _ => mret 0
      end
  end.

Definition shell_request_callback : Ssh Z :=
  c ← get_connection;
  if negb (conn_authenticated c) || conn_shell_started c then mret 1
  else
    upd_connection (fun c => c <| conn_shell_started := true |>) ;;
    opened ← open_application_session;
    if negb (opened =? 0) then upd_connection (fun c => c <| conn_close_requested := true |>) ;; mret 1
    else audit_connection (txt "ssh_session_open") (txt "interactive terminal application opened") ;; mret 0.

(** ** Input *)

(** [line[index] = '\0'] inside [line[SSH_INPUT_LINE_MAX + 1]]. *)
Definition terminate_line (index : Z) : Ssh unit :=
  lift_opt (if index <? SSH_INPUT_LINE_MAX + 1 then Some tt else None).

Definition complete_input_line (now_ms : Z) : Ssh Z :=
  c ← get_connection;
  let '(window, ok) :=
    rate_consume (conn_line_window c) 1 SSH_INPUT_LINES_PER_WINDOW SSH_INPUT_LINES_WINDOW_MS now_ms in
  upd_connection (fun c => c <| conn_line_window := window |>) ;;
  if negb ok then
    audit_connection (txt "ssh_line_flood") (txt "line rate limit exceeded") ;;
    write_terminal_text (Some (txt "Input rate limit exceeded." ++ [LF])) ;;
    upd_connection (fun c => c <| conn_close_requested := true |>) ;;
    mret (-1)
  else
    terminate_line (Zlen (conn_line c)) ;;
    close_requested ← match conn_application_session c, hook_line application with
                      | Some handle, Some line => ssh_call_app (fun a => line a handle (conn_line c))
                      | _, _ => mret 0
                      end;
    upd_connection (fun c => c <| conn_line := [] |>) ;;
    when (negb (close_requested =? 0)) (upd_connection (fun c => c <| conn_close_requested := true |>)) ;;
    mret 0.

(** The [while] loop of the backspace case: the index of the first byte of the
    last character, from [previous] down. *)
Fixpoint last_character (line : list Z) (previous : nat) : nat :=
  match previous with
  | O => O
  | S p => if Z.land (nth previous line 0) 192 =? 128 then last_character line p else previous
  end.

Definition handle_input_byte (byte now_ms : Z) : Ssh Z :=
  c ← get_connection;
  upd_connection (fun c => c <| conn_pending_cr := false |>) ;;
  if conn_pending_cr c && (byte =? LF) then mret 0
  else if (byte =? CR) || (byte =? LF) then
    r ← channel_write_all crlf;
    if negb (r =? 0) then mret (-1)
    else
      r ← complete_input_line now_ms;
      if negb (r =? 0) then mret (-1)
      else when (byte =? CR) (upd_connection (fun c => c <| conn_pending_cr := true |>)) ;; mret 0
  else if byte =? 4 then upd_connection (fun c => c <| conn_close_requested := true |>) ;; mret 0
  else if negb (conn_escape_state c =? 0) then
    (if conn_escape_state c =? 1 then
       upd_connection (fun c => c <| conn_escape_state := if (byte =? 91) || (byte =? 79) then 2 else 0 |>)
     else when ((byte >=? 64) && (byte <=? 126)) (upd_connection (fun c => c <| conn_escape_state := 0 |>))) ;;
    mret 0
  else if byte =? 27 then upd_connection (fun c => c <| conn_escape_state := 1 |>) ;; mret 0
  else if (byte =? 8) || (byte =? 127) then
    if Zlen (conn_line c) >? 0 then
      let previous := last_character (conn_line c) (length (conn_line c) - 1) in
      upd_connection (fun c => c <| conn_line := take previous (conn_line c) |>) ;;
      terminate_line (Z.of_nat previous) ;;
      r ← channel_write_all [8; 32; 8];
      mret (if negb (r =? 0) then -1 else 0)
    else mret 0
  else if byte <? 32 then mret 0
  else if Zlen (conn_line c) >=? SSH_INPUT_LINE_MAX then
    audit_connection (txt "ssh_input_overflow") (txt "application input line exceeded bound") ;;
    write_terminal_text (Some (crlf ++ txt "Input line is too long." ++ [LF])) ;;
    upd_connection (fun c => c <| conn_close_requested := true |>) ;;
    mret (-1)
  else
    line ← lift_opt (push (SSH_INPUT_LINE_MAX + 1) (conn_line c) byte);
    upd_connection (fun c => c <| conn_line := line |>) ;;
    channel_write_all [byte].

Fixpoint handle_input_bytes (bytes : list Z) (now_ms : Z) : Ssh unit :=
  match bytes with
  | [] => mret tt
  | byte :: bytes =>
      c ← get_connection;
      if conn_close_requested c then mret tt
      else
        r ← handle_input_byte byte now_ms;
        if negb (r =? 0) then mret tt else handle_input_bytes bytes now_ms
  end.

Definition channel_data_callback (data : option (list Z)) (is_stderr : bool) (clock : option (Z * Z)) : Ssh Z :=
  c ← get_connection;
  match data, conn_application_session c with
  | Some data, Some _ =>
      if is_stderr || negb (conn_shell_started c) then mret (Zlen data)
      else
        let now_ms := monotonic_or_zero clock in
        admitted ← (if now_ms =? 0 then mret false
                    else
                      let '(window, ok) :=
                        rate_consume (conn_byte_window c) (Zlen data) SSH_INPUT_BYTES_PER_WINDOW SSH_INPUT_BYTES_WINDOW_MS now_ms in
                      upd_connection (fun c => c <| conn_byte_window := window |>) ;; mret ok);
        if negb (admitted : bool) then
          audit_connection (txt "ssh_input_flood") (txt "byte rate limit exceeded") ;;
          upd_connection (fun c => c <| conn_close_requested := true |>) ;;
          mret (Zlen data)
        else
          upd_connection (fun c => c <| conn_last_activity_ms := now_ms |>) ;;
          handle_input_bytes data now_ms ;;
          mret (Zlen data)
  | _, _ => mret (Zlen (default [] data))
  end.

Definition channel_eof_callback : Ssh unit := upd_connection (fun c => c <| conn_close_requested := true |>).
Definition channel_close_callback : Ssh unit := upd_connection (fun c => c <| conn_close_requested := true |>).

Definition exec_request_callback : Ssh Z :=
  audit_connection (txt "ssh_exec_denied") (txt "exec requests are not a MUD shell") ;; mret 1.

Definition subsystem_request_callback : Ssh Z :=
  audit_connection (txt "ssh_subsystem_denied") (txt "subsystems are disabled") ;; mret 1.

(** ** The callbacks installed, and the event loop *)

(** One call libssh makes, with its arguments and the clock it would read. *)
Inductive ssh_callback :=
| CbPassword (user password : option (list Z)) (clock : option (Z * Z))
| CbChannelOpen (allocated installed : bool)
| CbPty (term : option (list Z)) (width height : Z)
| CbShell
| CbWindowChange (width height : Z)
| CbExec
| CbEnv (name value : option (list Z))
| CbSubsystem
| CbData (data : option (list Z)) (is_stderr : bool) (clock : option (Z * Z))
| CbEof
| CbClose.

(** The tables [server_callbacks] and [channel_callbacks]. *)
Definition dispatch (cb : ssh_callback) : Ssh unit :=
  match cb with
  | CbPassword user password clock => password_auth_callback user password clock ;; mret tt
  | CbChannelOpen allocated installed => session_channel_callback allocated installed ;; mret tt
  | CbPty term width height => pty_request_callback term width height ;; mret tt
  | CbShell => shell_request_callback ;; mret tt
  | CbWindowChange width height => window_change_callback width height ;; mret tt
  | CbExec => exec_request_callback ;; mret tt
  | CbEnv name value => env_request_callback name value ;; mret tt
  | CbSubsystem => subsystem_request_callback ;; mret tt
  | CbData data is_stderr clock => channel_data_callback data is_stderr clock ;; mret tt
  | CbEof => channel_eof_callback
  | CbClose => channel_close_callback
  end.

(** One turn of the loop: what [ssh_is_connected] said, the callbacks made
    inside [ssh_event_dopoll] and whether it failed, the clock after it, and
    what [ssh_channel_is_open] and [ssh_channel_is_eof] said at its end. *)
Record ssh_tick := mk_tick {
  tick_connected : bool;
  tick_callbacks : list ssh_callback;
  tick_failed : bool;
  tick_clock : option (Z * Z);
  tick_channel_open : bool;
  tick_channel_eof : bool
}.

(** The body of the loop; [true] is to go round again. *)
Definition loop_body (tick : ssh_tick) : Ssh bool :=
  for_each (tick_callbacks tick) dispatch ;;
  if tick_failed tick then
    audit_connection (txt "ssh_event_failure") (txt "event poll failed") ;; mret false
  else
    let now_ms := monotonic_or_zero (tick_clock tick) in
    if now_ms =? 0 then mret false
    else
      c ← get_connection;
      if negb (conn_authenticated c) && (wrap64 (now_ms - conn_connected_ms c) >=? SSH_AUTH_TIMEOUT_MS) then
        audit_connection (txt "ssh_auth_timeout") (txt "authentication timed out") ;; mret false
      else if conn_authenticated c && negb (conn_shell_started c)
              && (wrap64 (now_ms - conn_authenticated_ms c) >=? SSH_AUTH_TIMEOUT_MS) then
        audit_connection (txt "ssh_channel_timeout") (txt "interactive channel timed out") ;; mret false
      else if conn_shell_started c && (wrap64 (now_ms - conn_last_activity_ms c) >=? SSH_IDLE_TIMEOUT_MS) then
        write_terminal_text (Some (txt "Idle timeout." ++ [LF])) ;;
        audit_connection (txt "ssh_idle_timeout") (txt "session idle timeout") ;; mret false
      else
        stop ← (if conn_shell_started c
                then match conn_application_session c, hook_poll application with
                     | Some handle, Some poll => r ← ssh_call_app (fun a => poll a handle); mret (negb (r =? 0))
                     | _, _ => mret false
                     end
                else mret false);
        if (stop : bool) then upd_connection (fun c => c <| conn_close_requested := true |>) ;; mret false
        else
          c ← get_connection;
          if wrap64 (now_ms - conn_connected_ms c) >=? SSH_SESSION_MAX_MS then
            write_terminal_text (Some (txt "Session time limit reached." ++ [LF])) ;;
            audit_connection (txt "ssh_session_timeout") (txt "maximum session lifetime reached") ;; mret false
          else mret (negb (conn_channel c && (negb (tick_channel_open tick) || tick_channel_eof tick))).

(** The loop; once the turns given are used up the peer is gone. *)
Fixpoint event_loop (ticks : list ssh_tick) : Ssh unit :=
  match ticks with
  | [] => mret tt
  | tick :: ticks =>
      c ← get_connection;
      if conn_close_requested c || negb (tick_connected tick) then mret tt
      else again ← loop_body tick; if (again : bool) then event_loop ticks else mret tt
  end.

(** ** Set-up, clean-up and the whole connection *)

(** The results of the library calls of [setup_ssh_session], in order. *)
Record ssh_setup := mk_setup {
  setup_bind : bool;
  setup_session : bool;
  setup_host_key : bool;
  setup_callbacks : bool;
  setup_accept : bool;
  setup_key_exchange : bool;
  setup_banner : option (list Z);
  setup_event : bool;
  setup_add : bool
}.

(** The steps between the two allocations and the label [cleanup]. *)
Definition setup_steps (lib : ssh_setup) : Ssh Z :=
  if negb (setup_bind lib) || negb (setup_session lib) then mret (-1)
  else if negb (setup_host_key lib) then
    audit_connection (txt "ssh_host_key_error") (txt "unable to load host key") ;; mret (-1)
  else if negb (setup_callbacks lib) then mret (-1)
  else if negb (setup_accept lib) then
    audit_connection (txt "ssh_accept_failure") (txt "libssh rejected accepted socket") ;; mret (-1)
  else
    ssh_record AttachFd ;;
    upd_connection (fun c => c <| conn_fd_attached := true |>) ;;
    if negb (setup_key_exchange lib) then
      audit_connection (txt "ssh_kex_failure") (txt "SSH key exchange failed") ;; mret (-1)
    else
      upd_capabilities (fun k => k <| cap_client_version := copy_terminal_field (TERMINAL_CLIENT_VERSION_MAX + 1)
        (Some (match setup_banner lib with Some banner => banner | None => txt "UNKNOWN" end)) |>) ;;
      when (setup_event lib) (ssh_record EventNew) ;;
      upd_connection (fun c => c <| conn_event := setup_event lib |>) ;;
      mret (if setup_event lib && setup_add lib then 0 else -1).

Definition setup_ssh_session (lib : ssh_setup) : Ssh Z :=
  when (setup_bind lib) (ssh_record BindNew) ;;
  when (setup_session lib) (ssh_record SessionNew) ;;
  upd_connection (fun c => c <| conn_session := setup_session lib |>) ;;
  result ← setup_steps lib;
  when (setup_bind lib) (ssh_record BindFree) ;;
  mret result.

(** [channel_open] and [session_connected] are what libssh answers at the end. *)
Definition cleanup_ssh_connection (channel_open session_connected : bool) : Ssh unit :=
  c ← get_connection;
  match conn_application_session c, hook_close application with
  | Some handle, Some close =>
      modify (fun w => w <| ssh_app := close (ssh_app w) handle |>) ;;
      upd_connection (fun c => c <| conn_application_session := None |>)
  | _, _ => mret tt
  end ;;
  when (conn_channel c)
    (when channel_open (ssh_record ChannelSendEof ;; ssh_record ChannelClose) ;;
     ssh_record ChannelFree ;;
     upd_connection (fun c => c <| conn_channel := false |>)) ;;
  when (conn_event c && conn_session c) (ssh_record EventRemoveSession) ;;
  when (conn_event c) (ssh_record EventFree ;; upd_connection (fun c => c <| conn_event := false |>)) ;;
  when (conn_session c)
    (when session_connected (ssh_record SessionDisconnect) ;;
     ssh_record SessionFree ;;
     upd_connection (fun c => c <| conn_session := false |>)) ;;
  when (negb (conn_fd_attached c) && (conn_client_fd c >=? 0)) (ssh_record CloseFd) ;;
  upd_connection (fun c => c <| conn_client_fd := -1 |>).

(** [ssh_transport_connection_config]: of the store, the policy and the
    application only whether the pointer is set matters here. *)
Record ssh_transport_connection_config := mk_ssh_config {
  config_client_fd : Z;
  config_peer : option (list Z);
  config_host_key_path : option (list Z);
  config_store : bool;
  config_security : bool;
  config_application : bool
}.

Definition initial_capabilities : terminal_capabilities :=
  mk_capabilities 80 24 false false false false false true false false false false false
    (copy_terminal_field (TERMINAL_TYPE_MAX + 1) (Some (txt "UNKNOWN")))
    (copy_terminal_field (TERMINAL_CLIENT_NAME_MAX + 1) (Some (txt "SSH")))
    (copy_terminal_field (TERMINAL_CLIENT_VERSION_MAX + 1) (Some (txt "UNKNOWN"))).

Definition new_connection (config : ssh_transport_connection_config) : ssh_connection :=
  mk_connection false false false None (copy_terminal_field 96 (config_peer config)) [] initial_capabilities [] false 0 false
    false false false (config_client_fd config) false 0 0 0 (mk_rate 0 0) (mk_rate 0 0).

Definition config_valid (config : ssh_transport_connection_config) : bool :=
  negb ((config_client_fd config <? 0) || negb (bool_decide (is_Some (config_peer config)))
        || negb (bool_decide (is_Some (config_host_key_path config))) || negb (config_store config)
        || negb (config_security config) || negb (config_application config)).

(** Everything libssh and the kernel decide during one connection. *)
Record ssh_history := mk_history {
  history_clock : option (Z * Z);
  history_setup : ssh_setup;
  history_ticks : list ssh_tick;
  history_channel_open : bool;
  history_connected : bool
}.

(** From the first clock reading to the label [cleanup]. *)
Definition connection_work (h : ssh_history) : Ssh Z :=
  let now_ms := monotonic_or_zero (history_clock h) in
  if now_ms =? 0 then mret (-1)
  else
    upd_connection (fun c => c <| conn_connected_ms := now_ms |> <| conn_last_activity_ms := now_ms |>) ;;
    r ← setup_ssh_session (history_setup h);
    if negb (r =? 0) then mret (-1)
    else
      event_loop (history_ticks h) ;;
      c ← get_connection;
      mret (if conn_authenticated c && conn_shell_started c then 0 else -1).

Definition ssh_transport_run_connection (config : ssh_transport_connection_config) (h : ssh_history) : Ssh Z :=
  if negb (config_valid config) then mret (-1)
  else
    upd_connection (fun _ => new_connection config) ;;
    result ← connection_work h;
    cleanup_ssh_connection (history_channel_open h) (history_connected h) ;;
    mret result.
End connection.

(** * The host key file *)

(** The fields of [struct stat] the test reads. *)
Record key_stat := mk_key_stat { st_mode : Z; st_uid : Z }.
Definition S_IFMT : Z := 61440.
Definition S_IFREG : Z := 32768.
Definition S_IFLNK : Z := 40960.

(** [info] is what [lstat] stored ([None] when it failed) and [readable] whether
    [access(path, R_OK)] succeeded. *)
Definition ssh_transport_validate_host_key (path : option (list Z)) (info : option key_stat) (euid : Z) (readable : bool) : Z :=
  match path, info with
  | Some _, Some info =>
      if negb (Z.land (st_mode info) S_IFMT =? S_IFREG) || (Z.land (st_mode info) S_IFMT =? S_IFLNK)
         || negb (st_uid info =? euid) || negb (Z.land (st_mode info) 63 =? 0) || negb readable
      then -1 else 0
  | _, _ => -1
  end.
