(* ===== verification/SshOutput.v ===== *)
(** What an SSH connection writes: the channel writer against arbitrary partial
    writes and failures, the text adapter against a reference translation of
    line ends, and the frame of every output call ([speaks]), hence of
    everything an application can do to a connection. *)
From S2P Require Import Prelude TerminalText AsciiText SecurityPolicy PlayerStore Application TelnetSession.
From S2P Require Import TelnetOutput SshTransport.

(** The reference translation: a line feed that does not follow a carriage
    return becomes CR LF. *)
Fixpoint terminal_lines (previous : option Z) (text : list Z) : list Z :=
  match text with
  | [] => []
  | ch :: text =>
      (if (ch =? LF) && negb (bool_decide (previous = Some CR)) then crlf else [ch]) ++ terminal_lines (Some ch) text
  end.

Section output.
Context {E : Environment}.

(** ** The channel writer *)

(** [data] was offered to the channel: all of it was taken, or a proper part of
    it was and the failure is on record.  Nothing else changed. *)
Inductive offered (w : ssh_world) (data : list Z) : Z -> ssh_world -> Prop :=
| offered_all res cs : concat cs = data ->
    offered w data 0 (w <| channel_sent := channel_sent w ++ cs |> <| channel_results := res |>)
| offered_part res cs rest : data = concat cs ++ rest -> rest <> [] ->
    offered w data (-1) (w <| channel_sent := channel_sent w ++ cs |> <| channel_results := res |>
      <| connection := (connection w) <| conn_write_failed := true |> |>
      <| ssh_trail := ssh_trail w ++ [mk_audit (txt "ssh_write_failure") (conn_peer (connection w)) (txt "channel write failed")] |>).

Lemma offered_more w c rest r w' res :
  offered (w <| channel_sent := channel_sent w ++ [c] |> <| channel_results := res |>) rest r w' -> offered w (c ++ rest) r w'.
Proof.
  intros H. inversion H as [res' cs Hcs|res' cs rest' -> Hr]; subst.
  - pose proof (offered_all w (c ++ concat cs) res' (c :: cs) eq_refl) as Ho.
    rewrite (cons_middle c (channel_sent w) cs), app_assoc in Ho. exact Ho.
  - pose proof (offered_part w (c ++ concat cs ++ rest') res' (c :: cs) rest') as Ho.
    rewrite (cons_middle c (channel_sent w) cs), (app_assoc (channel_sent w) [c] cs) in Ho. apply Ho; [|done].
    cbn [concat]. by rewrite app_assoc.
Qed.

Lemma offered_nothing w : offered w [] 0 w.
Proof. pose proof (offered_all w [] (channel_results w) [] eq_refl) as H. rewrite app_nil_r in H. by destruct w. Qed.

(** What one call of the library does with a chunk. *)
Lemma channel_write_takes chunk w :
  chunk <> [] ->
  wp (ssh_channel_write chunk) (fun r w' => exists res,
    (r <= 0 /\ w' = w <| channel_results := res |>) \/
    (0 < r <= Zlen chunk /\
     w' = w <| channel_sent := channel_sent w ++ [take (Z.to_nat r) chunk] |> <| channel_results := res |>)) w.
Proof.
  intros Hc. assert (0 < Zlen chunk) by (destruct chunk; simpl; [done|lia]).
  unfold ssh_channel_write, channel_accept. apply wp_bind, wp_gets. destruct (channel_results w) as [|r res] eqn:Er.
  - repeat wp_step. exists []. right. split; [lia|]. rewrite Nat2Z.id, take_ge by lia. rewrite <- Er. by destruct w.
  - repeat wp_step; exists res; [left|right]; breflect; split; auto. lia.
Qed.

Lemma take_split n r (data : list Z) :
  (r <= length (take n data))%nat -> data = take r (take n data) ++ drop r data.
Proof. rewrite length_take. intros H. rewrite take_take, Nat.min_l by lia. by rewrite take_drop. Qed.

Lemma write_loop_offers fuel data w :
  (length data <= fuel)%nat -> wp (write_loop fuel data) (fun r w' => offered w data r w') w.
Proof.
  revert data w. induction fuel as [|fuel IH]; intros data w Hlen.
  { destruct data; simpl in Hlen; [|lia]. apply wp_ret, offered_nothing. }
  destruct data as [|x data]; [apply wp_ret, offered_nothing|].
  cbn [write_loop]. assert (0 < Z.to_nat SSH_WRITE_CHUNK_MAX)%nat as Hn by (unfold SSH_WRITE_CHUNK_MAX; lia).
  revert Hn. generalize (Z.to_nat SSH_WRITE_CHUNK_MAX) as n. intros n Hn. remember (x :: data) as l eqn:El.
  assert (take n l <> []) as Hne by (rewrite El; destruct n; [lia|done]).
  apply wp_bind. eapply wp_mono; [by apply channel_write_takes|].
  intros r w1 (res & [[Hr ->] | [Hr ->]]).
  - destruct (Z.leb_spec r 0); [|lia]. unfold upd_connection, audit_connection. repeat wp_step.
    pose proof (offered_part w l res [] l eq_refl) as Hf. rewrite app_nil_r in Hf. apply Hf. by rewrite El.
  - destruct (Z.leb_spec r 0); [lia|]. eapply wp_mono; [apply IH|].
    { rewrite length_drop. rewrite El in *. cbn [length] in *. lia. }
    intros z w' Hz. rewrite (take_split n (Z.to_nat r) l) by lia. by eapply offered_more.
Qed.

Lemma channel_write_offers data w :
  wp (channel_write_all data) (fun r w' =>
    if conn_channel (connection w) && negb (conn_write_failed (connection w)) then offered w data r w' else r = -1 /\ w' = w) w.
Proof.
  unfold channel_write_all. apply wp_bind, wp_gets. destruct (conn_channel _), (conn_write_failed _); simpl; try done.
  by apply write_loop_offers.
Qed.
(** Whether a write would reach the channel. *)
Definition live (w : ssh_world) : bool := conn_channel (connection w) && negb (conn_write_failed (connection w)).

(** ** The frame of an output call *)

(** Output and audit trail grow; the connection may record a failed write and
    a request to close; a connection that is not live sends nothing. *)
Record speaks (w w' : ssh_world) : Prop := mk_speaks {
  sp_connection : connection w' = (connection w) <| conn_write_failed := conn_write_failed (connection w') |>
                    <| conn_close_requested := conn_close_requested (connection w') |>;
  sp_failed : conn_write_failed (connection w) = true -> conn_write_failed (connection w') = true;
  sp_closed : conn_close_requested (connection w) = true -> conn_close_requested (connection w') = true;
  sp_policy : ssh_policy w' = ssh_policy w;
  sp_store : ssh_store w' = ssh_store w;
  sp_calls : ssh_calls w' = ssh_calls w;
  sp_app : ssh_app w' = ssh_app w;
  sp_trail : ssh_trail w `prefix_of` ssh_trail w';
  sp_output : ssh_output w `prefix_of` ssh_output w';
  sp_mute : live w = false -> ssh_output w' = ssh_output w
}.

Lemma speaks_refl w : speaks w w.
Proof. split; auto. by destruct w as [[]]. Qed.

Lemma speaks_channel w w' : speaks w w' -> conn_channel (connection w') = conn_channel (connection w).
Proof. intros H. by rewrite (sp_connection _ _ H). Qed.

Lemma speaks_live w w' : speaks w w' -> live w = false -> live w' = false.
Proof.
  intros H. unfold live. rewrite (speaks_channel _ _ H). pose proof (sp_failed _ _ H).
  destruct (conn_channel _); [|done]. destruct (conn_write_failed (connection w)); [|done]. by rewrite H0.
Qed.

Lemma speaks_trans w0 w1 w2 : speaks w0 w1 -> speaks w1 w2 -> speaks w0 w2.
Proof.
  intros H1 H2. pose proof (speaks_live _ _ H1) as Hl. destruct H1, H2.
  split; try congruence; auto; [rewrite sp_connection1, sp_connection0; reflexivity|by etrans..|].
  intros Hm. rewrite sp_mute1 by auto. auto.
Qed.

#[global] Instance speaks_preorder : PreOrder speaks.
Proof. split; [exact speaks_refl | exact speaks_trans]. Qed.

Lemma ssh_output_app w cs : ssh_output (w <| channel_sent := channel_sent w ++ cs |>) = ssh_output w ++ concat cs.
Proof. unfold ssh_output. apply concat_app. Qed.

Lemma offered_speaks w data r w' : live w = true -> offered w data r w' -> speaks w w'.
Proof.
  intros Hl H. destruct H as [res cs <-|res cs rest -> Hr]; (split; try done; cbn -[txt]); try (by destruct w as [[]]);
    try (by rewrite Hl); try (by eexists); exists (concat cs); by apply concat_app.
Qed.

Lemma channel_write_speaks data w : wp (channel_write_all data) (fun _ w' => speaks w w') w.
Proof.
  eapply wp_mono; [apply channel_write_offers|]. intros r w' H. fold (live w) in H.
  destruct (live w) eqn:Hl; [by eapply offered_speaks|]. destruct H as [_ ->]. apply speaks_refl.
Qed.

Lemma audit_speaks event detail w : wp (audit_connection event detail) (fun _ w' => speaks w w') w.
Proof. apply wp_modify. split; try done; [by destruct w as [[]]|by eexists]. Qed.

Lemma close_speaks w : wp (upd_connection (fun c => c <| conn_close_requested := true |>)) (fun _ w' => speaks w w') w.
Proof. apply wp_modify. split; try done. Qed.

(** Sequencing in the frame. *)
Lemma speaks_bind {A B} (m : M ssh_world A) (k : A -> M ssh_world B) w :
  wp m (fun _ w' => speaks w w') w -> (forall a w', wp (k a) (fun _ w'' => speaks w' w'') w') ->
  wp (m ≫= k) (fun _ w' => speaks w w') w.
Proof.
  intros Hm Hk. apply wp_bind. eapply wp_mono; [exact Hm|]. intros a w1 H1. eapply wp_mono; [apply Hk|].
  intros b w2 H2. exact (speaks_trans _ _ _ H1 H2).
Qed.

Lemma speaks_after {A} (m : M ssh_world A) w0 w :
  speaks w0 w -> wp m (fun _ w' => speaks w w') w -> wp m (fun _ w' => speaks w0 w') w.
Proof. intros H0 Hm. eapply wp_mono; [exact Hm|]. intros a w1 H1. exact (speaks_trans _ _ _ H0 H1). Qed.

Lemma speaks_ret {A} (a : A) w : wp (mret a) (fun _ w' => speaks w w') w.
Proof. apply wp_ret. reflexivity. Qed.
End output.

Create HintDb speaks.
#[export] Hint Resolve channel_write_speaks audit_speaks close_speaks speaks_ret : speaks.

Ltac speaks_step :=
  lazymatch goal with
  | |- wp (_ ≫= _) _ _ => apply speaks_bind; [|intros ? ?]
  | |- wp (if ?b then _ else _) _ _ => destruct b
  | |- wp (match ?x with _ => _ end) _ _ => destruct x
  | |- wp (when ?b _) _ _ => destruct b; cbn [when]
  | |- wp _ _ _ => solve [eauto with speaks]
  end; cbv beta zeta.

Section text.
Context {E : Environment}.

Lemma text_loop_speaks run prev text w : wp (text_loop run prev text) (fun _ w' => speaks w w') w.
Proof.
  revert run prev w. induction text as [|ch text IH]; intros run prev w; cbn [text_loop]; repeat speaks_step; auto.
Qed.

Lemma write_text_speaks text w : wp (write_terminal_text text) (fun _ w' => speaks w w') w.
Proof. destruct text; [apply text_loop_speaks|apply speaks_ret]. Qed.
Hint Resolve write_text_speaks : speaks.

Lemma run_app_speaks {A} (p : app_prog A) w : wp (run_app p) (fun _ w' => speaks w w') w.
Proof.
  apply (wp_run_app p (speaks w)); [..|apply speaks_refl]; intros; (eapply speaks_after; [eassumption|]);
    cbn -[write_terminal_text wp];
    unfold output_write_text, output_write_prompt, output_request_close, output_send_gmcp, output_write_link;
    repeat speaks_step.
Qed.
End text.
#[export] Hint Resolve write_text_speaks run_app_speaks : speaks.

(** * Text *)

Section adapters.
Context {E : Environment}.

(** What a live channel shows of [text]: all of it, or a part and then nothing
    more. *)
Definition shows (w : ssh_world) (text : list Z) (r : Z) (w' : ssh_world) : Prop :=
  exists shown, ssh_output w' = ssh_output w ++ shown /\
    ((r = 0 /\ shown = text /\ live w' = true) \/ (r = -1 /\ shown `prefix_of` text /\ live w' = false)).

Lemma offered_shows w data r w' : live w = true -> offered w data r w' -> shows w data r w'.
Proof.
  intros Hl H. unfold live in Hl. apply andb_prop in Hl as [Hc Hf]. destruct H as [res cs <-|res cs rest -> Hr]; exists (concat cs).
  - split; [apply concat_app|]. left. split_and!; auto. unfold live; simpl. by rewrite Hc, Hf.
  - split; [apply concat_app|]. right. split_and!; auto; [by apply prefix_app_r|]. unfold live; simpl. by rewrite andb_false_r.
Qed.

Lemma channel_write_shows data w : live w = true -> wp (channel_write_all data) (shows w data) w.
Proof.
  intros Hl. eapply wp_mono; [apply channel_write_offers|]. intros r w' H. fold (live w) in H. rewrite Hl in H.
  by apply offered_shows.
Qed.

Lemma shows_then w a b r r' w1 w2 : shows w a r w1 -> r = 0 -> shows w1 b r' w2 -> shows w (a ++ b) r' w2.
Proof.
  intros (sa & Ea & Ha) Hr (sb & Eb & Hb). destruct Ha as [(_ & -> & _)|(? & _)]; [|lia].
  exists (a ++ sb). split; [by rewrite Eb, Ea, app_assoc|]. destruct Hb as [(? & -> & ?)|(? & ? & ?)]; [by left|].
  right. split_and!; auto. by apply prefix_app.
Qed.

Lemma shows_failed w a b r w1 : shows w a r w1 -> r <> 0 -> shows w (a ++ b) (-1) w1.
Proof.
  intros (sa & Ea & Ha) Hr. destruct Ha as [(? & _)|(? & ? & ?)]; [lia|]. exists sa. split; [done|]. right.
  split_and!; auto. by apply prefix_app_r.
Qed.

Lemma shows_live w a r w1 : shows w a r w1 -> r = 0 -> live w1 = true.
Proof. intros (s & _ & [(_ & _ & ?)|(? & _)]) Hr; [done|lia]. Qed.

Lemma flush_shows run w :
  live w = true -> wp (match run with [] => mret 0 | _ => channel_write_all run end) (shows w run) w.
Proof.
  intros Hl. destruct run; [|by apply channel_write_shows]. apply wp_ret. exists []. split; [by rewrite app_nil_r|]. by left.
Qed.

Lemma text_loop_shows run prev text w :
  live w = true -> wp (text_loop run prev text) (shows w (run ++ terminal_lines prev text)) w.
Proof.
  revert run prev w. induction text as [|ch text IH]; intros run prev w Hl; cbn [text_loop terminal_lines].
  { rewrite app_nil_r. by apply flush_shows. }
  case_test.
  - apply wp_bind. eapply wp_mono; [by apply flush_shows|]. intros r w1 H1.
    destruct (Z.eqb_spec r 0) as [-> |Hr]; simpl negb; [|apply wp_ret; by eapply shows_failed].
    apply wp_bind. eapply wp_mono; [apply channel_write_shows; by eapply shows_live|]. intros r w2 H2.
    pose proof (shows_then _ _ _ _ _ _ _ H1 eq_refl H2) as H3. rewrite app_assoc.
    destruct (Z.eqb_spec r 0) as [-> |Hr]; simpl negb; [|apply wp_ret; by eapply shows_failed].
    eapply wp_mono; [apply IH; by eapply shows_live|]. intros r w3 H4. by eapply shows_then.
  - eapply wp_mono; [by apply IH|]. intros r w' H. by rewrite <- app_assoc in H.
Qed.

Lemma application_chunks_concat run prev text : concat (application_chunks run prev text) = run ++ terminal_lines prev text.
Proof.
  revert run prev. induction text as [|ch text IH]; intros run prev; cbn [application_chunks terminal_lines].
  { destruct run; [done|]. cbn [concat]. by rewrite !app_nil_r. }
  case_test.
  - rewrite concat_app. cbn [concat]. rewrite IH. destruct run; [done|]. cbn [concat app]. by rewrite app_nil_r.
  - by rewrite IH, <- app_assoc.
Qed.

Lemma quote_iac_app a b : quote_iac (a ++ b) = quote_iac a ++ quote_iac b.
Proof. apply flat_map_app. Qed.

Lemma concat_telnet_chunks (l : list (list Z)) :
  concat (flat_map (telnet_chunks []) l) = quote_iac (concat l).
Proof. induction l as [|c l IH]; [done|]. cbn [flat_map concat]. by rewrite concat_app, IH, telnet_chunks_concat, quote_iac_app. Qed.

Lemma telnet_shows text v :
  close_requested (session v) = false ->
  exists v', write_application_text text v = Some (tt, v') /\ sent v' = sent v ++ quote_iac (terminal_lines None (c_str text)).
Proof.
  intros Hc. unfold write_application_text. eexists. split.
  { apply for_each_emits. intros. apply write_telnet_data_run. }
  unfold sent, emits. rewrite Hc. unfold set_field, set_wire. cbn [wire]. rewrite concat_app, concat_filter_nonempty. f_equal.
  by rewrite concat_telnet_chunks, application_chunks_concat.
Qed.

(** Every line feed of the translation follows a carriage return. *)
Lemma terminal_lines_ends prev text pre post :
  terminal_lines prev text = pre ++ LF :: post -> pre = [] /\ prev = Some CR \/ exists pre', pre = pre' ++ [CR].
Proof.
  revert prev pre. induction text as [|ch text IH]; intros prev pre Ht; cbn [terminal_lines] in Ht; [by destruct pre|].
  destruct (ch =? LF) eqn:Ech; breflect; cbn [andb] in Ht.
  - subst ch. destruct (bool_decide _) eqn:Hp; cbn [negb app crlf] in Ht.
    + apply bool_decide_eq_true in Hp. destruct pre as [|x pre]; [by left|]. injection Ht as <- Ht.
      destruct (IH _ _ Ht) as [[_ ?]|[pre' ->]]; [done|]. right. by exists (LF :: pre').
    + destruct pre as [|x [|y pre]]; [done| |].
      * injection Ht as <- _. right. by exists [].
      * injection Ht as <- <- Ht. destruct (IH _ _ Ht) as [[_ ?]|[pre' ->]]; [done|]. right. by exists (CR :: LF :: pre').
  - cbn [app] in Ht. destruct pre as [|x pre]; [injection Ht as ?; contradiction|]. injection Ht as <- Ht.
    destruct (IH _ _ Ht) as [[-> [= ->]]|[pre' ->]]; right; [by exists []|by exists (ch :: pre')].
Qed.

(** [C27] Both transports show an application the same terminal.  On a live SSH
    channel that takes arbitrary parts of what it is offered and may fail at
    any write, and on an open Telnet session, a text is written as the one
    reference translation [terminal_lines]: SSH accepts it byte for byte (or a
    prefix of it, and then reports -1 and writes nothing more), Telnet sends it
    with IAC quoted.  In it every line feed follows a carriage return. *)
Theorem adapters_show_same_text text w v :
  live w = true -> close_requested (session v) = false ->
  exists r w' v' shown,
    write_terminal_text (Some text) w = Some (r, w') /\
    write_application_text text v = Some (tt, v') /\
    ssh_output w' = ssh_output w ++ shown /\
    (r = 0 /\ shown = terminal_lines None (c_str text) /\ live w' = true \/
     r = -1 /\ shown `prefix_of` terminal_lines None (c_str text) /\ live w' = false) /\
    sent v' = sent v ++ quote_iac (terminal_lines None (c_str text)) /\
    (forall pre post, terminal_lines None (c_str text) = pre ++ LF :: post -> exists pre', pre = pre' ++ [CR]).
Proof.
  intros Hl Hc. destruct (wp_run _ _ _ (text_loop_shows [] None (c_str text) w Hl)) as (r & w' & E1 & shown & E2 & H).
  destruct (telnet_shows text v Hc) as (v' & E3 & E4). exists r, w', v', shown. split_and!; auto.
  intros pre post [[_ ?]|?]%terminal_lines_ends; done.
Qed.
End adapters.
