(* ===== verification/SshInvariant.v ===== *)
(** The invariant of an SSH connection and its preservation by every callback
    libssh can make and every turn of the event loop. *)
From S2P Require Import Prelude TerminalText AsciiText SecurityPolicy PolicyInvariant PolicyTheorems PlayerStore.
From S2P Require Import PlayerStoreTheorems PlayerRecords PlayerAccounts Application TelnetSession TelnetDialogue TelnetReports.
From S2P Require Import SshTransport SshOutput.

(** * The invariant *)

(** A fixed string field: printable and inside its array. *)
Definition field_ok (size : Z) (s : list Z) : Prop := Zlen s <= size - 1 /\ Forall printable s.

Record ssh_capabilities_ok (k : terminal_capabilities) : Prop := mk_ssh_capabilities_ok {
  ko_width : 1 <= cap_width k <= UINT16_MAX;
  ko_height : 1 <= cap_height k <= UINT16_MAX;
  ko_type : field_ok (TERMINAL_TYPE_MAX + 1) (cap_terminal_type k);
  ko_name : field_ok (TERMINAL_CLIENT_NAME_MAX + 1) (cap_client_name k);
  ko_version : field_ok (TERMINAL_CLIENT_VERSION_MAX + 1) (cap_client_version k);
  (** what only Telnet offers is never claimed *)
  ko_telnet : cap_gmcp k = false /\ cap_osc8 k = false /\ cap_osc8_send k = false /\ cap_osc8_prompt k = false /\
              cap_osc8_tooltip k = false;
  ko_secure : cap_secure_transport k = true
}.

Record connection_ok (c : ssh_connection) : Prop := mk_connection_ok {
  co_line : Forall line_byte (conn_line c);
  co_length : Zlen (conn_line c) <= SSH_INPUT_LINE_MAX;
  co_escape : 0 <= conn_escape_state c <= 2;
  co_capabilities : ssh_capabilities_ok (conn_capabilities c);
  co_peer : field_ok 96 (conn_peer c);
  (** a name is held exactly when it is authenticated *)
  co_account : if conn_authenticated c then player_store_name_valid (Some (conn_account_name c)) = true
               else conn_account_name c = [];
  co_channel : conn_channel c = true -> conn_authenticated c = true;
  co_shell : conn_shell_started c = true -> conn_authenticated c = true;
  co_app : conn_application_session c <> None -> conn_shell_started c = true;
  co_bytes : 0 <= used (conn_byte_window c) <= SSH_INPUT_BYTES_PER_WINDOW;
  co_lines : 0 <= used (conn_line_window c) <= SSH_INPUT_LINES_PER_WINDOW
}.

Lemma copy_field_ok room input : (length (copy_field_loop room input) <= room)%nat /\ Forall printable (copy_field_loop room input).
Proof.
  revert input. induction room as [|room IH]; intros [|ch input]; simpl; try (split; [lia|constructor]).
  destruct (IH input). split; [lia|]. constructor; [|done]. unfold printable. case_test; breflect; lia.
Qed.

Lemma copy_terminal_field_ok size input : 0 < size -> field_ok size (copy_terminal_field size input).
Proof.
  intros H. unfold field_ok, copy_terminal_field. destruct (copy_field_ok (Z.to_nat (size - 1)) (c_str (default [] input))).
  split; [lia|done].
Qed.

(** A field that fits and is printable is copied as it is. *)
Lemma copy_field_id room input : (length input <= room)%nat -> Forall printable input -> copy_field_loop room input = input.
Proof.
  intros Hl Hp. revert room Hl. induction Hp as [|ch input Hc Hp IH]; intros [|room] Hl; simpl in *; try done; [lia|].
  rewrite IH by lia. unfold printable in Hc. destruct (Z.geb_spec ch 32), (Z.leb_spec ch 126); simpl; done || lia.
Qed.

Lemma name_valid_printable name : player_store_name_valid (Some name) = true -> Forall printable (c_str name).
Proof.
  intros [_ H]%name_valid_iff. eapply Forall_impl; [exact H|]. unfold printable, name_char. intros b Hb. lia.
Qed.

Lemma copy_account_name user :
  player_store_name_valid (Some user) = true -> copy_terminal_field (PLAYER_NAME_MAX + 1) (Some user) = c_str user.
Proof.
  intros H. apply copy_field_id; [|by apply name_valid_printable].
  apply name_valid_length in H. unfold strlen, PLAYER_NAME_MAX in *. cbn [default from_option id]. lia.
Qed.

Lemma name_valid_c_str user : player_store_name_valid (Some (c_str user)) = player_store_name_valid (Some user).
Proof. unfold player_store_name_valid, strlen. by rewrite c_str_idemp. Qed.

Section steps.
Context {E : Environment} {PL : PwhashLaws env_pwhash} {ML : MkstempLaws env_mkstemp}.

Definition decide_eq_call (a b : ssh_call) : {a = b} + {a <> b} := decide (a = b).

Record ssh_ok (w : ssh_world) : Prop := mk_ssh_ok {
  so_connection : connection_ok (connection w);
  so_policy : policy_ok (ssh_policy w)
}.

Definition b2n (b : bool) : nat := if b then 1 else 0.
Definition calls_of (c : ssh_call) (w : ssh_world) : nat := count_occ decide_eq_call (ssh_calls w) c.

(** Everything allocated is held by the connection or was released, once. *)
Record accounted (w : ssh_world) : Prop := mk_accounted {
  ac_bind : calls_of BindNew w = calls_of BindFree w;
  ac_session : calls_of SessionNew w = (calls_of SessionFree w + b2n (conn_session (connection w)))%nat;
  ac_channel : calls_of ChannelNew w = (calls_of ChannelFree w + b2n (conn_channel (connection w)))%nat;
  ac_event : calls_of EventNew w = (calls_of EventFree w + b2n (conn_event (connection w)))%nat;
  ac_fd : calls_of AttachFd w = b2n (conn_fd_attached (connection w));
  ac_open : calls_of CloseFd w = 0%nat
}.

(** What the application sees of a connection. *)
Definition ssh_view (w : ssh_world) : option nat * AppState := (conn_application_session (connection w), ssh_app w).

(** What no callback but a password does: change who is authenticated.
    Everything only grows, before authentication neither the application nor
    the channel is touched, and the application is called in order. *)
Record steps (w w' : ssh_world) : Prop := mk_steps {
  st_ok : ssh_ok w';
  st_authenticated : conn_authenticated (connection w') = conn_authenticated (connection w);
  st_account : conn_account_name (connection w') = conn_account_name (connection w);
  st_peer : conn_peer (connection w') = conn_peer (connection w);
  st_connected : conn_connected_ms (connection w') = conn_connected_ms (connection w);
  st_closed : conn_close_requested (connection w) = true -> conn_close_requested (connection w') = true;
  st_shell : conn_shell_started (connection w) = true -> conn_shell_started (connection w') = true;
  st_accounted : accounted w -> accounted w';
  st_fd : conn_client_fd (connection w') = conn_client_fd (connection w);
  st_before : conn_authenticated (connection w) = false -> ssh_app w' = ssh_app w /\ ssh_output w' = ssh_output w;
  st_trail : ssh_trail w `prefix_of` ssh_trail w';
  st_output : ssh_output w `prefix_of` ssh_output w';
  st_calls : hook_calls application (ssh_view w) (ssh_view w')
}.

Lemma accounted_eq w w' :
  accounted w -> ssh_calls w' = ssh_calls w -> conn_session (connection w') = conn_session (connection w) ->
  conn_channel (connection w') = conn_channel (connection w) -> conn_event (connection w') = conn_event (connection w) ->
  conn_fd_attached (connection w') = conn_fd_attached (connection w) -> accounted w'.
Proof. intros [] Ec E1 E2 E3 E4. split; unfold calls_of in *; rewrite ?Ec, ?E1, ?E2, ?E3, ?E4; done. Qed.

Lemma steps_refl w : ssh_ok w -> steps w w.
Proof. intros H. by split. Qed.

Lemma steps_trans w0 w1 w2 : steps w0 w1 -> steps w1 w2 -> steps w0 w2.
Proof.
  intros [] []. split; try congruence; auto; [|by etrans..].
  intros H. destruct (st_before0 H), st_before1; [congruence|]. split; congruence.
Qed.

Lemma steps_bind {A B} (m : M ssh_world A) (k : A -> M ssh_world B) w :
  wp m (fun _ => steps w) w -> (forall a w', m w = Some (a, w') -> steps w w' -> wp (k a) (fun _ => steps w') w') ->
  wp (m ≫= k) (fun _ => steps w) w.
Proof.
  intros Hm Hk. destruct (wp_run _ _ _ Hm) as (a & w1 & E1 & H1). apply wp_bind. unfold wp at 1. rewrite E1.
  eapply wp_mono; [by apply Hk|]. intros b w2 H2. exact (steps_trans _ _ _ H1 H2).
Qed.

(** Reading the connection. *)
Lemma steps_get {B} (k : ssh_connection -> M ssh_world B) w :
  wp (k (connection w)) (fun _ => steps w) w -> wp (get_connection ≫= k) (fun _ => steps w) w.
Proof. intros H. by apply wp_bind, wp_gets. Qed.

Lemma connection_ok_speaks c f g :
  connection_ok c -> connection_ok (c <| conn_write_failed := f |> <| conn_close_requested := g |>).
Proof. intros []. by split. Qed.

Lemma speaks_steps w w' : ssh_ok w -> speaks w w' -> steps w w'.
Proof.
  intros [Hc Hp] []. split; try done; try (by rewrite sp_connection).
  - split; [|by rewrite sp_policy]. rewrite sp_connection. by apply connection_ok_speaks.
  - intros. eapply accounted_eq; [eassumption|done|by rewrite sp_connection..].
  - intros Ha. split; [done|]. apply sp_mute. unfold live.
    destruct (conn_channel (connection w)) eqn:Ech; [|done]. apply (co_channel _ Hc) in Ech. congruence.
  - unfold ssh_view. by rewrite sp_app, sp_connection.
Qed.

Lemma wp_speaks_steps {A} (m : M ssh_world A) w :
  ssh_ok w -> wp m (fun _ w' => speaks w w') w -> wp m (fun _ => steps w) w.
Proof. intros Hw Hm. eapply wp_mono; [exact Hm|]. intros a w' H. by apply speaks_steps. Qed.

(** An update of fields other than those a password sets. *)
Definition harmless (f : ssh_connection -> ssh_connection) (c : ssh_connection) : Prop :=
  connection_ok (f c) /\ conn_authenticated (f c) = conn_authenticated c /\ conn_account_name (f c) = conn_account_name c /\
  conn_peer (f c) = conn_peer c /\ conn_connected_ms (f c) = conn_connected_ms c /\
  (conn_close_requested c = true -> conn_close_requested (f c) = true) /\
  (conn_shell_started c = true -> conn_shell_started (f c) = true) /\
  (conn_session (f c), conn_channel (f c), conn_event (f c), conn_fd_attached (f c), conn_client_fd (f c),
   conn_application_session (f c)) =
  (conn_session c, conn_channel c, conn_event c, conn_fd_attached c, conn_client_fd c, conn_application_session c).

Lemma upd_steps f w : ssh_ok w -> harmless f (connection w) -> wp (upd_connection f) (fun _ => steps w) w.
Proof. intros [_ Hp] (?&?&?&?&?&?&?&[=]). apply wp_modify. split; try done; [intros; by eapply accounted_eq|].
  unfold ssh_view. simpl. by replace (conn_application_session (f (connection w))) with (conn_application_session (connection w)) by congruence.
Qed.

Lemma app_authenticated c handle : connection_ok c -> conn_application_session c = Some handle -> conn_authenticated c = true.
Proof. intros [] Ha. apply co_shell0, co_app0. by rewrite Ha. Qed.

(** The application's memory and the session pointer after a call in order. *)
Lemma steps_app w w1 handle a :
  steps w w1 -> ssh_view w1 = ssh_view w -> conn_authenticated (connection w) = true ->
  conn_shell_started (connection w) = true -> hook_call application (ssh_view w) (handle, a) ->
  steps w (w1 <| ssh_app := a |> <| connection := (connection w1) <| conn_application_session := handle |> |>).
Proof.
  intros [[[] ?]] Ev Ha Hs Hcall. split; try done; [|intros; by eapply accounted_eq; [auto|..]|intros ?; congruence|by apply hook_calls_once].
  split; [|done]. split; simpl; auto.
Qed.

(** The application runs only for an authenticated connection. *)
Lemma app_steps w w1 handle a :
  steps w w1 -> ssh_view w1 = ssh_view w -> conn_application_session (connection w) = Some handle ->
  hook_call application (ssh_view w) (Some handle, a) -> steps w (w1 <| ssh_app := a |>).
Proof.
  intros Hs Ev Eh Hcall. pose proof (so_connection _ (st_ok _ _ Hs)) as Hc1.
  assert (conn_application_session (connection w1) = Some handle) as Eh1 by (unfold ssh_view in Ev; congruence).
  assert (conn_authenticated (connection w) = true) as Ha by (rewrite <- (st_authenticated _ _ Hs); by eapply app_authenticated).
  destruct Hs as [[? ?]]. split; try done; [intros; by eapply accounted_eq; [auto|..]|intros ?; congruence|].
  unfold ssh_view at 2. simpl. rewrite Eh1. by apply hook_calls_once.
Qed.

(** The end of a hook. *)
Lemma ssh_app_ends {A} (p : app_prog A) w :
  ssh_ok w -> wp (run_app p) (fun a w' => steps w w' /\ ssh_view w' = ssh_view w /\ may_end p a) w.
Proof.
  intros Hw. destruct (wp_run _ _ _ (run_app_speaks p w)) as (a & w' & E1 & H). unfold wp. rewrite E1.
  split_and!; [by apply speaks_steps| |by eapply run_may_end]. destruct H. unfold ssh_view. by rewrite sp_app, sp_connection.
Qed.

Lemma call_app_steps {A} (f : AppState -> app_prog (A * AppState)) handle w :
  ssh_ok w -> conn_application_session (connection w) = Some handle ->
  (forall a r a', may_end (f a) (r, a') -> hook_call application (Some handle, a) (Some handle, a')) ->
  wp (ssh_call_app f) (fun _ => steps w) w.
Proof.
  intros Hw Eh Hf. unfold ssh_call_app. apply wp_bind, wp_gets. apply wp_bind. eapply wp_mono; [by apply ssh_app_ends|].
  intros [r a] w1 (H1 & Ev & Hend). apply wp_bind, wp_modify, wp_ret. eapply app_steps; eauto.
  unfold ssh_view. rewrite Eh. by eapply Hf.
Qed.

Lemma notify_steps w : ssh_ok w -> wp notify_capabilities (fun _ => steps w) w.
Proof.
  intros Hw. unfold notify_capabilities. apply steps_get.
  destruct (conn_application_session _) as [handle|] eqn:Ea; [|apply wp_ret; by apply steps_refl].
  destruct (hook_capabilities_changed application) eqn:Ec; [|apply wp_ret; by apply steps_refl].
  apply wp_bind, wp_gets, wp_bind. eapply wp_mono; [by apply ssh_app_ends|]. intros a' w1 (H1 & Ev & Hend). apply wp_modify.
  eapply app_steps; eauto. unfold ssh_view. rewrite Ea. by eapply call_capabilities.
Qed.
End steps.

(** * The callbacks *)

Ltac harmless_tac :=
  match goal with H : ssh_ok ?w |- harmless _ (connection ?w) => destruct (so_connection _ H) end;
  unfold harmless; split_and!; try reflexivity; try done; split; simpl; auto; try lia; try (case_test; lia).

Ltac steps_ok := match goal with H : steps _ ?w |- ssh_ok ?w => exact (st_ok _ _ H) | _ => assumption end.

(** One step of the execution of a callback; leaves the updates whose
    harmlessness is not immediate. *)
Ltac steps_step :=
  lazymatch goal with
  | |- wp (get_connection ≫= _) _ _ => apply steps_get
  | |- wp (_ ≫= _) _ _ => apply steps_bind; [|intros ? ? ? ?]
  | |- wp (mret _) _ _ => apply wp_ret, steps_refl; steps_ok
  | |- wp (when ?b _) _ _ => destruct b eqn:?; cbn [when]
  | |- wp (if ?b then _ else _) _ _ => destruct b eqn:?
  | |- wp (upd_connection _) _ ?w =>
      apply upd_steps; [steps_ok|]; try (assert (ssh_ok w) by steps_ok; solve [harmless_tac])
  | |- wp notify_capabilities _ _ => apply notify_steps; steps_ok
  | |- wp (match ?x with _ => _ end) _ _ => destruct x eqn:?
  | |- wp _ _ _ => apply wp_speaks_steps; [steps_ok|]; solve [eauto with speaks]
  end; cbv beta zeta.
Ltac steps_go := repeat steps_step.

Section callbacks.
Context {E : Environment} {PL : PwhashLaws env_pwhash} {ML : MkstempLaws env_mkstemp}.

Lemma channel_open_steps allocated installed w :
  ssh_ok w -> wp (session_channel_callback allocated installed) (fun _ => steps w) w.
Proof.
  intros Hw. unfold session_channel_callback. apply steps_get. steps_step; [steps_go|]. steps_step; [steps_go|]. breflect.
  destruct (so_connection _ Hw), (so_policy _ Hw). unfold ssh_record, upd_connection.
  repeat wp_step; (split; try done; try (split; done || by split); intros []);
    (split; unfold calls_of in *; simpl; rewrite !count_occ_app; simpl); try lia;
    match goal with H : conn_channel _ = false |- _ => rewrite H in * end; simpl in *; lia.
Qed.

Lemma upd_capabilities_steps f w :
  ssh_ok w -> (ssh_capabilities_ok (conn_capabilities (connection w)) -> ssh_capabilities_ok (f (conn_capabilities (connection w)))) ->
  wp (upd_capabilities f) (fun _ => steps w) w.
Proof. intros Hw Hf. unfold upd_capabilities. apply upd_steps; [done|]. harmless_tac. Qed.

Lemma refresh_steps term w : ssh_ok w -> wp (refresh_term_capabilities term) (fun _ => steps w) w.
Proof.
  intros Hw. unfold refresh_term_capabilities. apply upd_capabilities_steps; [done|]. intros [].
  split; simpl; auto. apply copy_terminal_field_ok. unfold TERMINAL_TYPE_MAX. lia.
Qed.

Lemma update_window_steps width height w : ssh_ok w -> wp (update_window width height) (fun _ => steps w) w.
Proof.
  intros Hw. unfold update_window. steps_step; steps_step; try (apply wp_ret, steps_refl; steps_ok);
    (apply upd_capabilities_steps; [steps_ok|]; intros []; breflect; split; simpl; auto; lia).
Qed.

Lemma pty_steps term width height w : ssh_ok w -> wp (pty_request_callback term width height) (fun _ => steps w) w.
Proof.
  intros Hw. unfold pty_request_callback. steps_step; [by apply update_window_steps|].
  steps_step; [apply refresh_steps; steps_ok|]. steps_go.
Qed.

Lemma window_change_steps width height w : ssh_ok w -> wp (window_change_callback width height) (fun _ => steps w) w.
Proof. intros Hw. unfold window_change_callback. steps_step; [by apply update_window_steps|]. steps_go. Qed.

Lemma env_steps name value w : ssh_ok w -> wp (env_request_callback name value) (fun _ => steps w) w.
Proof.
  intros Hw. unfold env_request_callback.
  repeat (steps_step || (apply upd_capabilities_steps; [steps_ok|]; intros []; by split)).
Qed.

Lemma open_application_steps w :
  ssh_ok w -> conn_shell_started (connection w) = true -> conn_application_session (connection w) = None ->
  wp open_application_session (fun _ => steps w) w.
Proof.
  intros Hw Hs Hn. unfold open_application_session. destruct (hook_open application) as [open|] eqn:Eo; [|steps_go].
  apply steps_get. assert (conn_authenticated (connection w) = true) as Ha by (by apply (co_shell _ (so_connection _ Hw))).
  unfold ssh_call_app. apply wp_bind, wp_bind, wp_gets, wp_bind. eapply wp_mono; [by apply ssh_app_ends|].
  intros [handle a] w1 (H1 & Ev & Hend). apply wp_bind, wp_modify, wp_ret, wp_bind, wp_modify.
  assert (steps w (w1 <| ssh_app := a |> <| connection := (connection w1) <| conn_application_session := handle |> |>)) as H2.
  { apply steps_app; try done. unfold ssh_view. rewrite Hn. by eapply call_open. }
  eapply wp_mono; [|intros r w3 H3; exact (steps_trans _ _ _ H2 H3)]. steps_go.
Qed.

Lemma shell_steps w : ssh_ok w -> wp shell_request_callback (fun _ => steps w) w.
Proof.
  intros Hw. unfold shell_request_callback. apply steps_get. steps_step; [steps_go|]. breflect.
  assert (steps w (w <| connection := (connection w) <| conn_shell_started := true |> |>)) as H1.
  { apply (upd_steps (fun c => c <| conn_shell_started := true |>)); [done|]. harmless_tac. }
  apply wp_bind, wp_modify. eapply wp_mono; [|intros ? ? H2; exact (steps_trans _ _ _ H1 H2)].
  steps_step; [|steps_go]. apply open_application_steps; [steps_ok|done|]. simpl.
  destruct (conn_application_session (connection w)) eqn:Ea; [|done].
  assert (conn_shell_started (connection w) = true) by (apply (co_app _ (so_connection _ Hw)); by rewrite Ea). congruence.
Qed.

(** ** Input *)

Lemma terminate_steps index w : ssh_ok w -> index <= SSH_INPUT_LINE_MAX -> wp (terminate_line index) (fun _ => steps w) w.
Proof.
  intros Hw Hi. unfold terminate_line. eapply wp_lift; [|by apply steps_refl].
  destruct (Z.ltb_spec index (SSH_INPUT_LINE_MAX + 1)); [done|lia].
Qed.

Lemma complete_line_steps now w : ssh_ok w -> wp (complete_input_line now) (fun _ => steps w) w.
Proof.
  intros Hw. pose proof (so_connection _ Hw) as Hc. unfold complete_input_line. apply steps_get.
  pose proof (rate_consume_ok (conn_line_window (connection w)) 1 SSH_INPUT_LINES_PER_WINDOW SSH_INPUT_LINES_WINDOW_MS now
    ltac:(lia) (co_lines _ Hc)) as Hwin. destruct (rate_consume _ _ _ _ _) as [window ok]. simpl in Hwin.
  steps_step; [apply upd_steps; [done|]; harmless_tac|]. steps_step; [steps_go|].
  steps_step; [apply terminate_steps; [steps_ok|by apply co_length]|].
  steps_step.
  - destruct (conn_application_session (connection w)) as [handle|] eqn:Ea; [|steps_go].
    destruct (hook_line application) eqn:Eo; [|steps_go]. eapply (call_app_steps _ handle); [steps_ok| |eauto using call_line].
    match goal with H : terminate_line _ ?v = Some (_, ?v') |- _ => replace v' with v by (unfold terminate_line, lift_opt in H; case_match; congruence) end.
    match goal with H : upd_connection _ _ = Some _ |- _ => injection H as _ <- end. done.
  - steps_go.
Qed.

Lemma take_line_ok n c : connection_ok c -> connection_ok (c <| conn_line := take n (conn_line c) |>).
Proof.
  intros []. split; simpl; auto; [by apply Forall_take|]. rewrite length_take. lia.
Qed.

Lemma last_character_le line n : (last_character line n <= n)%nat.
Proof. induction n as [|n IH]; cbn [last_character]; [lia|]. case_test; lia. Qed.

Lemma handle_byte_steps byte now w : ssh_ok w -> is_byte byte -> wp (handle_input_byte byte now) (fun _ => steps w) w.
Proof.
  intros Hw Hb. pose proof (so_connection _ Hw) as Hc. unfold handle_input_byte. apply steps_get.
  steps_step; [steps_go|]. do 2 (steps_step; [steps_go; apply complete_line_steps; steps_ok|]).
  do 3 (steps_step; [steps_go|]). steps_step; [steps_step; [|steps_go]|].
  - pose proof (last_character_le (conn_line (connection w)) (length (conn_line (connection w)) - 1)).
    pose proof (co_length _ Hc). steps_step.
    + apply upd_steps; [steps_ok|]. unfold harmless. split_and!; try done. apply take_line_ok, so_connection. steps_ok.
    + steps_step; [apply terminate_steps; [steps_ok|lia]|]. steps_go.
  - steps_step; [steps_go|]. steps_step; [steps_go|].
    repeat match goal with H : _ && _ = false |- _ => clear H end. breflect. unfold SSH_INPUT_LINE_MAX in *.
    rewrite push_Some by lia. apply wp_bind. eapply wp_lift; [done|]. steps_step; [|steps_go].
    apply upd_steps; [steps_ok|]. assert (ssh_ok w') by steps_ok. harmless_tac; rewrite ?Zlen_snoc; unfold SSH_INPUT_LINE_MAX; [|lia].
    apply Forall_snoc; [by apply co_line|]. unfold line_byte, is_byte in *. lia.
Qed.

Lemma handle_bytes_steps bytes now w :
  ssh_ok w -> Forall is_byte bytes -> wp (handle_input_bytes bytes now) (fun _ => steps w) w.
Proof.
  intros Hw Hb. revert w Hw. induction Hb as [|byte bytes Hb Hbs IH]; intros w Hw; cbn [handle_input_bytes]; [steps_go|].
  apply steps_get. steps_step; [steps_go|]. steps_step; [by apply handle_byte_steps|]. steps_step; [steps_go|].
  apply IH. steps_ok.
Qed.

Lemma data_steps data is_stderr clock w :
  ssh_ok w -> Forall is_byte (default [] data) -> wp (channel_data_callback data is_stderr clock) (fun _ => steps w) w.
Proof.
  intros Hw Hd. pose proof (so_connection _ Hw) as Hc. unfold channel_data_callback. apply steps_get.
  destruct data as [data|]; [|steps_go]. destruct (conn_application_session _) as [handle|] eqn:Ea; [|steps_go].
  steps_step; [steps_go|]. steps_step.
  - steps_step; [steps_go|].
    pose proof (rate_consume_ok (conn_byte_window (connection w)) (Zlen data) SSH_INPUT_BYTES_PER_WINDOW SSH_INPUT_BYTES_WINDOW_MS
      (monotonic_or_zero clock) ltac:(lia) (co_bytes _ Hc)) as Hwin. destruct (rate_consume _ _ _ _ _) as [window ok].
    simpl in Hwin. steps_step; [|steps_go]. apply upd_steps; [done|]. harmless_tac.
  - steps_step; [steps_go|]. steps_step; [steps_go|]. steps_step; [|steps_go]. apply handle_bytes_steps; [steps_ok|done].
Qed.

(** ** Passwords *)

(** What it takes: a well-formed name, a password of an allowed length, the
    policy's consent for this peer and account, and the store's verification. *)
Definition ssh_credentials (user password : list Z) (clock : option (Z * Z)) (w : ssh_world) : Prop :=
  player_store_name_valid (Some user) = true /\ PLAYER_PASSWORD_MIN <= strlen password <= PLAYER_PASSWORD_MAX /\
  exists retry p rehashed st,
    security_policy_allow_auth_attempt (Some (conn_peer (connection w))) (Some user) (monotonic_or_zero clock) (ssh_policy w)
      = Some ((true, retry), p) /\
    player_store_verify_password store_directory user (c_str password) (ssh_store w) = Some ((1, rehashed), st).

Record authenticates (user password : list Z) (clock : option (Z * Z)) (w w' : ssh_world) : Prop := mk_authenticates {
  au_ok : ssh_ok w';
  au_before : conn_authenticated (connection w) = false;
  au_after : conn_authenticated (connection w') = true;
  au_account : conn_account_name (connection w') = c_str user;
  au_credentials : ssh_credentials user password clock w;
  au_app : ssh_app w' = ssh_app w /\ ssh_output w' = ssh_output w;
  au_closed : conn_close_requested (connection w') = conn_close_requested (connection w);
  au_peer : conn_peer (connection w') = conn_peer (connection w);
  au_connected : conn_connected_ms (connection w') = conn_connected_ms (connection w);
  au_accounted : accounted w -> accounted w';
  au_fd : conn_client_fd (connection w') = conn_client_fd (connection w);
  au_trail : ssh_trail w `prefix_of` ssh_trail w';
  au_view : ssh_view w' = ssh_view w
}.

Lemma steps_policy p w : ssh_ok w -> policy_ok p -> steps w (w <| ssh_policy := p |>).
Proof. intros [Hc _] Hp. split; try done. intros. by eapply accounted_eq. Qed.

Lemma steps_store st w : ssh_ok w -> steps w (w <| ssh_store := st |>).
Proof. intros [Hc Hp]. split; try done. intros. by eapply accounted_eq. Qed.

Lemma policy_steps {A} (m : M security_policy A) w :
  ssh_ok w -> wp m (fun _ => policy_ok) (ssh_policy w) -> wp (with_ssh_policy m) (fun _ => steps w) w.
Proof. intros Hw Hm. apply wp_zoom. eapply wp_mono; [exact Hm|]. intros a p Hp. by apply steps_policy. Qed.

Lemma monotonic_u64 clock : u64 (monotonic_or_zero clock).
Proof. destruct clock as [[]|]; [apply wrap64_u64|done]. Qed.

Lemma name_valid_nonempty user : player_store_name_valid (Some user) = true -> c_str user <> [].
Proof. intros [H _]%name_valid_iff Hc. unfold strlen in H. rewrite Hc in H. simpl in H. lia. Qed.

Lemma strnlen_password password :
  Zlen (take (Z.to_nat (PLAYER_PASSWORD_MAX + 1)) (c_str password)) <= PLAYER_PASSWORD_MAX ->
  take (Z.to_nat (PLAYER_PASSWORD_MAX + 1)) (c_str password) = c_str password.
Proof. rewrite length_take. unfold PLAYER_PASSWORD_MAX. intros H. apply take_ge. lia. Qed.

(** How a password callback may end. *)
Definition answers (user password : option (list Z)) (clock : option (Z * Z)) (w : ssh_world) (r : Z) (w' : ssh_world) : Prop :=
  r = SSH_AUTH_DENIED /\ steps w w' \/
  r = SSH_AUTH_SUCCESS /\ exists u p, user = Some u /\ password = Some p /\ authenticates u p clock w w'.

Lemma answers_denied user password clock w w1 (m : M ssh_world unit) :
  steps w w1 -> wp m (fun _ => steps w1) w1 -> wp (m ;; mret SSH_AUTH_DENIED) (answers user password clock w) w1.
Proof.
  intros H1 Hm. apply wp_bind. eapply wp_mono; [exact Hm|]. intros [] w2 H2. apply wp_ret. left. split; [done|].
  exact (steps_trans _ _ _ H1 H2).
Qed.

Lemma answers_refused user password clock w w1 :
  steps w w1 -> wp (mret SSH_AUTH_DENIED) (answers user password clock w) w1.
Proof. intros H1. apply wp_ret. by left. Qed.

(** The shared policy is asked only when the clock can be read. *)
Lemma admission user clock w :
  ssh_ok w -> player_store_name_valid (Some user) = true ->
  wp (if monotonic_or_zero clock =? 0 then mret false
      else '(allowed, _) ← with_ssh_policy (security_policy_allow_auth_attempt (Some (conn_peer (connection w))) (Some user)
             (monotonic_or_zero clock)); mret allowed)
     (fun ok w' => steps w w' /\ connection w' = connection w /\ ssh_store w' = ssh_store w /\ ssh_trail w' = ssh_trail w /\
        ssh_app w' = ssh_app w /\ ssh_output w' = ssh_output w /\
        (ok = true -> exists retry p, security_policy_allow_auth_attempt (Some (conn_peer (connection w))) (Some user)
           (monotonic_or_zero clock) (ssh_policy w) = Some ((true, retry), p))) w.
Proof.
  intros Hw Hn. apply wp_if; intros Hz; [apply wp_ret; split_and!; [by apply steps_refl|done..]|].
  pose proof (allow_auth_ok (conn_peer (connection w)) user (monotonic_or_zero clock) (ssh_policy w) (so_policy _ Hw)
    (monotonic_u64 _) (name_valid_nonempty _ Hn)) as Ha.
  destruct (wp_run _ _ _ Ha) as ([allowed retry] & p & Ep & Hp). apply wp_bind. unfold with_ssh_policy. apply wp_zoom. unfold wp at 1.
  rewrite Ep. apply wp_ret. split_and!; try done; [by apply steps_policy|]. intros ->. by exists retry, p.
Qed.

Lemma password_steps user password clock w :
  ssh_ok w -> wp (password_auth_callback user password clock) (answers user password clock w) w.
Proof.
  intros Hw. unfold password_auth_callback. apply wp_bind, wp_gets. pose proof (steps_refl _ Hw) as Hr.
  destruct user as [u|], password as [p|]; try by apply answers_refused.
  apply wp_if; intros Hg; [by apply answers_refused|]. breflect.
  set (pw := take _ _). apply wp_if; intros Hl.
  { apply answers_denied; [done|]. apply wp_speaks_steps; [done|]. apply audit_speaks. }
  breflect. assert (pw = c_str p) as Hpw by (apply strnlen_password; fold pw; lia). clearbody pw. subst pw. apply wp_bind.
  eapply wp_mono; [by apply admission|]. intros ok w1 (Hs1 & Ec & Es & Et & Ea & Eo & Hok). apply wp_if; intros Hno.
  { apply answers_denied; [done|]. apply wp_speaks_steps; [steps_ok|]. apply audit_speaks. }
  breflect. destruct (Hok Hno) as (retry & p' & Ep). clear Hok.
  destruct (wp_run _ _ _ (verify_runs u (c_str p) (ssh_store w1))) as ([verified rehashed] & st & Ev & _).
  apply wp_bind. unfold with_ssh_store. apply wp_zoom. unfold wp at 1. rewrite Ev.
  set (w2 := w1 <| ssh_store := st |>). assert (steps w w2) as Hs2 by (eapply steps_trans; [exact Hs1|apply steps_store; steps_ok]).
  assert (ssh_ok w2) as Hw2 by steps_ok. apply wp_if; intros Hv.
  - apply wp_bind. eapply wp_mono; [apply policy_steps; [done|]; apply note_failure_ok; [apply Hw2|apply monotonic_u64|by apply name_valid_nonempty]|].
    intros [] w3 H3. cbv beta in H3. apply answers_denied; [exact (steps_trans _ _ _ Hs2 H3)|].
    apply wp_speaks_steps; [steps_ok|]. apply audit_speaks.
  - breflect. subst verified. rewrite Es in Ev.
    destruct (wp_run _ _ _ (note_success_ok (conn_peer (connection w)) u (monotonic_or_zero clock) (ssh_policy w2) (so_policy _ Hw2)
      (monotonic_u64 _) (name_valid_nonempty _ ltac:(eassumption)))) as ([] & p3 & Ep3 & Hp3).
    apply wp_bind. unfold with_ssh_policy. apply wp_zoom. unfold wp at 1. rewrite Ep3.
    unfold upd_connection, audit_connection. do 4 wp_step. wp_step. right. split; [done|]. exists u, p. split_and!; [done..|].
    assert (player_store_name_valid (Some u) = true) as Hn by done.
    assert (copy_terminal_field (PLAYER_NAME_MAX + 1) (Some u) = c_str u) as Hcopy by by apply copy_account_name.
    revert Hcopy. generalize (copy_terminal_field (PLAYER_NAME_MAX + 1) (Some u)). intros name ->.
    split; try done; simpl; rewrite ?Ec; try done.
    + split; [|done]. simpl. destruct (so_connection _ Hw). rewrite ?Ec. split; simpl; auto.
      pose proof (name_valid_c_str u) as Hcs. rewrite Hn in Hcs. exact Hcs.
    + split_and!; [done|unfold strlen; lia..|]. by exists retry, p', rehashed, st.
    + intros Hacc. apply (st_accounted _ _ Hs1) in Hacc. by eapply accounted_eq; [exact Hacc|..]; simpl; rewrite ?Ec.
    + rewrite Et. by eexists.
    + unfold ssh_view. simpl. by rewrite <- Ea.
Qed.

(** ** Any callback, any turn of the loop *)

Definition callback_ok (cb : ssh_callback) : Prop :=
  match cb with CbData data _ _ => Forall is_byte (default [] data) | _ => True end.

(** A callback authenticates only as a password callback. *)
Definition dispatched (cb : ssh_callback) (w w' : ssh_world) : Prop :=
  steps w w' \/ exists u p clock, cb = CbPassword (Some u) (Some p) clock /\ authenticates u p clock w w'.

Lemma dispatch_steps cb w : ssh_ok w -> callback_ok cb -> wp (dispatch cb) (fun _ => dispatched cb w) w.
Proof.
  intros Hw Hcb.
  assert (forall A (m : M ssh_world A), wp m (fun _ => steps w) w -> wp (m ;; mret tt) (fun _ => dispatched cb w) w) as Hm.
  { intros A m H. apply wp_bind. eapply wp_mono; [exact H|]. intros a w' Hs. apply wp_ret. by left. }
  assert (forall (m : M ssh_world unit), wp m (fun _ => steps w) w -> wp m (fun _ => dispatched cb w) w) as Hu.
  { intros m H. eapply wp_mono; [exact H|]. by left. }
  destruct cb as [user password clock|allocated installed|term width height| |width height| |name value| |data is_stderr clock| |]; cbn [dispatch].
  - apply wp_bind. eapply wp_mono; [by apply password_steps|]. intros r w' [[_ H]|[_ (u & p & -> & -> & H)]]; apply wp_ret; [by left|].
    right. by exists u, p, clock.
  - apply Hm. by apply channel_open_steps.
  - apply Hm. by apply pty_steps.
  - apply Hm. by apply shell_steps.
  - apply Hm. by apply window_change_steps.
  - apply Hm. unfold exec_request_callback. steps_go.
  - apply Hm. by apply env_steps.
  - apply Hm. unfold subsystem_request_callback. steps_go.
  - apply Hm. by apply data_steps.
  - apply Hu. unfold channel_eof_callback. steps_go.
  - apply Hu. unfold channel_close_callback. steps_go.
Qed.

(** The loop body after the callbacks. *)
Lemma turn_steps tick w : ssh_ok w -> tick_callbacks tick = [] -> wp (loop_body tick) (fun _ => steps w) w.
Proof.
  intros Hw Ht. unfold loop_body. rewrite Ht. steps_step; [cbn [for_each]; steps_go|]. steps_step; [steps_go|].
  steps_step; [steps_go|]. apply steps_get. do 3 (steps_step; [steps_go|]). steps_step; [|steps_go].
  steps_step; [|steps_go]. destruct (conn_application_session _) as [handle|] eqn:Ea; [|steps_go].
  destruct (hook_poll application) eqn:Eo; [|steps_go]. steps_step; [|steps_go].
  eapply call_app_steps; [steps_ok|exact Ea|eauto using call_poll].
Qed.
End callbacks.
