(* ===== verification/SshEditor.v ===== *)
(** The line editor of the SSH adapter against an abstract one.  The abstract
    editor works on keys: a character adds itself to the line, an erase key
    takes the last character away, a cursor or function key does nothing.  The
    adapter works on bytes: characters are one to four bytes of UTF-8, an erase
    key is BS or DEL, other keys are CSI and SS3 sequences. *)
From S2P Require Import Prelude TerminalText AsciiText SecurityPolicy PlayerStore Application TelnetSession TelnetDialogue.
From S2P Require Import SshTransport SshOutput SshInvariant.

(** * Keys *)

Inductive key :=
| KChar (bytes : list Z)
| KErase (byte : Z)
| KSequence (introducer : Z) (parameters : list Z) (final : Z).

Definition continuation (b : Z) : Prop := is_byte b /\ Z.land b 192 = 128.

(** A lead byte that is not a continuation, and its continuation bytes. *)
Definition character (bytes : list Z) : Prop :=
  match bytes with
  | [] => False
  | lead :: rest => 32 <= lead < 256 /\ lead <> 127 /\ Z.land lead 192 <> 128 /\ Forall continuation rest
  end.

Definition final_byte (b : Z) : Prop := 64 <= b <= 126.

Definition key_ok (k : key) : Prop :=
  match k with
  | KChar bytes => character bytes
  | KErase byte => byte = 8 \/ byte = 127
  | KSequence introducer parameters final =>
      (introducer = 91 \/ introducer = 79) /\ final_byte final /\
      Forall (fun b => ~ final_byte b /\ b <> CR /\ b <> LF /\ b <> 4) parameters
  end.

Definition key_bytes (k : key) : list Z :=
  match k with
  | KChar bytes => bytes
  | KErase byte => [byte]
  | KSequence introducer parameters final => 27 :: introducer :: parameters ++ [final]
  end.

(** ** The abstract editor: the characters of the line, and what is echoed *)

Definition press (line : list (list Z)) (k : key) : list (list Z) :=
  match k with
  | KChar bytes => line ++ [bytes]
  | KErase _ => removelast line
  | KSequence _ _ _ => line
  end.

Definition echo (line : list (list Z)) (k : key) : list Z :=
  match k, line with
  | KChar bytes, _ => bytes
  | KErase _, _ :: _ => [8; 32; 8]
  | _, _ => []
  end.

Fixpoint type_keys (line : list (list Z)) (keys : list key) : list (list Z) * list Z :=
  match keys with
  | [] => (line, [])
  | k :: keys => let '(line', shown) := type_keys (press line k) keys in (line', echo line k ++ shown)
  end.

(** The line never outgrows the buffer. *)
Fixpoint fits (line : list (list Z)) (keys : list key) : Prop :=
  Zlen (concat line) <= SSH_INPUT_LINE_MAX /\ match keys with [] => True | k :: keys => fits (press line k) keys end.

(** * The adapter *)

Section editor.
Context {E : Environment}.

(** A connection whose channel takes what it is given. *)
Definition accepting (w : ssh_world) : Prop := live w = true /\ channel_results w = [].

Lemma write_loop_accepts fuel data w :
  channel_results w = [] -> (length data <= fuel)%nat ->
  exists cs, concat cs = data /\ write_loop fuel data w = Some (0, w <| channel_sent := channel_sent w ++ cs |>).
Proof.
  revert data w. induction fuel as [|fuel IH]; intros data w Hr Hlen.
  { destruct data; simpl in Hlen; [|lia]. exists []. split; [done|]. rewrite app_nil_r. by destruct w. }
  destruct data as [|x data]; [exists []; split; [done|]; rewrite app_nil_r; by destruct w|].
  cbn [write_loop]. assert (0 < Z.to_nat SSH_WRITE_CHUNK_MAX)%nat as Hn by (unfold SSH_WRITE_CHUNK_MAX; lia).
  revert Hn. generalize (Z.to_nat SSH_WRITE_CHUNK_MAX) as n. intros n Hn. remember (x :: data) as l eqn:El.
  assert (0 < length (take n l))%nat as Hne by (rewrite El; destruct n; simpl; lia).
  unfold mbind, M_bind at 1, ssh_channel_write, gets. unfold mbind, M_bind at 1. rewrite Hr.
  unfold channel_accept, modify, mret, M_ret. unfold mbind, M_bind. destruct (Z.leb_spec (Zlen (take n l)) 0); [lia|].
  rewrite Nat2Z.id.
  destruct (IH (drop (length (take n l)) l) (w <| channel_sent := channel_sent w ++ [take n l] |>)) as (cs & Ecs & Ew).
  { done. }
  { rewrite length_drop. rewrite El in *. cbn [length] in *. lia. }
  exists (take n l :: cs). split.
  { cbn [concat]. rewrite Ecs. symmetry. etrans; [apply (take_split n (length (take n l)) l); lia|]. by rewrite take_ge by lia. }
  rewrite Ew. simpl. by rewrite <- app_assoc.
Qed.

Lemma channel_write_accepts data w :
  accepting w -> exists cs, concat cs = data /\ channel_write_all data w = Some (0, w <| channel_sent := channel_sent w ++ cs |>).
Proof.
  intros [Hl Hr]. destruct (write_loop_accepts (length data) data w Hr ltac:(lia)) as (cs & Ecs & Ew). exists cs. split; [done|].
  unfold channel_write_all, get_connection, gets, mbind, M_bind. unfold live in Hl. apply andb_prop in Hl as [Hc Hf].
  rewrite Hc. apply negb_true_iff in Hf. rewrite Hf. exact Ew.
Qed.

(** The state after editing: the line, and what was echoed. *)
Definition edited (w : ssh_world) (line : list Z) (escape : Z) (cs : list (list Z)) : ssh_world :=
  w <| channel_sent := channel_sent w ++ cs |>
    <| connection := (connection w) <| conn_line := line |> <| conn_pending_cr := false |> <| conn_escape_state := escape |> |>.

Definition editing (w : ssh_world) (line : list Z) (escape : Z) : Prop :=
  accepting w /\ conn_line (connection w) = line /\ conn_escape_state (connection w) = escape /\
  conn_close_requested (connection w) = false.

Lemma edited_editing w line0 escape0 line escape cs : editing w line0 escape0 -> editing (edited w line escape cs) line escape.
Proof. intros ([? ?] & _ & _ & ?). by split_and!. Qed.

Lemma edited_edited w line escape cs line' escape' cs' :
  edited (edited w line escape cs) line' escape' cs' = edited w line' escape' (cs ++ cs').
Proof. unfold edited. simpl. by rewrite app_assoc. Qed.

(** [bytes] take the editor on to a given state, whatever follows. *)
Definition runs (now : Z) (bytes : list Z) (w w' : ssh_world) : Prop :=
  forall rest, handle_input_bytes (bytes ++ rest) now w = handle_input_bytes rest now w'.

Lemma runs_nil now w : runs now [] w w.
Proof. by intros rest. Qed.

Lemma runs_app now a b w w1 w2 : runs now a w w1 -> runs now b w1 w2 -> runs now (a ++ b) w w2.
Proof. intros Ha Hb rest. by rewrite <- app_assoc, Ha, Hb. Qed.

Lemma runs_byte now b w w' line escape :
  editing w line escape -> handle_input_byte b now w = Some (0, w') -> runs now [b] w w'.
Proof.
  intros (_ & _ & _ & Hc) Eb rest. cbn [app handle_input_bytes]. unfold get_connection, gets. unfold mbind, M_bind at 1.
  rewrite Hc. unfold M_bind. rewrite Eb. done.
Qed.

(** ** One byte *)

Lemma rev_ind_case {A} (l : list A) : l = [] \/ exists init x, l = init ++ [x].
Proof. destruct l as [|x l] using rev_ind; eauto. Qed.


Lemma handle_char_byte now b w line :
  editing w line 0 -> 32 <= b -> b <> 127 -> Zlen line < SSH_INPUT_LINE_MAX ->
  exists cs, concat cs = [b] /\ handle_input_byte b now w = Some (0, edited w (line ++ [b]) 0 cs).
Proof.
  intros (Hacc & Hline & Hesc & Hc) Hb Hd Hlen.
  unfold handle_input_byte, get_connection, gets, upd_connection, modify. unfold mbind, M_bind.
  rewrite Hline, Hesc. unfold CR, LF in *. destruct (Z.eqb_spec b 10); [lia|]. destruct (Z.eqb_spec b 13); [lia|].
  destruct (Z.eqb_spec b 4); [lia|]. destruct (Z.eqb_spec b 27); [lia|]. destruct (Z.eqb_spec b 8); [lia|].
  destruct (Z.eqb_spec b 127); [lia|]. destruct (Z.ltb_spec b 32); [lia|]. rewrite andb_false_r. cbn [orb negb Z.eqb].
  destruct (Z.geb_spec (Zlen line) SSH_INPUT_LINE_MAX); [lia|]. rewrite push_Some by lia. cbn [lift_opt].
  match goal with |- context [channel_write_all [b] ?v] => destruct (channel_write_accepts [b] v) as (cs & Ecs & Ew) end.
  { destruct Hacc as [Hl Hr]. by split. }
  exists cs. split; [done|]. rewrite Ew. unfold edited. simpl. f_equal. f_equal. rewrite <- Hesc. by destruct w as [[]].
Qed.

(** The byte search of the erase key finds the start of the last character. *)
Lemma last_character_start pre lead rest k :
  Z.land lead 192 <> 128 -> Forall continuation rest -> (k <= length rest)%nat ->
  last_character (pre ++ lead :: rest) (length pre + k) = length pre.
Proof.
  intros Hlead Hrest. induction k as [|k IH]; intros Hk.
  - rewrite Nat.add_0_r. destruct (length pre) as [|n] eqn:Ep; [done|]. cbn [last_character].
    rewrite app_nth2, Ep, Nat.sub_diag by lia. cbn [nth]. by destruct (Z.eqb_spec (Z.land lead 192) 128).
  - rewrite Nat.add_succ_r. cbn [last_character]. rewrite app_nth2 by lia.
    replace (S (length pre + k) - length pre)%nat with (S k) by lia. cbn [nth].
    assert (continuation (nth k rest 0)) as [_ Hn] by (apply Forall_nth; [done|lia]). rewrite Hn. simpl. apply IH. lia.
Qed.

Lemma erase_last line c :
  character c ->
  last_character (concat (line ++ [c])) (length (concat (line ++ [c])) - 1) = length (concat line) /\
  take (length (concat line)) (concat (line ++ [c])) = concat line /\ (0 < length (concat (line ++ [c])))%nat.
Proof.
  intros Hc. destruct c as [|lead rest]; [done|]. destruct Hc as (_ & _ & Hl & Hr).
  rewrite concat_app. cbn [concat]. rewrite app_nil_r. split_and!.
  - rewrite length_app. cbn [length]. replace (length (concat line) + S (length rest) - 1)%nat with (length (concat line) + length rest)%nat by lia.
    apply last_character_start; auto.
  - apply take_app_length.
  - rewrite length_app. cbn [length]. lia.
Qed.

Lemma handle_erase now b w line :
  editing w (concat line) 0 -> b = 8 \/ b = 127 -> Forall character line -> Zlen (concat line) <= SSH_INPUT_LINE_MAX ->
  exists cs, concat cs = echo line (KErase b) /\ handle_input_byte b now w = Some (0, edited w (concat (removelast line)) 0 cs).
Proof.
  intros (Hacc & Hline & Hesc & Hc) Hb Hchars Hlen.
  unfold handle_input_byte, get_connection, gets, upd_connection, modify. unfold mbind, M_bind. rewrite Hline, Hesc. unfold CR, LF in *.
  destruct (Z.eqb_spec b 10); [lia|]. destruct (Z.eqb_spec b 13); [lia|].
  destruct (Z.eqb_spec b 4); [lia|]. destruct (Z.eqb_spec b 27); [lia|]. rewrite andb_false_r. cbn [orb negb Z.eqb].
  assert (((b =? 8) || (b =? 127)) = true) as -> by (destruct Hb as [-> | ->]; done).
  destruct (rev_ind_case line) as [-> |(init & c & ->)].
  { exists []. split; [done|]. simpl. unfold edited. rewrite app_nil_r. destruct w as [[]]. simpl in *. by subst. }
  apply Forall_app in Hchars as [_ Hch]. inversion Hch as [|? ? Hch' _]; subst.
  destruct (erase_last init c Hch') as (E1 & E2 & E3). rewrite E1. destruct (Z.gtb_spec (Zlen (concat (init ++ [c]))) 0); [|lia].
  rewrite removelast_last. unfold terminate_line, lift_opt.
  assert (length (concat init) <= length (concat (init ++ [c])))%nat by (rewrite concat_app, length_app; lia).
  destruct (Z.ltb_spec (Z.of_nat (length (concat init))) (SSH_INPUT_LINE_MAX + 1)); [|lia].
  match goal with |- context [channel_write_all [8; 32; 8] ?v] => destruct (channel_write_accepts [8; 32; 8] v) as (cs & Ecs & Ew) end.
  { destruct Hacc as [Hl Hr]. by split. }
  exists cs. split; [rewrite Ecs; by destruct init|]. rewrite Ew. unfold edited. simpl. rewrite Hline, E2. f_equal. f_equal. rewrite <- Hesc.
  by destruct w as [[]].
Qed.

(** ** Escape sequences *)

Lemma handle_escape_byte now b w line escape escape' :
  editing w line escape -> b <> CR -> b <> LF -> b <> 4 ->
  escape' = (if escape =? 0 then 1 else if escape =? 1 then if (b =? 91) || (b =? 79) then 2 else 0
             else if (b >=? 64) && (b <=? 126) then 0 else escape) ->
  (escape = 0 -> b = 27) -> handle_input_byte b now w = Some (0, edited w line escape' []).
Proof.
  intros (_ & Hline & Hesc & _) H1 H2 H3 He Hz.
  unfold handle_input_byte, get_connection, gets, upd_connection, modify. unfold mbind, M_bind. rewrite Hesc.
  destruct (Z.eqb_spec b LF); [done|]. destruct (Z.eqb_spec b CR); [done|]. destruct (Z.eqb_spec b 4); [done|].
  rewrite andb_false_r. cbn [orb]. unfold edited. rewrite app_nil_r. rewrite He.
  destruct (Z.eqb_spec escape 0) as [E0|E0]; cbn [negb].
  { rewrite (Hz E0). simpl. rewrite <- Hline. by destruct w as [[]]. }
  destruct (Z.eqb_spec escape 1).
  { simpl. rewrite <- Hline. by destruct w as [[]]. }
  destruct ((b >=? 64) && (b <=? 126)); simpl; rewrite <- Hline, <- ?Hesc; by destruct w as [[]].
Qed.

(** ** Keys *)

(** [bytes] take the editor to the line [line], echo [shown], and change
    nothing else. *)
Record advances (now : Z) (bytes : list Z) (w : ssh_world) (line : list Z) (escape : Z) (shown : list Z) (w' : ssh_world) : Prop := mk_advances {
  ad_runs : runs now bytes w w';
  ad_editing : editing w' line escape;
  ad_shown : ssh_output w' = ssh_output w ++ shown;
  ad_frame : w' = w <| channel_sent := channel_sent w' |>
               <| connection := (connection w) <| conn_line := line |> <| conn_pending_cr := conn_pending_cr (connection w') |>
                    <| conn_escape_state := escape |> |>
}.

Lemma advances_nil now w line escape : editing w line escape -> advances now [] w line escape [] w.
Proof.
  intros H. split; [apply runs_nil|done|by rewrite app_nil_r|]. destruct H as (_ & <- & <- & _). by destruct w as [[]].
Qed.

Lemma advances_app now a b w line1 escape1 shown1 w1 line2 escape2 shown2 w2 :
  advances now a w line1 escape1 shown1 w1 -> advances now b w1 line2 escape2 shown2 w2 ->
  advances now (a ++ b) w line2 escape2 (shown1 ++ shown2) w2.
Proof.
  intros [A1 A2 A3 A4] [B1 B2 B3 B4]. split; [by eapply runs_app|done|by rewrite B3, A3, app_assoc|].
  rewrite B4, A4. reflexivity.
Qed.

Lemma advances_byte now b w line escape line' escape' cs :
  editing w line escape -> handle_input_byte b now w = Some (0, edited w line' escape' cs) ->
  advances now [b] w line' escape' (concat cs) (edited w line' escape' cs).
Proof.
  intros Hw Eb. split; [by eapply runs_byte|by eapply edited_editing| |reflexivity]. unfold ssh_output. simpl. apply concat_app.
Qed.

Lemma advances_escape now b w line escape escape' :
  editing w line escape -> b <> CR -> b <> LF -> b <> 4 ->
  escape' = (if escape =? 0 then 1 else if escape =? 1 then if (b =? 91) || (b =? 79) then 2 else 0
             else if (b >=? 64) && (b <=? 126) then 0 else escape) ->
  (escape = 0 -> b = 27) -> exists w', advances now [b] w line escape' [] w'.
Proof. intros. eexists. eapply (advances_byte _ _ _ _ _ _ _ []); [eassumption|]. by eapply handle_escape_byte. Qed.

Lemma advances_parameters now parameters w line :
  editing w line 2 -> Forall (fun b => ~ final_byte b /\ b <> CR /\ b <> LF /\ b <> 4) parameters ->
  exists w', advances now parameters w line 2 [] w'.
Proof.
  intros Hw Hp. revert w Hw. induction Hp as [|b parameters (Hf & H1 & H2 & H3) Hp IH]; intros w Hw.
  { eexists. by apply advances_nil. }
  destruct (advances_escape now b w line 2 2 Hw H1 H2 H3) as [w1 A1]; [|done|].
  { unfold final_byte in Hf. destruct (Z.geb_spec b 64), (Z.leb_spec b 126); simpl; done || lia. }
  destruct (IH w1 (ad_editing _ _ _ _ _ _ _ A1)) as [w2 A2]. exists w2.
  exact (advances_app _ [b] parameters _ _ _ [] _ _ _ [] _ A1 A2).
Qed.

Lemma advances_sequence now introducer parameters final w line :
  editing w line 0 -> key_ok (KSequence introducer parameters final) ->
  exists w', advances now (key_bytes (KSequence introducer parameters final)) w line 0 [] w'.
Proof.
  intros Hw (Hi & Hf & Hp).
  destruct (advances_escape now 27 w line 0 1 Hw) as [w1 A1]; [done..|].
  destruct (advances_escape now introducer w1 line 1 2 (ad_editing _ _ _ _ _ _ _ A1)) as [w2 A2];
    [destruct Hi as [-> | ->]; done..|].
  destruct (advances_parameters now parameters w2 line (ad_editing _ _ _ _ _ _ _ A2) Hp) as [w3 A3].
  destruct (advances_escape now final w3 line 2 0 (ad_editing _ _ _ _ _ _ _ A3)) as [w4 A4];
    [unfold final_byte, CR, LF in *; lia..| |done|].
  { unfold final_byte in Hf. destruct (Z.geb_spec final 64), (Z.leb_spec final 126); simpl; done || lia. }
  exists w4. pose proof (advances_app _ _ _ _ _ _ _ _ _ _ _ _ A3 A4) as A34. pose proof (advances_app _ _ _ _ _ _ _ _ _ _ _ _ A2 A34) as A24.
  exact (advances_app _ _ _ _ _ _ _ _ _ _ _ _ A1 A24).
Qed.

Lemma continuation_printable b : continuation b -> 32 <= b < 256 /\ b <> 127.
Proof.
  intros [Hb Hl]. unfold is_byte in Hb. assert (128 <= b); [|lia].
  destruct (Z.lt_ge_cases b 128) as [Hs|]; [|done]. exfalso.
  assert (Z.testbit (Z.land b 192) 7 = false) as Hbit; [|by rewrite Hl in Hbit].
  rewrite Z.land_spec. rewrite (Z.bits_above_log2 b 7); [done|lia|].
  destruct (Z.eq_dec b 0) as [-> |]; [done|]. apply Z.log2_lt_pow2; lia.
Qed.

Lemma advances_bytes now bytes w line :
  editing w line 0 -> Forall (fun b => 32 <= b < 256 /\ b <> 127) bytes -> Zlen (line ++ bytes) <= SSH_INPUT_LINE_MAX ->
  exists w', advances now bytes w (line ++ bytes) 0 bytes w'.
Proof.
  intros Hw Hb. revert w line Hw. induction Hb as [|b bytes [Hb Hd] Hbs IH]; intros w line Hw Hlen.
  { eexists. rewrite app_nil_r. by apply advances_nil. }
  rewrite length_app in Hlen. cbn [length] in Hlen.
  destruct (handle_char_byte now b w line Hw) as (cs & Ecs & Eb); [lia..|].
  pose proof (advances_byte now b w line 0 (line ++ [b]) 0 cs Hw Eb) as A1. rewrite Ecs in A1.
  destruct (IH _ (line ++ [b]) (ad_editing _ _ _ _ _ _ _ A1)) as [w2 A2].
  { rewrite !length_app. cbn [length]. lia. }
  exists w2. rewrite <- app_assoc in A2. exact (advances_app _ [b] bytes _ _ _ [b] _ _ _ bytes _ A1 A2).
Qed.

Lemma advances_key now k w line :
  editing w (concat line) 0 -> Forall character line -> key_ok k -> Zlen (concat line) <= SSH_INPUT_LINE_MAX ->
  Zlen (concat (press line k)) <= SSH_INPUT_LINE_MAX ->
  exists w', advances now (key_bytes k) w (concat (press line k)) 0 (echo line k) w'.
Proof.
  intros Hw Hc Hk Hl Hl'. destruct k as [bytes|b|introducer parameters final].
  - cbn [press key_bytes echo] in *. rewrite concat_app in *. cbn [concat] in *. rewrite app_nil_r in *. apply advances_bytes; [done| |done].
    destruct bytes as [|lead rest]; [done|]. destruct Hk as (H1 & H2 & _ & H3). constructor; [done|].
    eapply Forall_impl; [exact H3|]. apply continuation_printable.
  - destruct (handle_erase now b w line Hw Hk Hc Hl) as (cs & Ecs & Eb). eexists. rewrite <- Ecs. by eapply advances_byte.
  - destruct (advances_sequence now introducer parameters final w (concat line) Hw Hk) as [w' A]. exists w'.
    cbn [press]. destruct line; exact A.
Qed.

Lemma press_characters line k : Forall character line -> key_ok k -> Forall character (press line k).
Proof. intros Hl Hk. destruct k; cbn [press]; auto with bytes. Qed.

Lemma advances_keys now keys w line :
  editing w (concat line) 0 -> Forall character line -> Forall key_ok keys -> fits line keys ->
  exists w', advances now (flat_map key_bytes keys) w (concat (fst (type_keys line keys))) 0 (snd (type_keys line keys)) w'.
Proof.
  intros Hw Hc Hk. revert w line Hw Hc. induction Hk as [|k keys Hk Hks IH]; intros w line Hw Hc Hf.
  { eexists. by apply advances_nil. }
  cbn [fits] in Hf. destruct Hf as [Hl Hf]. assert (Zlen (concat (press line k)) <= SSH_INPUT_LINE_MAX) as Hl' by (destruct keys; apply Hf).
  destruct (advances_key now k w line Hw Hc Hk Hl Hl') as [w1 A1].
  destruct (IH w1 (press line k) (ad_editing _ _ _ _ _ _ _ A1) (press_characters _ _ Hc Hk) Hf) as [w2 A2].
  exists w2. cbn [flat_map type_keys]. destruct (type_keys (press line k) keys) as [line' shown]. cbn [fst snd] in *.
  by eapply advances_app.
Qed.

Lemma fits_typed line keys : fits line keys -> Zlen (concat (fst (type_keys line keys))) <= SSH_INPUT_LINE_MAX.
Proof.
  revert line. induction keys as [|k keys IH]; intros line [Hl Hf]; [done|]. cbn [type_keys]. specialize (IH _ Hf).
  by destruct (type_keys (press line k) keys).
Qed.

(** ** The end of the line *)

(** The state the application's line hook starts in. *)
Definition at_line (w : ssh_world) (line : list Z) (window : rate_window) (w' : ssh_world) : Prop :=
  ssh_output w' = ssh_output w ++ crlf /\ ssh_app w' = ssh_app w /\
  connection w' = (connection w) <| conn_line := line |> <| conn_pending_cr := false |> <| conn_escape_state := 0 |> <| conn_line_window := window |>.

Lemma handle_return now w line handle hook window :
  editing w line 0 -> Zlen line <= SSH_INPUT_LINE_MAX ->
  conn_application_session (connection w) = Some handle -> hook_line application = Some hook ->
  rate_consume (conn_line_window (connection w)) 1 SSH_INPUT_LINES_PER_WINDOW SSH_INPUT_LINES_WINDOW_MS now = (window, true) ->
  exists w1 w2 w3 r a, at_line w line window w1 /\ run_app (hook (ssh_app w) handle line) w1 = Some ((r, a), w2) /\
    handle_input_byte CR now w = Some (0, w3) /\ ssh_app w3 = a /\ ssh_output w3 = ssh_output w2 /\
    conn_line (connection w3) = [] /\
    conn_close_requested (connection w3) = conn_close_requested (connection w2) || negb (r =? 0).
Proof.
  intros (Hacc & Hline & Hesc & Hc) Hlen Happ Hhook Hrate.
  set (w0 := w <| connection := (connection w) <| conn_pending_cr := false |> |>).
  destruct (channel_write_accepts crlf w0) as (cs & Ecs & Ew). { destruct Hacc. by split. }
  set (w1 := w0 <| channel_sent := channel_sent w0 ++ cs |> <| connection := (connection w0) <| conn_line_window := window |> |>).
  destruct (wp_run _ _ _ (run_app_speaks (hook (ssh_app w) handle line) w1)) as ([r a] & w2 & Ea & Hs).
  exists w1, w2. eexists _, r, a. split.
  { split_and!; [|done|unfold w1, w0; simpl; rewrite <- Hline, <- Hesc; by destruct w as [? ? ? ? ? ? ? ?], connection].
    unfold w1, w0, ssh_output. simpl. by rewrite concat_app, Ecs. }
  split; [exact Ea|]. split.
  { unfold handle_input_byte, get_connection, gets, upd_connection, modify. unfold mbind, M_bind.
    rewrite andb_false_r. cbn [orb Z.eqb CR LF Pos.eqb]. fold w0. rewrite Ew. cbn [negb Z.eqb].
    unfold complete_input_line, get_connection, gets, upd_connection, modify. unfold mbind, M_bind. simpl connection.
    change (conn_line_window _) with (conn_line_window (connection w)). rewrite Hrate. cbn [negb].
    change (conn_line _) with (conn_line (connection w)) at 1. rewrite Hline. unfold terminate_line, lift_opt.
    destruct (Z.ltb_spec (Zlen line) (SSH_INPUT_LINE_MAX + 1)); [|lia].
    change (conn_application_session _) with (conn_application_session (connection w)). rewrite Happ, Hhook.
    unfold ssh_call_app, gets, modify. unfold mbind, M_bind, mret, M_ret.
    match goal with |- context [run_app ?p ?v] => change (run_app p v) with (run_app (hook (ssh_app w) handle (conn_line (connection w))) w1) end.
    rewrite Hline, Ea. cbv beta iota zeta.
    instantiate (1 := if negb (r =? 0) then _ else _). destruct (negb (r =? 0)); cbn [when]; reflexivity. }
  destruct (negb (r =? 0)) eqn:Er; simpl; split_and!; try done; by rewrite ?orb_true_r, ?orb_false_r.
Qed.

(** [C12] The line editor refines the abstract one.  On a connection whose
    channel accepts what is written, with an empty line, any sequence of keys
    whose line fits the buffer leaves exactly the line of the abstract editor
    (an erase key removes a whole UTF-8 character, cursor and function keys
    leave no trace) and echoes what it should; a carriage return then hands
    that line, once, to the application, in the state it had, and clears it. *)
Theorem ssh_editor_refines now keys w handle hook window :
  accepting w -> conn_close_requested (connection w) = false -> conn_line (connection w) = [] ->
  conn_escape_state (connection w) = 0 -> Forall key_ok keys -> fits [] keys ->
  conn_application_session (connection w) = Some handle -> hook_line application = Some hook ->
  rate_consume (conn_line_window (connection w)) 1 SSH_INPUT_LINES_PER_WINDOW SSH_INPUT_LINES_WINDOW_MS now = (window, true) ->
  exists w1 w2 w3 w4 r a,
    handle_input_bytes (flat_map key_bytes keys) now w = Some (tt, w1) /\
    conn_line (connection w1) = concat (fst (type_keys [] keys)) /\
    ssh_output w1 = ssh_output w ++ snd (type_keys [] keys) /\
    at_line w1 (concat (fst (type_keys [] keys))) window w2 /\
    run_app (hook (ssh_app w) handle (concat (fst (type_keys [] keys)))) w2 = Some ((r, a), w3) /\
    handle_input_bytes (flat_map key_bytes keys ++ [CR]) now w = Some (tt, w4) /\
    ssh_app w4 = a /\ ssh_output w4 = ssh_output w3 /\ conn_line (connection w4) = [] /\
    conn_close_requested (connection w4) = conn_close_requested (connection w3) || negb (r =? 0).
Proof.
  intros Hacc Hc Hline Hesc Hk Hf Happ Hhook Hrate.
  destruct (advances_keys now keys w []) as [w1 [A1 A2 A3 A4]]; [by split_and!|constructor|done|done|].
  destruct (handle_return now w1 (concat (fst (type_keys [] keys))) handle hook window A2) as (w2 & w3 & w4 & r & a & B1 & B2 & B3 & B4 & B5 & B6 & B7).
  { by apply fits_typed. }
  { rewrite A4. exact Happ. }
  { done. }
  { rewrite A4. exact Hrate. }
  exists w1, w2, w3, w4, r, a. split_and!; auto.
  - specialize (A1 []). rewrite app_nil_r in A1. exact A1.
  - apply A2.
  - rewrite A4 in B2. exact B2.
  - rewrite A1. pose proof (runs_byte now CR w1 w4 _ _ A2 B3 []) as Hr. exact Hr.
Qed.
End editor.
