(* ===== verification/SshClaims.v ===== *)
(** What holds of every SSH connection: the transition system of callbacks and
    turns of the loop, authentication, deadlines, the release of resources, and
    the line editor. *)
From stdpp Require Import relations.
From S2P Require Import Prelude TerminalText AsciiText SecurityPolicy PolicyInvariant PolicyTheorems PlayerStore.
From S2P Require Import PlayerStoreTheorems PlayerRecords PlayerAccounts Application TelnetSession TelnetDialogue TelnetReports.
From S2P Require Import TelnetParser TelnetOutput TelnetTheorems TelnetClaims SshTransport SshOutput SshInvariant SshEditor.

(** * The transition system *)

Section system.
Context {E : Environment} {PL : PwhashLaws env_pwhash} {ML : MkstempLaws env_mkstemp}.

(** libssh makes a callback, or the loop makes its checks. *)
Inductive ssh_step (w w' : ssh_world) : Prop :=
| step_callback cb : callback_ok cb -> dispatch cb w = Some (tt, w') -> ssh_step w w'
| step_turn tick again : tick_callbacks tick = [] -> loop_body tick w = Some (again, w') -> ssh_step w w'.

Definition quiet (tick : ssh_tick) : ssh_tick :=
  mk_tick (tick_connected tick) [] (tick_failed tick) (tick_clock tick) (tick_channel_open tick) (tick_channel_eof tick).

Lemma loop_body_split tick w :
  loop_body tick w = (for_each (tick_callbacks tick) dispatch ;; loop_body (quiet tick)) w.
Proof. reflexivity. Qed.

Lemma ssh_step_cases w w' : ssh_ok w -> ssh_step w w' ->
  steps w w' \/ exists u p clock, dispatch (CbPassword (Some u) (Some p) clock) w = Some (tt, w') /\ authenticates u p clock w w'.
Proof.
  intros Hw [cb Hcb Ed|tick again Ht Ed].
  - destruct (wp_of_run _ _ _ _ _ (dispatch_steps cb w Hw Hcb) Ed) as [?|(u & p & clock & -> & H)]; [by left|].
    right. by exists u, p, clock.
  - left. exact (wp_of_run _ _ _ _ _ (turn_steps tick w Hw Ht) Ed).
Qed.

Lemma ssh_step_ok w w' : ssh_ok w -> ssh_step w w' -> ssh_ok w'.
Proof. intros Hw [H|(u & p & clock & _ & H)]%ssh_step_cases; [by destruct H|by destruct H|done]. Qed.

Lemma reaches_ok w w' : rtc ssh_step w w' -> ssh_ok w -> ssh_ok w'.
Proof. induction 1; eauto using ssh_step_ok. Qed.

Lemma reaches_accounted w w' : rtc ssh_step w w' -> ssh_ok w -> accounted w -> accounted w'.
Proof.
  induction 1 as [|w w1 w2 Hs _ IH]; [done|]. intros Hw Ha. apply IH; [by eapply ssh_step_ok|].
  destruct (ssh_step_cases _ _ Hw Hs) as [H|(u & p & clock & _ & H)]; by apply H.
Qed.

Lemma reaches_fd w w' : rtc ssh_step w w' -> ssh_ok w -> conn_client_fd (connection w') = conn_client_fd (connection w).
Proof.
  induction 1 as [|w w1 w2 Hs _ IH]; [done|]. intros Hw. rewrite IH by by eapply ssh_step_ok.
  destruct (ssh_step_cases _ _ Hw Hs) as [H|(u & p & clock & _ & H)]; by destruct H.
Qed.

Lemma reaches_connected w w' :
  rtc ssh_step w w' -> ssh_ok w -> conn_connected_ms (connection w') = conn_connected_ms (connection w).
Proof.
  induction 1 as [|w w1 w2 Hs _ IH]; [done|]. intros Hw. rewrite IH by by eapply ssh_step_ok.
  destruct (ssh_step_cases _ _ Hw Hs) as [H|(u & p & clock & _ & H)]; by destruct H.
Qed.

Definition tick_ok (tick : ssh_tick) : Prop := Forall callback_ok (tick_callbacks tick).

Lemma callbacks_reach cbs w :
  ssh_ok w -> Forall callback_ok cbs -> wp (for_each cbs dispatch) (fun _ w' => rtc ssh_step w w') w.
Proof.
  intros Hw Hcbs. revert w Hw. induction Hcbs as [|cb cbs Hcb Hcbs IH]; intros w Hw; cbn [for_each]; [by apply wp_ret|].
  destruct (wp_run _ _ _ (dispatch_steps cb w Hw Hcb)) as ([] & w1 & E1 & _). pose proof (step_callback _ _ _ Hcb E1) as H1.
  apply wp_bind. unfold wp at 1. rewrite E1. eapply wp_mono; [apply IH; by eapply ssh_step_ok|].
  intros [] w2 H2. eapply rtc_l; [exact H1|exact H2].
Qed.

Lemma loop_body_reaches tick w :
  ssh_ok w -> tick_ok tick -> wp (loop_body tick) (fun _ w' => rtc ssh_step w w') w.
Proof.
  intros Hw Ht. unfold wp. rewrite loop_body_split. change (wp (for_each (tick_callbacks tick) dispatch ;; loop_body (quiet tick))
    (fun _ w' => rtc ssh_step w w') w). apply wp_bind. eapply wp_mono; [by apply callbacks_reach|]. intros [] w1 H1.
  pose proof (reaches_ok _ _ H1 Hw) as Hw1.
  destruct (wp_run _ _ _ (turn_steps (quiet tick) w1 Hw1 eq_refl)) as (again & w2 & E2 & _). unfold wp. rewrite E2.
  eapply rtc_r; [exact H1|]. exact (step_turn w1 w2 (quiet tick) again eq_refl E2).
Qed.

Lemma event_loop_reaches ticks w :
  ssh_ok w -> Forall tick_ok ticks -> wp (event_loop ticks) (fun _ w' => rtc ssh_step w w') w.
Proof.
  intros Hw Ht. revert w Hw. induction Ht as [|tick ticks Ht Hts IH]; intros w Hw; cbn [event_loop]; [by apply wp_ret|].
  apply wp_bind, wp_gets. apply wp_if; intros _; [by apply wp_ret|].
  apply wp_bind. eapply wp_mono; [by apply loop_body_reaches|]. intros again w1 H1. destruct again; [|by apply wp_ret].
  eapply wp_mono; [apply IH; by eapply reaches_ok|]. intros [] w2 H2. etrans; [exact H1|exact H2].
Qed.

(** ** Who is authenticated, and how *)

(** Somewhere on the way from [w0] to [w] the account [name] was authenticated
    with valid credentials; the rest of the way it stayed. *)
Definition authenticated_on_the_way (w0 w : ssh_world) : Prop :=
  exists w1 w2 user password clock,
    rtc ssh_step w0 w1 /\ dispatch (CbPassword (Some user) (Some password) clock) w1 = Some (tt, w2) /\ rtc ssh_step w2 w /\
    conn_authenticated (connection w1) = false /\ ssh_credentials user password clock w1 /\
    conn_account_name (connection w) = c_str user.

Lemma reaches_account w w' :
  rtc ssh_step w w' -> ssh_ok w -> conn_authenticated (connection w) = true ->
  conn_authenticated (connection w') = true /\ conn_account_name (connection w') = conn_account_name (connection w).
Proof.
  induction 1 as [|w w1 w2 Hs _ IH]; [done|]. intros Hw Ha.
  destruct (ssh_step_cases _ _ Hw Hs) as [H|(u & p & clock & _ & H)]; [|destruct H; congruence].
  destruct IH as [? ?]; [by apply H|by rewrite (st_authenticated _ _ H)|]. split; [done|]. by rewrite <- (st_account _ _ H).
Qed.

Lemma reaches_authenticated w0 w :
  rtc ssh_step w0 w -> ssh_ok w0 -> conn_authenticated (connection w0) = false ->
  if conn_authenticated (connection w) then authenticated_on_the_way w0 w
  else ssh_app w = ssh_app w0 /\ ssh_output w = ssh_output w0.
Proof.
  induction 1 as [w|w w1 w2 Hs Hr IH]; intros Hw Ha; [by rewrite Ha|].
  pose proof (ssh_step_ok _ _ Hw Hs) as Hw1.
  destruct (ssh_step_cases _ _ Hw Hs) as [H|(u & p & clock & Ed & H)].
  - specialize (IH Hw1). rewrite (st_authenticated _ _ H) in IH. specialize (IH Ha).
    destruct (conn_authenticated (connection w2)).
    + destruct IH as (wa & wb & u & p & clock & R1 & R2 & R3 & R4). exists wa, wb, u, p, clock. split; [eapply rtc_l; [exact Hs|exact R1]|done].
    + destruct (st_before _ _ H Ha). destruct IH. split; congruence.
  - destruct (reaches_account _ _ Hr Hw1 (au_after _ _ _ _ _ H)) as [Ha2 En]. rewrite Ha2.
    exists w, w1, u, p, clock. split_and!; [done|done|done|apply H..|]. rewrite En. apply H.
Qed.
End system.

(** * The whole connection *)

Section run.
Context {E : Environment} {PL : PwhashLaws env_pwhash} {ML : MkstempLaws env_mkstemp}.

Lemma new_connection_ok config : connection_ok (new_connection config).
Proof.
  split; simpl; try done.
  - split; simpl; try done; apply copy_terminal_field_ok; unfold TERMINAL_TYPE_MAX, TERMINAL_CLIENT_NAME_MAX, TERMINAL_CLIENT_VERSION_MAX; lia.
  - by apply copy_terminal_field_ok.
Qed.

(** The connection as the set-up finds it. *)
Definition started_connection (config : ssh_transport_connection_config) (now_ms : Z) : ssh_connection :=
  (new_connection config) <| conn_connected_ms := now_ms |> <| conn_last_activity_ms := now_ms |>.

(** What the set-up does to the state the callbacks see: nothing. *)
Record prepares (w : ssh_world) (r : Z) (w' : ssh_world) : Prop := mk_prepares {
  pr_result : r = 0 \/ r = -1;
  pr_steps : ssh_ok w -> ssh_ok w';
  pr_fresh : conn_authenticated (connection w') = conn_authenticated (connection w) /\
             conn_channel (connection w') = conn_channel (connection w) /\
             conn_application_session (connection w') = conn_application_session (connection w);
  pr_fd : conn_client_fd (connection w') = conn_client_fd (connection w);
  pr_outside : ssh_app w' = ssh_app w /\ ssh_policy w' = ssh_policy w /\ ssh_output w' = ssh_output w;
  pr_trail : ssh_trail w `prefix_of` ssh_trail w';
  pr_accounted : conn_session (connection w) = false -> conn_event (connection w) = false ->
                 conn_fd_attached (connection w) = false -> accounted w -> accounted w'
}.

Ltac count_tac := unfold calls_of in *; simpl in *; rewrite ?count_occ_app in *; simpl in *; try lia; try congruence.

Lemma version_ok k banner :
  ssh_capabilities_ok k ->
  ssh_capabilities_ok (k <| cap_client_version := copy_terminal_field (TERMINAL_CLIENT_VERSION_MAX + 1) (Some banner) |>).
Proof. intros []. split; simpl; auto. apply copy_terminal_field_ok. unfold TERMINAL_CLIENT_VERSION_MAX. lia. Qed.

Lemma setup_prepares lib w : wp (setup_ssh_session lib) (prepares w) w.
Proof.
  unfold setup_ssh_session, setup_steps, ssh_record, upd_capabilities, upd_connection, audit_connection.
  destruct lib as [b s k c a x banner e d]. cbn [setup_bind setup_session setup_host_key setup_callbacks setup_accept
    setup_key_exchange setup_banner setup_event setup_add].
  generalize (match banner with Some banner => banner | None => txt "UNKNOWN" end) as version. intros version.
  assert (forall v, ssh_capabilities_ok (conn_capabilities (connection w)) -> ssh_capabilities_ok ((conn_capabilities (connection w))
    <| cap_client_version := copy_terminal_field (TERMINAL_CLIENT_VERSION_MAX + 1) (Some v) |>)) as Hversion by (intros; by apply version_ok).
  revert Hversion. generalize (copy_terminal_field (TERMINAL_CLIENT_VERSION_MAX + 1)). intros field Hversion.
  destruct b, s; cbn [negb orb when]; try (destruct k; cbn [negb when]; [destruct c; cbn [negb when]; [destruct a; cbn [negb when];
    [destruct x; cbn [negb when]; [destruct e, d; cbn [andb when]|]|]|]|]);
    repeat wp_step; (split; simpl; auto; try (by eexists); [intros [[] ?]; split; simpl; [split; simpl; auto|done] |
      intros E1 E2 E3 []; rewrite ?E1, ?E2, ?E3 in *; split; count_tac; rewrite ?E1, ?E2, ?E3; simpl; lia]).
Qed.

(** Nothing is held any more, and nothing was released twice. *)
Record released (fd : Z) (w : ssh_world) : Prop := mk_released {
  re_bind : calls_of BindNew w = calls_of BindFree w;
  re_session : calls_of SessionNew w = calls_of SessionFree w;
  re_channel : calls_of ChannelNew w = calls_of ChannelFree w;
  re_event : calls_of EventNew w = calls_of EventFree w;
  (** the socket went to the session, which closes it, or was closed here *)
  re_socket : (calls_of AttachFd w + calls_of CloseFd w)%nat = b2n (0 <=? fd);
  re_application : hook_close application <> None -> conn_application_session (connection w) = None
}.

(** The clean-up makes a list of library calls and touches nothing else. *)
Definition calls_only (m : M ssh_world unit) (calls : list ssh_call) : Prop :=
  forall w, wp m (fun _ w' => ssh_calls w' = ssh_calls w ++ calls /\ ssh_trail w' = ssh_trail w /\ ssh_output w' = ssh_output w /\
    ssh_policy w' = ssh_policy w /\ ssh_store w' = ssh_store w /\ ssh_app w' = ssh_app w /\
    conn_application_session (connection w') = conn_application_session (connection w)) w.

Lemma calls_only_bind m m' a b : calls_only m a -> calls_only m' b -> calls_only (m ;; m') (a ++ b).
Proof.
  intros Hm Hm' w. apply wp_bind. eapply wp_mono; [apply Hm|]. intros [] w1 (E0&E1&E2&E3&E4&E5&E6).
  eapply wp_mono; [apply Hm'|]. intros [] w2 (?&?&?&?&?&?&?). split_and!; try congruence.
  etrans; [eassumption|]. by rewrite E0, app_assoc.
Qed.

Lemma calls_only_when b m a : calls_only m a -> calls_only (when b m) (if b then a else []).
Proof. intros Hm w. destruct b; [apply Hm|]. apply wp_ret. by rewrite app_nil_r. Qed.

Lemma calls_only_record c : calls_only (ssh_record c) [c].
Proof. intros w. by apply wp_modify. Qed.

Lemma calls_only_upd f :
  (forall c, conn_application_session (f c) = conn_application_session c) -> calls_only (upd_connection f) [].
Proof. intros Hf w. apply wp_modify. simpl. by rewrite app_nil_r. Qed.

Lemma calls_only_eq m a b : calls_only m a -> a = b -> calls_only m b.
Proof. by intros ? ->. Qed.

Ltac calls_tac :=
  lazymatch goal with
  | |- calls_only (_ ;; _) _ => eapply calls_only_bind; calls_tac
  | |- calls_only (when _ _) _ => eapply calls_only_when; calls_tac
  | |- calls_only (ssh_record _) _ => eapply calls_only_record
  | |- calls_only (upd_connection _) _ => eapply calls_only_upd; reflexivity
  end.

Lemma calls_of_app c w w' calls :
  ssh_calls w' = ssh_calls w ++ calls -> calls_of c w' = (calls_of c w + count_occ decide_eq_call calls c)%nat.
Proof. intros Ec. unfold calls_of. rewrite Ec. apply count_occ_app. Qed.

(** The application is told first, once. *)
Lemma close_application_runs w :
  wp (match conn_application_session (connection w), hook_close application with
      | Some handle, Some close =>
          modify (fun w => w <| ssh_app := close (ssh_app w) handle |>) ;;
          upd_connection (fun c => c <| conn_application_session := None |>)
      | _, _ => mret tt
      end)
     (fun _ w' => ssh_calls w' = ssh_calls w /\ ssh_trail w' = ssh_trail w /\ ssh_output w' = ssh_output w /\
        ssh_policy w' = ssh_policy w /\ ssh_store w' = ssh_store w /\
        (hook_close application <> None -> conn_application_session (connection w') = None) /\
        ssh_app w' = match conn_application_session (connection w), hook_close application with
                     | Some handle, Some close => close (ssh_app w) handle | _, _ => ssh_app w end) w.
Proof.
  destruct (conn_application_session (connection w)) as [handle|] eqn:Es, (hook_close application) as [close|] eqn:Ec;
    unfold upd_connection; repeat wp_step; split_and!; auto; done.
Qed.

Definition cleanup_calls (c : ssh_connection) (channel_open connected : bool) : list ssh_call :=
  (if conn_channel c then (if channel_open then [ChannelSendEof; ChannelClose] else []) ++ [ChannelFree] else []) ++
  (if conn_event c && conn_session c then [EventRemoveSession] else []) ++
  (if conn_event c then [EventFree] else []) ++
  (if conn_session c then (if connected then [SessionDisconnect] else []) ++ [SessionFree] else []) ++
  (if negb (conn_fd_attached c) && (conn_client_fd c >=? 0) then [CloseFd] else []).

Lemma cleanup_tail c channel_open connected :
  calls_only
    (when (conn_channel c)
       (when channel_open (ssh_record ChannelSendEof ;; ssh_record ChannelClose) ;;
        ssh_record ChannelFree ;;
        upd_connection (fun c => c <| conn_channel := false |>)) ;;
     when (conn_event c && conn_session c) (ssh_record EventRemoveSession) ;;
     when (conn_event c) (ssh_record EventFree ;; upd_connection (fun c => c <| conn_event := false |>)) ;;
     when (conn_session c)
       (when connected (ssh_record SessionDisconnect) ;;
        ssh_record SessionFree ;;
        upd_connection (fun c => c <| conn_session := false |>)) ;;
     when (negb (conn_fd_attached c) && (conn_client_fd c >=? 0)) (ssh_record CloseFd) ;;
     upd_connection (fun c => c <| conn_client_fd := -1 |>))
    (cleanup_calls c channel_open connected).
Proof.
  eapply calls_only_eq; [calls_tac|]. unfold cleanup_calls. rewrite ?app_nil_r. reflexivity.
Qed.

Lemma cleanup_releases channel_open connected w :
  accounted w -> (conn_fd_attached (connection w) = true -> 0 <= conn_client_fd (connection w)) ->
  wp (cleanup_ssh_connection channel_open connected) (fun _ w' =>
    released (conn_client_fd (connection w)) w' /\ ssh_trail w' = ssh_trail w /\ ssh_output w' = ssh_output w /\
    ssh_policy w' = ssh_policy w /\ ssh_store w' = ssh_store w /\
    ssh_app w' = match conn_application_session (connection w), hook_close application with
                 | Some handle, Some close => close (ssh_app w) handle | _, _ => ssh_app w end) w.
Proof.
  intros [A1 A2 A3 A4 A5 A6] Hfd. unfold cleanup_ssh_connection. apply wp_bind, wp_gets, wp_bind.
  eapply wp_mono; [apply close_application_runs|]. intros [] w1 (B0&B1&B2&B3&B4&B5&B6).
  eapply wp_mono; [apply cleanup_tail|]. intros [] w2 (C0&C1&C2&C3&C4&C5&C6). split_and!; try congruence.
  rewrite B0 in C0. split; [..|rewrite C6; exact B5]; rewrite !(calls_of_app _ w w2 _ C0); unfold cleanup_calls; rewrite !count_occ_app.
  all: try rewrite A1; try rewrite A2; try rewrite A3; try rewrite A4; try rewrite A5; try rewrite A6.
  all: destruct (conn_channel (connection w)), (conn_event (connection w)), (conn_session (connection w)), channel_open, connected; simpl; try lia.
  all: destruct (conn_fd_attached (connection w)); simpl; try lia; destruct (Z.geb_spec (conn_client_fd (connection w)) 0), (Z.leb_spec 0 (conn_client_fd (connection w)));
    simpl; try lia; specialize (Hfd eq_refl); lia.
Qed.

Lemma reaches_grows w w' :
  rtc ssh_step w w' -> ssh_ok w -> ssh_trail w `prefix_of` ssh_trail w' /\ ssh_output w `prefix_of` ssh_output w'.
Proof.
  induction 1 as [|w w1 w2 Hs _ IH]; [done|]. intros Hw. destruct IH as [I1 I2]; [by eapply ssh_step_ok|].
  destruct (ssh_step_cases _ _ Hw Hs) as [H|(u & p & clock & _ & H)].
  - split; etrans; [apply (st_trail _ _ H)|done|apply (st_output _ _ H)|done].
  - split; [etrans; [apply (au_trail _ _ _ _ _ H)|done]|]. destruct (au_app _ _ _ _ _ H) as [_ Eo]. by rewrite <- Eo.
Qed.

(** The application is called in order. *)
Lemma reaches_calls w w' : rtc ssh_step w w' -> ssh_ok w -> hook_calls application (ssh_view w) (ssh_view w').
Proof.
  induction 1 as [|w w1 w2 Hs _ IH]; [done|]. intros Hw. etrans; [|apply IH; by eapply ssh_step_ok].
  destruct (ssh_step_cases _ _ Hw Hs) as [H|(u & p & clock & _ & H)]; [apply H|]. by rewrite (au_view _ _ _ _ _ H).
Qed.

(** The connection got as far as its loop: [w0] is the state after the set-up
    of this run and [w1] the one its event loop ended in. *)
Definition session_ran (config : ssh_transport_connection_config) (h : ssh_history) (w w0 w1 : ssh_world) : Prop :=
  monotonic_or_zero (history_clock h) <> 0 /\
  setup_ssh_session (history_setup h)
    (w <| connection := started_connection config (monotonic_or_zero (history_clock h)) |>) = Some (0, w0) /\
  event_loop (history_ticks h) w0 = Some (tt, w1).

(** Everything one connection does, by its result. *)
Record served (config : ssh_transport_connection_config) (h : ssh_history) (w : ssh_world) (r : Z) (w' : ssh_world) : Prop := mk_served {
  sv_result : r = 0 \/ r = -1;
  sv_policy : policy_ok (ssh_policy w');
  sv_trail : ssh_trail w `prefix_of` ssh_trail w';
  sv_output : ssh_output w `prefix_of` ssh_output w';
  sv_released : ssh_calls w = [] -> released (config_client_fd config) w';
  (** the application was called in order, to the close of its session *)
  sv_calls : hook_close application <> None -> hook_calls application (None, ssh_app w) (None, ssh_app w');
  sv_work : exists w1, connection_work h (w <| connection := new_connection config |>) = Some (r, w1) /\
    (** an application session that is open when the work ends is closed, once *)
    ssh_app w' = match conn_application_session (connection w1), hook_close application with
                 | Some handle, Some close => close (ssh_app w1) handle | _, _ => ssh_app w1 end /\
    (** 0 is returned exactly when the loop of this run ended authenticated and
        with a shell, and then the credentials were met on its way *)
    (r = 0 <-> exists w0, session_ran config h w w0 w1 /\
       conn_authenticated (connection w1) = true /\ conn_shell_started (connection w1) = true) /\
    (forall w0, r = 0 -> session_ran config h w w0 w1 -> authenticated_on_the_way w0 w1)
}.

Lemma start_accounted c w :
  ssh_calls w = [] -> conn_session c = false -> conn_channel c = false -> conn_event c = false -> conn_fd_attached c = false ->
  accounted (w <| connection := c |>).
Proof. intros Ec E1 E2 E3 E4. split; unfold calls_of; simpl; by rewrite Ec, ?E1, ?E2, ?E3, ?E4. Qed.

(** The work, up to the label [cleanup]. *)
Record worked (config : ssh_transport_connection_config) (h : ssh_history) (w : ssh_world) (r : Z) (w1 : ssh_world) : Prop := mk_worked {
  wo_result : r = 0 \/ r = -1;
  wo_policy : policy_ok (ssh_policy w1);
  wo_trail : ssh_trail w `prefix_of` ssh_trail w1;
  wo_output : ssh_output w `prefix_of` ssh_output w1;
  wo_accounted : ssh_calls w = [] -> accounted w1;
  wo_fd : conn_client_fd (connection w1) = config_client_fd config;
  wo_calls : hook_calls application (None, ssh_app w) (ssh_view w1);
  wo_zero : r = 0 <-> exists w0, session_ran config h w w0 w1 /\
    conn_authenticated (connection w1) = true /\ conn_shell_started (connection w1) = true;
  wo_session : forall w0, r = 0 -> session_ran config h w w0 w1 -> authenticated_on_the_way w0 w1
}.

Lemma connection_works config h w :
  policy_ok (ssh_policy w) -> Forall tick_ok (history_ticks h) ->
  wp (connection_work h) (worked config h w) (w <| connection := new_connection config |>).
Proof.
  intros Hp Ht. unfold connection_work. cbv zeta. set (now := monotonic_or_zero (history_clock h)).
  assert (forall w1, (forall w0, ~ session_ran config h w w0 w1) -> (-1 = 0 <-> exists w0, session_ran config h w w0 w1 /\
    conn_authenticated (connection w1) = true /\ conn_shell_started (connection w1) = true)) as Hno.
  { intros w1 Hn. split; [done|]. intros (w0 & Hw0 & _). by destruct (Hn w0). }
  destruct (Z.eqb_spec now 0) as [Hz|Hz].
  { apply wp_ret. split; auto; try done; [intros Ec; by apply start_accounted|]. apply Hno. by intros w0 (? & _). }
  apply wp_bind, wp_modify. change (w <| connection := new_connection config |> <| connection := _ |>) with
    (w <| connection := started_connection config now |>). set (w0 := w <| connection := started_connection config now |>).
  assert (ssh_ok w0) as H0. { split; [|done]. destruct (new_connection_ok config). by split. }
  destruct (wp_run _ _ _ (setup_prepares (history_setup h) w0)) as (r & w1 & E1 & [P1 P2 P3 P4 P5 P6 P7]).
  destruct P5 as (Q1 & Q2 & Q3). simpl in P3, P4, Q1, Q2, P6. destruct P3 as (Q4 & Q5 & Q6).
  assert (ssh_calls w = [] -> accounted w1) as Hacc. { intros Ec. apply P7; try done. by apply start_accounted. }
  assert (ssh_view w1 = (None, ssh_app w)) as Hview by (unfold ssh_view; by rewrite Q6, Q1).
  apply wp_bind. unfold wp at 1. rewrite E1. destruct (Z.eqb_spec r 0) as [->|Hr]; cbn [negb].
  2: { apply wp_ret. split; auto; try done; [by rewrite Q2|by rewrite Q3|by rewrite Hview|]. apply Hno. intros v (_ & Ev & _). fold now w0 in Ev. congruence. }
  pose proof (P2 H0) as H1. destruct (wp_run _ _ _ (event_loop_reaches (history_ticks h) w1 H1 Ht)) as ([] & w2 & E2 & H2).
  pose proof (reaches_ok _ _ H2 H1) as Hw2. destruct (reaches_grows _ _ H2 H1) as [G1 G2].
  apply wp_bind. unfold wp at 1. rewrite E2. apply wp_bind, wp_gets, wp_ret.
  assert (session_ran config h w w1 w2) as Hran by by split_and!.
  split.
  - case_test; auto.
  - apply Hw2.
  - by etrans.
  - rewrite Q3 in G2. done.
  - intros Ec. eapply reaches_accounted; eauto.
  - by rewrite (reaches_fd _ _ H2 H1).
  - rewrite <- Hview. by apply reaches_calls.
  - destruct (conn_authenticated (connection w2)) eqn:Ea, (conn_shell_started (connection w2)) eqn:Es; simpl;
      (split; [intros ?; try done; by exists w1|intros (v & _ & A1 & A2); done]).
  - intros v Er (_ & Ev & _). fold now w0 in Ev. assert (v = w1) as -> by congruence.
    pose proof (reaches_authenticated _ _ H2 H1 Q4) as Hra. destruct (conn_authenticated (connection w2)); done.
Qed.

Lemma run_connection_serves config h w :
  config_valid config = true -> policy_ok (ssh_policy w) -> Forall tick_ok (history_ticks h) ->
  wp (ssh_transport_run_connection config h) (served config h w) w.
Proof.
  intros Hc Hp Ht. unfold ssh_transport_run_connection. rewrite Hc. cbn [negb].
  assert (0 <= config_client_fd config) as Hfd by (unfold config_valid in Hc; breflect; lia).
  apply wp_bind, wp_modify.
  destruct (wp_run _ _ _ (connection_works config h w Hp Ht)) as (r & w1 & E1 & [W1 W2 W3 W4 W5 W6 WC W7 W8]).
  assert (hook_close application <> None -> hook_calls application (None, ssh_app w)
    (None, match conn_application_session (connection w1), hook_close application with
           | Some handle, Some close => close (ssh_app w1) handle | _, _ => ssh_app w1 end)) as Hcalls.
  { intros Hcl. etrans; [exact WC|]. pose proof (close_calls application (conn_application_session (connection w1)) (ssh_app w1)) as Hd.
    by destruct (hook_close application). }
  apply wp_bind. unfold wp at 1. rewrite E1. apply wp_bind. destruct (decide (ssh_calls w = [])) as [Ec|Ec].
  - eapply wp_mono; [apply cleanup_releases; [by apply W5|]; intros _; lia|].
    intros [] w2 (R1 & R2 & R3 & R4 & _ & R6). apply wp_ret. rewrite W6 in R1.
    split; rewrite ?R2, ?R3, ?R4; auto; [by rewrite R6|]. exists w1. by split_and!.
  - unfold cleanup_ssh_connection. apply wp_bind, wp_gets, wp_bind.
    eapply wp_mono; [apply close_application_runs|]. intros [] w2 (B0&B1&B2&B3&B4&B5&B6).
    eapply wp_mono; [apply cleanup_tail|]. intros [] w3 (C0&C1&C2&C3&C4&C5&C6). apply wp_ret.
    split; rewrite ?C1, ?C2, ?C3, ?B1, ?B2, ?B3; auto; [done|by rewrite C5, B6|]. exists w1. rewrite C5. by split_and!.
Qed.
End run.

(** * Deadlines *)

Section deadlines.
Context {E : Environment} {PL : PwhashLaws env_pwhash} {ML : MkstempLaws env_mkstemp}.

(** What a connection that goes round again satisfies at the end of the turn. *)
Record within_deadlines (tick : ssh_tick) (c : ssh_connection) : Prop := mk_within {
  wd_alive : tick_failed tick = false /\ monotonic_or_zero (tick_clock tick) <> 0;
  wd_session : wrap64 (monotonic_or_zero (tick_clock tick) - conn_connected_ms c) < SSH_SESSION_MAX_MS;
  wd_login : conn_authenticated c = false ->
             wrap64 (monotonic_or_zero (tick_clock tick) - conn_connected_ms c) < SSH_AUTH_TIMEOUT_MS;
  wd_shell : conn_authenticated c = true -> conn_shell_started c = false ->
             wrap64 (monotonic_or_zero (tick_clock tick) - conn_authenticated_ms c) < SSH_AUTH_TIMEOUT_MS;
  wd_idle : conn_shell_started c = true ->
            wrap64 (monotonic_or_zero (tick_clock tick) - conn_last_activity_ms c) < SSH_IDLE_TIMEOUT_MS;
  wd_channel : conn_channel c = true -> tick_channel_open tick = true /\ tick_channel_eof tick = false
}.

(** Polling the application leaves the times and the login state alone. *)
Lemma call_app_connection {A} (f : AppState -> app_prog (A * AppState)) w :
  wp (ssh_call_app f) (fun _ w' => exists a b, connection w' = (connection w) <| conn_write_failed := a |> <| conn_close_requested := b |>) w.
Proof.
  unfold ssh_call_app. apply wp_bind, wp_gets, wp_bind. eapply wp_mono; [apply run_app_speaks|]. intros [r a] w1 H1.
  apply wp_bind, wp_modify, wp_ret. destruct H1. eexists _, _. exact sp_connection.
Qed.

Lemma poll_connection w :
  wp (if conn_shell_started (connection w)
      then match conn_application_session (connection w), hook_poll application with
           | Some handle, Some poll => r ← ssh_call_app (fun a => poll a handle); mret (negb (r =? 0))
           | _, _ => mret false
           end
      else mret false)
     (fun _ w' => exists a b, connection w' = (connection w) <| conn_write_failed := a |> <| conn_close_requested := b |>) w.
Proof.
  assert (exists a b, connection w = (connection w) <| conn_write_failed := a |> <| conn_close_requested := b |>) as Hid.
  { exists (conn_write_failed (connection w)), (conn_close_requested (connection w)). by destruct (connection w). }
  destruct (conn_shell_started _); [|by apply wp_ret]. destruct (conn_application_session _); [|by apply wp_ret].
  destruct (hook_poll application); [|by apply wp_ret]. apply wp_bind. eapply wp_mono; [apply call_app_connection|]. auto.
Qed.

Lemma quiet_turn_deadlines tick w :
  ssh_ok w -> wp (loop_body (quiet tick)) (fun again w' => again = true -> within_deadlines tick (connection w')) w.
Proof.
  intros Hw. eapply wp_mono; [apply wp_and; [|apply (turn_steps (quiet tick) w Hw eq_refl)]|intros a w' [H _]; exact H].
  unfold loop_body. cbn [tick_callbacks quiet for_each tick_failed tick_clock tick_channel_open tick_channel_eof].
  apply wp_bind, wp_ret. set (now := monotonic_or_zero (tick_clock tick)).
  assert (forall A (m : M ssh_world A) v, wp m (fun _ w' => speaks v w') v -> wp (m ;; mret false)
    (fun again w' => again = true -> within_deadlines tick (connection w')) v) as Hstop.
  { intros A m v Hm. apply wp_bind. eapply wp_mono; [exact Hm|]. intros ? ? _. by apply wp_ret. }
  apply wp_if; intros Hf; [apply Hstop, audit_speaks|]. apply wp_if; intros Hz; [by apply wp_ret|].
  apply wp_bind, wp_gets. apply wp_if; intros Ha; [apply Hstop, audit_speaks|].
  apply wp_if; intros Hb; [apply Hstop, audit_speaks|]. apply wp_if; intros Hc.
  { apply wp_bind. eapply wp_mono; [apply write_text_speaks|]. intros ? ? _. apply Hstop, audit_speaks. }
  apply wp_bind. eapply wp_mono; [apply poll_connection|]. intros stop w1 (f & g & Ec).
  apply wp_if; intros _; [apply Hstop, close_speaks|]. apply wp_bind, wp_gets. apply wp_if; intros Hd.
  { apply wp_bind. eapply wp_mono; [apply write_text_speaks|]. intros ? ? _. apply Hstop, audit_speaks. }
  apply wp_ret. rewrite Ec in *. simpl in Hd |- *. intros Hch.
  destruct (conn_authenticated (connection w)) eqn:Ea, (conn_shell_started (connection w)) eqn:Es, (conn_channel (connection w)) eqn:Ech;
    simpl in Ha, Hb, Hc, Hch; unfold now in *; breflect; split; simpl; rewrite ?Ea, ?Es, ?Ech; auto; try done; by rewrite negb_false_iff in *.
Qed.

(** [C32] Deadlines.  A turn of the event loop always ends, and the loop goes
    round again only if the poll and the clock worked and the connection is
    within its 12 hours, within two minutes of connecting if not yet
    authenticated, within two minutes of authenticating if it has no shell,
    within 15 minutes of its last input if it has one, and its channel is
    still open.  A turn past the session limit is therefore the last one,
    whatever would follow. *)
Theorem ssh_deadlines tick ticks w :
  ssh_ok w -> tick_ok tick -> conn_close_requested (connection w) = false -> tick_connected tick = true ->
  exists again w',
    loop_body tick w = Some (again, w') /\
    (again = true -> within_deadlines tick (connection w')) /\
    event_loop (tick :: ticks) w = (if again then event_loop ticks w' else Some (tt, w')) /\
    (wrap64 (monotonic_or_zero (tick_clock tick) - conn_connected_ms (connection w)) >= SSH_SESSION_MAX_MS ->
       event_loop (tick :: ticks) w = event_loop [tick] w).
Proof.
  intros Hw Ht Hc Hconn.
  destruct (wp_run _ _ _ (callbacks_reach (tick_callbacks tick) w Hw Ht)) as ([] & w1 & E1 & H1).
  pose proof (reaches_ok _ _ H1 Hw) as Hw1.
  destruct (wp_run _ _ _ (wp_and _ _ _ _ (quiet_turn_deadlines tick w1 Hw1) (turn_steps (quiet tick) w1 Hw1 eq_refl))) as (again & w2 & E2 & H2 & H3).
  assert (loop_body tick w = Some (again, w2)) as El by (rewrite loop_body_split; unfold mbind, M_bind; by rewrite E1).
  assert (forall ts, event_loop (tick :: ts) w = (if again then event_loop ts w2 else Some (tt, w2))) as Ee.
  { intros ts. cbn [event_loop]. unfold mbind, M_bind at 1, get_connection, gets. rewrite Hc, Hconn. cbn [orb negb].
    unfold M_bind. rewrite El. by destruct again. }
  exists again, w2. split_and!; auto. intros Hlate. rewrite !Ee. destruct again; [|done].
  destruct (H2 eq_refl) as [_ Hs _ _ _ _]. rewrite (st_connected _ _ H3), (reaches_connected _ _ H1 Hw) in Hs. lia.
Qed.
End deadlines.

(** * The claims *)

Section claims.
Context {E : Environment} {PL : PwhashLaws env_pwhash} {ML : MkstempLaws env_mkstemp}.

(** [C9] Nothing breaks an SSH connection.  For every configuration, every
    result of the set-up calls, every sequence of callbacks in any order with
    any arguments, every pattern of partial and failed writes, every clock and
    every application, the connection runs to its end: no store outside the
    line buffer, no endless write loop.  It returns 0 or -1, leaves the shared
    policy well formed, only adds to the output and to the audit trail, and
    releases what it took exactly once (bind, session, channel and event
    objects, and the socket either through the session or by closing it); an
    application session that is open when the work ends gets the close hook,
    once; 0 is returned exactly when the event loop of this very run ended with
    an authenticated account and a started shell, and then the account met its
    credentials between the set-up of this run and that end.  A refused
    configuration returns -1 at once and changes nothing. *)
Theorem ssh_connection_robust config h w :
  policy_ok (ssh_policy w) -> Forall tick_ok (history_ticks h) ->
  exists r w', ssh_transport_run_connection config h w = Some (r, w') /\
    if config_valid config then served config h w r w' else r = -1 /\ w' = w.
Proof.
  intros Hp Ht. destruct (config_valid config) eqn:Hc.
  - exact (wp_run _ _ _ (run_connection_serves config h w Hc Hp Ht)).
  - exists (-1), w. split; [|done]. unfold ssh_transport_run_connection. by rewrite Hc.
Qed.

(** [C3] Over SSH nothing is reached without a password.  Whatever callbacks
    libssh makes, as long as no account is authenticated the application's
    memory is untouched, nothing is written to a channel, and there is neither
    a channel nor an application session.  As soon as any of this has changed,
    one password callback on the way met the credentials: a valid name, a
    password of an allowed length, the shared policy's consent for this peer
    and account, and the store's verification; the connection carries that
    name, and keeps it. *)
Theorem ssh_authentication_required w0 w :
  ssh_ok w0 -> conn_authenticated (connection w0) = false -> rtc ssh_step w0 w ->
  ssh_app w <> ssh_app w0 \/ ssh_output w <> ssh_output w0 \/ conn_channel (connection w) = true \/
  conn_application_session (connection w) <> None ->
  authenticated_on_the_way w0 w.
Proof.
  intros H0 Ha Hr Hd. pose proof (reaches_authenticated _ _ Hr H0 Ha) as H. pose proof (so_connection _ (reaches_ok _ _ Hr H0)) as Hc.
  destruct (conn_authenticated (connection w)) eqn:Ea; [done|]. exfalso. destruct H as [E1 E2].
  destruct Hd as [?|[?|[Hch|Happ]]]; [done|done|..].
  - apply (co_channel _ Hc) in Hch. congruence.
  - apply (co_app _ Hc), (co_shell _ Hc) in Happ. congruence.
Qed.

(** The one exit that does not honour the header's contract (the function takes
    ownership of the socket): a refused configuration leaves the socket open. *)
Lemma ssh_refused_config_keeps_socket config h w :
  config_valid config = false -> ssh_transport_run_connection config h w = Some (-1, w).
Proof. intros Hc. unfold ssh_transport_run_connection. by rewrite Hc. Qed.
End claims.

(** * A concrete connection *)

#[local] Existing Instance echo_environment.
#[local] Existing Instance toy_pwhash_laws.
#[local] Existing Instance toy_mkstemp_laws.

Definition alice_config : ssh_transport_connection_config :=
  mk_ssh_config 5 (Some (txt "192.0.2.9")) (Some (txt "/srv/key")) true true true.

(** The account that was created over Telnet logs in over SSH, with writes that
    are taken in parts. *)
Definition alice_ssh (results : list Z) : ssh_world :=
  mk_ssh_world echo_environment (started_connection alice_config 5000) security_policy_create alice_store [] [] results [] 0%nat.

Definition alice_login : list ssh_callback :=
  [CbPassword (Some (txt "alice")) (Some (txt "wrong password")) (Some (6, 0));
   CbPassword (Some (txt "alice")) (Some (txt "correct horse")) (Some (7, 0)); CbChannelOpen true true;
   CbPty (Some (txt "xterm-256color")) 100 40; CbEnv (Some (txt "LANG")) (Some (txt "en_US.UTF-8")); CbShell].

Lemma alice_ssh_ok results : ssh_ok (alice_ssh results).
Proof. split; [|apply policy_create_ok]. destruct (new_connection_ok alice_config). by split. Qed.

Lemma alice_login_ok : Forall callback_ok alice_login.
Proof. repeat constructor. Qed.

(** Ready to type: the shell runs, the channel takes what it is given. *)
Definition at_prompt (w : ssh_world) : Prop :=
  conn_application_session (connection w) = Some 7%nat /\ conn_close_requested (connection w) = false /\
  live w = true /\ channel_results w = [] /\ conn_line (connection w) = [] /\ conn_escape_state (connection w) = 0 /\
  conn_line_window (connection w) = mk_rate 0 0 /\ ssh_app w = 1%nat.

Lemma alice_login_runs :
  match for_each alice_login dispatch (alice_ssh [2; 1]) with Some (_, w) => at_prompt w | None => False end.
Proof. vm_compute. tauto. Qed.

Lemma alice_logged_in : exists w : ssh_world, rtc ssh_step (alice_ssh [2; 1]) w /\ at_prompt w.
Proof.
  pose proof alice_login_runs as Hrun.
  destruct (wp_run _ _ _ (callbacks_reach alice_login _ (alice_ssh_ok [2; 1]) alice_login_ok)) as ([] & w & E1 & H1).
  rewrite E1 in Hrun. exists w. split; [exact H1|exact Hrun].
Qed.

Lemma ssh_authentication_required_witness :
  exists w : ssh_world, conn_application_session (connection w) = Some 7%nat /\ authenticated_on_the_way (alice_ssh [2; 1]) w.
Proof.
  destruct alice_logged_in as (w & Hr & Hp). exists w. split; [apply Hp|].
  apply (ssh_authentication_required (E := echo_environment) (alice_ssh [2; 1]) w (alice_ssh_ok _) eq_refl Hr).
  right; right; right. destruct Hp as [-> _]. discriminate.
Defined.

Definition alice_history : ssh_history :=
  mk_history (Some (5, 0)) (mk_setup true true true true true true (Some (txt "OpenSSH")) true true)
    [mk_tick true alice_login false (Some (8, 0)) true false;
     mk_tick true [CbData (Some (txt "quit" ++ [13])) false (Some (9, 0))] false (Some (10, 0)) true false] true true.

Lemma alice_history_ok : Forall tick_ok (history_ticks alice_history).
Proof. repeat constructor; simpl; unfold is_byte; lia. Qed.

Lemma alice_history_runs :
  match ssh_transport_run_connection alice_config alice_history (alice_ssh [3; 0]) with Some (r, _) => r = 0 | None => False end.
Proof. vm_compute. reflexivity. Qed.

Lemma ssh_connection_robust_witness :
  exists r w', ssh_transport_run_connection alice_config alice_history (alice_ssh [3; 0]) = Some (r, w') /\
    served alice_config alice_history (alice_ssh [3; 0]) r w' /\ r = 0.
Proof.
  destruct (ssh_connection_robust (E := echo_environment) alice_config alice_history (alice_ssh [3; 0]) policy_create_ok alice_history_ok) as (r & w' & E1 & H).
  exists r, w'. split; [exact E1|]. split; [exact H|]. pose proof alice_history_runs as Hr. rewrite E1 in Hr. exact Hr.
Defined.

Lemma ssh_deadlines_witness :
  exists again w', loop_body (mk_tick true [] false (Some (43210, 0)) true false) (alice_ssh []) = Some (again, w') /\
    event_loop [mk_tick true [] false (Some (43210, 0)) true false; mk_tick true [CbShell] false None true true] (alice_ssh [])
    = event_loop [mk_tick true [] false (Some (43210, 0)) true false] (alice_ssh []).
Proof.
  destruct (ssh_deadlines (E := echo_environment) (mk_tick true [] false (Some (43210, 0)) true false) [mk_tick true [CbShell] false None true true]
    (alice_ssh []) (alice_ssh_ok []) (Forall_nil_2 _) eq_refl eq_refl) as (again & w' & E1 & _ & _ & E2).
  exists again, w'. split; [exact E1|]. apply E2. apply Z.le_ge. apply (bool_decide_unpack _). vm_compute. exact I.
Defined.

(** "h", an e with an acute accent, "x" erased, an arrow key, "i". *)
Definition some_keys : list key :=
  [KChar [104]; KChar [195; 169]; KChar [120]; KErase 127; KSequence 91 [] 65; KChar [226; 130; 172]; KErase 8; KChar [105]].

Lemma some_keys_ok : Forall key_ok some_keys /\ fits [] some_keys.
Proof.
  split; [|vm_compute; intuition discriminate].
  repeat constructor; vm_compute; try discriminate; try (by left); try (by right); intuition discriminate.
Qed.

Lemma ssh_editor_refines_witness :
  exists w w1 : ssh_world, at_prompt w /\ handle_input_bytes (flat_map key_bytes some_keys) 9000 w = Some (tt, w1) /\
    conn_line (connection w1) = [104; 195; 169; 105].
Proof.
  destruct alice_logged_in as (w & Hr & Hp). pose proof Hp as (P1 & P2 & P3 & P4 & P5 & P6 & P7 & P8). destruct some_keys_ok as [K1 K2].
  assert (rate_consume (conn_line_window (connection w)) 1 SSH_INPUT_LINES_PER_WINDOW SSH_INPUT_LINES_WINDOW_MS 9000 = (mk_rate 9000 1, true)) as Hrate.
  { rewrite P7. reflexivity. }
  destruct (ssh_editor_refines (E := echo_environment) 9000 some_keys w 7%nat _ (mk_rate 9000 1) (conj P3 P4) P2 P5 P6 K1 K2 P1 eq_refl Hrate)
    as (w1 & w2 & w3 & w4 & r & a & E1 & E2 & _).
  exists w, w1. split; [exact Hp|]. split; [exact E1|]. rewrite E2. reflexivity.
Defined.

Lemma adapters_show_same_text_witness :
  exists (w w' : ssh_world) (v v' : world) r shown, at_prompt w /\ registered v /\
    write_terminal_text (Some (txt "one" ++ [10] ++ txt "two" ++ [13; 10])) w = Some (r, w') /\
    write_application_text (txt "one" ++ [10] ++ txt "two" ++ [13; 10]) v = Some (tt, v') /\
    ssh_output w' = ssh_output w ++ shown /\ sent v' = sent v ++ quote_iac (txt "one" ++ crlf ++ txt "two" ++ crlf).
Proof.
  destruct alice_logged_in as (w & _ & Hp). destruct registered_run as (s & rs & v & _ & _ & Hreg & _).
  destruct (adapters_show_same_text (E := echo_environment) (txt "one" ++ [10] ++ txt "two" ++ [13; 10]) w v)
    as (r & w' & v' & shown & E1 & E2 & E3 & _ & E4 & _).
  - apply Hp.
  - apply Hreg.
  - exists w, w', v, v', r, shown. split; [exact Hp|]. split; [exact Hreg|]. split; [exact E1|]. split; [exact E2|]. split; [exact E3|exact E4].
Defined.
