(* ===== verification/SecureServer.v ===== *)
(** The transport side of one connection (src/secure_server.c): the writer, the
    TLS handshake and shutdown, and the worker that owns a plain or TLS Telnet
    session or runs [ssh_transport_run_connection] on its socket.

    The kernel and OpenSSL are inputs: what each call of [send]/[SSL_write_ex],
    [recv]/[SSL_read_ex], [SSL_accept], [SSL_shutdown] and [clock_gettime] will
    return, and whether the server is stopping when asked, call by call
    ([io_world]).  Where a list is used up, the clock fails, writes are taken
    whole, reads time out and the peer is gone.

    The Telnet session writes through a callback; the model of the session
    records those calls in its [wire], and the worker passes the new ones on to
    [connection_write], in order, after each call into the session. *)
From S2P Require Import Prelude TelnetNegotiation TerminalText AsciiText SecurityPolicy PlayerStore Application.
From S2P Require Import TelnetSession TelnetOptions TelnetLogin TelnetSubnegotiation TelnetParser SshTransport.

(** * Constants *)

Definition MAX_ACTIVE_CONNECTIONS : Z := 64.
Definition TLS_HANDSHAKE_TIMEOUT_MS : Z := 10000.
Definition LOGIN_TIMEOUT_MS : Z := 120000.
Definition IDLE_TIMEOUT_MS : Z := 900000.
Definition SESSION_MAX_MS : Z := 12 * 60 * 60 * 1000.
Definition TLS_SHUTDOWN_TIMEOUT_MS : Z := 3000.
Definition SOCKET_READ_TICK_MS : Z := 250.
Definition SOCKET_WRITE_TIMEOUT_MS : Z := 10000.
Definition MAX_LISTENER_SOCKETS : Z := 6.
Definition LISTENER_UNAVAILABLE : Z := -2.
(** [sizeof(buffer)] in the worker *)
Definition READ_BUFFER_SIZE : Z := 4096.

(** OpenSSL's and Linux's numbers. *)
Definition SSL_ERROR_WANT_READ : Z := 2.
Definition SSL_ERROR_WANT_WRITE : Z := 3.
Definition SSL_ERROR_SYSCALL : Z := 5.
Definition SSL_ERROR_ZERO_RETURN : Z := 6.
Definition EINTR : Z := 4.
Definition EAGAIN : Z := 11.
Definition EWOULDBLOCK : Z := 11.
Definition EPROTONOSUPPORT : Z := 93.
Definition EAFNOSUPPORT : Z := 97.
Definition EADDRNOTAVAIL : Z := 99.

Inductive connection_transport_kind := CONNECTION_TRANSPORT_TELNET | CONNECTION_TRANSPORT_TELNET_TLS | CONNECTION_TRANSPORT_SSH.

#[export] Instance transport_eq : EqDecision connection_transport_kind.
Proof. solve_decision. Defined.

(** * Pure helpers *)

(** The [timeval] of [set_socket_timeout]: seconds and microseconds. *)
Definition socket_timeout (timeout_ms : Z) : Z * Z := (timeout_ms / 1000, (timeout_ms mod 1000) * 1000).

Definition retryable_errno (errno : Z) : bool := (errno =? EINTR) || (errno =? EAGAIN) || (errno =? EWOULDBLOCK).

Definition retryable_socket_error (ssl_error socket_errno : Z) : bool :=
  if (ssl_error =? SSL_ERROR_WANT_READ) || (ssl_error =? SSL_ERROR_WANT_WRITE) then true
  else (ssl_error =? SSL_ERROR_SYSCALL) && retryable_errno socket_errno.

Definition transport_label (transport : connection_transport_kind) : list Z :=
  match transport with
  | CONNECTION_TRANSPORT_TELNET => txt "telnet"
  | CONNECTION_TRANSPORT_TELNET_TLS => txt "telnet-tls"
  | CONNECTION_TRANSPORT_SSH => txt "ssh"
  end.

Definition ipv6_unavailable_error (error_number : Z) : bool :=
  (error_number =? EAFNOSUPPORT) || (error_number =? EPROTONOSUPPORT) || (error_number =? EADDRNOTAVAIL).

(** * The kernel and OpenSSL *)

(** A write: the bytes taken if positive, else the failure. *)
Record write_outcome := mk_write { wr_count : Z; wr_ssl_error : Z; wr_errno : Z }.
(** A read: the bytes received (for [recv], none is the end of the stream), or the failure. *)
Inductive read_outcome := ReadBytes (bytes : list Z) | ReadFail (ssl_error errno : Z).
(** [SSL_accept] and [SSL_shutdown]: the result, and the error if it is not 1. *)
Record tls_outcome := mk_tls { tls_result : Z; tls_ssl_error : Z; tls_errno : Z }.

Record io_world := mk_io {
  io_clocks : list (option (Z * Z));
  io_writes : list write_outcome;
  io_reads : list read_outcome;
  io_stops : list bool;
  io_handshakes : list tls_outcome;
  io_shutdowns : list tls_outcome
}.

Definition eta_io i := mk_io (io_clocks i) (io_writes i) (io_reads i) (io_stops i) (io_handshakes i) (io_shutdowns i).
#[export] Instance set_io_clocks : Setter io_clocks := ltac:(setter_of eta_io io_clocks).
#[export] Instance set_io_writes : Setter io_writes := ltac:(setter_of eta_io io_writes).
#[export] Instance set_io_reads : Setter io_reads := ltac:(setter_of eta_io io_reads).
#[export] Instance set_io_stops : Setter io_stops := ltac:(setter_of eta_io io_stops).
#[export] Instance set_io_handshakes : Setter io_handshakes := ltac:(setter_of eta_io io_handshakes).
#[export] Instance set_io_shutdowns : Setter io_shutdowns := ltac:(setter_of eta_io io_shutdowns).

(** Objects of one worker that are taken and given back; a socket handed to the
    SSH adapter comes with the calls the adapter made of libssh and the kernel. *)
Inductive worker_call := SslNew | SslFree | SessionCreate | SessionDestroy | SocketClose | SshHandOver (calls : list ssh_call) | SlotRelease.

#[export] Instance worker_call_eq : EqDecision worker_call.
Proof. solve_decision. Defined.

(** The world of a worker: the Telnet world (its session component means
    nothing until the session is created), the writer's flag, how many writer
    calls of the session were passed on, what the socket took, and the inputs. *)
Record worker_world {E : Environment} := mk_worker {
  wk_world : world;
  wk_failed : bool;
  wk_flushed : nat;
  wk_socket : list Z;
  wk_io : io_world;
  wk_calls : list worker_call
}.

Definition eta_worker {E : Environment} (w : worker_world) :=
  mk_worker E (wk_world w) (wk_failed w) (wk_flushed w) (wk_socket w) (wk_io w) (wk_calls w).
Ltac worker_setter proj :=
  let v := fresh "v" in
  let r := fresh "r" in
  intros v r;
  let t := eval unfold eta_worker in (eta_worker r) in
  match eval pattern (proj r) in t with
  | ?F _ => let u := eval cbv beta in (F v) in exact u
  end.
#[export] Instance set_wk_world {E : Environment} : Setter wk_world := ltac:(worker_setter wk_world).
#[export] Instance set_wk_failed {E : Environment} : Setter wk_failed := ltac:(worker_setter wk_failed).
#[export] Instance set_wk_flushed {E : Environment} : Setter wk_flushed := ltac:(worker_setter wk_flushed).
#[export] Instance set_wk_socket {E : Environment} : Setter wk_socket := ltac:(worker_setter wk_socket).
#[export] Instance set_wk_io {E : Environment} : Setter wk_io := ltac:(worker_setter wk_io).
#[export] Instance set_wk_calls {E : Environment} : Setter wk_calls := ltac:(worker_setter wk_calls).

Section worker.
Context {E : Environment}.
Abbreviation Worker := (M worker_world).

(** The next item of an input list. *)
Definition pop {A} (get : io_world -> list A) (put : list A -> io_world -> io_world) (last : A) : Worker A := fun w =>
  match get (wk_io w) with
  | [] => Some (last, w)
  | x :: rest => Some (x, w <| wk_io := put rest (wk_io w) |>)
  end.

Definition monotonic_milliseconds : Worker Z :=
  reading ← pop io_clocks (fun l i => i <| io_clocks := l |>) None;
  mret (monotonic_or_zero reading).

Definition runtime_is_stopping : Worker bool := pop io_stops (fun l i => i <| io_stops := l |>) false.

Definition worker_record (c : worker_call) : Worker unit := modify (fun w => w <| wk_calls := wk_calls w ++ [c] |>).

Definition audit_event (event peer detail : list Z) : Worker unit :=
  modify (fun w => w <| wk_world := (wk_world w) <| trail := trail (wk_world w) ++ [mk_audit event peer detail] |> |>).

(** A call into the Telnet session. *)
Definition in_session {A} (m : M world A) : Worker A := zoom wk_world (fun t w => w <| wk_world := t |>) m.
Definition get_telnet : Worker telnet_session := gets (fun w => session (wk_world w)).

(** ** The writer *)

Definition socket_take (data : list Z) : Worker unit := modify (fun w => w <| wk_socket := wk_socket w ++ data |>).

(** After a failed attempt: try again, if the error allows it and the ten
    seconds are not over. *)
Definition write_again (transport : connection_transport_kind) (o : write_outcome) (started : Z) : Worker bool :=
  let retryable :=
    match transport with
    | CONNECTION_TRANSPORT_TELNET_TLS => retryable_socket_error (wr_ssl_error o) (wr_errno o)
    | _ => (wr_count o <? 0) && retryable_errno (wr_errno o)
    end in
  if retryable then
    now ← monotonic_milliseconds;
    mret (negb (started =? 0) && negb (now =? 0) && (wrap64 (now - started) <? SOCKET_WRITE_TIMEOUT_MS))
  else mret false.

(** The loop on [data + offset]; each turn uses up one write outcome or takes
    everything. *)
Fixpoint connection_write_loop (fuel : nat) (transport : connection_transport_kind) (has_ssl : bool) (peer : list Z) (started : Z)
    (data : list Z) : Worker unit :=
  match data with
  | [] => mret tt
  | _ =>
      match fuel with
      | O => lift_opt None
      | S fuel =>
          if bool_decide (transport = CONNECTION_TRANSPORT_TELNET_TLS) && negb has_ssl then
            modify (fun w => w <| wk_failed := true |>)
          else
            o ← pop io_writes (fun l i => i <| io_writes := l |>) (mk_write (Zlen data) 0 0);
            if wr_count o >? 0 then
              let written := Z.min (wr_count o) (Zlen data) in
              socket_take (take (Z.to_nat written) data) ;;
              connection_write_loop fuel transport has_ssl peer started (drop (Z.to_nat written) data)
            else
              again ← write_again transport o started;
              if (again : bool) then connection_write_loop fuel transport has_ssl peer started data
              else
                modify (fun w => w <| wk_failed := true |>) ;;
                audit_event (txt "transport_write_failure") peer (transport_label transport)
      end
  end.

Definition connection_write (transport : connection_transport_kind) (has_ssl : bool) (peer data : list Z) : Worker unit :=
  failed ← gets wk_failed;
  if (failed : bool) then mret tt
  else
    started ← monotonic_milliseconds;
    writes ← gets (fun w => io_writes (wk_io w));
    connection_write_loop (S (length writes)) transport has_ssl peer started data.

(** The calls of the writer the session made since the last time. *)
Definition flush_session (transport : connection_transport_kind) (has_ssl : bool) (peer : list Z) : Worker unit :=
  calls ← gets (fun w => drop (wk_flushed w) (wire (wk_world w)));
  modify (fun w => w <| wk_flushed := length (wire (wk_world w)) |>) ;;
  for_each calls (connection_write transport has_ssl peer).

(** ** TLS *)

(** The handshake loop; once the outcomes given are used up the peer is gone. *)
Fixpoint accept_loop (fuel : nat) (peer : list Z) (started : Z) : Worker Z :=
  match fuel with
  | O => lift_opt None
  | S fuel =>
      stopping ← runtime_is_stopping;
      if (stopping : bool) then mret (-1)
      else
        o ← pop io_handshakes (fun l i => i <| io_handshakes := l |>) (mk_tls 0 0 0);
        if tls_result o =? 1 then
          audit_event (txt "tls_handshake_success") peer (txt "TLS 1.3") ;; mret 0
        else
          now ← monotonic_milliseconds;
          if (now =? 0) || (started =? 0) || (wrap64 (now - started) >=? TLS_HANDSHAKE_TIMEOUT_MS) then
            audit_event (txt "tls_handshake_timeout") peer (txt "handshake deadline exceeded") ;; mret (-1)
          else if retryable_socket_error (tls_ssl_error o) (tls_errno o) then accept_loop fuel peer started
          else audit_event (txt "tls_handshake_failure") peer (txt "TLS handshake rejected") ;; mret (-1)
  end.

Definition tls_accept_with_deadline (peer : list Z) : Worker Z :=
  started ← monotonic_milliseconds;
  outcomes ← gets (fun w => io_handshakes (wk_io w));
  accept_loop (S (length outcomes)) peer started.

Fixpoint shutdown_loop (fuel : nat) (timeout_ms started : Z) : Worker unit :=
  match fuel with
  | O => lift_opt None
  | S fuel =>
      o ← pop io_shutdowns (fun l i => i <| io_shutdowns := l |>) (mk_tls 1 0 0);
      if tls_result o =? 1 then mret tt
      else
        now ← monotonic_milliseconds;
        if (started =? 0) || (now =? 0) || (wrap64 (now - started) >=? timeout_ms) then mret tt
        else if tls_result o =? 0 then shutdown_loop fuel timeout_ms started
        else if retryable_socket_error (tls_ssl_error o) (tls_errno o) then shutdown_loop fuel timeout_ms started
        else mret tt
  end.

Definition tls_shutdown_bounded (timeout_ms : Z) : Worker unit :=
  started ← monotonic_milliseconds;
  outcomes ← gets (fun w => io_shutdowns (wk_io w));
  shutdown_loop (S (length outcomes)) timeout_ms started.

(** ** The worker *)

(** What a turn of the loop decides: go round, with the time of the last input,
    or leave, after a fatal TLS error or not. *)
Inductive turn := Continue (last_activity : Z) | Leave (fatal_tls_error : bool).

Definition notice (text : string) : list Z := txt text ++ crlf.

(** What follows from a read. *)
Definition after_read (transport : connection_transport_kind) (has_ssl : bool) (peer : list Z) (last_activity : Z)
    (outcome : read_outcome) : Worker turn :=
  let feed bytes :=
    now ← monotonic_milliseconds;
    r ← in_session (telnet_session_feed_at (take (Z.to_nat READ_BUFFER_SIZE) bytes) now);
    flush_session transport has_ssl peer ;;
    mret (if negb (r =? 0) then Leave false else Continue now) in
  match transport, outcome with
  | CONNECTION_TRANSPORT_TELNET_TLS, ReadBytes [] => mret (Continue last_activity)
  | CONNECTION_TRANSPORT_TELNET_TLS, ReadBytes bytes => feed bytes
  | CONNECTION_TRANSPORT_TELNET_TLS, ReadFail ssl_error errno =>
      if ssl_error =? SSL_ERROR_ZERO_RETURN then
        audit_event (txt "connection_close") peer (txt "peer sent TLS close_notify") ;; mret (Leave false)
      else if retryable_socket_error ssl_error errno then mret (Continue last_activity)
      else audit_event (txt "tls_read_failure") peer (txt "fatal TLS read error or unclean disconnect") ;; mret (Leave true)
  | _, ReadBytes [] =>
      audit_event (txt "connection_close") peer (txt "plain Telnet peer closed connection") ;; mret (Leave false)
  | _, ReadBytes bytes => feed bytes
  | _, ReadFail _ errno =>
      if retryable_errno errno then mret (Continue last_activity)
      else audit_event (txt "tcp_read_failure") peer (txt "plain Telnet socket read failed") ;; mret (Leave false)
  end.

Definition read_turn (transport : connection_transport_kind) (has_ssl : bool) (peer : list Z) (last_activity : Z) : Worker turn :=
  outcome ← pop io_reads (fun l i => i <| io_reads := l |>) (ReadFail SSL_ERROR_SYSCALL EAGAIN);
  after_read transport has_ssl peer last_activity outcome.

(** The body of the worker's loop, after the clock and the stop flag are read. *)
Definition checked_turn (transport : connection_transport_kind) (has_ssl : bool) (peer : list Z) (connected_at last_activity now : Z)
    (stopping : bool) : Worker turn :=
  if stopping then
    audit_event (txt "session_server_shutdown") peer (txt "server stopping") ;; mret (Leave false)
  else if (now =? 0) || (connected_at =? 0) then mret (Leave false)
  else if wrap64 (now - connected_at) >=? SESSION_MAX_MS then
    connection_write transport has_ssl peer (notice "Maximum session time reached.") ;;
    audit_event (txt "session_maximum_timeout") peer (txt "maximum session lifetime reached") ;; mret (Leave false)
  else
    s ← get_telnet;
    if negb (telnet_session_is_in_game s) && (wrap64 (now - connected_at) >=? LOGIN_TIMEOUT_MS) then
      connection_write transport has_ssl peer (notice "Login timed out.") ;;
      audit_event (txt "login_timeout") peer (txt "login deadline exceeded") ;; mret (Leave false)
    else if telnet_session_is_in_game s && (wrap64 (now - last_activity) >=? IDLE_TIMEOUT_MS) then
      connection_write transport has_ssl peer (notice "Idle timeout.") ;;
      audit_event (txt "idle_timeout") peer (txt "idle session closed") ;; mret (Leave false)
    else
      r ← in_session telnet_session_poll;
      flush_session transport has_ssl peer ;;
      if negb (r =? 0) then mret (Leave false) else read_turn transport has_ssl peer last_activity.

Definition worker_turn (transport : connection_transport_kind) (has_ssl : bool) (peer : list Z) (connected_at last_activity : Z)
    : Worker turn :=
  now ← monotonic_milliseconds;
  stopping ← runtime_is_stopping;
  checked_turn transport has_ssl peer connected_at last_activity now stopping.

(** The loop: each turn reads the clock, and a clock that fails ends it. *)
Fixpoint worker_loop (fuel : nat) (transport : connection_transport_kind) (has_ssl : bool) (peer : list Z)
    (connected_at last_activity : Z) : Worker bool :=
  failed ← gets wk_failed;
  s ← get_telnet;
  if (failed : bool) || telnet_session_should_close s then mret false
  else
    match fuel with
    | O => lift_opt None
    | S fuel =>
        t ← worker_turn transport has_ssl peer connected_at last_activity;
        match t with
        | Continue last_activity => worker_loop fuel transport has_ssl peer connected_at last_activity
        | Leave fatal => mret fatal
        end
    end.

(** Allocation and set-up results: [SSL_new], [SSL_set_fd], and the memory for
    the session. *)
Record worker_setup := mk_worker_setup { ws_ssl : bool; ws_set_fd : bool; ws_session : bool }.

(** The session of a worker, from [telnet_session_create] to the end of the
    loop; the result is whether a fatal TLS error ended it. *)
Definition serve_telnet (transport : connection_transport_kind) (has_ssl : bool) (peer : list Z) (allocated : bool) : Worker bool :=
  match (if allocated then telnet_session_create peer (bool_decide (transport = CONNECTION_TRANSPORT_TELNET_TLS)) else None) with
  | None => audit_event (txt "session_allocation_failure") peer (txt "unable to create protocol session") ;; mret false
  | Some s =>
      worker_record SessionCreate ;;
      modify (fun w => w <| wk_world := (wk_world w) <| session := s |> |> <| wk_flushed := length (wire (wk_world w)) |>) ;;
      in_session telnet_session_start ;;
      flush_session transport has_ssl peer ;;
      connected_at ← monotonic_milliseconds;
      clocks ← gets (fun w => io_clocks (wk_io w));
      fatal ← worker_loop (S (length clocks)) transport has_ssl peer connected_at connected_at;
      in_session telnet_session_destroy ;;
      flush_session transport has_ssl peer ;;
      worker_record SessionDestroy ;;
      mret fatal
  end.

(** What an SSH worker passes on and what libssh will do: the socket, the host
    key of the runtime, the history of the connection, and the results of the
    channel writes. *)
Record ssh_handover := mk_handover {
  ho_client_fd : Z;
  ho_host_key_path : option (list Z);
  ho_history : ssh_history;
  ho_channel_results : list Z
}.

(** The adapter's configuration: the application is passed only if it can be
    opened; the store and the policy of the runtime are always there. *)
Definition ssh_config (peer : list Z) (ssh : ssh_handover) : ssh_transport_connection_config :=
  mk_ssh_config (ho_client_fd ssh) (Some peer) (ho_host_key_path ssh) true true (bool_decide (is_Some (hook_open application))).

(** The call of [ssh_transport_run_connection]: its own connection record, and
    the policy, the store, the audit trail and the application of the server. *)
Definition ssh_start (peer : list Z) (ssh : ssh_handover) (t : world) : ssh_world :=
  mk_ssh_world E (new_connection (ssh_config peer ssh)) (policy t) (store t) (trail t) [] (ho_channel_results ssh) [] (app_state t).

Definition run_ssh (peer : list Z) (ssh : ssh_handover) : Worker unit := fun w =>
  match ssh_transport_run_connection (ssh_config peer ssh) (ho_history ssh) (ssh_start peer ssh (wk_world w)) with
  | None => None
  | Some (_, s) =>
      Some (tt, w <| wk_world := (wk_world w) <| policy := ssh_policy s |> <| store := ssh_store s |> <| trail := ssh_trail s |>
                                   <| app_state := ssh_app s |> |>
                  <| wk_calls := wk_calls w ++ [SshHandOver (ssh_calls s)] |>)
  end.

Definition connection_worker (transport : connection_transport_kind) (peer : list Z) (lib : worker_setup) (ssh : ssh_handover) : Worker unit :=
  match transport with
  | CONNECTION_TRANSPORT_SSH =>
      audit_event (txt "ssh_connection") peer (txt "accepted SSH terminal transport") ;;
      run_ssh peer ssh ;;
      worker_record SlotRelease
  | CONNECTION_TRANSPORT_TELNET =>
      audit_event (txt "telnet_plain_connection") peer (txt "unencrypted compatibility transport") ;;
      serve_telnet transport false peer (ws_session lib) ;;
      worker_record SocketClose ;;
      worker_record SlotRelease
  | CONNECTION_TRANSPORT_TELNET_TLS =>
      (if negb (ws_ssl lib) then audit_event (txt "tls_allocation_failure") peer (txt "SSL_new failed")
       else
         worker_record SslNew ;;
         (if negb (ws_set_fd lib) then audit_event (txt "tls_socket_attach_failure") peer (txt "SSL_set_fd failed")
          else
            accepted ← tls_accept_with_deadline peer;
            if negb (accepted =? 0) then mret tt
            else
              fatal ← serve_telnet transport true peer (ws_session lib);
              failed ← gets wk_failed;
              when (negb fatal && negb failed) (tls_shutdown_bounded TLS_SHUTDOWN_TIMEOUT_MS)) ;;
         worker_record SslFree) ;;
      worker_record SocketClose ;;
      worker_record SlotRelease
  end.
End worker.
