(* ===== verification/ServerTheorems.v ===== *)
(** What a connection worker guarantees, whatever the kernel, OpenSSL, the peer
    and the application do: it ends, it gives everything back once, it keeps
    its deadlines, and the socket carries a prefix of the session's Telnet
    stream. *)
From S2P Require Import Prelude TelnetNegotiation TerminalText AsciiText SecurityPolicy PolicyInvariant PolicyTheorems.
From S2P Require Import PlayerStore PlayerStoreTheorems PlayerRecords PlayerAccounts Application.
From S2P Require Import TelnetSession TelnetOptions TelnetLogin TelnetSubnegotiation TelnetParser TelnetOutput TelnetInvariant.
From S2P Require Import TelnetDialogue TelnetTheorems TelnetClaims SshTransport SshInvariant SshClaims SecureServer.

(** * The writer *)

Section writer.
Context {E : Environment}.

(** How many clock readings are left. *)
Definition clocks_left (w : worker_world) : nat := length (io_clocks (wk_io w)).

(** [data] was offered to the socket. *)
Record wrote (data : list Z) (w w' : worker_world) : Prop := mk_wrote {
  wt_world : exists more, wk_world w' = (wk_world w) <| trail := trail (wk_world w) ++ more |>;
  wt_socket : exists out, wk_socket w' = wk_socket w ++ out /\ out `prefix_of` data /\
              (wk_failed w' = false -> out = data) /\ (wk_failed w = true -> out = []);
  wt_failed : wk_failed w = true -> wk_failed w' = true;
  wt_flushed : wk_flushed w' = wk_flushed w;
  wt_calls : wk_calls w' = wk_calls w;
  wt_clocks : (clocks_left w' <= clocks_left w)%nat;
  wt_reads : io_reads (wk_io w') = io_reads (wk_io w)
}.

Lemma same_trail (t : world) : t = t <| trail := trail t ++ [] |>.
Proof. rewrite app_nil_r. by destruct t. Qed.

Lemma wrote_nil w : wrote [] w w.
Proof. split; auto; [exists []; apply same_trail|]. exists []. by rewrite app_nil_r. Qed.

Lemma wrote_refused data w : wk_failed w = true -> wrote data w w.
Proof.
  intros Hf. split; auto; [exists []; apply same_trail|]. exists []. split_and!; [by rewrite app_nil_r|apply prefix_nil| |done].
  intros Hf'. congruence.
Qed.

Lemma wrote_app a b w w1 w2 : wrote a w w1 -> wrote b w1 w2 -> wrote (a ++ b) w w2.
Proof.
  intros [(m1 & A1) (o1 & A2 & A3 & A4 & A5) A6 A7 A8 A9 A10] [(m2 & B1) (o2 & B2 & B3 & B4 & B5) B6 B7 B8 B9 B10].
  split; [| |auto|congruence|congruence|lia|congruence].
  - exists (m1 ++ m2). rewrite B1, A1. simpl. by rewrite app_assoc.
  - destruct (wk_failed w1) eqn:Ef1.
    + exists o1. rewrite (B5 eq_refl), app_nil_r in B2. split_and!; [congruence|by apply prefix_app_r| |auto].
      intros Hf. rewrite (B6 eq_refl) in Hf. done.
    + exists (o1 ++ o2). rewrite (A4 eq_refl) in *. split_and!; [by rewrite B2, A2, app_assoc|by apply prefix_app| |].
      * intros Hf. by rewrite (B4 Hf).
      * intros Hf. pose proof (A6 Hf). congruence.
Qed.

(** Reading an input does not touch the worker. *)
Lemma wp_pop {A B} (get : io_world -> list A) put last (k : A -> M worker_world B) Q w :
  (get (wk_io w) = [] -> wp (k last) Q w) ->
  (forall x rest, get (wk_io w) = x :: rest -> wp (k x) Q (w <| wk_io := put rest (wk_io w) |>)) ->
  wp (pop get put last ≫= k) Q w.
Proof. intros H1 H2. unfold wp, mbind, M_bind, pop in *. destruct (get (wk_io w)) as [|x rest]; [by apply H1|by apply H2]. Qed.

Lemma wp_reading {B} (k : Z -> M worker_world B) Q w :
  (io_clocks (wk_io w) = [] -> wp (k 0) Q w) ->
  (forall reading rest, io_clocks (wk_io w) = reading :: rest ->
     wp (k (monotonic_or_zero reading)) Q (w <| wk_io := (wk_io w) <| io_clocks := rest |> |>)) ->
  wp (monotonic_milliseconds ≫= k) Q w.
Proof.
  intros H1 H2. unfold monotonic_milliseconds. unfold wp, mbind, M_bind, pop, mret, M_ret in *.
  destruct (io_clocks (wk_io w)) as [|x rest] eqn:Ec; [by apply H1|by apply H2].
Qed.

(** A clock reading: a 64-bit value, and one reading less; with none left, zero. *)
Lemma wp_clock {B} (k : Z -> M worker_world B) Q w :
  (io_clocks (wk_io w) = [] -> wp (k 0) Q w) ->
  (forall now io, u64 now -> S (length (io_clocks io)) = clocks_left w -> io_writes io = io_writes (wk_io w) ->
     io_reads io = io_reads (wk_io w) -> io_stops io = io_stops (wk_io w) -> io_handshakes io = io_handshakes (wk_io w) ->
     io_shutdowns io = io_shutdowns (wk_io w) -> wp (k now) Q (w <| wk_io := io |>)) ->
  wp (monotonic_milliseconds ≫= k) Q w.
Proof.
  intros H1 H2. apply wp_reading; [done|]. intros reading rest Ec. apply H2; try done; [apply monotonic_u64|].
  unfold clocks_left. by rewrite Ec.
Qed.

Lemma wrote_io data w io w' :
  (length (io_clocks io) <= clocks_left w)%nat -> io_reads io = io_reads (wk_io w) -> wrote data (w <| wk_io := io |>) w' ->
  wrote data w w'.
Proof. intros Hc Hr []. simpl in *. rewrite Hr in *. split; try done. unfold clocks_left in *. simpl in *. lia. Qed.

Lemma write_again_spec transport o started w :
  wp (write_again transport o started) (fun _ w' => exists io, w' = w <| wk_io := io |> /\ io_writes io = io_writes (wk_io w) /\
    io_reads io = io_reads (wk_io w) /\ (length (io_clocks io) <= clocks_left w)%nat) w.
Proof.
  assert (exists io, w = w <| wk_io := io |> /\ io_writes io = io_writes (wk_io w) /\ io_reads io = io_reads (wk_io w) /\ (length (io_clocks io) <= clocks_left w)%nat) as Hid.
  { exists (wk_io w). split; [by destruct w|done]. }
  unfold write_again. generalize (match transport with CONNECTION_TRANSPORT_TELNET_TLS => retryable_socket_error (wr_ssl_error o) (wr_errno o)
    | _ => (wr_count o <? 0) && retryable_errno (wr_errno o) end). intros b. destruct b; [|by apply wp_ret].
  apply wp_clock; [intros _; by apply wp_ret|]. intros now io _ Hl Hw Hr _ _ _. apply wp_ret. exists io. split_and!; [done|done|done|lia].
Qed.

Lemma write_loop_wrote fuel transport has_ssl peer started data w :
  (length (io_writes (wk_io w)) < fuel)%nat ->
  wk_failed w = false -> wp (connection_write_loop fuel transport has_ssl peer started data) (fun _ w' => wrote data w w') w.
Proof.
  revert data w. induction fuel as [|fuel IH]; intros data w Hfuel Hf; [lia|].
  destruct data as [|x data]; [apply wp_ret, wrote_nil|]. remember (x :: data) as l eqn:El.
  assert (connection_write_loop (S fuel) transport has_ssl peer started l =
    if bool_decide (transport = CONNECTION_TRANSPORT_TELNET_TLS) && negb has_ssl then modify (fun w => w <| wk_failed := true |>)
    else o ← pop io_writes (fun l i => i <| io_writes := l |>) (mk_write (Zlen l) 0 0);
      if wr_count o >? 0 then
        socket_take (take (Z.to_nat (Z.min (wr_count o) (Zlen l))) l) ;;
        connection_write_loop fuel transport has_ssl peer started (drop (Z.to_nat (Z.min (wr_count o) (Zlen l))) l)
      else again ← write_again transport o started;
        if (again : bool) then connection_write_loop fuel transport has_ssl peer started l
        else modify (fun w => w <| wk_failed := true |>) ;;
             audit_event (txt "transport_write_failure") peer (transport_label transport)) as -> by (rewrite El; reflexivity).
  assert (0 < Zlen l) as Hl by (rewrite El; simpl; lia). clear El.
  apply wp_if; intros _.
  { apply wp_modify. split; try done; [exists []; apply same_trail|]. exists []. split_and!; [by rewrite app_nil_r|apply prefix_nil|done|done]. }
  assert (forall n v, 0 < n <= Zlen l -> (length (io_writes (wk_io v)) < S fuel)%nat -> wk_failed v = false -> clocks_left v = clocks_left w ->
    (length (io_writes (wk_io v)) < fuel \/ drop (Z.to_nat n) l = [])%nat ->
    wp (socket_take (take (Z.to_nat n) l) ;; connection_write_loop fuel transport has_ssl peer started (drop (Z.to_nat n) l))
      (fun _ w' => wrote l v w') v) as Htake.
  { intros n v Hn Hv Hfv Hcv Hor. apply wp_bind, wp_modify.
    assert (wrote (take (Z.to_nat n) l) v (v <| wk_socket := wk_socket v ++ take (Z.to_nat n) l |>)) as H1.
    { split; try done; [exists []; apply same_trail|]. exists (take (Z.to_nat n) l). split_and!; try done. intros ?. simpl in *. congruence. }
    pose proof (take_drop (Z.to_nat n) l) as Htd. destruct (decide (drop (Z.to_nat n) l = [])) as [Hd|Hd].
    - rewrite Hd in Htd |- *. rewrite app_nil_r in Htd. destruct fuel; apply wp_ret; exact (eq_ind _ (fun d => wrote d v _) H1 _ Htd).
    - destruct Hor as [Hlt|]; [|done]. eapply wp_mono; [by apply IH|]. intros [] w' H2.
      exact (eq_ind _ (fun d => wrote d v w') (wrote_app _ _ _ _ _ H1 H2) _ Htd). }
  apply wp_pop.
  - intros Ew. simpl. destruct (Z.gtb_spec (Zlen l) 0); [|lia]. apply Htake; [lia|done|done|done|right].
    rewrite Z.min_id, Nat2Z.id. by rewrite drop_all.
  - intros o rest Ew. set (v := w <| wk_io := _ |>). assert (length (io_writes (wk_io v)) < fuel)%nat as Hv.
    { subst v. simpl. rewrite Ew in Hfuel. simpl in Hfuel. lia. }
    assert (forall w', wrote l v w' -> wrote l w w') as Hvw by (intros w'; by apply wrote_io).
    apply wp_if; intros Ho; breflect.
    + eapply wp_mono; [apply Htake; [lia|lia|done|done|by left]|]. intros [] w' H. by apply Hvw.
    + apply wp_bind. eapply wp_mono; [apply write_again_spec|]. intros again w1 (io & -> & Eio & Er & Hio). destruct again.
      * eapply wp_mono; [apply IH; [simpl; rewrite Eio; done|done]|]. intros [] w' H. apply Hvw. by eapply wrote_io.
      * apply wp_bind, wp_modify, wp_modify. split; try done; [by eexists|].
        exists []. split_and!; [simpl; by rewrite app_nil_r|apply prefix_nil|done|done].
Qed.

Lemma connection_write_wrote transport has_ssl peer data w :
  wp (connection_write transport has_ssl peer data) (fun _ w' => wrote data w w') w.
Proof.
  unfold connection_write. apply wp_bind, wp_gets. apply wp_if; intros Hf; [by apply wp_ret, wrote_refused|].
  apply wp_clock.
  - intros _. apply wp_bind, wp_gets. apply write_loop_wrote; [lia|done].
  - intros now io _ Hc Hw Hr _ _ _. apply wp_bind, wp_gets. eapply wp_mono; [apply write_loop_wrote; [lia|done]|].
    intros [] w' H. eapply wrote_io; [|done|exact H]. lia.
Qed.
End writer.

(** * The worker *)

Section worker.
Context {E : Environment} {PL : PwhashLaws env_pwhash} {ML : MkstempLaws env_mkstemp}.

(** Everything the session wrote was passed on: the socket has it all, followed
    by [note], or a prefix of that once a write has failed. *)
Record relayed (note : list Z) (w : worker_world) : Prop := mk_relayed {
  rl_ok : world_ok (wk_world w);
  rl_flushed : wk_flushed w = length (wire (wk_world w));
  rl_socket : wk_socket w `prefix_of` sent (wk_world w) ++ note;
  rl_whole : wk_failed w = false -> wk_socket w = sent (wk_world w) ++ note
}.

(** The peer sends bytes. *)
Definition reads_ok (w : worker_world) : Prop :=
  Forall (fun o => match o with ReadBytes bytes => Forall is_byte bytes | _ => True end) (io_reads (wk_io w)).

(** What stays or grows in the course of a worker. *)
Record keeps (w w' : worker_world) : Prop := mk_keeps {
  kp_calls : wk_calls w' = wk_calls w;
  kp_trail : trail (wk_world w) `prefix_of` trail (wk_world w');
  kp_failed : wk_failed w = true -> wk_failed w' = true;
  kp_clocks : (clocks_left w' <= clocks_left w)%nat;
  kp_reads : reads_ok w -> reads_ok w';
  kp_app : hook_calls application (app_view (wk_world w)) (app_view (wk_world w'))
}.

Lemma keeps_refl w : keeps w w.
Proof. by split. Qed.

Lemma keeps_trans w0 w1 w2 : keeps w0 w1 -> keeps w1 w2 -> keeps w0 w2.
Proof. intros [] []. split; [congruence|by etrans|auto|lia|auto|by etrans]. Qed.

Lemma keeps_io w io : (length (io_clocks io) <= clocks_left w)%nat -> io_reads io = io_reads (wk_io w) -> keeps w (w <| wk_io := io |>).
Proof. intros ? Hr. split; try done. unfold reads_ok. simpl. by rewrite Hr. Qed.

Lemma relayed_io note w io : relayed note w -> relayed note (w <| wk_io := io |>).
Proof. intros []. by split. Qed.

Lemma world_ok_trail t tr : world_ok t -> world_ok (t <| trail := tr |>).
Proof. intros []. by split. Qed.

Lemma wrote_keeps data w w' : wrote data w w' -> keeps w w'.
Proof. intros [(m & Em) ? ? ? ? ? Hr]. split; auto; [rewrite Em; by eexists|unfold reads_ok; by rewrite Hr|by rewrite Em]. Qed.

Lemma wrote_relayed note w w' : relayed [] w -> wrote note w w' -> relayed note w'.
Proof.
  intros [R1 R2 R3 R4] [(m & Em) (out & O1 & O2 & O3 & O4) W3 W4 W5 W6 W7]. rewrite app_nil_r in *.
  split; rewrite ?Em; simpl.
  - by apply world_ok_trail.
  - congruence.
  - change (sent ((wk_world w) <| trail := trail (wk_world w) ++ m |>)) with (sent (wk_world w)). rewrite O1.
    destruct (wk_failed w) eqn:Ef; [rewrite (O4 eq_refl), app_nil_r; by apply prefix_app_r|]. rewrite (R4 eq_refl). by apply prefix_app.
  - intros Hf. change (sent ((wk_world w) <| trail := trail (wk_world w) ++ m |>)) with (sent (wk_world w)).
    rewrite O1, (O3 Hf). destruct (wk_failed w) eqn:Ef; [rewrite (W3 eq_refl) in Hf; done|]. by rewrite (R4 eq_refl).
Qed.

Lemma audit_relayed note event peer detail w :
  relayed note w -> wp (audit_event event peer detail) (fun _ w' => relayed note w' /\ keeps w w') w.
Proof.
  intros []. apply wp_modify. split; [split; try done; by apply world_ok_trail|]. split; try done. by eexists.
Qed.

Lemma writes_relayed transport has_ssl peer calls w :
  wp (for_each calls (connection_write transport has_ssl peer)) (fun _ w' => wrote (concat calls) w w') w.
Proof.
  revert w. induction calls as [|c calls IH]; intros w; cbn [for_each concat]; [apply wp_ret, wrote_nil|].
  apply wp_bind. eapply wp_mono; [apply connection_write_wrote|]. intros [] w1 H1. eapply wp_mono; [apply IH|].
  intros [] w2 H2. by eapply wrote_app.
Qed.

(** A call into the session, and what it wrote passed on. *)
Lemma session_relayed {A B} transport has_ssl peer (m : M world A) (P : A -> telnet_session -> Prop) (k : A -> M worker_world B) Q w :
  relayed [] w ->
  wp m (fun r t => world_ok t /\ evolves (wk_world w) t /\ P r (session t)) (wk_world w) ->
  (forall r w', relayed [] w' -> keeps w w' -> P r (session (wk_world w')) -> wp (k r) Q w') ->
  wp (r ← in_session m; flush_session transport has_ssl peer ;; k r) Q w.
Proof.
  intros [R1 R2 R3 R4] Hm Hk. destruct (wp_run _ _ _ Hm) as (r & t & Em & Ht & [Ew Et Ec Eapp] & HP).
  apply wp_bind. unfold in_session. apply wp_zoom. unfold wp at 1. rewrite Em.
  unfold flush_session. apply wp_bind, wp_bind, wp_gets, wp_bind, wp_modify. simpl.
  destruct Ew as [new Enew]. rewrite Enew, R2, drop_app_length.
  match goal with |- wp _ _ ?v => set (w1 := v) end.
  eapply wp_mono; [apply writes_relayed|]. intros [] w2 Hw2.
  assert (keeps w w1) as K1 by (split; try done).
  pose proof (wrote_keeps _ _ _ Hw2) as K2.
  destruct Hw2 as [(m2 & Em2) (out & O1 & O2 & O3 & O4) W3 W4 W5 W6 W7].
  apply Hk; [|by eapply keeps_trans|by rewrite Em2].
  assert (sent (wk_world w2) = sent (wk_world w) ++ concat new) as Es.
  { rewrite Em2. unfold sent. simpl. by rewrite Enew, concat_app. }
  rewrite app_nil_r in *. split; rewrite ?app_nil_r.
  - rewrite Em2. by apply world_ok_trail.
  - rewrite W4, Em2. simpl. by rewrite Enew.
  - rewrite Es, O1. simpl. destruct (wk_failed w) eqn:Ef; [rewrite (O4 Ef), app_nil_r; by apply prefix_app_r|].
    rewrite (R4 eq_refl). by apply prefix_app.
  - intros Hf. rewrite Es, O1, (O3 Hf). simpl. destruct (wk_failed w) eqn:Ef; [rewrite (W3 Ef) in Hf; done|]. by rewrite (R4 eq_refl).
Qed.

(** ** One turn *)

(** What the worker may add of its own at the end. *)
Definition farewell (note : list Z) : Prop :=
  note = [] \/ note = notice "Maximum session time reached." \/ note = notice "Login timed out." \/ note = notice "Idle timeout.".

(** How a turn that began in [w] ends. *)
Definition turned (w : worker_world) (t : turn) (w' : worker_world) : Prop :=
  keeps w w' /\
  match t with
  | Continue _ => relayed [] w'
  | Leave _ => exists note, farewell note /\ relayed note w'
  end.

Lemma turned_keeps w w1 t w' : keeps w w1 -> turned w1 t w' -> turned w t w'.
Proof.
  intros K [K1 H]. split; [by eapply keeps_trans|done].
Qed.

Lemma turned_leave w fatal note event peer detail :
  relayed note w -> farewell note -> wp (audit_event event peer detail ;; mret (Leave fatal)) (turned w) w.
Proof.
  intros Hr Hf. apply wp_bind. eapply wp_mono; [by apply audit_relayed|]. intros [] w' [H1 H2]. apply wp_ret.
  split; [done|]. by exists note.
Qed.

Lemma turned_farewell transport has_ssl w note event peer detail :
  relayed [] w -> farewell note ->
  wp (connection_write transport has_ssl peer note ;; audit_event event peer detail ;; mret (Leave false)) (turned w) w.
Proof.
  intros Hr Hf. apply wp_bind. eapply wp_mono; [apply connection_write_wrote|]. intros [] w1 H1.
  eapply wp_mono; [apply (turned_leave w1 false note); [by eapply wrote_relayed|done]|].
  intros t w' H. eapply turned_keeps; [by eapply wrote_keeps|done].
Qed.

Lemma take_bytes n (l : list Z) : Forall is_byte l -> Forall is_byte (take n l).
Proof. apply Forall_take. Qed.

Lemma turned_ret w w' t : relayed [] w' -> keeps w w' -> wp (mret t) (turned w) w'.
Proof. intros Hr Hk. apply wp_ret. split; [done|]. destruct t; [done|]. exists []. split; [by left|done]. Qed.

Lemma turned_audit w w' fatal event peer detail :
  relayed [] w' -> keeps w w' -> wp (audit_event event peer detail ;; mret (Leave fatal)) (turned w) w'.
Proof.
  intros Hr Hk. eapply wp_mono; [apply (turned_leave w' fatal []); [done|by left]|]. intros t v H. by eapply turned_keeps.
Qed.

(** Input is handed to the session at the time it arrived. *)
Lemma feed_turned transport has_ssl peer bytes w w0 :
  relayed [] w -> keeps w0 w -> Forall is_byte bytes ->
  wp (now ← monotonic_milliseconds;
      r ← in_session (telnet_session_feed_at (take (Z.to_nat READ_BUFFER_SIZE) bytes) now);
      flush_session transport has_ssl peer ;;
      mret (if negb (r =? 0) then Leave false else Continue now)) (turned w0) w.
Proof.
  intros Hr Hk Hb.
  assert (forall now v, u64 now -> relayed [] v -> keeps w0 v ->
    wp (r ← in_session (telnet_session_feed_at (take (Z.to_nat READ_BUFFER_SIZE) bytes) now);
        flush_session transport has_ssl peer ;;
        mret (if negb (r =? 0) then Leave false else Continue now)) (turned w0) v) as Hfeed.
  { intros now v Hnow Hv Hkv. apply (session_relayed _ _ _ _ (fun _ _ => True)); [done| |].
    - eapply wp_mono; [apply feed_ok; [apply Hv|by apply take_bytes|done]|]. intros r t (H1 & H2 & _). done.
    - intros r v' Hv' Hk' _. apply turned_ret; [done|by eapply keeps_trans]. }
  apply wp_clock; [intros _; by apply Hfeed|]. intros now io Hnow Hl _ Hreads _ _ _.
  apply Hfeed; [done|by apply relayed_io|]. eapply keeps_trans; [exact Hk|]. apply keeps_io; [lia|done].
Qed.

Lemma read_turn_turned transport has_ssl peer last w :
  relayed [] w -> reads_ok w -> wp (read_turn transport has_ssl peer last) (turned w) w.
Proof.
  intros Hr Hreads. unfold read_turn.
  assert (forall outcome v, relayed [] v -> keeps w v -> (match outcome with ReadBytes bytes => Forall is_byte bytes | _ => True end) ->
    wp (after_read transport has_ssl peer last outcome) (turned w) v) as Hcases.
  { intros outcome v Hv Hk Hb. unfold after_read. destruct outcome as [bytes|ssl_error errno], transport; try destruct bytes;
      repeat case_test; first [by apply turned_audit | by apply turned_ret | by apply feed_turned]. }
  apply wp_pop.
  - intros _. by apply Hcases; [|apply keeps_refl|].
  - intros o rest Eo. unfold reads_ok in Hreads. rewrite Eo in Hreads. inversion Hreads as [|? ? Ho Hrest]; subst.
    apply Hcases; [by apply relayed_io| |done]. by split.
Qed.

(** A turn that is over. *)
Lemma turned_over (P : Prop) (m : M worker_world turn) w :
  wp m (turned w) w -> wp m (fun t _ => exists f, t = Leave f) w -> wp m (fun t w' => turned w t w' /\ (forall l, t = Continue l -> P)) w.
Proof.
  intros H1 H2. eapply wp_mono; [exact (wp_and _ _ _ _ H1 H2)|]. intros t w' [H [f ->]]. split; [done|]. by intros l ?.
Qed.

Lemma leaves {A} (m : M worker_world A) fatal w :
  wp m (fun _ _ => True) w -> wp (m ;; mret (Leave fatal)) (fun t _ => exists f, t = Leave f) w.
Proof. intros H. apply wp_bind. eapply wp_mono; [exact H|]. intros ? ? _. apply wp_ret. by exists fatal. Qed.

Lemma leaves_farewell transport has_ssl peer note event detail w :
  wp (connection_write transport has_ssl peer note ;; audit_event event peer detail ;; mret (Leave false))
    (fun t _ => exists f, t = Leave f) w.
Proof.
  apply wp_bind. eapply wp_mono; [apply connection_write_wrote|]. intros [] w1 _. by apply leaves, wp_modify.
Qed.

(** The deadlines a turn is within that goes on. *)
Definition in_time (connected_at last_activity now : Z) (s : telnet_session) : Prop :=
  now <> 0 /\ connected_at <> 0 /\ wrap64 (now - connected_at) < SESSION_MAX_MS /\
  if telnet_session_is_in_game s then wrap64 (now - last_activity) < IDLE_TIMEOUT_MS
  else wrap64 (now - connected_at) < LOGIN_TIMEOUT_MS.

Lemma checked_turn_turned transport has_ssl peer connected_at last now stopping w :
  relayed [] w -> reads_ok w ->
  wp (checked_turn transport has_ssl peer connected_at last now stopping)
    (fun t w' => turned w t w' /\ (forall l, t = Continue l -> stopping = false /\ in_time connected_at last now (session (wk_world w)))) w.
Proof.
  intros Hr Hreads. pose proof (keeps_refl w) as Hk. unfold checked_turn.
  apply wp_if; intros Hs.
  { apply turned_over; [by apply turned_audit|]. by apply leaves, wp_modify. }
  apply wp_if; intros Hz; [apply turned_over; [by apply turned_ret|]; apply wp_ret; eauto|].
  apply wp_if; intros Hmax.
  { apply turned_over; [|apply leaves_farewell]. apply turned_farewell; [done|]. unfold farewell. auto. }
  apply wp_bind, wp_gets. apply wp_if; intros Hlogin.
  { apply turned_over; [|apply leaves_farewell]. apply turned_farewell; [done|]. unfold farewell. auto. }
  apply wp_if; intros Hidle.
  { apply turned_over; [|apply leaves_farewell]. apply turned_farewell; [done|]. unfold farewell. auto. }
  assert (in_time connected_at last now (session (wk_world w))) as Ht.
  { unfold in_time. apply orb_false_elim in Hz as [? ?]. breflect;
      match goal with H : telnet_session_is_in_game _ = _ |- _ => rewrite H in * | _ => idtac end; split_and!; try done;
      destruct (telnet_session_is_in_game (session (wk_world w))); done || congruence. }
  eapply wp_mono; [|intros t w' H; split; [exact H|done]].
  apply (session_relayed _ _ _ _ (fun _ _ => True)); [done| |].
  - eapply wp_mono; [apply poll_ok, Hr|]. intros r t (H1 & H2 & _). done.
  - intros r w1 H1 Hk1 _. apply wp_if; intros _; [by apply turned_ret|].
    eapply wp_mono; [apply read_turn_turned; [done|by apply Hk1]|]. intros t w' H. by eapply turned_keeps.
Qed.

(** [n] readings are left before the turn. *)
Lemma worker_turn_turned transport has_ssl peer connected_at last w :
  relayed [] w -> reads_ok w ->
  wp (worker_turn transport has_ssl peer connected_at last) (fun t w' => turned w t w' /\
    (forall l, t = Continue l -> (clocks_left w' < clocks_left w)%nat /\
       exists reading rest, io_clocks (wk_io w) = reading :: rest /\ head (io_stops (wk_io w)) <> Some true /\
         in_time connected_at last (monotonic_or_zero reading) (session (wk_world w)))) w.
Proof.
  intros Hr Hreads. unfold worker_turn.
  assert (forall io now, (length (io_clocks io) <= clocks_left w)%nat -> io_reads io = io_reads (wk_io w) -> io_stops io = io_stops (wk_io w) ->
    wp (stopping ← runtime_is_stopping; checked_turn transport has_ssl peer connected_at last now stopping)
      (fun t w' => turned (w <| wk_io := io |>) t w' /\ (forall l, t = Continue l -> head (io_stops (wk_io w)) <> Some true /\
         in_time connected_at last now (session (wk_world w)))) (w <| wk_io := io |>)) as Hgo.
  { intros io now Hc Ereads Estops. unfold runtime_is_stopping. apply wp_pop.
    - intros Es. eapply wp_mono; [apply checked_turn_turned; [by apply relayed_io|unfold reads_ok; simpl; by rewrite Ereads]|].
      intros t w' [H1 H2]. split; [done|]. intros l El. destruct (H2 l El) as [_ H3]. split; [|exact H3].
      simpl in Es. rewrite <- Estops, Es. done.
    - intros b rest Es. simpl in Es. eapply wp_mono; [apply checked_turn_turned; [by apply relayed_io, relayed_io|unfold reads_ok; simpl; by rewrite Ereads]|].
      intros t w' [H1 H2]. split; [eapply turned_keeps; [|exact H1]; by apply keeps_io|]. intros l El. destruct (H2 l El) as [H3 H4]. split; [|exact H4].
      rewrite <- Estops, Es, H3. done. }
  apply wp_reading; [intros Ec|intros reading rest Ec].
  - specialize (Hgo (wk_io w) 0 ltac:(unfold clocks_left; lia) eq_refl eq_refl). replace (w <| wk_io := wk_io w |>) with w in Hgo by by destruct w.
    eapply wp_mono; [exact Hgo|]. intros t w' [H1 H2]. split; [done|]. intros l El. destruct (H2 l El) as [_ [? _]]. done.
  - specialize (Hgo ((wk_io w) <| io_clocks := rest |>) (monotonic_or_zero reading)). unfold clocks_left in Hgo. rewrite Ec in Hgo.
    specialize (Hgo ltac:(simpl; lia) eq_refl eq_refl). eapply wp_mono; [exact Hgo|]. intros t w' [H1 H2]. split.
    + eapply turned_keeps; [|exact H1]. apply keeps_io; [unfold clocks_left; rewrite Ec; simpl; lia|done].
    + intros l El. destruct (H2 l El) as [H3 H4]. split; [|by exists reading, rest].
      destruct H1 as [[_ _ _ Hc _ _] _]. unfold clocks_left in *. rewrite Ec. simpl in *. lia.
Qed.

(** ** The loop and the session *)

Lemma worker_loop_ends fuel transport has_ssl peer connected_at last w :
  relayed [] w -> reads_ok w -> (clocks_left w < fuel)%nat ->
  wp (worker_loop fuel transport has_ssl peer connected_at last)
    (fun _ w' => keeps w w' /\ exists note, farewell note /\ relayed note w') w.
Proof.
  revert last w. induction fuel as [|fuel IH]; intros last w Hr Hreads Hf; [lia|]. cbn [worker_loop].
  apply wp_bind, wp_gets, wp_bind, wp_gets. apply wp_if; intros _.
  { apply wp_ret. split; [apply keeps_refl|]. exists []. split; [by left|done]. }
  apply wp_bind. eapply wp_mono; [by apply worker_turn_turned|]. intros t w1 [[K1 H1] H2]. destruct t as [last'|fatal]; [|by apply wp_ret].
  eapply wp_mono; [apply IH; [done|by apply K1|]|].
  - destruct (H2 _ eq_refl). lia.
  - intros fatal w2 [K2 H]. split; [by eapply keeps_trans|done].
Qed.

Lemma fresh_session_ok (t : world) peer secure s :
  wire t = [] -> policy_ok (policy t) -> telnet_session_create peer secure = Some s -> world_ok (t <| session := s |>).
Proof.
  intros Hw Hp Hs. destruct (new_world_ok peer secure s (policy t) (store t) (app_state t) Hs Hp). split; try done.
  unfold sent. simpl. by rewrite Hw.
Qed.

Lemma destroy_frame (t : world) :
  wp telnet_session_destroy (fun _ t' => wire t' = wire t /\ policy t' = policy t /\ trail t' = trail t /\
    app_view t' = (match hook_close application with Some _ => None | None => application_session (session t) end,
      match application_session (session t), hook_close application with
      | Some handle, Some close => close (app_state t) handle | _, _ => app_state t end)) t.
Proof.
  unfold telnet_session_destroy, clear_pending_password, upd, app_view. apply wp_bind, wp_gets.
  destruct (application_session (session t)) eqn:Ea, (hook_close application) eqn:Eh; repeat wp_step; simpl; rewrite ?Ea; done.
Qed.

(** The end of a worker: what reached the socket is a prefix of the session's
    well-framed Telnet stream and a notice. *)
Record finished (w : worker_world) : Prop := mk_finished {
  fi_policy : policy_ok (policy (wk_world w));
  fi_framed : framed (sent (wk_world w));
  fi_socket : exists note, farewell note /\ wk_socket w `prefix_of` sent (wk_world w) ++ note /\
              (wk_failed w = false -> wk_socket w = sent (wk_world w) ++ note)
}.

Record fresh (w : worker_world) : Prop := mk_fresh {
  fr_wire : wire (wk_world w) = [];
  fr_socket : wk_socket w = [];
  fr_failed : wk_failed w = false;
  fr_policy : policy_ok (policy (wk_world w));
  fr_reads : reads_ok w
}.

Lemma fresh_finished w : fresh w -> finished w.
Proof.
  intros []. split; [done|unfold sent; by rewrite fr_wire0|]. exists []. split; [by left|].
  unfold sent. rewrite fr_wire0, fr_socket0. done.
Qed.

(** The steps of a worker that only touch the trail and the inputs. *)
Definition aside (w w' : worker_world) : Prop :=
  exists more io, w' = w <| wk_world := (wk_world w) <| trail := trail (wk_world w) ++ more |> |> <| wk_io := io |> /\
    io_reads io = io_reads (wk_io w).

Lemma aside_refl w : aside w w.
Proof. exists [], (wk_io w). split; [|done]. rewrite app_nil_r. by destruct w as [[]]. Qed.

Lemma aside_trans w0 w1 w2 : aside w0 w1 -> aside w1 w2 -> aside w0 w2.
Proof. intros (m1 & i1 & -> & E1) (m2 & i2 & -> & E2). exists (m1 ++ m2), i2. simpl in *. rewrite app_assoc. split; [done|congruence]. Qed.

Lemma aside_io w io : io_reads io = io_reads (wk_io w) -> aside w (w <| wk_io := io |>).
Proof. intros H. exists [], io. split; [|done]. simpl. rewrite app_nil_r. by destruct w as [[]]. Qed.

Lemma aside_audit event peer detail w : wp (audit_event event peer detail) (fun _ w' => aside w w') w.
Proof. apply wp_modify. exists [mk_audit event peer detail], (wk_io w). split; [|done]. by destruct w as [[]]. Qed.

Lemma aside_fresh w w' : fresh w -> aside w w' -> fresh w'.
Proof. intros [] (more & io & -> & Er). split; try done. unfold reads_ok. simpl. by rewrite Er. Qed.

Lemma aside_answer {A} (a : A) (P : A -> Prop) event peer detail w0 w :
  aside w0 w -> P a -> wp (audit_event event peer detail ;; mret a) (fun r w' => P r /\ aside w0 w') w.
Proof.
  intros H Ha. apply wp_bind. eapply wp_mono; [apply aside_audit|]. intros [] w' H'. apply wp_ret. split; [done|by eapply aside_trans].
Qed.

(** ** TLS *)

Lemma stop_aside w :
  wp runtime_is_stopping (fun _ w' => aside w w' /\ io_handshakes (wk_io w') = io_handshakes (wk_io w)) w.
Proof.
  unfold runtime_is_stopping, wp, pop. destruct (io_stops (wk_io w)); [split; [apply aside_refl|done]|].
  split; [by apply aside_io|done].
Qed.

Lemma clock_aside w :
  wp monotonic_milliseconds (fun _ w' => aside w w' /\ io_handshakes (wk_io w') = io_handshakes (wk_io w) /\
    io_shutdowns (wk_io w') = io_shutdowns (wk_io w)) w.
Proof.
  unfold monotonic_milliseconds, wp, mbind, M_bind, pop, mret, M_ret.
  destruct (io_clocks (wk_io w)); [split_and!; [apply aside_refl|done..]|]. split_and!; [by apply aside_io|done..].
Qed.

(** The handshake outcome used up; after the last one the peer is gone. *)
Lemma handshake_aside w :
  wp (pop io_handshakes (fun l i => i <| io_handshakes := l |>) (mk_tls 0 0 0)) (fun o w' => aside w w' /\
    (S (length (io_handshakes (wk_io w'))) = length (io_handshakes (wk_io w)) \/ o = mk_tls 0 0 0)) w.
Proof.
  unfold wp, pop. destruct (io_handshakes (wk_io w)) as [|o rest]; [split; [apply aside_refl|by right]|].
  split; [by apply aside_io|by left].
Qed.

Lemma shutdown_aside w :
  wp (pop io_shutdowns (fun l i => i <| io_shutdowns := l |>) (mk_tls 1 0 0)) (fun o w' => aside w w' /\
    (S (length (io_shutdowns (wk_io w'))) = length (io_shutdowns (wk_io w)) \/ o = mk_tls 1 0 0)) w.
Proof.
  unfold wp, pop. destruct (io_shutdowns (wk_io w)) as [|o rest]; [split; [apply aside_refl|by right]|].
  split; [by apply aside_io|by left].
Qed.

Lemma accept_loop_ends fuel peer started w :
  (length (io_handshakes (wk_io w)) < fuel)%nat ->
  wp (accept_loop fuel peer started) (fun r w' => (r = 0 \/ r = -1) /\ aside w w') w.
Proof.
  revert w. induction fuel as [|fuel IH]; intros w Hf; [lia|]. cbn [accept_loop].
  apply wp_bind. eapply wp_mono; [apply stop_aside|]. intros stopping w1 [A1 E1]. apply wp_if; intros _; [apply wp_ret; auto|].
  apply wp_bind. eapply wp_mono; [apply handshake_aside|]. intros o w2 [A2 E2]. pose proof (aside_trans _ _ _ A1 A2) as A02.
  apply wp_if; intros Hr; [by apply (aside_answer 0 (fun r => r = 0 \/ r = -1)); auto|].
  apply wp_bind. eapply wp_mono; [apply clock_aside|]. intros now w3 (A3 & E3 & _). pose proof (aside_trans _ _ _ A02 A3) as A03.
  apply wp_if; intros _; [by apply (aside_answer (-1) (fun r => r = 0 \/ r = -1)); auto|].
  apply wp_if; intros Hretry; [|by apply (aside_answer (-1) (fun r => r = 0 \/ r = -1)); auto].
  destruct E2 as [E2| ->]; [|done]. eapply wp_mono; [apply IH; rewrite E3; rewrite E1 in E2; lia|]. intros r w4 [H1 H2]. split; [done|by eapply aside_trans].
Qed.

Lemma tls_accept_ends peer w :
  wp (tls_accept_with_deadline peer) (fun r w' => (r = 0 \/ r = -1) /\ aside w w') w.
Proof.
  unfold tls_accept_with_deadline. apply wp_bind. eapply wp_mono; [apply clock_aside|]. intros started w1 (A1 & E1 & _).
  apply wp_bind, wp_gets. eapply wp_mono; [apply accept_loop_ends; lia|]. intros r w2 [H1 H2]. split; [done|by eapply aside_trans].
Qed.

Lemma shutdown_loop_ends fuel timeout started w :
  (length (io_shutdowns (wk_io w)) < fuel)%nat -> wp (shutdown_loop fuel timeout started) (fun _ w' => aside w w') w.
Proof.
  revert w. induction fuel as [|fuel IH]; intros w Hf; [lia|]. cbn [shutdown_loop].
  apply wp_bind. eapply wp_mono; [apply shutdown_aside|]. intros o w1 [A1 E1]. apply wp_if; intros Hr; [by apply wp_ret|].
  apply wp_bind. eapply wp_mono; [apply clock_aside|]. intros now w2 (A2 & _ & E2). pose proof (aside_trans _ _ _ A1 A2) as A02.
  apply wp_if; intros _; [by apply wp_ret|]. destruct E1 as [E1| ->]; [|done].
  assert (wp (shutdown_loop fuel timeout started) (fun _ w' => aside w w') w2) as Hrec.
  { eapply wp_mono; [apply IH; rewrite E2; lia|]. intros [] w3 H. by eapply aside_trans. }
  apply wp_if; intros _; [done|]. apply wp_if; intros _; [done|by apply wp_ret].
Qed.

Lemma tls_shutdown_ends timeout w : wp (tls_shutdown_bounded timeout) (fun _ w' => aside w w') w.
Proof.
  unfold tls_shutdown_bounded. apply wp_bind. eapply wp_mono; [apply clock_aside|]. intros started w1 (A1 & _ & E1).
  apply wp_bind, wp_gets. eapply wp_mono; [apply shutdown_loop_ends; lia|]. intros [] w2 H. by eapply aside_trans.
Qed.

(** ** The whole worker *)

(** From [w] the worker went on to [w'], recording the calls [calls]; the
    application was called in order, and no session of it is left open. *)
Definition advances_to (calls : list worker_call) (w w' : worker_world) : Prop :=
  wk_calls w' = wk_calls w ++ calls /\ trail (wk_world w) `prefix_of` trail (wk_world w') /\
  (hook_close application <> None ->
   hook_calls application (None, app_state (wk_world w)) (None, app_state (wk_world w'))).

Lemma advances_refl w : advances_to [] w w.
Proof. split; [by rewrite app_nil_r|done]. Qed.

Lemma advances_trans a b w w1 w2 : advances_to a w w1 -> advances_to b w1 w2 -> advances_to (a ++ b) w w2.
Proof.
  intros (A1 & A2 & A3) (B1 & B2 & B3). split_and!; [by rewrite B1, A1, app_assoc|by etrans|]. intros Hc. etrans; auto.
Qed.

Lemma aside_advances w w' : aside w w' -> advances_to [] w w'.
Proof. intros (more & io & -> & _). split_and!; simpl; [by rewrite app_nil_r|by eexists|done]. Qed.

Lemma record_advances c w (Q : worker_world -> Prop) :
  Q (w <| wk_calls := wk_calls w ++ [c] |>) ->
  wp (worker_record c) (fun _ w' => advances_to [c] w w' /\ Q w') w.
Proof. intros HQ. by apply wp_modify. Qed.

Lemma aside_finished w w' : finished w -> aside w w' -> finished w'.
Proof. intros [] (more & io & -> & _). by split. Qed.

Lemma finished_calls w calls : finished w -> finished (w <| wk_calls := calls |>).
Proof. intros []. by split. Qed.

Lemma fresh_calls w calls : fresh w -> fresh (w <| wk_calls := calls |>).
Proof. intros []. by split. Qed.

(** A session that was made, served and destroyed. *)
Lemma served_advances w w1 w2 w3 :
  wk_calls w1 = wk_calls w ++ [SessionCreate] -> trail (wk_world w1) = trail (wk_world w) ->
  app_view (wk_world w1) = (None, app_state (wk_world w)) -> keeps w1 w2 ->
  wk_calls w3 = wk_calls w2 ++ [SessionDestroy] -> trail (wk_world w3) = trail (wk_world w2) ->
  app_state (wk_world w3) = match application_session (session (wk_world w2)), hook_close application with
    | Some handle, Some close => close (app_state (wk_world w2)) handle | _, _ => app_state (wk_world w2) end ->
  advances_to [SessionCreate; SessionDestroy] w w3.
Proof.
  intros E1 E2 E3 [K1 K2 _ _ _ K6] E4 E5 E6. split_and!.
  - by rewrite E4, K1, E1, <- app_assoc.
  - by rewrite E5, <- E2.
  - intros Hc. rewrite <- E3, E6. etrans; [exact K6|].
    pose proof (close_calls application (application_session (session (wk_world w2))) (app_state (wk_world w2))) as Hd.
    by destruct (hook_close application).
Qed.

Lemma destroy_finished transport has_ssl peer (fatal : bool) note w :
  relayed note w -> farewell note ->
  wp (in_session telnet_session_destroy ;; flush_session transport has_ssl peer ;; worker_record SessionDestroy ;; mret fatal)
    (fun _ w' => finished w' /\ wk_calls w' = wk_calls w ++ [SessionDestroy] /\ trail (wk_world w') = trail (wk_world w) /\
      app_state (wk_world w') = match application_session (session (wk_world w)), hook_close application with
        | Some handle, Some close => close (app_state (wk_world w)) handle | _, _ => app_state (wk_world w) end) w.
Proof.
  intros [R1 R2 R3 R4] Hf. destruct (wp_run _ _ _ (destroy_frame (wk_world w))) as ([] & t & Et & F1 & F2 & F3 & F4).
  apply wp_bind. unfold in_session. apply wp_zoom. unfold wp at 1. rewrite Et.
  unfold flush_session. apply wp_bind, wp_bind, wp_gets, wp_bind, wp_modify. simpl. rewrite F1, R2, drop_all. cbn [for_each].
  apply wp_ret, wp_bind, wp_modify, wp_ret.
  assert (sent t = sent (wk_world w)) as Es by (unfold sent; by rewrite F1).
  split; [|split_and!; [done|done|by injection F4]]. split; simpl.
  - rewrite F2. apply R1.
  - rewrite Es. apply R1.
  - exists note. rewrite Es. done.
Qed.

Lemma serve_telnet_finishes transport has_ssl peer allocated w :
  fresh w ->
  wp (serve_telnet transport has_ssl peer allocated) (fun _ w' => finished w' /\
    (advances_to [] w w' \/ advances_to [SessionCreate; SessionDestroy] w w')) w.
Proof.
  intros Hw. unfold serve_telnet.
  assert (wp (audit_event (txt "session_allocation_failure") peer (txt "unable to create protocol session") ;; mret false)
    (fun _ w' => finished w' /\ (advances_to [] w w' \/ advances_to [SessionCreate; SessionDestroy] w w')) w) as Hnone.
  { apply wp_bind. eapply wp_mono; [apply aside_audit|]. intros [] w' Ha. apply wp_ret.
    split; [by eapply fresh_finished, aside_fresh|]. left. by apply aside_advances. }
  destruct allocated; [|exact Hnone]. destruct (telnet_session_create _ _) as [s|] eqn:Es; [|exact Hnone]. clear Hnone.
  apply wp_bind, wp_modify, wp_bind, wp_modify. simpl.
  match goal with |- wp _ _ ?v => set (w1 := v) end.
  assert (relayed [] w1) as Hr1.
  { destruct Hw. split; simpl; [by eapply fresh_session_ok|done|rewrite fr_socket0; apply prefix_nil|].
    intros _. unfold sent. simpl. by rewrite fr_wire0, fr_socket0. }
  assert (reads_ok w1) as Hreads by apply Hw.
  apply (session_relayed transport has_ssl peer telnet_session_start (fun _ _ => True)); [done| |].
  { eapply wp_mono; [apply start_ok, Hr1|]. intros [] t (H1 & H2 & _). done. }
  intros [] w2 Hr2 Hk2 _. assert (reads_ok w2) as Hreads2 by by apply Hk2.
  assert (forall connected v, relayed [] v -> reads_ok v -> keeps w1 v ->
    wp (clocks ← gets (fun w => io_clocks (wk_io w));
        fatal ← worker_loop (S (length clocks)) transport has_ssl peer connected connected;
        in_session telnet_session_destroy ;; flush_session transport has_ssl peer ;; worker_record SessionDestroy ;; mret fatal)
      (fun _ w' => finished w' /\ (advances_to [] w w' \/ advances_to [SessionCreate; SessionDestroy] w w')) v) as Hloop.
  { intros connected v Hv Hvr Hva. apply wp_bind, wp_gets, wp_bind.
    eapply wp_mono; [apply worker_loop_ends; [done|done|unfold clocks_left; lia]|]. intros fatal w3 (Hk3 & note & Hn & Hr3).
    eapply wp_mono; [by eapply destroy_finished|]. intros f w4 (H1 & H2 & H3 & H4). split; [done|]. right.
    eapply (served_advances w w1 w3 w4); try done; [|by eapply keeps_trans].
    unfold app_view. simpl. unfold telnet_session_create in Es. destruct (_ >=? _); [done|]. by injection Es as <-. }
  apply wp_clock; [intros _; by apply Hloop|]. intros now io Hnow Hl _ Hreads3 _ _ _. apply Hloop; [by apply relayed_io| |].
  - unfold reads_ok. simpl. by rewrite Hreads3.
  - eapply keeps_trans; [exact Hk2|]. apply keeps_io; [lia|done].
Qed.

Definition session_calls (calls : list worker_call) : Prop := calls = [] \/ calls = [SessionCreate; SessionDestroy].

(** What a worker takes it gives back, in order: the session before the TLS
    object, that before the socket, and the slot last. *)
Definition orderly (transport : connection_transport_kind) (peer : list Z) (ssh : ssh_handover) (calls : list worker_call) : Prop :=
  match transport with
  | CONNECTION_TRANSPORT_SSH =>
      exists s, calls = [SshHandOver (ssh_calls s); SlotRelease] /\
        if config_valid (ssh_config peer ssh) then released (ho_client_fd ssh) s else ssh_calls s = []
  | CONNECTION_TRANSPORT_TELNET => exists a, session_calls a /\ calls = a ++ [SocketClose; SlotRelease]
  | CONNECTION_TRANSPORT_TELNET_TLS =>
      calls = [SocketClose; SlotRelease] \/
      exists a, session_calls a /\ calls = [SslNew] ++ a ++ [SslFree] ++ [SocketClose; SlotRelease]
  end.

(** The last calls of a worker. *)
Lemma release_worker calls w0 w :
  finished w -> advances_to calls w0 w ->
  wp (worker_record SocketClose ;; worker_record SlotRelease)
    (fun _ w' => finished w' /\ advances_to (calls ++ [SocketClose; SlotRelease]) w0 w') w.
Proof.
  intros Hf Ha. apply wp_bind, wp_modify, wp_modify. split; [by apply finished_calls, finished_calls|].
  apply (advances_trans calls _ w0 w); [done|]. split_and!; simpl; [by rewrite <- app_assoc|done|done].
Qed.

(** Under TLS: the handshake, the session, the shutdown. *)
Lemma tls_session peer allocated w :
  fresh w ->
  wp (accepted ← tls_accept_with_deadline peer;
      if negb (accepted =? 0) then mret tt
      else
        fatal ← serve_telnet CONNECTION_TRANSPORT_TELNET_TLS true peer allocated;
        failed ← gets wk_failed;
        when (negb fatal && negb failed) (tls_shutdown_bounded TLS_SHUTDOWN_TIMEOUT_MS))
    (fun _ w' => finished w' /\ exists a, session_calls a /\ advances_to a w w') w.
Proof.
  intros Hw. apply wp_bind. eapply wp_mono; [apply tls_accept_ends|]. intros r w1 [_ A1].
  pose proof (aside_fresh _ _ Hw A1) as Hw1. apply wp_if; intros _.
  { apply wp_ret. split; [by apply fresh_finished|]. exists []. split; [by left|by apply aside_advances]. }
  apply wp_bind. eapply wp_mono; [by apply serve_telnet_finishes|]. intros fatal w2 [F2 H2].
  assert (exists a, session_calls a /\ advances_to a w w2) as (a & Ha & Hadv).
  { destruct H2 as [H2|H2]; [exists []|exists [SessionCreate; SessionDestroy]]; (split; [by constructor|]);
      exact (advances_trans _ _ _ _ _ (aside_advances _ _ A1) H2). }
  apply wp_bind, wp_gets. destruct (negb fatal && negb (wk_failed w2)); cbn [when].
  - eapply wp_mono; [apply tls_shutdown_ends|]. intros [] w3 A3. split; [by eapply aside_finished|]. exists a. split; [done|].
    pose proof (advances_trans _ _ _ _ _ Hadv (aside_advances _ _ A3)) as H. by rewrite app_nil_r in H.
  - apply wp_ret. split; [done|]. by exists a.
Qed.

(** The SSH adapter on the server's objects. *)
Lemma run_ssh_finishes peer ssh w :
  fresh w -> Forall tick_ok (history_ticks (ho_history ssh)) ->
  wp (run_ssh peer ssh) (fun _ w' => finished w' /\ exists s, advances_to [SshHandOver (ssh_calls s)] w w' /\
    if config_valid (ssh_config peer ssh) then released (ho_client_fd ssh) s else ssh_calls s = []) w.
Proof.
  intros Hw Ht. unfold wp, run_ssh. destruct (fresh_finished w Hw) as [Hp Hframed Hsocket].
  destruct (config_valid (ssh_config peer ssh)) eqn:Ec.
  - destruct (wp_run _ _ _ (run_connection_serves (ssh_config peer ssh) (ho_history ssh) (ssh_start peer ssh (wk_world w)) Ec Hp Ht))
      as (r & s & -> & [_ S2 S3 _ S5 S6 _]).
    split; [by split|]. exists s. split; [by split_and!|]. by apply S5.
  - unfold ssh_transport_run_connection. rewrite Ec. simpl. split; [by split|]. by exists (ssh_start peer ssh (wk_world w)).
Qed.

Lemma worker_finishes transport peer lib ssh w :
  fresh w -> Forall tick_ok (history_ticks (ho_history ssh)) ->
  wp (connection_worker transport peer lib ssh)
    (fun _ w' => finished w' /\ exists calls, orderly transport peer ssh calls /\ advances_to calls w w') w.
Proof.
  intros Hw Ht. unfold connection_worker. destruct transport; apply wp_bind.
  - eapply wp_mono; [apply aside_audit|]. intros [] w1 A1. pose proof (aside_fresh _ _ Hw A1) as Hw1.
    apply wp_bind. eapply wp_mono; [by apply serve_telnet_finishes|]. intros fatal w2 [F2 H2].
    assert (exists a, session_calls a /\ advances_to a w w2) as (a & Ha & Hadv).
    { destruct H2 as [H2|H2]; [exists []|exists [SessionCreate; SessionDestroy]]; (split; [by constructor|]);
        exact (advances_trans _ _ _ _ _ (aside_advances _ _ A1) H2). }
    eapply wp_mono; [by apply release_worker|]. intros [] w3 [F3 H3]. split; [done|]. exists (a ++ [SocketClose; SlotRelease]).
    split; [by exists a|done].
  - apply wp_if; intros _.
    { eapply wp_mono; [apply aside_audit|]. intros [] w1 A1. eapply wp_mono; [apply (release_worker [] w)|].
      - by eapply fresh_finished, aside_fresh.
      - by apply aside_advances.
      - intros [] w2 [F2 H2]. split; [done|]. exists [SocketClose; SlotRelease]. split; [by left|done]. }
    apply wp_bind, wp_modify. match goal with |- wp _ _ ?v => set (w1 := v) end.
    assert (fresh w1) as Hw1 by by apply fresh_calls. assert (advances_to [SslNew] w w1) as Hadv1 by done.
    apply wp_bind.
    assert (wp (if negb (ws_set_fd lib) then audit_event (txt "tls_socket_attach_failure") peer (txt "SSL_set_fd failed")
       else
         accepted ← tls_accept_with_deadline peer;
         if negb (accepted =? 0) then mret tt
         else
           fatal ← serve_telnet CONNECTION_TRANSPORT_TELNET_TLS true peer (ws_session lib);
           failed ← gets wk_failed;
           when (negb fatal && negb failed) (tls_shutdown_bounded TLS_SHUTDOWN_TIMEOUT_MS))
      (fun _ w' => finished w' /\ exists a, session_calls a /\ advances_to a w1 w') w1) as Hbody.
    { apply wp_if; intros _; [|by apply tls_session]. eapply wp_mono; [apply aside_audit|]. intros [] w2 A2.
      split; [by eapply fresh_finished, aside_fresh|]. exists []. split; [by left|by apply aside_advances]. }
    eapply wp_mono; [exact Hbody|]. intros [] w2 (F2 & a & Ha & Hadv2). apply wp_modify.
    match goal with |- wp _ _ ?v => set (w3 := v) end.
    eapply wp_mono; [apply (release_worker ([SslNew] ++ a ++ [SslFree]) w w3); [by apply finished_calls|]|].
    { apply (advances_trans [SslNew] (a ++ [SslFree]) w w1 w3 Hadv1). apply (advances_trans a [SslFree] w1 w2 w3 Hadv2). by split. }
    intros [] w4 [F4 H4]. split; [done|]. exists ([SslNew] ++ a ++ [SslFree] ++ [SocketClose; SlotRelease]).
    split; [right; by exists a|]. by rewrite <- !app_assoc in H4.
  - eapply wp_mono; [apply aside_audit|]. intros [] w1 A1. pose proof (aside_fresh _ _ Hw A1) as Hw1.
    apply wp_bind. eapply wp_mono; [by apply run_ssh_finishes|]. intros [] w2 (F2 & s & Hadv & Hs). apply wp_modify.
    split; [by apply finished_calls|]. exists [SshHandOver (ssh_calls s); SlotRelease]. split; [by exists s|].
    apply (advances_trans [] _ w w1); [by apply aside_advances|]. by apply (advances_trans [_] [SlotRelease] w1 w2).
Qed.

(** Where the application cannot be opened, the adapter refuses the
    configuration and the worker leaves its socket open. *)
Lemma ssh_worker_without_application peer lib ssh w :
  hook_open application = None ->
  exists w', connection_worker CONNECTION_TRANSPORT_SSH peer lib ssh w = Some (tt, w') /\
    wk_calls w' = wk_calls w ++ [SshHandOver []; SlotRelease].
Proof.
  intros Ho. assert (config_valid (ssh_config peer ssh) = false) as Hc.
  { unfold config_valid, ssh_config. rewrite Ho. simpl. by rewrite !orb_true_r. }
  eexists. unfold connection_worker, run_ssh, ssh_transport_run_connection. unfold mbind, M_bind at 1, audit_event, modify. rewrite Hc.
  split; [reflexivity|]. simpl. by rewrite <- app_assoc.
Qed.

(** [C10] A connection worker always comes to its end and cleans up.  For every
    transport, every pattern of partial, failed and retried reads and writes,
    every TLS outcome, every clock, every byte the peer sends and every
    application, the worker runs to its end (the clock bounds its loops); it
    releases its slot exactly once and last, closes the socket exactly once,
    and frees the session and the TLS object it made, in that order.  An SSH
    worker runs the adapter on the same policy, store, trail and application,
    which gives back all it took, the socket included, unless it refuses its
    configuration.  What reached the socket is a prefix of the
    session's well-framed Telnet stream followed by at most one of the three
    time-limit notices, and all of it unless a write failed.  The audit trail
    only grew, and the shared policy is well formed. *)
Theorem worker_robust transport peer lib ssh w :
  fresh w -> wk_calls w = [] -> Forall tick_ok (history_ticks (ho_history ssh)) ->
  exists w', connection_worker transport peer lib ssh w = Some (tt, w') /\ finished w' /\ orderly transport peer ssh (wk_calls w') /\
    trail (wk_world w) `prefix_of` trail (wk_world w').
Proof.
  intros Hw Hc Ht. destruct (wp_run _ _ _ (worker_finishes transport peer lib ssh w Hw Ht)) as ([] & w' & E1 & F & calls & Ho & H1 & H2 & _).
  exists w'. rewrite Hc in H1. simpl in H1. rewrite H1. done.
Qed.

(** [C31] The worker keeps its deadlines and notices a server that stops.  A
    turn of the loop goes on to another one only if the server was not
    stopping, the clock worked, the session was within its 12 hours, and
    within two minutes of connecting while nobody is in the game or within 15
    minutes of the last input afterwards.  In particular a turn that sees the
    stop flag, or a time past the limit, is the last one. *)
Theorem worker_deadlines transport has_ssl peer connected_at last_activity w :
  relayed [] w -> reads_ok w ->
  exists t w', worker_turn transport has_ssl peer connected_at last_activity w = Some (t, w') /\
    (forall l, t = Continue l -> exists reading rest, io_clocks (wk_io w) = reading :: rest /\
       head (io_stops (wk_io w)) <> Some true /\
       in_time connected_at last_activity (monotonic_or_zero reading) (session (wk_world w)) /\
       relayed [] w' /\ (clocks_left w' < clocks_left w)%nat) /\
    (forall f, t = Leave f -> exists note, farewell note /\ relayed note w').
Proof.
  intros Hr Hreads. destruct (wp_run _ _ _ (worker_turn_turned transport has_ssl peer connected_at last_activity w Hr Hreads))
    as (t & w' & E1 & [K H] & H2). exists t, w'. split; [done|]. split.
  - intros l ->. destruct (H2 l eq_refl) as (Hc & reading & rest & E2 & E3 & E4). exists reading, rest. done.
  - intros f ->. done.
Qed.
End worker.
