(* ===== verification/ApplicationClaims.v ===== *)
(** The application's sessions across the whole server: every connection worker
    calls the application in order, on either transport, and the sample
    application's heap is therefore never misused. *)
From S2P Require Import Prelude TelnetNegotiation TerminalText AsciiText SecurityPolicy PolicyInvariant PlayerStore Application.
From S2P Require Import PlayerStoreTheorems PlayerRecords PlayerAccounts PolicyTheorems TelnetSession TelnetParser TelnetInvariant TelnetDialogue.
From S2P Require Import HarnessApplication TelnetClaims SshTransport SshInvariant SshClaims SecureServer ServerTheorems.

Section order.
Context {E : Environment} {PL : PwhashLaws env_pwhash} {ML : MkstempLaws env_mkstemp}.

(** Whatever the application: a worker starts and ends without a session of it,
    opens one only when it holds none, and calls every other hook with the one
    it holds. *)
Lemma worker_calls_in_order transport peer lib ssh w :
  fresh w -> Forall tick_ok (history_ticks (ho_history ssh)) -> hook_close application <> None ->
  exists w', connection_worker transport peer lib ssh w = Some (tt, w') /\
    hook_calls application (None, app_state (wk_world w)) (None, app_state (wk_world w')).
Proof.
  intros Hw Ht Hc. destruct (wp_run _ _ _ (worker_finishes transport peer lib ssh w Hw Ht)) as ([] & w' & E1 & _ & calls & _ & _ & _ & H).
  exists w'. split; [done|by apply H].
Qed.
End order.

Section harness.
Context {P : Pwhash} {T : Mkstemp} {PL : PwhashLaws P} {ML : MkstempLaws T}.
Context (query : option (nat -> telnet_mssp_status)) (directory : list Z).
#[local] Instance harness_server : Environment := harness_environment query directory.

(** [C40] A connection never misuses the sample application's heap.  For both
    Telnet transports and for SSH, whatever the peer, the kernel, OpenSSL,
    libssh, the clock and the allocator do, a worker that starts on a sound
    heap runs to its end and leaves it sound: no hook used a session that was
    not allocated and none was freed twice, also when freed addresses are
    handed out again.  The session the worker may have opened is freed, so
    nothing leaks, and the sessions of all other connections are what they
    were. *)
Theorem harness_heap_safe transport peer lib ssh w :
  fresh w -> Forall tick_ok (history_ticks (ho_history ssh)) -> corrupted (app_state (wk_world w)) = false ->
  exists w', connection_worker transport peer lib ssh w = Some (tt, w') /\
    corrupted (app_state (wk_world w')) = false /\ HarnessApplication.live (app_state (wk_world w')) = HarnessApplication.live (app_state (wk_world w)).
Proof.
  intros Hw Ht Hc. destruct (worker_calls_in_order transport peer lib ssh w Hw Ht) as (w' & E1 & H); [done|].
  exists w'. split; [done|]. by apply (hook_calls_hold (HarnessApplication.live (app_state (wk_world w))) _ _ H).
Qed.
End harness.

(** * A concrete worker *)

#[local] Existing Instance toy_pwhash_laws.
#[local] Existing Instance toy_mkstemp_laws.

(** A player registers over plain Telnet, asks who they are, and goes away. *)
Definition player_io : io_world :=
  mk_io (replicate 100 (Some (5, 0))) [] [ReadBytes (txt "Bob" ++ [13; 10]); ReadBytes (txt "correct horse" ++ [13; 10]);
    ReadBytes (txt "correct horse" ++ [13; 10]); ReadBytes (txt "whoami" ++ [13; 10]); ReadBytes []] [] [] [].

(** The heap holds the session of another player; the allocator is told to
    reuse a free address. *)
Definition player_worker (s : telnet_session) : @worker_world harness_env :=
  mk_worker harness_env (new_world (E := harness_env) s security_policy_create (empty_store [])
    (mk_heap (<[0%nat := mk_harness (txt "Alice") plain_terminal]> ∅) [Some 5%nat] false)) false 0 [] player_io [].

Lemma player_runs :
  match telnet_session_create (txt "127.0.0.1") false with
  | Some s => match connection_worker (E := harness_env) CONNECTION_TRANSPORT_TELNET (txt "127.0.0.1") (mk_worker_setup true true true)
                      (mk_handover 5 None alice_history []) (player_worker s) with
              | Some (_, w') => memory (app_state (wk_world w')) = []
              | None => False
              end
  | None => False
  end.
Proof. vm_compute. reflexivity. Qed.

Lemma harness_heap_safe_witness :
  exists s w', telnet_session_create (txt "127.0.0.1") false = Some s /\
    connection_worker (E := harness_env) CONNECTION_TRANSPORT_TELNET (txt "127.0.0.1") (mk_worker_setup true true true)
      (mk_handover 5 None alice_history []) (player_worker s) = Some (tt, w') /\
    corrupted (app_state (wk_world w')) = false /\
    HarnessApplication.live (app_state (wk_world w')) = <[0%nat := mk_harness (txt "Alice") plain_terminal]> ∅ /\
    memory (app_state (wk_world w')) = [].
Proof.
  pose proof player_runs as Hrun. destruct (telnet_session_create (txt "127.0.0.1") false) as [s|] eqn:Es; [|contradiction].
  assert (fresh (player_worker s)) as Hf.
  { split; [reflexivity|reflexivity|reflexivity|exact policy_create_ok|]. unfold reads_ok. simpl. repeat constructor; unfold is_byte; lia. }
  destruct (harness_heap_safe None (txt "/srv/players") CONNECTION_TRANSPORT_TELNET (txt "127.0.0.1") (mk_worker_setup true true true)
    (mk_handover 5 None alice_history []) (player_worker s) Hf alice_history_ok eq_refl) as (w' & E1 & H1 & H2).
  exists s, w'. split; [reflexivity|]. split; [exact E1|]. split; [exact H1|]. split; [exact H2|].
  change (connection_worker (E := harness_env) CONNECTION_TRANSPORT_TELNET (txt "127.0.0.1") (mk_worker_setup true true true)
    (mk_handover 5 None alice_history []) (player_worker s) = Some (tt, w')) in E1.
  rewrite E1 in Hrun. exact Hrun.
Defined.
