(* ===== verification/ServerRuntime.v ===== *)
(** The listening side of the server (src/secure_server.c): the shared runtime
    that counts workers, admission of an accepted socket, the listeners, and
    the whole life of [secure_server_run], from the test of its configuration
    to the release of everything it took.

    The critical sections of the runtime are short and under one mutex: each is
    one atomic function here.  Workers run concurrently with the main thread.
    What they do to the objects shared with it is to call the policy, any number
    of times, and to release their slot at the end; [worker_step] is such a
    piece of their activity.  Everywhere the main thread can be overtaken
    (before a turn of its loop, before each listener is served, between the
    reservation of a slot and the start of its thread, while it waits), the
    input says what the workers do there; elsewhere their steps commute with
    those of the main thread, so the theorems hold for every interleaving. *)
From S2P Require Import Prelude TerminalText AsciiText SecurityPolicy PolicyInvariant PolicyTheorems PolicyHistory PlayerStore Application TelnetSession SshTransport SecureServer.

(** * The runtime *)

Record server_runtime := mk_runtime { active_connections : Z; stopping : bool }.

Definition runtime_reserve_connection (r : server_runtime) : bool * server_runtime :=
  if negb (stopping r) && (active_connections r <? MAX_ACTIVE_CONNECTIONS)
  then (true, mk_runtime (active_connections r + 1) (stopping r))
  else (false, r).

Definition runtime_release_connection (r : server_runtime) : server_runtime :=
  if active_connections r >? 0 then mk_runtime (active_connections r - 1) (stopping r) else r.

Definition runtime_begin_shutdown (r : server_runtime) : server_runtime := mk_runtime (active_connections r) true.

(** The condition [runtime_wait_for_workers] waits for. *)
Definition workers_done (r : server_runtime) : bool := negb (active_connections r >? 0).

(** * Admission *)

Definition AF_INET : Z := 2.
Definition AF_INET6 : Z := 10.

(** [ip] is what [inet_ntop] writes. *)
Definition peer_string (family : Z) (ip : option (list Z)) (output_size : Z) : option (list Z) :=
  if negb (family =? AF_INET) && negb (family =? AF_INET6) then None
  else match ip with
       | None => None
       | Some ip => if strlen ip >=? output_size then None else Some (c_str ip)
       end.

Inductive accept_outcome := Accepted (fd family : Z) (ip : option (list Z)) | AcceptFailed (errno : Z).

(** The objects [secure_server_run] makes once, and releases. *)
Inductive shared_object := TlsContext | Store | Policy | Audit | Condition | Mutex | Ssh.

(** What happens to the sockets and the shared objects. *)
Inductive server_call :=
| ListenerOpen (fd : Z) | ListenerBind (fd : Z) (address : list Z) (port : Z) | ListenerClose (fd : Z) | ClientAccept (fd : Z) | ClientClose (fd : Z)
| WorkerStart (fd : Z) (transport : connection_transport_kind) (peer : list Z) | WorkerExit (fd : Z)
| Acquire (o : shared_object) | Release (o : shared_object).

#[export] Instance shared_object_eq : EqDecision shared_object.
Proof. solve_decision. Defined.

#[export] Instance server_call_eq : EqDecision server_call.
Proof. solve_decision. Defined.

(** [sv_live] holds the sockets of the workers that have not released their slot. *)
Record server := mk_server {
  sv_runtime : server_runtime;
  sv_live : list Z;
  sv_policy : security_policy;
  sv_trail : list audit_call;
  sv_calls : list server_call
}.

Definition eta_server s := mk_server (sv_runtime s) (sv_live s) (sv_policy s) (sv_trail s) (sv_calls s).
#[export] Instance set_sv_runtime : Setter sv_runtime := ltac:(setter_of eta_server sv_runtime).
#[export] Instance set_sv_live : Setter sv_live := ltac:(setter_of eta_server sv_live).
#[export] Instance set_sv_policy : Setter sv_policy := ltac:(setter_of eta_server sv_policy).
#[export] Instance set_sv_trail : Setter sv_trail := ltac:(setter_of eta_server sv_trail).
#[export] Instance set_sv_calls : Setter sv_calls := ltac:(setter_of eta_server sv_calls).

Abbreviation Srv := (M server).

Definition server_call_made (c : server_call) : Srv unit := modify (fun s => s <| sv_calls := sv_calls s ++ [c] |>).
Definition server_audit (event peer detail : list Z) : Srv unit :=
  modify (fun s => s <| sv_trail := sv_trail s ++ [mk_audit event peer detail] |>).
Definition upd_runtime (f : server_runtime -> server_runtime) : Srv unit := modify (fun s => s <| sv_runtime := f (sv_runtime s) |>).

(** The workers: one that ends releases its slot; the others call the policy. *)
Inductive worker_step := Exits (i : nat) | Calls (e : event).

Definition worker_acts (m : worker_step) : Srv unit :=
  match m with
  | Exits i =>
      live ← gets sv_live;
      match live !! i with
      | None => mret tt
      | Some fd =>
          modify (fun s => s <| sv_live := delete i live |>) ;;
          server_call_made (WorkerExit fd) ;;
          upd_runtime runtime_release_connection
      end
  | Calls e => zoom sv_policy (fun p s => s <| sv_policy := p |>) (policy_step e) ;; mret tt
  end.
Definition workers_act (l : list worker_step) : Srv unit := for_each l worker_acts.

(** The first half of [accept_connection]: a socket with a reserved slot and
    its peer, or the value to return. *)
Definition admit_connection (outcome : accept_outcome) (transport : connection_transport_kind) (clock : option (Z * Z))
    : Srv (Z + Z * list Z) :=
  match outcome with
  | AcceptFailed errno => mret (inl (if retryable_errno errno then 0 else -1))
  | Accepted fd family ip =>
      server_call_made (ClientAccept fd) ;;
      let peer := match peer_string family ip 96 with Some peer => peer | None => txt "unknown" end in
      let now_ms := monotonic_or_zero clock in
      admitted ← (if now_ms =? 0 then mret false
                  else '(allowed, _) ← zoom sv_policy (fun p s => s <| sv_policy := p |>)
                         (security_policy_allow_connection (Some peer) now_ms);
                       mret allowed);
      if negb (admitted : bool) then
        server_audit (txt "connection_rate_limited") peer (transport_label transport) ;;
        server_call_made (ClientClose fd) ;;
        mret (inl 0)
      else
        r ← gets sv_runtime;
        let '(reserved, r') := runtime_reserve_connection r in
        upd_runtime (fun _ => r') ;;
        if negb reserved then
          server_audit (txt "connection_capacity_reached") peer (txt "maximum active connections reached") ;;
          server_call_made (ClientClose fd) ;;
          mret (inl 0)
        else mret (inr (fd, peer))
  end.

(** The second half: the worker's arguments and its thread. *)
Definition start_worker (fd : Z) (peer : list Z) (transport : connection_transport_kind) (allocated created : bool) : Srv Z :=
  if negb allocated then
    server_call_made (ClientClose fd) ;;
    upd_runtime runtime_release_connection ;;
    mret 0
  else
    args_peer ← lift_opt (store_str 96 peer);
    if negb created then
      server_call_made (ClientClose fd) ;;
      upd_runtime runtime_release_connection ;;
      server_audit (txt "worker_creation_failure") peer (txt "pthread_create failed") ;;
      mret 0
    else
      modify (fun s => s <| sv_live := sv_live s ++ [fd] |>) ;;
      server_call_made (WorkerStart fd transport args_peer) ;;
      mret 0.

(** What happens when one listener is ready: the result of [accept], the clock,
    [calloc] and [pthread_create], and what the workers do between the
    reservation and the start of the thread. *)
Record arrival := mk_arrival {
  ar_outcome : accept_outcome;
  ar_clock : option (Z * Z);
  ar_between : list worker_step;
  ar_allocated : bool;
  ar_created : bool
}.

Definition accept_connection (transport : connection_transport_kind) (a : arrival) : Srv Z :=
  admitted ← admit_connection (ar_outcome a) transport (ar_clock a);
  workers_act (ar_between a) ;;
  match admitted with
  | inl r => mret r
  | inr (fd, peer) => start_worker fd peer transport (ar_allocated a) (ar_created a)
  end.

(** * Listeners *)

(** What the kernel says to each call for one listener: the descriptor of
    [socket] or the error, the two common options, [IPV6_V6ONLY], [bind] and
    [listen]; an error is its number. *)
Record listener_outcome := mk_listener {
  lo_socket : Z + Z;
  lo_options : bool;
  lo_v6only : option Z;
  lo_bind : option Z;
  lo_listen : bool
}.

(** [INADDR_LOOPBACK] and [in6addr_loopback] in network order. *)
Definition INADDR_LOOPBACK : list Z := [127; 0; 0; 1].
Definition in6addr_loopback : list Z := repeat 0 15 ++ [1].

Definition create_loopback_listener (family port : Z) (optional : bool) (o : listener_outcome) : Srv Z :=
  match lo_socket o with
  | inr errno => mret (if optional && ipv6_unavailable_error errno then LISTENER_UNAVAILABLE else -1)
  | inl listener =>
      server_call_made (ListenerOpen listener) ;;
      let close_with r := server_call_made (ListenerClose listener) ;; mret r in
      let bind_and_listen address :=
        server_call_made (ListenerBind listener address port) ;;
        match lo_bind o with
        | Some errno => close_with (if optional && ipv6_unavailable_error errno then LISTENER_UNAVAILABLE else -1)
        | None => if negb (lo_listen o) then close_with (-1) else mret listener
        end in
      if negb (lo_options o) then close_with (-1)
      else if family =? AF_INET then bind_and_listen INADDR_LOOPBACK
      else if family =? AF_INET6 then
        match lo_v6only o with
        | Some errno => close_with (if optional && ipv6_unavailable_error errno then LISTENER_UNAVAILABLE else -1)
        | None => bind_and_listen in6addr_loopback
        end
      else close_with (-1)
  end.

(** The blocks of [secure_server_run] that open one listener each: its family,
    port, transport, and whether it may be unavailable. *)
Definition listener_specs (telnet_port telnet_tls_port ssh_port : Z) : list (Z * Z * connection_transport_kind * bool) :=
  [(AF_INET, telnet_port, CONNECTION_TRANSPORT_TELNET, false); (AF_INET6, telnet_port, CONNECTION_TRANSPORT_TELNET, true);
   (AF_INET, telnet_tls_port, CONNECTION_TRANSPORT_TELNET_TLS, false); (AF_INET6, telnet_tls_port, CONNECTION_TRANSPORT_TELNET_TLS, true)] ++
  (if negb (ssh_port =? 0)
   then [(AF_INET, ssh_port, CONNECTION_TRANSPORT_SSH, false); (AF_INET6, ssh_port, CONNECTION_TRANSPORT_SSH, true)] else []).

(** The listeners opened so far and whether all went well; a store past the
    arrays of [MAX_LISTENER_SOCKETS] entries is a fault. *)
Fixpoint open_listeners (specs : list (Z * Z * connection_transport_kind * bool)) (kernel : list listener_outcome)
    (open : list (Z * connection_transport_kind)) : Srv (list (Z * connection_transport_kind) * bool) :=
  match specs with
  | [] => mret (open, true)
  | (family, port, transport, optional) :: specs =>
      lift_opt (if Zlen open <? MAX_LISTENER_SOCKETS then Some tt else None) ;;
      fd ← create_loopback_listener family port optional (hd (mk_listener (inr EADDRNOTAVAIL) true None None true) kernel);
      if (if optional : bool then fd =? -1 else fd <? 0) then mret (open, false)
      else if fd >=? 0 then open_listeners specs (tl kernel) (open ++ [(fd, transport)])
      else open_listeners specs (tl kernel) open
  end.

(** * The server *)

(** The results of the OpenSSL calls that make the context. *)
Record context_results := mk_context { cx_new : bool; cx_versions : bool; cx_certificate : bool; cx_private_key : bool; cx_match : bool }.

Definition create_tls_context (c : context_results) : Srv bool :=
  if negb (cx_new c) then mret false
  else
    server_call_made (Acquire TlsContext) ;;
    let failed := server_call_made (Release TlsContext) ;; mret false in
    if negb (cx_versions c) then failed
    else if negb (cx_certificate c) then failed
    else if negb (cx_private_key c) then failed
    else if negb (cx_match c) then failed
    else mret true.

Definition POLLIN : Z := 1.
Definition POLLERR : Z := 8.
Definition POLLHUP : Z := 16.
Definition POLLNVAL : Z := 32.

(** One listener after [poll]: what the workers do before it is looked at, its
    [revents], and the connection that arrives if it is readable. *)
Record listener_event := mk_listener_event { le_before : list worker_step; le_revents : Z; le_arrival : arrival }.

Definition quiet_listener : listener_event := mk_listener_event [] 0 (mk_arrival (AcceptFailed EAGAIN) None [] true true).

Inductive poll_outcome := PollFailed (errno : Z) | PollTimeout | PollReady (events : list listener_event).

(** One turn of the loop: what the workers do first, whether the signal came,
    and what [poll] says. *)
Record poll_round := mk_round { rd_before : list worker_step; rd_stop : bool; rd_poll : poll_outcome }.

(** The [for] loop over the listeners; the result is [fatal_listener_error]. *)
Fixpoint serve_listeners (listeners : list (Z * connection_transport_kind)) (events : list listener_event) : Srv bool :=
  match listeners with
  | [] => mret false
  | (_, transport) :: listeners =>
      let e := hd quiet_listener events in
      let failed := server_audit (txt "listener_failure") (txt "local") (transport_label transport) ;; mret true in
      workers_act (le_before e) ;;
      if negb (Z.land (le_revents e) (Z.lor (Z.lor POLLERR POLLHUP) POLLNVAL) =? 0) then failed
      else if negb (Z.land (le_revents e) POLLIN =? 0) then
        r ← accept_connection transport (le_arrival e);
        if negb (r =? 0) then failed else serve_listeners listeners (tl events)
      else serve_listeners listeners (tl events)
  end.

(** The [while] loop: [true] when it ended because of the signal, which is what
    ends the input too. *)
Fixpoint listen_loop (listeners : list (Z * connection_transport_kind)) (rounds : list poll_round) : Srv bool :=
  match rounds with
  | [] => mret true
  | r :: rounds =>
      workers_act (rd_before r) ;;
      if rd_stop r then mret true
      else
        match rd_poll r with
        | PollFailed errno =>
            if errno =? EINTR then listen_loop listeners rounds
            else server_audit (txt "listener_failure") (txt "local") (txt "poll failed") ;; mret false
        | PollTimeout => listen_loop listeners rounds
        | PollReady events =>
            fatal ← serve_listeners listeners events;
            if (fatal : bool) then mret false else listen_loop listeners rounds
        end
  end.

(** [pthread_cond_wait] in a loop: [false] if the main thread still waits when
    the workers have done all that is given. *)
Fixpoint runtime_wait_for_workers (wakes : list worker_step) : Srv bool :=
  r ← gets sv_runtime;
  if workers_done r then mret true
  else
    match wakes with
    | [] => mret false
    | m :: wakes => worker_acts m ;; runtime_wait_for_workers wakes
    end.

Definition close_listeners (listeners : list (Z * connection_transport_kind)) : Srv unit :=
  for_each listeners (fun l => when (fst l >=? 0) (server_call_made (ListenerClose (fst l)))).

Record secure_server_config := mk_server_config {
  certificate_path : option (list Z);
  private_key_path : option (list Z);
  ssh_host_key_path : option (list Z);
  player_directory_path : option (list Z);
  audit_log_path : option (list Z);
  has_application : bool;
  telnet_port : Z;
  telnet_tls_port : Z;
  ssh_port : Z
}.

Definition present {A} (o : option A) : bool := match o with Some _ => true | None => false end.

Definition server_config_valid (c : secure_server_config) : bool :=
  negb (negb (present (certificate_path c)) || negb (present (private_key_path c)) || negb (present (player_directory_path c)) ||
        negb (present (audit_log_path c)) || (telnet_port c =? 0) || (telnet_tls_port c =? 0) ||
        (telnet_port c =? telnet_tls_port c) ||
        (negb (ssh_port c =? 0) &&
         (negb (present (ssh_host_key_path c)) || negb (has_application c) || (ssh_port c =? telnet_port c) ||
          (ssh_port c =? telnet_tls_port c)))).

(** What the system says to the main thread, in program order. *)
Record startup := mk_startup {
  su_euid : Z;
  su_key : option key_stat;
  su_key_readable : bool;
  su_sigaction : bool;
  su_ssh_init : bool;
  su_mutex : bool;
  su_condition : bool;
  su_audit : bool;
  su_policy : bool;
  su_store : bool;
  su_context : context_results;
  su_listeners : list listener_outcome;
  su_rounds : list poll_round;
  su_signalled : bool;
  su_wakes : list worker_step
}.

(** From the listeners to the end of the wait; [None] while it waits. *)
Definition serve (c : secure_server_config) (k : startup) (listeners : list (Z * connection_transport_kind)) : Srv (option Z) :=
  server_audit (txt "server_start") (txt "local")
    (if negb (ssh_port c =? 0) then txt "Telnet, TLS Telnet, and SSH listeners started"
     else txt "plain Telnet and TLS 1.3 Telnet listeners started") ;;
  stopped ← listen_loop listeners (su_rounds k);
  let exit_status := if stopped || su_signalled k then 0 else -1 in
  upd_runtime runtime_begin_shutdown ;;
  close_listeners listeners ;;
  drained ← runtime_wait_for_workers (su_wakes k);
  if negb (drained : bool) then mret None
  else
    server_audit (txt "server_stop") (txt "local") (txt "listeners stopped") ;;
    mret (Some exit_status).

(** The labels at the end, each falling through to the next; a flag says
    whether a pointer is set, since each of these functions ignores NULL. *)
Definition cleanup_ssh (ssh_initialized : bool) : Srv unit :=
  when ssh_initialized (server_call_made (Release Ssh)).

Definition cleanup_runtime (ssh_initialized : bool) : Srv unit :=
  server_call_made (Release Condition) ;;
  server_call_made (Release Mutex) ;;
  cleanup_ssh ssh_initialized.

Definition cleanup (listeners : list (Z * connection_transport_kind)) (context store security audit ssh_initialized : bool) : Srv unit :=
  close_listeners listeners ;;
  when context (server_call_made (Release TlsContext)) ;;
  when store (server_call_made (Release Store)) ;;
  when security (server_call_made (Release Policy)) ;;
  when audit (server_call_made (Release Audit)) ;;
  cleanup_runtime ssh_initialized.

(** From the signal handlers on; each failure is its [goto].  [None] while the
    main thread waits for workers. *)
Definition run_initialized (c : secure_server_config) (k : startup) (ssh_initialized : bool) : Srv (option Z) :=
  if negb (su_mutex k) then cleanup_ssh ssh_initialized ;; mret (Some (-1))
  else
    server_call_made (Acquire Mutex) ;;
    if negb (su_condition k) then server_call_made (Release Mutex) ;; cleanup_ssh ssh_initialized ;; mret (Some (-1))
    else
      server_call_made (Acquire Condition) ;;
      if negb (su_audit k) then cleanup_runtime ssh_initialized ;; mret (Some (-1))
      else
        server_call_made (Acquire Audit) ;;
        if negb (su_policy k) then cleanup [] false false false true ssh_initialized ;; mret (Some (-1))
        else
          server_call_made (Acquire Policy) ;;
          if negb (su_store k) then cleanup [] false false true true ssh_initialized ;; mret (Some (-1))
          else
            server_call_made (Acquire Store) ;;
            context ← create_tls_context (su_context k);
            if negb (context : bool) then cleanup [] false true true true ssh_initialized ;; mret (Some (-1))
            else
              opened ← open_listeners (listener_specs (telnet_port c) (telnet_tls_port c) (ssh_port c)) (su_listeners k) [];
              let '(listeners, ok) := opened in
              if negb ok then cleanup listeners true true true true ssh_initialized ;; mret (Some (-1))
              else
                status ← serve c k listeners;
                match status with
                | None => mret None
                | Some exit_status =>
                    (* the listeners were closed and their entries set to -1 *)
                    cleanup (map (fun l => (-1, snd l)) listeners) true true true true ssh_initialized ;; mret (Some exit_status)
                end.

Definition secure_server_run (config : option secure_server_config) (k : startup) : Srv (option Z) :=
  match config with
  | None => mret (Some (-1))
  | Some c =>
      if negb (server_config_valid c) then mret (Some (-1))
      else if su_euid k =? 0 then mret (Some (-1))
      else if negb (ssh_port c =? 0) &&
              negb (ssh_transport_validate_host_key (ssh_host_key_path c) (su_key k) (su_euid k) (su_key_readable k) =? 0)
      then mret (Some (-1))
      else if negb (su_sigaction k) then mret (Some (-1))
      else if negb (ssh_port c =? 0) then
        if negb (su_ssh_init k) then mret (Some (-1)) else server_call_made (Acquire Ssh) ;; run_initialized c k true
      else run_initialized c k false
  end.

(** * The program *)

Definition EXIT_SUCCESS : Z := 0.
Definition EXIT_FAILURE : Z := 1.

Definition main_config : secure_server_config :=
  mk_server_config (Some (txt "local_tls/server.crt")) (Some (txt "local_tls/server.key"))
    (Some (txt "local_ssh/ssh_host_ed25519_key")) (Some (txt "data/players")) (Some (txt "logs/security.log")) true 3333 3334 3335.

Definition TELNET_MSSP_NAME_MAX : Z := 80.
Definition TELNET_MSSP_CODEBASE_MAX : Z := 80.

Record harness_status := mk_harness_status { hs_started_at : Z; hs_telnet_port : Z; hs_telnet_tls_port : Z }.

(** [status] is what the caller had; the texts are shorter than their arrays. *)
Definition mssp_snapshot (harness : option harness_status) (status : telnet_mssp_status) : telnet_mssp_status :=
  match harness with
  | None => status
  | Some h =>
      mk_mssp_status (take (Z.to_nat TELNET_MSSP_NAME_MAX) (txt "mud-terminal-core reference")) 0 (hs_started_at h)
        (hs_telnet_port h) (hs_telnet_tls_port h) (take (Z.to_nat TELNET_MSSP_CODEBASE_MAX) (txt "mud-terminal-core"))
  end.

(** [argv] after the program's name. *)
Definition configure (arguments : list (list Z)) : option secure_server_config :=
  let with_tls cert key ssh :=
    mk_server_config (Some cert) (Some key) ssh (player_directory_path main_config) (audit_log_path main_config)
      (has_application main_config) (telnet_port main_config) (telnet_tls_port main_config) (ssh_port main_config) in
  match arguments with
  | [] => Some main_config
  | [cert; key] => Some (with_tls cert key (ssh_host_key_path main_config))
  | [cert; key; ssh] => Some (with_tls cert key (Some ssh))
  | _ => None
  end.

Definition server_main (arguments : list (list Z)) (k : startup) : Srv (option Z) :=
  match configure arguments with
  | None => mret (Some EXIT_FAILURE)
  | Some c =>
      status ← secure_server_run (Some c) k;
      mret (match status with None => None | Some r => Some (if r =? 0 then EXIT_SUCCESS else EXIT_FAILURE) end)
  end.
