(* ===== verification/ServerLife.v ===== *)
(** The life of the server: slots, threads, sockets and shared objects through
    every interleaving of the main thread and its workers. *)
From S2P Require Import Prelude TerminalText AsciiText SecurityPolicy PolicyInvariant PolicyTheorems PolicyHistory PlayerStore.
From S2P Require Import Application TelnetSession SshTransport SshInvariant SecureServer ServerRuntime.

(** * Counting calls *)

Definition times (p : server_call -> bool) (l : list server_call) : Z := Zlen (filter (fun c => p c = true) l).

Definition is_start (c : server_call) : bool := match c with WorkerStart _ _ _ => true | _ => false end.
Definition is_exit (c : server_call) : bool := match c with WorkerExit _ => true | _ => false end.
Definition is_release (c : server_call) : bool := match c with Release _ => true | _ => false end.
Definition starts_on (fd : Z) (c : server_call) : bool := match c with WorkerStart fd' _ _ => fd' =? fd | _ => false end.
Definition is_call (c c' : server_call) : bool := bool_decide (c' = c).
Definition occurrences (fd : Z) (l : list Z) : Z := Zlen (filter (fun x => x = fd) l).

Lemma times_app p a b : times p (a ++ b) = times p a + times p b.
Proof. unfold times. rewrite filter_app, length_app. lia. Qed.

Lemma times_one p c : times p [c] = if p c then 1 else 0.
Proof. unfold times. rewrite filter_cons. destruct (p c); by destruct (decide _). Qed.

Lemma times_nonneg p l : 0 <= times p l.
Proof. unfold times. lia. Qed.

Lemma times_none p l : Forall (fun c => p c = false) l -> times p l = 0.
Proof.
  induction 1 as [|c l Hc _ IH]; [done|]. change (c :: l) with ([c] ++ l). rewrite times_app, times_one, Hc, IH. done.
Qed.

Lemma times_zero p l : times p l = 0 -> Forall (fun c => p c = false) l.
Proof.
  induction l as [|c l IH]; intros H; [constructor|]. change (c :: l) with ([c] ++ l) in H. rewrite times_app, times_one in H.
  pose proof (times_nonneg p l). destruct (p c) eqn:Ec; [lia|]. constructor; [done|]. apply IH. lia.
Qed.

Lemma occurrences_app fd a b : occurrences fd (a ++ b) = occurrences fd a + occurrences fd b.
Proof. unfold occurrences. rewrite filter_app, length_app. lia. Qed.

Lemma occurrences_one fd x : occurrences fd [x] = if x =? fd then 1 else 0.
Proof. unfold occurrences. rewrite filter_cons. destruct (Z.eqb_spec x fd), (decide (x = fd)); simpl; try lia; done. Qed.

Lemma occurrences_delete fd i x l : l !! i = Some x -> occurrences fd l = occurrences fd (delete i l) + (if x =? fd then 1 else 0).
Proof.
  revert i. induction l as [|y l IH]; intros [|i] H; simplify_eq/=.
  - change (x :: l) with ([x] ++ l). rewrite occurrences_app, occurrences_one. lia.
  - change (y :: l) with ([y] ++ l). change (y :: delete i l) with ([y] ++ delete i l).
    rewrite !occurrences_app, (IH i H). lia.
Qed.

(** * The state of a running server *)

(** At every moment so far at most 64 workers were running. *)
Definition crowd_bounded (calls : list server_call) : Prop :=
  forall a b, calls = a ++ b -> times is_start a <= times is_exit a + MAX_ACTIVE_CONNECTIONS.

(** No shared object was released while a worker was running, and no worker
    started afterwards. *)
Definition objects_outlive (calls : list server_call) : Prop :=
  forall a o b, calls = a ++ Release o :: b -> times is_start a = times is_exit a /\ times is_start b = 0.

Definition resource (c : server_call) : bool :=
  match c with ListenerOpen _ | ListenerBind _ _ _ | ListenerClose _ | Acquire _ | Release _ => true | _ => false end.
Definition resources (calls : list server_call) : list server_call := filter (fun c => resource c = true) calls.

(** [held] are the sockets the main thread has taken a slot for and not yet
    given to a thread. *)
Record server_ok (held : list Z) (s : server) : Prop := mk_server_ok {
  so_active : active_connections (sv_runtime s) = Zlen (sv_live s) + Zlen held;
  so_bound : active_connections (sv_runtime s) <= MAX_ACTIVE_CONNECTIONS;
  so_policy : policy_ok (sv_policy s);
  so_count : times is_start (sv_calls s) = times is_exit (sv_calls s) + Zlen (sv_live s);
  so_crowd : crowd_bounded (sv_calls s);
  so_outlive : objects_outlive (sv_calls s);
  so_sockets : forall fd, times (is_call (ClientAccept fd)) (sv_calls s) =
    times (is_call (ClientClose fd)) (sv_calls s) + times (starts_on fd) (sv_calls s) + occurrences fd held;
  so_workers : forall fd, times (starts_on fd) (sv_calls s) = times (is_call (WorkerExit fd)) (sv_calls s) + occurrences fd (sv_live s)
}.

Lemma crowd_snoc calls c :
  crowd_bounded calls -> times is_start (calls ++ [c]) <= times is_exit (calls ++ [c]) + MAX_ACTIVE_CONNECTIONS ->
  crowd_bounded (calls ++ [c]).
Proof.
  intros H Hc a b Hab. destruct b as [|x b _] using rev_ind.
  - rewrite app_nil_r in Hab. by subst.
  - rewrite app_assoc in Hab. apply app_inj_tail in Hab as [Hab _]. by eapply H.
Qed.

Lemma outlive_snoc calls c :
  objects_outlive calls -> (is_release c = true -> times is_start calls = times is_exit calls) ->
  (is_start c = true -> times is_release calls = 0) -> objects_outlive (calls ++ [c]).
Proof.
  intros H H1 H2 a o b Hab. destruct b as [|x b _] using rev_ind.
  - apply app_inj_tail in Hab as [-> ->]. split; [by apply H1|done].
  - change (Release o :: b ++ [x]) with ((Release o :: b) ++ [x]) in Hab. rewrite app_assoc in Hab.
    apply app_inj_tail in Hab as [Hab ->]. destruct (H a o b Hab) as [A1 A2]. split; [done|].
    rewrite times_app, times_one, A2. destruct (is_start x) eqn:Ex; [|done].
    pose proof (H2 eq_refl) as H3. rewrite Hab, times_app in H3. change (Release o :: b) with ([Release o] ++ b) in H3.
    rewrite times_app, times_one in H3. simpl in H3. pose proof (times_nonneg is_release a). pose proof (times_nonneg is_release b). lia.
Qed.

(** What the accepting loop does not do: touch the listeners and the shared
    objects, or the stop flag. *)
Record quiet (s s' : server) : Prop := mk_quiet {
  qu_resources : resources (sv_calls s') = resources (sv_calls s);
  qu_stopping : stopping (sv_runtime s') = stopping (sv_runtime s)
}.

#[export] Instance quiet_preorder : PreOrder quiet.
Proof. split; [done|]. intros s1 s2 s3 [] []. split; congruence. Qed.

Lemma resources_app a b : resources (a ++ b) = resources a ++ resources b.
Proof. apply filter_app. Qed.

Lemma times_resources p calls : (forall c, p c = true -> resource c = true) -> times p (resources calls) = times p calls.
Proof.
  intros Hp. induction calls as [|c l IH]; [done|]. change (c :: l) with ([c] ++ l).
  rewrite resources_app, !times_app, IH. f_equal. unfold resources. rewrite filter_cons, filter_nil.
  destruct (decide _) as [|Hc]; [done|]. rewrite times_one. destruct (p c) eqn:Ec; [|done]. by specialize (Hp c Ec).
Qed.

Lemma quiet_releases s s' : quiet s s' -> times is_release (sv_calls s') = times is_release (sv_calls s).
Proof.
  intros [H _]. rewrite <- (times_resources is_release (sv_calls s)), <- (times_resources is_release (sv_calls s')) by (by intros []).
  by rewrite H.
Qed.

(** A call that neither starts nor ends anything of a connection. *)
Definition neutral (c : server_call) : bool :=
  match c with ClientAccept _ | ClientClose _ | WorkerStart _ _ _ | WorkerExit _ => false | _ => true end.

Ltac count_calls := rewrite ?times_app, ?times_one, ?occurrences_app, ?occurrences_one.

Lemma neutral_ok held s c :
  server_ok held s -> neutral c = true -> (is_release c = true -> sv_live s = []) -> server_ok held (s <| sv_calls := sv_calls s ++ [c] |>).
Proof.
  intros [] Hn Hr. split; simpl; try done.
  - count_calls. rewrite so_count0. destruct c; simpl; try done; lia.
  - apply crowd_snoc; [done|]. count_calls. pose proof (so_crowd0 (sv_calls s) [] (eq_sym (app_nil_r _))). destruct c; simpl; try done; lia.
  - apply outlive_snoc; [done| |by destruct c]. intros Hc. rewrite so_count0, (Hr Hc). simpl. lia.
  - intros fd. count_calls. rewrite so_sockets0. destruct c; simpl; try done; unfold is_call; repeat case_bool_decide; try done; lia.
  - intros fd. count_calls. rewrite so_workers0. destruct c; simpl; try done; unfold is_call; repeat case_bool_decide; try done; lia.
Qed.

Lemma trail_ok held s l : server_ok held s -> server_ok held (s <| sv_trail := l |>).
Proof. by intros []. Qed.

Lemma policy_put_ok held s p : server_ok held s -> policy_ok p -> server_ok held (s <| sv_policy := p |>).
Proof. by intros [] ?. Qed.

(** ** Workers *)

Definition step_ok (m : worker_step) : Prop := match m with Exits _ => True | Calls e => event_ok e end.

Lemma release_counts r :
  0 < active_connections r -> runtime_release_connection r = mk_runtime (active_connections r - 1) (stopping r).
Proof. intros H. unfold runtime_release_connection. by destruct (Z.gtb_spec (active_connections r) 0); [|lia]. Qed.

Lemma length_delete_at {A} (l : list A) i x : l !! i = Some x -> Zlen (delete i l) = Zlen l - 1.
Proof. intros H. pose proof (lookup_lt_Some _ _ _ H). rewrite length_delete by done. lia. Qed.

Lemma exit_ok held s i fd r :
  server_ok held s -> sv_live s !! i = Some fd -> runtime_release_connection (sv_runtime s) = r ->
  server_ok held (s <| sv_live := delete i (sv_live s) |> <| sv_calls := sv_calls s ++ [WorkerExit fd] |> <| sv_runtime := r |>).
Proof.
  intros [] Hfd <-. pose proof (lookup_lt_Some _ _ _ Hfd) as Hlt. pose proof (length_delete_at _ _ _ Hfd) as Hd.
  rewrite release_counts by lia. split; simpl; try done.
  - lia.
  - lia.
  - count_calls. simpl. lia.
  - apply crowd_snoc; [done|]. count_calls. pose proof (so_crowd0 (sv_calls s) [] (eq_sym (app_nil_r _))). simpl. lia.
  - by apply outlive_snoc.
  - intros fd'. count_calls. rewrite so_sockets0. simpl. unfold is_call. repeat case_bool_decide; try done; lia.
  - intros fd'. count_calls. rewrite so_workers0. simpl. rewrite (occurrences_delete fd' i fd) by done.
    unfold is_call. destruct (Z.eqb_spec fd fd'); repeat case_bool_decide; simplify_eq; lia.
Qed.

Lemma worker_acts_ok held m s :
  server_ok held s -> step_ok m -> wp (worker_acts m) (fun _ s' => server_ok held s' /\ quiet s s') s.
Proof.
  intros Hs Hm. destruct m as [i|e]; simpl in *.
  - apply wp_bind, wp_gets. destruct (sv_live s !! i) as [fd|] eqn:Ei; [|by apply wp_ret].
    apply wp_bind, wp_modify, wp_bind, wp_modify, wp_modify. split; [by apply (exit_ok held s i fd)|].
    split; simpl; [by rewrite resources_app, app_nil_r|]. unfold runtime_release_connection. by case_match.
  - apply wp_bind, wp_zoom. eapply wp_mono; [apply policy_step_ok; [done|exact (so_policy _ _ Hs)]|].
    intros r p Hp. apply wp_ret. split; [by apply policy_put_ok|done].
Qed.

Lemma workers_act_ok held l s :
  server_ok held s -> Forall step_ok l -> wp (workers_act l) (fun _ s' => server_ok held s' /\ quiet s s') s.
Proof.
  intros Hs Hl. revert s Hs. induction Hl as [|m l Hm _ IH]; intros s Hs; [by apply wp_ret|].
  apply wp_bind. eapply wp_mono; [by apply worker_acts_ok|]. intros [] s1 [Hs1 Q1].
  eapply wp_mono; [by apply IH|]. intros [] s2 [Hs2 Q2]. split; [done|by etrans].
Qed.

(** ** Admission *)

Lemma refuse_ok s fd p l :
  server_ok [] s -> policy_ok p ->
  server_ok [] (s <| sv_calls := (sv_calls s ++ [ClientAccept fd]) ++ [ClientClose fd] |> <| sv_policy := p |> <| sv_trail := l |>).
Proof.
  intros [] Hp. split; simpl; try done.
  - count_calls. simpl. lia.
  - pose proof (so_crowd0 (sv_calls s) [] (eq_sym (app_nil_r _))). apply crowd_snoc; [apply crowd_snoc; [done|]|]; count_calls; simpl; lia.
  - by apply outlive_snoc; [apply outlive_snoc| |].
  - intros fd'. count_calls. rewrite so_sockets0. unfold is_call. simpl. repeat case_bool_decide; simplify_eq; lia.
  - intros fd'. count_calls. rewrite so_workers0. unfold is_call. simpl. repeat case_bool_decide; simplify_eq; lia.
Qed.

Lemma reserve_ok s fd p r' :
  server_ok [] s -> policy_ok p -> runtime_reserve_connection (sv_runtime s) = (true, r') ->
  server_ok [fd] (s <| sv_calls := sv_calls s ++ [ClientAccept fd] |> <| sv_policy := p |> <| sv_runtime := r' |>) /\
  stopping r' = stopping (sv_runtime s).
Proof.
  intros [] Hp Hr. unfold runtime_reserve_connection in Hr.
  destruct (stopping (sv_runtime s)) eqn:Est; [done|]. simpl in Hr.
  destruct (Z.ltb_spec (active_connections (sv_runtime s)) MAX_ACTIVE_CONNECTIONS); simplify_eq. split; [|by rewrite <- Est].
  split; simpl in *; try done.
  - lia.
  - lia.
  - count_calls. simpl. lia.
  - pose proof (so_crowd0 (sv_calls s) [] (eq_sym (app_nil_r _))). apply crowd_snoc; [done|]. count_calls. simpl. lia.
  - by apply outlive_snoc.
  - intros fd'. count_calls. rewrite so_sockets0.
    unfold is_call. simpl. destruct (Z.eqb_spec fd fd'); repeat case_bool_decide; simplify_eq; unfold occurrences; simpl; lia.
  - intros fd'. count_calls. rewrite so_workers0. unfold is_call. simpl. repeat case_bool_decide; simplify_eq; lia.
Qed.

Lemma give_back_ok s fd l :
  server_ok [fd] s ->
  server_ok [] (s <| sv_calls := sv_calls s ++ [ClientClose fd] |> <| sv_runtime := runtime_release_connection (sv_runtime s) |> <| sv_trail := l |>).
Proof.
  intros []. simpl in so_active0. rewrite release_counts by lia. split; simpl in *; try done.
  - lia.
  - lia.
  - count_calls. simpl. lia.
  - pose proof (so_crowd0 (sv_calls s) [] (eq_sym (app_nil_r _))). apply crowd_snoc; [done|]. count_calls. simpl. lia.
  - by apply outlive_snoc.
  - intros fd'. count_calls. rewrite so_sockets0, ?occurrences_one. unfold is_call. simpl.
    destruct (Z.eqb_spec fd fd'); repeat case_bool_decide; simplify_eq; unfold occurrences; simpl; lia.
  - intros fd'. count_calls. rewrite so_workers0. unfold is_call. simpl. repeat case_bool_decide; simplify_eq; lia.
Qed.

Lemma started_ok s fd transport peer :
  server_ok [fd] s -> times is_release (sv_calls s) = 0 ->
  server_ok [] (s <| sv_live := sv_live s ++ [fd] |> <| sv_calls := sv_calls s ++ [WorkerStart fd transport peer] |>).
Proof.
  intros [] Hrel. simpl in so_active0. split; simpl in *; try done.
  - rewrite length_app. simpl. lia.
  - count_calls. rewrite length_app. simpl. lia.
  - apply crowd_snoc; [done|]. count_calls. simpl. lia.
  - by apply outlive_snoc.
  - intros fd'. count_calls. rewrite so_sockets0, ?occurrences_one. unfold is_call. simpl.
    destruct (Z.eqb_spec fd fd'); repeat case_bool_decide; simplify_eq; unfold occurrences; simpl; lia.
  - intros fd'. count_calls. rewrite so_workers0. unfold is_call. simpl. destruct (Z.eqb_spec fd fd'); repeat case_bool_decide; simplify_eq; lia.
Qed.

Lemma peer_string_fits family ip peer : peer_string family ip 96 = Some peer -> strlen peer < 96.
Proof.
  unfold peer_string. case_match; [done|]. destruct ip as [ip|]; [|done]. destruct (Z.geb_spec (strlen ip) 96); [done|].
  intros [= <-]. unfold strlen in *. rewrite c_str_idemp. lia.
Qed.

Definition admission (transport : connection_transport_kind) (s : server) (r : Z + Z * list Z) (s' : server) : Prop :=
  quiet s s' /\
  match r with
  | inl _ => server_ok [] s'
  | inr (fd, peer) => server_ok [fd] s' /\ strlen peer < 96
  end.

Lemma admit_ok outcome transport clock s :
  server_ok [] s -> wp (admit_connection outcome transport clock) (admission transport s) s.
Proof.
  intros Hs. destruct outcome as [fd family ip|errno]; [|by apply wp_ret].
  unfold admit_connection. apply wp_bind, wp_modify.
  set (peer := match peer_string family ip 96 with Some peer => peer | None => txt "unknown" end).
  assert (strlen peer < 96) as Hpeer by (unfold peer; destruct (peer_string family ip 96) eqn:Ep; [by eapply peer_string_fits|done]).
  clearbody peer. apply wp_bind.
  match goal with |- wp _ _ ?v => set (s1 := v) end.
  assert (wp (if monotonic_or_zero clock =? 0 then mret false
     else '(allowed, _) ← zoom sv_policy (fun p s => s <| sv_policy := p |>)
            (security_policy_allow_connection (Some peer) (monotonic_or_zero clock)); mret allowed)
     (fun _ s2 => exists p, policy_ok p /\ s2 = s1 <| sv_policy := p |>) s1) as Hallow.
  { apply wp_if; intros _; [apply wp_ret; exists (sv_policy s); split; [exact (so_policy _ _ Hs)|by destruct s]|].
    apply wp_bind, wp_zoom. eapply wp_mono; [apply allow_connection_spec; [exact (so_policy _ _ Hs)|apply monotonic_u64]|].
    intros [allowed t] p ((Hp & _) & _). apply wp_ret. by exists p. }
  eapply wp_mono; [exact Hallow|]. intros admitted s2 (p & Hp & ->). simpl.
  assert (forall event detail s0 tr, s0 = s1 <| sv_policy := p |> <| sv_trail := tr |> ->
    wp (server_audit event peer detail ;; server_call_made (ClientClose fd) ;; mret (inl 0)) (admission transport s) s0) as Hrefuse.
  { intros event detail s0 tr ->. apply wp_bind, wp_modify, wp_bind, wp_modify, wp_ret. split; [split; [|done]|].
    - simpl. rewrite !resources_app. simpl. by rewrite !app_nil_r.
    - simpl. by apply refuse_ok. }
  apply wp_if; intros _; [by apply Hrefuse with (tr := sv_trail s)|].
  apply wp_bind, wp_gets. cbn [sv_runtime s1]. simpl.
  destruct (runtime_reserve_connection (sv_runtime s)) as [[] r'] eqn:Er; apply wp_bind, wp_modify; simpl.
  - apply wp_ret. destruct (reserve_ok s fd p r' Hs Hp Er) as [H1 H2]. split; [split; [|done]|done].
    simpl. rewrite resources_app. simpl. by rewrite app_nil_r.
  - assert (r' = sv_runtime s) as -> by (unfold runtime_reserve_connection in Er; case_match; by simplify_eq).
    apply Hrefuse with (tr := sv_trail s). by destruct s.
Qed.

Lemma start_worker_ok fd peer transport allocated created s :
  server_ok [fd] s -> strlen peer < 96 -> times is_release (sv_calls s) = 0 ->
  wp (start_worker fd peer transport allocated created) (fun r s' => server_ok [] s' /\ quiet s s') s.
Proof.
  intros Hs Hpeer Hrel.
  assert (forall l, quiet s (s <| sv_calls := sv_calls s ++ [ClientClose fd] |> <| sv_runtime := runtime_release_connection (sv_runtime s) |> <| sv_trail := l |>)) as Hq.
  { intros l. split; simpl; [by rewrite resources_app, app_nil_r|]. unfold runtime_release_connection. by case_match. }
  unfold start_worker. apply wp_if; intros _.
  { apply wp_bind, wp_modify, wp_bind, wp_modify, wp_ret. split; [exact (give_back_ok s fd (sv_trail s) Hs)|exact (Hq (sv_trail s))]. }
  apply wp_bind. eapply wp_lift; [apply store_str_Some; lia|]. apply wp_if; intros _.
  { apply wp_bind, wp_modify, wp_bind, wp_modify, wp_bind, wp_modify, wp_ret. split; [exact (give_back_ok s fd _ Hs)|exact (Hq _)]. }
  apply wp_bind, wp_modify, wp_bind, wp_modify, wp_ret. split; [exact (started_ok s fd _ _ Hs Hrel)|].
  split; [|done]. simpl. by rewrite resources_app, app_nil_r.
Qed.

Definition arrival_ok (a : arrival) : Prop := Forall step_ok (ar_between a).

Lemma accept_connection_ok transport a s :
  server_ok [] s -> times is_release (sv_calls s) = 0 -> arrival_ok a ->
  wp (accept_connection transport a) (fun _ s' => server_ok [] s' /\ quiet s s') s.
Proof.
  intros Hs Hrel Ha. apply wp_bind. eapply wp_mono; [by apply admit_ok|]. intros r s1 [Q1 H1].
  apply wp_bind. destruct r as [r|[fd peer]].
  - eapply wp_mono; [by apply workers_act_ok|]. intros [] s2 [Hs2 Q2]. apply wp_ret. split; [done|by etrans].
  - destruct H1 as [H1 Hpeer]. eapply wp_mono; [by apply workers_act_ok|]. intros [] s2 [Hs2 Q2].
    assert (quiet s s2) as Q by by etrans. eapply wp_mono; [apply start_worker_ok; [done|done|]|].
    { by rewrite (quiet_releases _ _ Q). }
    intros r s3 [Hs3 Q3]. split; [done|by etrans].
Qed.

(** ** The loop *)

Definition listener_event_ok (e : listener_event) : Prop := Forall step_ok (le_before e) /\ arrival_ok (le_arrival e).
Definition round_ok (r : poll_round) : Prop :=
  Forall step_ok (rd_before r) /\ match rd_poll r with PollReady events => Forall listener_event_ok events | _ => True end.

Lemma hd_event_ok events : Forall listener_event_ok events -> listener_event_ok (hd quiet_listener events) /\ Forall listener_event_ok (tl events).
Proof. intros []; [|done]. split; [split; constructor|constructor]. Qed.

Lemma serve_listeners_ok listeners events s :
  server_ok [] s -> times is_release (sv_calls s) = 0 -> Forall listener_event_ok events ->
  wp (serve_listeners listeners events) (fun _ s' => server_ok [] s' /\ quiet s s') s.
Proof.
  revert events s. induction listeners as [|[fd transport] listeners IH]; intros events s Hs Hrel Hev; [by apply wp_ret|].
  destruct (hd_event_ok _ Hev) as [[Hb Ha] Htl]. simpl. apply wp_bind.
  eapply wp_mono; [by apply workers_act_ok|]. intros [] s1 [Hs1 Q1].
  assert (forall s2, server_ok [] s2 -> quiet s s2 ->
    wp (server_audit (txt "listener_failure") (txt "local") (transport_label transport) ;; mret true) (fun _ s' => server_ok [] s' /\ quiet s s') s2) as Hfail.
  { intros s2 Hs2 [Q2 Q3]. apply wp_bind, wp_modify, wp_ret. split; [by apply trail_ok|by split]. }
  assert (forall s2, server_ok [] s2 -> quiet s s2 ->
    wp (serve_listeners listeners (tl events)) (fun _ s' => server_ok [] s' /\ quiet s s') s2) as Hgo.
  { intros s2 Hs2 Q2. eapply wp_mono; [apply IH; [done| |done]|]; [by rewrite (quiet_releases _ _ Q2)|].
    intros b s3 [Hs3 Q3]. split; [done|by etrans]. }
  apply wp_if; intros _; [by apply Hfail|]. apply wp_if; intros _; [|by apply Hgo].
  apply wp_bind. eapply wp_mono; [apply accept_connection_ok; [done| |done]|]; [by rewrite (quiet_releases _ _ Q1)|].
  intros r s2 [Hs2 Q2]. assert (quiet s s2) by by etrans. apply wp_if; intros _; [by apply Hfail|by apply Hgo].
Qed.

Lemma listen_loop_ok listeners rounds s :
  server_ok [] s -> times is_release (sv_calls s) = 0 -> Forall round_ok rounds ->
  wp (listen_loop listeners rounds) (fun _ s' => server_ok [] s' /\ quiet s s') s.
Proof.
  intros Hs Hrel Hr. revert s Hs Hrel. induction Hr as [|r rounds [Hb Hp] _ IH]; intros s Hs Hrel; [by apply wp_ret|].
  simpl. apply wp_bind. eapply wp_mono; [by apply workers_act_ok|]. intros [] s1 [Hs1 Q1].
  assert (forall s2, server_ok [] s2 -> quiet s s2 -> wp (listen_loop listeners rounds) (fun _ s' => server_ok [] s' /\ quiet s s') s2) as Hgo.
  { intros s2 Hs2 Q2. eapply wp_mono; [apply IH; [done|]|]; [by rewrite (quiet_releases _ _ Q2)|].
    intros b s3 [Hs3 Q3]. split; [done|by etrans]. }
  apply wp_if; intros _; [by apply wp_ret|]. destruct (rd_poll r) as [errno| |events]; [| by apply Hgo|].
  - apply wp_if; intros _; [by apply Hgo|]. destruct Q1. apply wp_bind, wp_modify, wp_ret. split; [by apply trail_ok|by split].
  - apply wp_bind. eapply wp_mono; [apply serve_listeners_ok; [done| |done]|]; [by rewrite (quiet_releases _ _ Q1)|].
    intros fatal s2 [Hs2 Q2]. assert (quiet s s2) by by etrans. apply wp_if; intros _; [by apply wp_ret|by apply Hgo].
Qed.

(** Whether [n] workers end in the course of [wakes]. *)
Fixpoint drains (wakes : list worker_step) (n : nat) : bool :=
  match n, wakes with
  | O, _ => true
  | S _, [] => false
  | S m, Exits i :: wakes => drains wakes (if bool_decide (i < n)%nat then m else n)
  | S _, Calls _ :: wakes => drains wakes n
  end.

Lemma worker_acts_live m s :
  wp (worker_acts m) (fun _ s' => length (sv_live s') =
    match m with Exits i => if bool_decide (i < length (sv_live s))%nat then pred (length (sv_live s)) else length (sv_live s) | Calls _ => length (sv_live s) end) s \/
  worker_acts m s = None.
Proof.
  destruct m as [i|e].
  - left. apply wp_bind, wp_gets. destruct (sv_live s !! i) as [fd|] eqn:Ei.
    + apply wp_bind, wp_modify, wp_bind, wp_modify, wp_modify. simpl. pose proof (lookup_lt_Some _ _ _ Ei).
      rewrite bool_decide_true by done. rewrite length_delete by done. lia.
    + apply wp_ret. rewrite bool_decide_false; [done|]. by apply Nat.nlt_ge, lookup_ge_None.
  - unfold worker_acts, wp, mbind, M_bind, zoom, mret, M_ret. destruct (policy_step e (sv_policy s)) as [[r p]|]; [by left|by right].
Qed.

Lemma wait_ok wakes s :
  server_ok [] s -> Forall step_ok wakes ->
  wp (runtime_wait_for_workers wakes) (fun b s' => server_ok [] s' /\ quiet s s' /\ b = drains wakes (length (sv_live s)) /\
    (b = true <-> sv_live s' = [])) s.
Proof.
  intros Hs Hw. revert s Hs. induction Hw as [|m wakes Hm _ IH]; intros s Hs; simpl; apply wp_bind, wp_gets; unfold workers_done;
    rewrite (so_active _ _ Hs); simpl; destruct (sv_live s) as [|fd live] eqn:El; simpl.
  - by apply wp_ret.
  - apply wp_ret. rewrite El. by split_and!.
  - by apply wp_ret.
  - apply wp_bind. pose proof (worker_acts_ok [] m s Hs Hm) as HK.
    destruct (worker_acts_live m s) as [HL|HN]; unfold wp in *; [|by rewrite HN in HK].
    destruct (worker_acts m s) as [[[] s1]|]; [|done]. destruct HK as [Hs1 Q1]. pose proof (IH s1 Hs1) as HI.
    destruct (runtime_wait_for_workers wakes s1) as [[b s2]|]; [|done]. destruct HI as (H1 & Q2 & -> & H3).
    split; [done|]. split; [by etrans|]. split; [|done]. rewrite HL, El. destruct m; simpl; [|done]. by case_bool_decide.
Qed.

(** ** Listeners *)

(** How many sockets [fd] opened for listening are not closed. *)
Definition listening (fd : Z) (calls : list server_call) : Z :=
  times (is_call (ListenerOpen fd)) calls - times (is_call (ListenerClose fd)) calls.

Lemma listening_app fd a b : listening fd (a ++ b) = listening fd a + listening fd b.
Proof. unfold listening. rewrite !times_app. lia. Qed.

Definition listener_ok (o : listener_outcome) : Prop := match lo_socket o with inl fd => 0 <= fd | inr _ => True end.

(** A call on a listener, bound only to the loopback addresses. *)
Definition listener_call (ports : list Z) (c : server_call) : Prop :=
  match c with
  | ListenerOpen _ | ListenerClose _ => True
  | ListenerBind _ address port => (address = INADDR_LOOPBACK \/ address = in6addr_loopback) /\ port ∈ ports
  | _ => False
  end.

(** [more] are calls on listeners that leave [fds] open. *)
Record opens (ports : list Z) (fds : list Z) (more : list server_call) : Prop := mk_opens {
  op_calls : Forall (listener_call ports) more;
  op_open : forall fd, listening fd more = occurrences fd fds
}.

Lemma opens_app ports a b m n : opens ports a m -> opens ports b n -> opens ports (a ++ b) (m ++ n).
Proof.
  intros [A1 A2] [B1 B2]. split; [by apply Forall_app|]. intros fd. by rewrite listening_app, occurrences_app, A2, B2.
Qed.

Lemma opens_none ports calls : opens ports [] calls -> forall fd, listening fd calls = 0.
Proof. intros [_ H] fd. by rewrite H. Qed.

(** The call only adds [more]. *)
Definition adds (more : list server_call) (s s' : server) : Prop := s' = s <| sv_calls := sv_calls s ++ more |>.

Lemma adds_app a b s s1 s2 : adds a s s1 -> adds b s1 s2 -> adds (a ++ b) s s2.
Proof. unfold adds. intros -> ->. simpl. by rewrite app_assoc. Qed.

Lemma adds_nil s : adds [] s s.
Proof. unfold adds. rewrite app_nil_r. by destruct s. Qed.

Lemma opens_closed ports fd binds : Forall (listener_call ports) binds -> (forall c, c ∈ binds -> exists a p, c = ListenerBind fd a p) ->
  opens ports [] ([ListenerOpen fd] ++ binds ++ [ListenerClose fd]) /\ opens ports [fd] ([ListenerOpen fd] ++ binds).
Proof.
  intros Hb Hc. assert (forall fd', listening fd' binds = 0) as H0.
  { intros fd'. unfold listening. rewrite !times_none; [done| |]; apply Forall_forall; intros c Hin; apply elem_of_list_In in Hin || idtac;
      destruct (Hc c Hin) as (a & p & ->); apply bool_decide_false; done. }
  split; split.
  - repeat (apply Forall_app; split); try done; by repeat constructor.
  - intros fd'. rewrite !listening_app, H0. unfold listening. rewrite !times_one. unfold is_call. repeat case_bool_decide; simplify_eq; done.
  - apply Forall_app; split; [by repeat constructor|done].
  - intros fd'. rewrite listening_app, H0, occurrences_one. unfold listening. rewrite !times_one. unfold is_call.
    destruct (Z.eqb_spec fd fd'); repeat case_bool_decide; simplify_eq; done.
Qed.

Lemma listener_spec family port optional o s ports :
  listener_ok o -> port ∈ ports ->
  wp (create_loopback_listener family port optional o) (fun r s' => exists more, adds more s s' /\
    ((r = LISTENER_UNAVAILABLE \/ r = -1) /\ opens ports [] more \/ 0 <= r /\ opens ports [r] more)) s.
Proof.
  intros Ho Hport. unfold create_loopback_listener, listener_ok in *. destruct (lo_socket o) as [fd|errno].
  2: { apply wp_ret. exists []. split; [apply adds_nil|]. left. split; [case_match; auto|]. by split. }
  apply wp_bind, wp_modify. set (s1 := set_field sv_calls _ s). assert (adds [ListenerOpen fd] s s1) as A1 by done. clearbody s1.
  assert (forall r, r = LISTENER_UNAVAILABLE \/ r = -1 -> forall binds s2, adds ([ListenerOpen fd] ++ binds) s s2 ->
    Forall (listener_call ports) binds -> (forall c, c ∈ binds -> exists a p, c = ListenerBind fd a p) ->
    wp (server_call_made (ListenerClose fd) ;; mret r) (fun r s' => exists more, adds more s s' /\
      ((r = LISTENER_UNAVAILABLE \/ r = -1) /\ opens ports [] more \/ 0 <= r /\ opens ports [r] more)) s2) as Hgive.
  { intros r Hr binds s2 A2 Hb Hc. apply wp_bind, wp_modify, wp_ret. exists ([ListenerOpen fd] ++ binds ++ [ListenerClose fd]).
    split; [rewrite app_assoc; exact (adds_app _ _ _ _ _ A2 eq_refl)|]. left. split; [done|]. by apply opens_closed. }
  assert (forall (b : bool), (if b then LISTENER_UNAVAILABLE else -1) = LISTENER_UNAVAILABLE \/ (if b then LISTENER_UNAVAILABLE else -1) = -1) as Hr
    by (intros []; auto).
  assert (forall address, address = INADDR_LOOPBACK \/ address = in6addr_loopback ->
    wp (server_call_made (ListenerBind fd address port) ;;
        match lo_bind o with
        | Some errno => server_call_made (ListenerClose fd) ;; mret (if optional && ipv6_unavailable_error errno then LISTENER_UNAVAILABLE else -1)
        | None => if negb (lo_listen o) then server_call_made (ListenerClose fd) ;; mret (-1) else mret fd
        end) (fun r s' => exists more, adds more s s' /\
      ((r = LISTENER_UNAVAILABLE \/ r = -1) /\ opens ports [] more \/ 0 <= r /\ opens ports [r] more)) s1) as Hbind.
  { intros address Ha. apply wp_bind, wp_modify. set (s2 := set_field sv_calls _ s1).
    assert (adds ([ListenerOpen fd] ++ [ListenerBind fd address port]) s s2) as A2 by exact (adds_app _ _ _ _ _ A1 eq_refl). clearbody s2.
    assert (Forall (listener_call ports) [ListenerBind fd address port]) as Hb by (apply Forall_singleton; by split).
    assert (forall c, c ∈ [ListenerBind fd address port] -> exists a p, c = ListenerBind fd a p) as Hc
      by (intros c ->%list_elem_of_singleton; by eexists _, _).
    destruct (lo_bind o); [by apply (Hgive _ (Hr _) _ s2 A2)|]. apply wp_if; intros _; [by apply (Hgive _ (or_intror eq_refl) _ s2 A2)|].
    apply wp_ret. exists ([ListenerOpen fd] ++ [ListenerBind fd address port]). split; [done|]. right. split; [done|]. by apply opens_closed. }
  assert (forall c, c ∈ [] -> exists a p, c = ListenerBind fd a p) as Hnone by (intros c Hin; by apply not_elem_of_nil in Hin).
  apply wp_if; intros _; [by apply (Hgive _ (or_intror eq_refl) [])|].
  apply wp_if; intros _; [apply Hbind; by left|]. apply wp_if; intros _; [|by apply (Hgive _ (or_intror eq_refl) [])].
  destruct (lo_v6only o); [by apply (Hgive _ (Hr _) [])|]. apply Hbind. by right.
Qed.

Definition fds_of (l : list (Z * connection_transport_kind)) : list Z := map fst l.

Lemma open_listeners_ok specs kernel open s ports before s0 :
  Zlen open + Zlen specs <= MAX_LISTENER_SOCKETS -> Forall listener_ok kernel -> Forall (fun '(_, port, _, _) => port ∈ ports) specs ->
  Forall (fun fd => 0 <= fd) (fds_of open) -> adds before s0 s -> opens ports (fds_of open) before ->
  wp (open_listeners specs kernel open) (fun r s' => exists more, adds more s0 s' /\ opens ports (fds_of r.1) more /\
    Forall (fun fd => 0 <= fd) (fds_of r.1)) s.
Proof.
  revert kernel open s before. induction specs as [|[[[family port] transport] optional] specs IH];
    intros kernel open s before Hn Hk Hp Hfd Ha Ho; [by apply wp_ret; exists before|].
  apply Forall_cons in Hp as [Hport Hp]. simpl in Hn, Hport |- *. apply wp_bind, wp_lift with tt.
  { by destruct (Z.ltb_spec (Zlen open) MAX_LISTENER_SOCKETS); [|lia]. }
  assert (listener_ok (hd (mk_listener (inr EADDRNOTAVAIL) true None None true) kernel) /\ Forall listener_ok (tl kernel)) as [Hh Ht]
    by (by destruct Hk).
  apply wp_bind. eapply wp_mono; [by apply (listener_spec _ _ _ _ _ ports)|]. intros fd s1 (more & A1 & H1).
  pose proof (adds_app _ _ _ _ _ Ha A1) as A2.
  assert (fd < 0 -> opens ports (fds_of open) (before ++ more)) as Hneg.
  { intros Hneg. destruct H1 as [[_ H1]|[? _]]; [|lia]. pose proof (opens_app _ _ _ _ _ Ho H1) as H2. by rewrite app_nil_r in H2. }
  apply wp_if; intros Hb.
  { apply wp_ret. exists (before ++ more). split_and!; [done| |done]. apply Hneg. destruct optional; lia. }
  apply wp_if; intros Hge.
  - apply (IH _ _ _ (before ++ more)); try done.
    + rewrite length_app. simpl. lia.
    + unfold fds_of. rewrite map_app. apply Forall_app. split; [done|]. simpl. constructor; [lia|done].
    + unfold fds_of. rewrite map_app. apply opens_app; [done|]. destruct H1 as [[[-> | ->] _]|[_ H1]]; [done|done|exact H1].
  - apply (IH _ _ _ (before ++ more)); try done; [lia|]. apply Hneg. lia.
Qed.

Definition closing (l : list (Z * connection_transport_kind)) : list server_call := map (fun fd => ListenerClose fd) (fds_of l).

Lemma close_listeners_adds l s : Forall (fun fd => 0 <= fd) (fds_of l) -> wp (close_listeners l) (fun _ s' => adds (closing l) s s') s.
Proof.
  unfold close_listeners. revert s. induction l as [|[fd transport] l IH]; intros s Hl; [apply wp_ret, adds_nil|].
  apply Forall_cons in Hl as [Hfd Hl]. simpl in Hfd. simpl. apply wp_bind, wp_when; intros Hb; [|lia].
  apply wp_modify. eapply wp_mono; [by apply IH|]. intros [] s' A. exact (adds_app [ListenerClose fd] _ _ _ _ eq_refl A).
Qed.

Lemma closing_listening l fd : listening fd (closing l) = - occurrences fd (fds_of l).
Proof.
  induction l as [|[x t] l IH]; [done|]. change (closing ((x, t) :: l)) with ([ListenerClose x] ++ closing l).
  change (fds_of ((x, t) :: l)) with ([x] ++ fds_of l). rewrite listening_app, occurrences_app, IH, occurrences_one.
  unfold listening. rewrite !times_one. unfold is_call. destruct (Z.eqb_spec x fd); repeat case_bool_decide; simplify_eq; lia.
Qed.

Definition server_ports (c : secure_server_config) : list Z := [telnet_port c; telnet_tls_port c; ssh_port c].

(** Listeners are bound only to the loopback addresses, on the configured ports. *)
Definition loopback_call (c : secure_server_config) (call : server_call) : Prop :=
  match call with
  | ListenerBind _ address port => (address = INADDR_LOOPBACK \/ address = in6addr_loopback) /\ port ∈ server_ports c
  | _ => True
  end.
Definition loopback_only (c : secure_server_config) (calls : list server_call) : Prop := Forall (loopback_call c) calls.

Lemma loopback_resources c calls : loopback_only c (resources calls) <-> loopback_only c calls.
Proof.
  unfold loopback_only, resources. rewrite !Forall_forall. setoid_rewrite list_elem_of_filter. split; [|by intros H x [_ Hx]; apply H].
  intros H x Hx. destruct x; try done. by apply (H (ListenerBind fd address port)).
Qed.

(** ** The run by lists of objects

    The same run as [secure_server_run], written with the list of the objects
    made so far instead of the three labels: what has been made is released, in
    the order of the labels.  [run_by_lists] shows that it is the same
    function. *)

Section by_lists.
Abbreviation Srv := (M server).

Definition release_all (made : list shared_object) : Srv unit :=
  for_each [TlsContext; Store; Policy; Audit; Condition; Mutex; Ssh]
    (fun o => when (bool_decide (o ∈ made)) (server_call_made (Release o))).

Definition with_context (c : secure_server_config) (k : startup) : Srv (option Z) :=
  opened ← open_listeners (listener_specs (telnet_port c) (telnet_tls_port c) (ssh_port c)) (su_listeners k) [];
  let '(listeners, ok) := opened in
  if negb ok then close_listeners listeners ;; mret (Some (-1)) else serve c k listeners.

(** The objects in the order they are made, each with whether that succeeds. *)
Definition server_objects (c : secure_server_config) (k : startup) : list (shared_object * bool) :=
  (if negb (ssh_port c =? 0) then [(Ssh, su_ssh_init k)] else []) ++
  [(Mutex, su_mutex k); (Condition, su_condition k); (Audit, su_audit k); (Policy, su_policy k); (Store, su_store k)].

(** Make them in turn; the objects made, and whether all were. *)
Fixpoint acquire_objects (objects : list (shared_object * bool)) (made : list shared_object) : Srv (list shared_object * bool) :=
  match objects with
  | [] => mret (made, true)
  | (o, ok) :: objects =>
      if negb ok then mret (made, false)
      else server_call_made (Acquire o) ;; acquire_objects objects (made ++ [o])
  end.

Definition run_objects (c : secure_server_config) (k : startup) : Srv (option Z) :=
  acquired ← acquire_objects (server_objects c k) [];
  let '(made, ok) := acquired in
  if negb ok then release_all made ;; mret (Some (-1))
  else
    ready ← create_tls_context (su_context k);
    if negb (ready : bool) then release_all made ;; mret (Some (-1))
    else
      status ← with_context c k;
      match status with
      | None => mret None
      | Some status => release_all (TlsContext :: made) ;; mret (Some status)
      end.

Lemma closed_listeners (listeners : list (Z * connection_transport_kind)) s :
  close_listeners (map (fun l => (-1, snd l)) listeners) s = Some (tt, s).
Proof. induction listeners as [|[fd t] listeners IH]; [done|]. exact IH. Qed.

(** From the TLS context on, with all objects made. *)
Lemma run_tail c k (ssh : bool) s :
  let made := (if ssh then [Ssh] else []) ++ [Mutex; Condition; Audit; Policy; Store] in
  (ready ← create_tls_context (su_context k);
   if negb (ready : bool) then release_all made ;; mret (Some (-1))
   else
     status ← with_context c k;
     match status with
     | None => mret None
     | Some status => release_all (TlsContext :: made) ;; mret (Some status)
     end) s =
  (context ← create_tls_context (su_context k);
   if negb (context : bool) then cleanup [] false true true true ssh ;; mret (Some (-1))
   else
     opened ← open_listeners (listener_specs (telnet_port c) (telnet_tls_port c) (ssh_port c)) (su_listeners k) [];
     let '(listeners, ok) := opened in
     if negb ok then cleanup listeners true true true true ssh ;; mret (Some (-1))
     else
       status ← serve c k listeners;
       match status with
       | None => mret None
       | Some exit_status => cleanup (map (fun l => (-1, snd l)) listeners) true true true true ssh ;; mret (Some exit_status)
       end) s.
Proof.
  unfold with_context, mbind, M_bind. destruct (create_tls_context _ s) as [[[] s1]|]; [|by destruct ssh|done]. cbn [negb].
  destruct (open_listeners _ _ _ s1) as [[[listeners []] s2]|]; cbn [negb]; [| |done].
  - destruct (serve _ _ _ s2) as [[[v|] s3]|]; [|done..]. unfold cleanup, mbind, M_bind. rewrite closed_listeners. by destruct ssh.
  - unfold cleanup, mbind, M_bind. destruct (close_listeners listeners s2) as [[[] s3]|]; [|done]. by destruct ssh.
Qed.

Lemma run_by_lists c k s :
  run_objects c k s =
  (if negb (ssh_port c =? 0)
   then if negb (su_ssh_init k) then mret (Some (-1)) else server_call_made (Acquire Ssh) ;; run_initialized c k true
   else run_initialized c k false) s.
Proof.
  unfold run_objects, server_objects, run_initialized.
  destruct (ssh_port c =? 0); cbn [negb app acquire_objects]; [|destruct (su_ssh_init k); [|reflexivity]];
    (destruct (su_mutex k); [|reflexivity]); (destruct (su_condition k); [|reflexivity]);
    (destruct (su_audit k); [|reflexivity]); (destruct (su_policy k); [|reflexivity]); (destruct (su_store k); [|reflexivity]).
  - exact (run_tail c k false _).
  - exact (run_tail c k true _).
Qed.
End by_lists.

(** ** Shared objects *)

Lemma nodup_objects (l : list shared_object) : bool_decide (NoDup l) = true -> NoDup l.
Proof. apply bool_decide_eq_true_1. Qed.

(** The objects of [kept] were made and not released, the others released as
    often as they were made. *)
Definition holds (kept : shared_object -> bool) (calls : list server_call) : Prop :=
  forall o, times (is_call (Acquire o)) calls = times (is_call (Release o)) calls + (if kept o then 1 else 0).

Definition among (made : list shared_object) (o : shared_object) : bool := bool_decide (o ∈ made).

Lemma acquire_ok objects made s :
  server_ok [] s -> times is_release (sv_calls s) = 0 -> holds (among made) (sv_calls s) -> NoDup (made ++ objects.*1) ->
  wp (acquire_objects objects made) (fun r s' => exists more, adds more s s' /\ server_ok [] s' /\ times is_release (sv_calls s') = 0 /\
    holds (among r.1) (sv_calls s') /\ (forall fd, listening fd (sv_calls s') = listening fd (sv_calls s)) /\
    (forall o, o ∈ r.1 -> o ∈ made ++ objects.*1) /\ (forall c, loopback_only c more)) s.
Proof.
  revert made s. induction objects as [|[o ok] objects IH]; intros made s Hs Hrel Hh Hd.
  { apply wp_ret. exists []. split_and!; try done; [apply adds_nil|..]; [|constructor]. intros o Ho. simpl. by rewrite app_nil_r. }
  simpl. apply wp_if; intros _.
  { apply wp_ret. exists []. split_and!; try done; [apply adds_nil|..]; [|constructor]. intros o' Ho. apply elem_of_app. by left. }
  assert (o ∉ made) as Hfresh.
  { apply NoDup_app in Hd as (_ & Hd & _). intros Hin. apply (Hd o Hin). simpl. by left. }
  apply wp_bind, wp_modify. eapply wp_mono; [apply (IH (made ++ [o]))|].
  - by apply neutral_ok.
  - simpl. by rewrite times_app, Hrel.
  - intros o'. simpl. rewrite !times_app, !times_one, Hh. unfold is_call, among. rewrite (bool_decide_ext (o' ∈ made ++ [o]) (o' ∈ made \/ o' = o))
      by (by rewrite elem_of_app, list_elem_of_singleton).
    destruct (decide (o' = o)) as [->|Hne]; repeat case_bool_decide; simplify_eq; try done; try tauto; lia.
  - by rewrite <- app_assoc.
  - intros r s' (more & A & H1 & H2 & H3 & H4 & H5 & H6). exists ([Acquire o] ++ more). split_and!; try done.
    + exact (adds_app _ _ _ _ _ eq_refl A).
    + intros fd. rewrite H4. simpl. rewrite listening_app. unfold listening. rewrite !times_one. simpl. lia.
    + intros o' Ho'. specialize (H5 o' Ho'). by rewrite <- app_assoc in H5.
    + intros c. constructor; [done|apply H6].
Qed.

Lemma release_ok made s l :
  server_ok [] s -> sv_live s = [] -> NoDup l -> holds (fun o => among l o && among made o) (sv_calls s) ->
  wp (for_each l (fun o => when (bool_decide (o ∈ made)) (server_call_made (Release o)))) (fun _ s' => exists more, adds more s s' /\
    server_ok [] s' /\ holds (fun _ => false) (sv_calls s') /\ (forall fd, listening fd (sv_calls s') = listening fd (sv_calls s)) /\
    (forall c, loopback_only c more)) s.
Proof.
  revert s. induction l as [|o l IH]; intros s Hs Hl Hd Hh.
  { apply wp_ret. exists []. split_and!; try done; [apply adds_nil|constructor]. }
  apply NoDup_cons in Hd as [Hin Hd]. simpl. apply wp_bind, wp_when; intros Hb; [apply wp_modify|].
  - apply bool_decide_eq_true in Hb. eapply wp_mono; [apply IH; [by apply neutral_ok|done|done|]|].
    + intros o'. simpl. rewrite !times_app, !times_one, Hh. unfold is_call, among.
      rewrite (bool_decide_ext (o' ∈ o :: l) (o' = o \/ o' ∈ l)) by set_solver.
      destruct (decide (o' = o)) as [->|Hne]; repeat case_bool_decide; simplify_eq; simpl; try done; try tauto; lia.
    + intros [] s' (more & A & H1 & H2 & H3 & H4). exists ([Release o] ++ more).
      split_and!; [exact (adds_app _ _ _ _ _ eq_refl A)|done|done| |intros c; constructor; [done|apply H4]]. intros fd. rewrite H3. simpl. rewrite listening_app. unfold listening. rewrite !times_one. simpl. lia.
  - apply bool_decide_eq_false in Hb. apply IH; [done|done|done|]. intros o'. rewrite Hh. unfold among.
    rewrite (bool_decide_ext (o' ∈ o :: l) (o' = o \/ o' ∈ l)) by set_solver.
    destruct (decide (o' = o)) as [->|Hne]; repeat case_bool_decide; simpl; try done; tauto.
Qed.

(** ** The whole run *)

Lemma resources_listeners ports calls : Forall (listener_call ports) calls -> resources calls = calls.
Proof.
  induction 1 as [|c l Hc _ IH]; [done|]. unfold resources in *. rewrite filter_cons, IH. by destruct c.
Qed.

Lemma listening_resources fd calls : listening fd (resources calls) = listening fd calls.
Proof. unfold listening. rewrite !times_resources; [done| |]; intros c ->%bool_decide_eq_true; done. Qed.

Lemma holds_resources kept calls : holds kept (resources calls) <-> holds kept calls.
Proof.
  unfold holds. split; intros H o; specialize (H o); rewrite !times_resources in *; try done; intros c ->%bool_decide_eq_true; done.
Qed.

Lemma neutral_adds held s more :
  server_ok held s -> Forall (fun c => neutral c = true /\ is_release c = false) more -> server_ok held (s <| sv_calls := sv_calls s ++ more |>).
Proof.
  intros Hs Hm. revert s Hs. induction Hm as [|c more [H1 H2] _ IH]; intros s Hs; [rewrite app_nil_r; by destruct s|].
  change (c :: more) with ([c] ++ more). rewrite app_assoc.
  assert (server_ok held (s <| sv_calls := sv_calls s ++ [c] |>)) as H3 by (apply neutral_ok; [done|done|]; by rewrite H2).
  exact (IH _ H3).
Qed.

Lemma listener_neutral ports more : Forall (listener_call ports) more -> Forall (fun c => neutral c = true /\ is_release c = false) more.
Proof. intros H. eapply Forall_impl; [exact H|]. by intros []. Qed.

Lemma closing_calls ports l : Forall (listener_call ports) (closing l).
Proof. unfold closing. by induction (fds_of l); constructor. Qed.

Definition startup_ok (k : startup) : Prop :=
  Forall listener_ok (su_listeners k) /\ Forall round_ok (su_rounds k) /\ Forall step_ok (su_wakes k).

Lemma serve_ok c k ls s :
  startup_ok k -> server_ok [] s -> times is_release (sv_calls s) = 0 -> Forall (fun fd => 0 <= fd) (fds_of ls) ->
  wp (serve c k ls) (fun r s' => server_ok [] s' /\ resources (sv_calls s') = resources (sv_calls s) ++ closing ls /\
    (r = None <-> sv_live s' <> []) /\
    match r with Some v => v = 0 \/ v = -1 | None => True end) s.
Proof.
  intros (_ & Hr & Hw) Hs Hrel Hls. unfold serve. apply wp_bind, wp_modify.
  apply wp_bind. eapply wp_mono; [apply listen_loop_ok; [by apply trail_ok|done|done]|]. intros stopped s1 [Hs1 [Q1 _]]. simpl in Q1.
  apply wp_bind, wp_modify. set (s2 := set_field sv_runtime _ s1). assert (server_ok [] s2) as Hs2 by by destruct Hs1.
  assert (resources (sv_calls s2) = resources (sv_calls s)) as Q2 by done. clearbody s2.
  apply wp_bind. eapply wp_mono; [by apply close_listeners_adds|]. intros [] s3 ->.
  assert (server_ok [] (s2 <| sv_calls := sv_calls s2 ++ closing ls |>)) as Hs3
    by (apply neutral_adds; [done|]; apply (listener_neutral []), closing_calls).
  apply wp_bind. eapply wp_mono; [apply wait_ok; [exact Hs3|done]|]. intros drained s4 (Hs4 & [Q4 _] & _ & Hd).
  simpl in Q4. rewrite resources_app, (resources_listeners [] _ (closing_calls _ _)), Q2 in Q4.
  apply wp_if; intros Hb.
  - apply wp_ret. split_and!; [done|done| |done]. split; [intros _ Hn; apply Hd in Hn; by subst drained|done].
  - apply wp_bind, wp_modify, wp_ret. split_and!; [by apply trail_ok|done| |case_match; auto]. simpl. split; [done|]. intros Hn. destruct drained; [|done]. destruct Hn. by apply Hd.
Qed.

Lemma with_context_ok c k s :
  startup_ok k -> server_ok [] s -> times is_release (sv_calls s) = 0 -> sv_live s = [] ->
  wp (with_context c k) (fun r s' => server_ok [] s' /\ (r = None <-> sv_live s' <> []) /\
    (exists more, resources (sv_calls s') = resources (sv_calls s) ++ more /\ opens (server_ports c) [] more) /\
    match r with Some v => v = 0 \/ v = -1 | None => True end) s.
Proof.
  intros Hk Hs Hrel Hl. unfold with_context. apply wp_bind. eapply wp_mono.
  { apply (open_listeners_ok _ _ [] s (server_ports c) [] s); [|apply Hk| |constructor|apply adds_nil|by split].
    - unfold listener_specs. by destruct (ssh_port c =? 0).
    - unfold listener_specs, server_ports. destruct (ssh_port c =? 0); repeat constructor; set_solver. }
  intros [ls ok] s1 (more & -> & Ho & Hfd). simpl in Ho, Hfd.
  assert (server_ok [] (s <| sv_calls := sv_calls s ++ more |>)) as Hs1 by (apply neutral_adds; [done|]; by eapply listener_neutral, op_calls).
  assert (opens (server_ports c) [] (more ++ closing ls)) as Hclosed.
  { destruct Ho as [O1 O2]. split; [apply Forall_app; split; [done|apply closing_calls]|]. intros fd.
    rewrite listening_app, O2, closing_listening. unfold occurrences. simpl. lia. }
  apply wp_if; intros Hb.
  - apply wp_bind. eapply wp_mono; [by apply close_listeners_adds|]. intros [] s2 ->. apply wp_ret. split_and!.
    + apply neutral_adds; [done|]. apply (listener_neutral []), closing_calls.
    + simpl. split; [done|]. by rewrite Hl.
    + exists (more ++ closing ls). split; [|done]. simpl. rewrite !resources_app. rewrite (resources_listeners _ _ (op_calls _ _ _ Ho)).
      by rewrite (resources_listeners [] _ (closing_calls _ _)), app_assoc.
    + by right.
  - eapply wp_mono; [apply serve_ok; [done|done| |done]|].
    { simpl. rewrite times_app, Hrel. apply times_none. eapply Forall_impl; [apply (op_calls _ _ _ Ho)|]. by intros []. }
    intros r s2 (H1 & H2 & H3 & H4). split_and!; [done|done| |done]. exists (more ++ closing ls). split; [|done].
    rewrite H2. simpl. by rewrite resources_app, (resources_listeners _ _ (op_calls _ _ _ Ho)), app_assoc.
Qed.

Lemma context_ok c x made s :
  server_ok [] s -> times is_release (sv_calls s) = 0 -> sv_live s = [] -> holds (among made) (sv_calls s) -> TlsContext ∉ made ->
  wp (create_tls_context x) (fun r s' => server_ok [] s' /\ sv_live s' = [] /\ (forall fd, listening fd (sv_calls s') = listening fd (sv_calls s)) /\
    (loopback_only c (sv_calls s) -> loopback_only c (sv_calls s')) /\
    if r : bool then times is_release (sv_calls s') = 0 /\ holds (among (TlsContext :: made)) (sv_calls s') else holds (among made) (sv_calls s')) s.
Proof.
  intros Hs Hrel Hl Hh Hx. unfold create_tls_context. apply wp_if; intros _; [by apply wp_ret|].
  apply wp_bind, wp_modify. set (s1 := set_field sv_calls _ s). assert (server_ok [] s1) as Hs1 by by apply neutral_ok.
  assert (wp (server_call_made (Release TlsContext) ;; mret false) (fun (r : bool) s' => server_ok [] s' /\ sv_live s' = [] /\
    (forall fd, listening fd (sv_calls s') = listening fd (sv_calls s)) /\
    (loopback_only c (sv_calls s) -> loopback_only c (sv_calls s')) /\
    if r then times is_release (sv_calls s') = 0 /\ holds (among (TlsContext :: made)) (sv_calls s') else holds (among made) (sv_calls s')) s1) as Hfail.
  { apply wp_bind, wp_modify, wp_ret. split_and!; [by apply neutral_ok|done| | |].
    - intros fd. simpl. rewrite !listening_app. unfold listening. rewrite !times_one. simpl. lia.
    - intros H. repeat (apply Forall_app; split); by repeat constructor.
    - intros o. simpl. rewrite !times_app, !times_one, Hh. unfold is_call. repeat case_bool_decide; simplify_eq; lia. }
  do 4 (apply wp_if; intros _; [exact Hfail|]). apply wp_ret. split_and!; [done|done| | | |].
  - intros fd. simpl. rewrite !listening_app. unfold listening. rewrite !times_one. simpl. lia.
  - intros H. apply Forall_app; split; by repeat constructor.
  - simpl. by rewrite times_app, Hrel.
  - intros o. simpl. rewrite !times_app, !times_one, Hh. unfold is_call, among.
    rewrite (bool_decide_ext (o ∈ TlsContext :: made) (o = TlsContext \/ o ∈ made)) by set_solver.
    destruct (decide (o = TlsContext)) as [->|Hne]; repeat case_bool_decide; simplify_eq; try done; try tauto; lia.
Qed.

Lemma release_all_ok made s :
  server_ok [] s -> sv_live s = [] -> holds (among made) (sv_calls s) ->
  wp (release_all made) (fun _ s' => exists more, adds more s s' /\ server_ok [] s' /\ holds (fun _ => false) (sv_calls s') /\
    (forall fd, listening fd (sv_calls s') = listening fd (sv_calls s)) /\ (forall c, loopback_only c more)) s.
Proof.
  intros Hs Hl Hh. apply release_ok; [done|done|by apply nodup_objects|]. intros o. rewrite Hh.
  by replace (among [TlsContext; Store; Policy; Audit; Condition; Mutex; Ssh] o) with true by (by destruct o).
Qed.

(** What a start needs, in terms of the configuration and the machine: the four
    files are named and the ports are non-zero and distinct; the process is not
    root and has its signal handlers; with SSH there is an application and a
    host key, which is a regular file of this user without any permission bit
    for group or others, and readable. *)
Record startup_permitted (c : secure_server_config) (k : startup) : Prop := mk_permitted {
  sp_paths : certificate_path c <> None /\ private_key_path c <> None /\ player_directory_path c <> None /\ audit_log_path c <> None;
  sp_ports : telnet_port c <> 0 /\ telnet_tls_port c <> 0 /\ telnet_port c <> telnet_tls_port c;
  sp_user : su_euid k <> 0;
  sp_signals : su_sigaction k = true;
  sp_ssh : ssh_port c <> 0 ->
    has_application c = true /\ ssh_host_key_path c <> None /\ ssh_port c <> telnet_port c /\ ssh_port c <> telnet_tls_port c /\
    exists info, su_key k = Some info /\ Z.land (st_mode info) 61440 = 32768 /\ st_uid info = su_euid k /\
      (forall bit, 0 <= bit < 6 -> Z.testbit (st_mode info) bit = false) /\ su_key_readable k = true
}.

Lemma present_iff {A} (o : option A) : present o = true <-> o <> None.
Proof. by destruct o. Qed.

Lemma validate_host_key_iff path info euid readable :
  ssh_transport_validate_host_key path info euid readable = 0 ->
  path <> None /\ exists i, info = Some i /\ Z.land (st_mode i) 61440 = 32768 /\ st_uid i = euid /\
    (forall bit, 0 <= bit < 6 -> Z.testbit (st_mode i) bit = false) /\ readable = true.
Proof.
  unfold ssh_transport_validate_host_key, S_IFMT, S_IFREG, S_IFLNK. destruct path, info as [i|]; try done.
  case_test; [done|]. intros _. split; [done|]. exists i. breflect. split_and!; try done.
  intros bit Hb. assert (Z.testbit (Z.land (st_mode i) 63) bit = false) as Ht
    by (match goal with H : Z.land _ 63 = 0 |- _ => rewrite H end; apply Z.testbit_0_l).
  rewrite Z.land_spec in Ht. change 63 with (Z.ones 6) in Ht. rewrite Z.ones_spec_low in Ht by lia. by rewrite andb_true_r in Ht.
Qed.

Lemma config_valid_permits c :
  server_config_valid c = true ->
  (certificate_path c <> None /\ private_key_path c <> None /\ player_directory_path c <> None /\ audit_log_path c <> None) /\
  (telnet_port c <> 0 /\ telnet_tls_port c <> 0 /\ telnet_port c <> telnet_tls_port c) /\
  (ssh_port c <> 0 -> has_application c = true /\ ssh_port c <> telnet_port c /\ ssh_port c <> telnet_tls_port c).
Proof.
  unfold server_config_valid. intros H. apply negb_true_iff in H. repeat (apply orb_false_iff in H as [H ?]).
  rewrite !negb_false_iff, ?present_iff in *. rewrite ?Z.eqb_neq in *. split_and!; auto. intros Hp.
  match goal with Hs : negb (ssh_port c =? 0) && _ = false |- _ => rename Hs into Hssh end.
  destruct (Z.eqb_spec (ssh_port c) 0); [done|]. simpl in Hssh. repeat (apply orb_false_iff in Hssh as [Hssh ?]).
  rewrite !negb_false_iff in *. rewrite ?Z.eqb_neq in *. by split_and!.
Qed.

Definition server_start : server := mk_server (mk_runtime 0 false) [] security_policy_create [] [].

Lemma server_start_ok : server_ok [] server_start.
Proof.
  split; simpl; try done; [apply policy_create_ok|..].
  - intros a b Hab. symmetry in Hab. by apply app_eq_nil in Hab as [-> ->].
  - intros a o b Hab. by destruct a.
Qed.

Record server_finished (c : secure_server_config) (r : option Z) (s : server) : Prop := mk_server_finished {
  sf_ok : server_ok [] s;
  sf_listeners : forall fd, listening fd (sv_calls s) = 0;
  sf_loopback : loopback_only c (sv_calls s);
  sf_waiting : r = None -> sv_live s <> [] /\ times is_release (sv_calls s) = 0;
  sf_returned : r <> None -> sv_live s = [] /\ holds (fun _ => false) (sv_calls s);
  sf_status : match r with Some v => v = 0 \/ v = -1 | None => True end
}.

Lemma finish_ok c made s v :
  server_ok [] s -> sv_live s = [] -> holds (among made) (sv_calls s) -> loopback_only c (sv_calls s) ->
  (forall fd, listening fd (sv_calls s) = 0) -> v = 0 \/ v = -1 ->
  wp (release_all made ;; mret (Some v)) (fun r s' => server_finished c r s') s.
Proof.
  intros Hs Hl Hh Hlo Hlis Hv. apply wp_bind. eapply wp_mono; [by apply release_all_ok|].
  intros [] s' (more & -> & H1 & H2 & H3 & H4). apply wp_ret. split; try done.
  - intros fd. by rewrite H3.
  - apply Forall_app. split; [done|apply H4].
Qed.

Lemma run_ok c k :
  startup_ok k ->
  wp (secure_server_run (Some c) k) (fun r s => server_finished c r s /\ (sv_calls s <> [] -> startup_permitted c k)) server_start.
Proof.
  intros Hk. assert (server_finished c (Some (-1)) server_start) as Hidle.
  { split; try done; [apply server_start_ok|constructor|by right]. }
  unfold secure_server_run. apply wp_if; intros Hc; [by apply wp_ret|]. apply wp_if; intros Hu; [by apply wp_ret|].
  apply wp_if; intros Hkey; [by apply wp_ret|]. apply wp_if; intros Hsig; [by apply wp_ret|].
  unfold wp at 1. rewrite <- run_by_lists. change (wp (run_objects c k)
    (fun r s => server_finished c r s /\ (sv_calls s <> [] -> startup_permitted c k)) server_start). unfold run_objects.
  eapply wp_mono with (Q := fun r s => server_finished c r s).
  2: { intros r s H. split; [done|]. intros _. apply negb_false_iff in Hc. destruct (config_valid_permits c Hc) as (V1 & V2 & V3).
       split; [done|done|lia|by destruct (su_sigaction k)|]. intros Hp. destruct (V3 Hp) as (V4 & V5 & V6).
       destruct (Z.eqb_spec (ssh_port c) 0); [done|]. simpl in Hkey. rewrite negb_false_iff, Z.eqb_eq in Hkey.
       by destruct (validate_host_key_iff _ _ _ _ Hkey). }
  clear Hc Hu Hkey Hsig. apply wp_bind. eapply wp_mono.
  { apply acquire_ok; [apply server_start_ok|done|by intros o|].
    unfold server_objects. by destruct (negb (ssh_port c =? 0)); apply nodup_objects. }
  intros [made ok] s1 (more & Ha & Hs1 & Hrel & Hh & Hlis & Hmade & Hlo). simpl in Hh, Hmade.
  assert (sv_live s1 = []) as Hl1 by (by rewrite Ha).
  assert (loopback_only c (sv_calls s1)) as Hlo1 by (rewrite Ha; apply Hlo).
  assert (forall fd, listening fd (sv_calls s1) = 0) as Hlis1 by (intros fd; by rewrite Hlis).
  apply wp_if; intros _; [apply finish_ok; auto|].
  apply wp_bind. eapply wp_mono; [apply (context_ok c _ made s1 Hs1 Hrel Hl1 Hh)|].
  { intros Hin. specialize (Hmade _ Hin). apply (bool_decide_eq_true_2 (TlsContext ∈ _)) in Hmade.
    unfold server_objects in Hmade. by destruct (negb (ssh_port c =? 0)). }
  intros ready s2 (Hs2 & Hl2 & Hlis2 & Hlo2 & H2). specialize (Hlo2 Hlo1).
  assert (forall fd, listening fd (sv_calls s2) = 0) as Hlis3 by (intros fd; by rewrite Hlis2).
  destruct ready; simpl; [|apply finish_ok; auto]. destruct H2 as [Hrel2 Hh2].
  apply wp_bind. eapply wp_mono; [by apply (with_context_ok c k s2)|].
  intros r s3 (Hs3 & Hlive & (calls & Hres & Ho) & Hr).
  assert (forall fd, listening fd (sv_calls s3) = 0) as Hlis4.
  { intros fd. rewrite <- listening_resources, Hres, listening_app, listening_resources, Hlis3, (opens_none _ _ Ho). done. }
  assert (loopback_only c (sv_calls s3)) as Hlo3.
  { apply loopback_resources. rewrite Hres. apply Forall_app. split; [by apply loopback_resources|].
    eapply Forall_impl; [apply (op_calls _ _ _ Ho)|]. by intros []. }
  assert (forall o, times (is_call (Acquire o)) calls = 0 /\ times (is_call (Release o)) calls = 0) as Hno.
  { intros o. split; apply times_none; (eapply Forall_impl; [apply (op_calls _ _ _ Ho)|]); by intros []. }
  assert (holds (among (TlsContext :: made)) (sv_calls s3)) as Hh3.
  { apply holds_resources. rewrite Hres. intros o. rewrite !times_app. destruct (Hno o) as [-> ->].
    apply holds_resources in Hh2. rewrite (Hh2 o). lia. }
  destruct r as [v|].
  - apply finish_ok; auto. destruct (sv_live s3) eqn:El; [done|].
    assert (Some v = None) as Hv by (apply Hlive; discriminate). done.
  - apply wp_ret. split; try done. intros _. split; [by apply Hlive|].
    rewrite <- times_resources, Hres, times_app, times_resources, Hrel2 by (by intros []).
    apply times_none. eapply Forall_impl; [apply (op_calls _ _ _ Ho)|]. by intros [].
Qed.
