(* ===== verification/ServerClaims.v ===== *)
(** What the server promises: admission, the life of the process, its tests at
    the start and its end; with a concrete server and concrete workers that
    instantiate the theorems. *)
From S2P Require Import Prelude TelnetNegotiation TerminalText AsciiText SecurityPolicy PolicyInvariant PolicyTheorems PolicyHistory.
From S2P Require Import PlayerStore PlayerStoreTheorems PlayerRecords PlayerAccounts Application.
From S2P Require Import TelnetSession TelnetOptions TelnetLogin TelnetSubnegotiation TelnetParser TelnetOutput TelnetInvariant.
From S2P Require Import TelnetDialogue TelnetTheorems TelnetClaims SshTransport SshInvariant SshClaims SecureServer ServerTheorems.
From S2P Require Import ServerRuntime ServerLife.

(** * Admission *)

(** The peer as the policy sees it. *)
Definition peer_of (family : Z) (ip : option (list Z)) : list Z :=
  match peer_string family ip 96 with Some peer => peer | None => txt "unknown" end.

(** An arrival that was allowed in: accepted at a time the clock could tell,
    admitted by the policy, and given one of the free slots of a server that is
    not stopping. *)
Definition let_in (a : arrival) (s : server) (fd : Z) (peer : list Z) : Prop :=
  exists family ip, ar_outcome a = Accepted fd family ip /\ peer = peer_of family ip /\ monotonic_or_zero (ar_clock a) <> 0 /\
    (exists retry p, security_policy_allow_connection (Some peer) (monotonic_or_zero (ar_clock a)) (sv_policy s) = Some ((true, retry), p)) /\
    stopping (sv_runtime s) = false /\ active_connections (sv_runtime s) < MAX_ACTIVE_CONNECTIONS.

Definition fatal_accept (o : accept_outcome) : Prop := exists errno, o = AcceptFailed errno /\ retryable_errno errno = false.

Lemma admit_reason transport a s :
  server_ok [] s ->
  wp (admit_connection (ar_outcome a) transport (ar_clock a)) (fun r s' => times is_start (sv_calls s') = times is_start (sv_calls s) /\
    match r with inl v => v <> 0 -> fatal_accept (ar_outcome a) | inr (fd, peer) => let_in a s fd peer end) s.
Proof.
  intros Hs. unfold let_in, fatal_accept. destruct (ar_outcome a) as [fd family ip|errno]; simpl.
  2: { apply wp_ret. split; [done|]. intros Hv. exists errno. split; [done|]. by destruct (retryable_errno errno). }
  apply wp_bind, wp_modify. fold (peer_of family ip). set (now := monotonic_or_zero (ar_clock a)). apply wp_bind.
  set (s1 := set_field sv_calls _ s).
  assert (wp (if now =? 0 then mret false
     else '(allowed, _) ← zoom sv_policy (fun p s => s <| sv_policy := p |>)
            (security_policy_allow_connection (Some (peer_of family ip)) now); mret allowed)
     (fun b s2 => sv_runtime s2 = sv_runtime s /\ sv_calls s2 = sv_calls s1 /\ (b = true -> now <> 0 /\
        exists retry p, security_policy_allow_connection (Some (peer_of family ip)) now (sv_policy s) = Some ((true, retry), p))) s1) as Hallow.
  { destruct (Z.eqb_spec now 0); [by apply wp_ret|]. apply wp_bind, wp_zoom. change (sv_policy s1) with (sv_policy s).
    pose proof (allow_connection_spec (peer_of family ip) now (sv_policy s) (so_policy _ _ Hs) (monotonic_u64 _)) as Ha. unfold wp in *.
    destruct (security_policy_allow_connection (Some (peer_of family ip)) now (sv_policy s)) as [[[allowed t] p]|]; [|done].
    cbv [mret M_ret]. split_and!; [done|done|]. intros ->. split; [done|]. by exists t, p. }
  eapply wp_mono; [exact Hallow|]. intros b s2 (Hr & Hc & Hb).
  assert (forall event detail s3, sv_calls s3 = sv_calls s1 ->
    wp (server_audit event (peer_of family ip) detail ;; server_call_made (ClientClose fd) ;; mret (inl 0)) (fun (r : Z + Z * list Z) s' =>
      times is_start (sv_calls s') = times is_start (sv_calls s) /\
      match r with inl v => v <> 0 -> exists errno, Accepted fd family ip = AcceptFailed errno /\ retryable_errno errno = false
      | inr (fd0, peer) => exists family0 ip0, Accepted fd family ip = Accepted fd0 family0 ip0 /\ peer = peer_of family0 ip0 /\ now <> 0 /\
         (exists retry p, security_policy_allow_connection (Some peer) now (sv_policy s) = Some ((true, retry), p)) /\
         stopping (sv_runtime s) = false /\ active_connections (sv_runtime s) < MAX_ACTIVE_CONNECTIONS end) s3) as Hrefuse.
  { intros event detail s3 H3. apply wp_bind, wp_modify, wp_bind, wp_modify, wp_ret. split; [|done]. simpl. rewrite H3. simpl.
    rewrite !times_app, !times_one. simpl. lia. }
  destruct b; simpl; [|by apply Hrefuse]. apply wp_bind, wp_gets. rewrite Hr. unfold runtime_reserve_connection.
  destruct (stopping (sv_runtime s)) eqn:Est; [apply wp_bind, wp_modify; by apply Hrefuse|].
  destruct (Z.ltb_spec (active_connections (sv_runtime s)) MAX_ACTIVE_CONNECTIONS); simpl; apply wp_bind, wp_modify; [|by apply Hrefuse].
  apply wp_ret. split; [simpl; rewrite Hc; simpl; rewrite times_app, times_one; simpl; lia|]. exists family, ip. destruct (Hb eq_refl). done.
Qed.

Lemma workers_act_starts l s :
  match workers_act l s with Some (_, s') => times is_start (sv_calls s') = times is_start (sv_calls s) | None => True end.
Proof.
  unfold workers_act. revert s. induction l as [|m l IH]; intros s; [done|]. simpl. unfold mbind, M_bind.
  assert (match worker_acts m s with Some (_, s') => times is_start (sv_calls s') = times is_start (sv_calls s) | None => True end) as H1.
  { destruct m as [i|e]; unfold worker_acts, mbind, M_bind, gets, zoom, mret, M_ret; simpl.
    - destruct (sv_live s !! i); [|done]. simpl. rewrite times_app, times_one. simpl. lia.
    - by destruct (policy_step e (sv_policy s)) as [[r p]|]. }
  destruct (worker_acts m s) as [[[] s1]|]; [|done]. specialize (IH s1). destruct (for_each l worker_acts s1) as [[[] s2]|]; [|done]. congruence.
Qed.

Lemma start_starts fd peer transport allocated created s :
  strlen peer < 96 ->
  wp (start_worker fd peer transport allocated created) (fun r s' => r = 0 /\
    (times is_start (sv_calls s') = times is_start (sv_calls s) \/
     times is_start (sv_calls s') = times is_start (sv_calls s) + 1 /\ last (sv_calls s') = Some (WorkerStart fd transport (c_str peer)))) s.
Proof.
  intros Hp. unfold start_worker. apply wp_if; intros _.
  { apply wp_bind, wp_modify, wp_bind, wp_modify, wp_ret. split; [done|]. left. simpl. rewrite times_app, times_one. simpl. lia. }
  apply wp_bind. eapply wp_lift; [apply store_str_Some; lia|]. apply wp_if; intros _.
  { apply wp_bind, wp_modify, wp_bind, wp_modify, wp_bind, wp_modify, wp_ret. split; [done|]. left. simpl. rewrite times_app, times_one. simpl. lia. }
  apply wp_bind, wp_modify, wp_bind, wp_modify, wp_ret. split; [done|]. right. simpl. split; [|by rewrite last_snoc].
  rewrite times_app, times_one. done.
Qed.

(** [C21] Only connections that may come in get a worker, and refusing one never
    stops the server.  Whatever [accept], the clock, the memory and the thread
    library answer, and whatever the workers do in between, serving a ready
    listener ends in a well-formed state: at most one worker is started, for
    the socket just accepted and under its peer's name, and only if the clock
    worked, the connection policy admitted that peer at that time, the server
    was not stopping and fewer than 64 workers were active.  The result is an
    error only if [accept] itself failed for good. *)
Theorem server_admission transport a s :
  server_ok [] s -> times is_release (sv_calls s) = 0 -> arrival_ok a ->
  exists r s', accept_connection transport a s = Some (r, s') /\ server_ok [] s' /\
    (r <> 0 -> fatal_accept (ar_outcome a)) /\
    (times is_start (sv_calls s') = times is_start (sv_calls s) \/
     times is_start (sv_calls s') = times is_start (sv_calls s) + 1 /\
     exists fd peer, let_in a s fd peer /\ last (sv_calls s') = Some (WorkerStart fd transport (c_str peer))).
Proof.
  intros Hs Hrel Ha. destruct (wp_run _ _ _ (accept_connection_ok transport a s Hs Hrel Ha)) as (r & s' & E1 & Hs' & _).
  exists r, s'. split; [done|]. split; [done|].
  enough (wp (accept_connection transport a) (fun r s' => (r <> 0 -> fatal_accept (ar_outcome a)) /\
    (times is_start (sv_calls s') = times is_start (sv_calls s) \/
     times is_start (sv_calls s') = times is_start (sv_calls s) + 1 /\
     exists fd peer, let_in a s fd peer /\ last (sv_calls s') = Some (WorkerStart fd transport (c_str peer)))) s) as H.
  { unfold wp in H. by rewrite E1 in H. }
  apply wp_bind. pose proof (admit_ok (ar_outcome a) transport (ar_clock a) s Hs) as H1.
  pose proof (admit_reason transport a s Hs) as H2. unfold wp in H1, H2 |- *.
  destruct (admit_connection (ar_outcome a) transport (ar_clock a) s) as [[x s1]|]; [|done].
  destruct H1 as [Q1 H1], H2 as [H2 H3]. apply wp_bind. unfold wp. pose proof (workers_act_starts (ar_between a) s1) as H4.
  destruct x as [v|[fd peer]].
  - pose proof (workers_act_ok _ _ _ H1 Ha) as H5. unfold wp in H5.
    destruct (workers_act (ar_between a) s1) as [[[] s2]|]; [|done]. split; [done|]. left. congruence.
  - destruct H1 as [H1 Hp]. pose proof (workers_act_ok _ _ _ H1 Ha) as H5. unfold wp in H5.
    destruct (workers_act (ar_between a) s1) as [[[] s2]|]; [|done]. eapply wp_mono; [by apply start_starts|].
    intros r' s3 [-> H6]. split; [done|]. destruct H6 as [H6|[H6 H7]]; [left; congruence|right]. split; [lia|]. by exists fd, peer.
Qed.

(** * The process *)

(** [C4] The server's life.  For every valid or invalid configuration, every
    answer of the system at every point, every sequence of arrivals and every
    interleaving with the workers, the run ends in a state in which: the slot
    counter is the number of running workers; every accepted socket was closed
    by the main thread or given to exactly one worker; every listener opened
    was closed; at no moment were more than 64 workers running; and no shared
    object (TLS context, store, policy, audit log, mutex, condition) was
    released while a worker was running or before the last one started.  The
    only way not to return is to wait for a worker that is still running, with
    nothing released; when it returns, no worker is left and each object made
    was released exactly once. *)
Theorem server_lifecycle c k :
  startup_ok k ->
  exists r s, secure_server_run (Some c) k server_start = Some (r, s) /\ server_ok [] s /\
    (forall fd, listening fd (sv_calls s) = 0) /\
    (r = None -> sv_live s <> [] /\ times is_release (sv_calls s) = 0) /\
    (r <> None -> sv_live s = [] /\ holds (fun _ => false) (sv_calls s)).
Proof.
  intros Hk. destruct (wp_run _ _ _ (run_ok c k Hk)) as (r & s & E1 & [] & _). by exists r, s.
Qed.

(** [C30] The server makes nothing before its tests, and listens only on
    loopback.  If the run makes any object or socket at all, the configuration
    names its files and has distinct non-zero ports, the process is not root,
    and with SSH enabled there is an application and the host key is a readable
    regular file of the user without permissions for group or others; each socket it binds has the IPv4 or IPv6 loopback address and a configured
    port.  The status is 0 or -1. *)
Theorem server_startup_checked c k :
  startup_ok k ->
  exists r s, secure_server_run (Some c) k server_start = Some (r, s) /\
    (sv_calls s <> [] -> startup_permitted c k) /\ loopback_only c (sv_calls s) /\
    match r with Some v => v = 0 \/ v = -1 | None => True end.
Proof.
  intros Hk. destruct (wp_run _ _ _ (run_ok c k Hk)) as (r & s & E1 & [] & H). by exists r, s.
Qed.

(** Shutdown waits exactly for the workers.  Whatever the workers do, the
    wait ends if and only if each of the workers that were running ends in the
    course of it, and then none is left. *)
Theorem server_drains wakes s :
  server_ok [] s -> Forall step_ok wakes ->
  exists s', runtime_wait_for_workers wakes s = Some (drains wakes (length (sv_live s)), s') /\ server_ok [] s' /\
    (drains wakes (length (sv_live s)) = true <-> sv_live s' = []).
Proof.
  intros Hs Hw. destruct (wp_run _ _ _ (wait_ok wakes s Hs Hw)) as (b & s' & E1 & Hs' & _ & -> & H). by exists s'.
Qed.

(** * Concrete servers *)

#[local] Existing Instance echo_environment.
#[local] Existing Instance toy_pwhash_laws.
#[local] Existing Instance toy_mkstemp_laws.

(** A plain Telnet client that asks for an option, types a name, goes away. *)
Definition some_io : io_world :=
  mk_io [Some (5, 0); Some (5, 1000000); Some (6, 0); Some (7, 0); Some (8, 0); Some (9, 0); Some (10, 0); Some (11, 0)]
    [mk_write 3 0 0; mk_write (-1) 0 EAGAIN; mk_write 2 0 0] [ReadFail 0 EAGAIN; ReadBytes ([255; 253; 1] ++ txt "Al"); ReadBytes []]
    [false; false; false; false] [] [].

Definition some_worker (s : telnet_session) (io : io_world) : worker_world :=
  mk_worker echo_environment (new_world (E := echo_environment) s security_policy_create (empty_store []) 0%nat) false 0 [] io [].

Lemma some_reads s : reads_ok (some_worker s some_io).
Proof. unfold reads_ok. simpl. repeat constructor; unfold is_byte; lia. Qed.

(** An SSH client with an account. *)
Definition some_handover : ssh_handover := mk_handover 5 (Some (txt "/srv/key")) alice_history [3].

Lemma worker_robust_witness :
  exists s w' w'', telnet_session_create (txt "127.0.0.1") false = Some s /\
    connection_worker CONNECTION_TRANSPORT_TELNET (txt "127.0.0.1") (mk_worker_setup true true true) some_handover (some_worker s some_io) = Some (tt, w') /\
    finished w' /\ (exists a, session_calls a /\ wk_calls w' = a ++ [SocketClose; SlotRelease]) /\
    connection_worker CONNECTION_TRANSPORT_SSH (txt "127.0.0.1") (mk_worker_setup true true true) some_handover (some_worker s some_io) = Some (tt, w'') /\
    exists v, wk_calls w'' = [SshHandOver (ssh_calls v); SlotRelease] /\ released 5 v.
Proof.
  destruct (telnet_session_create (txt "127.0.0.1") false) as [s|] eqn:Es; [|discriminate].
  assert (fresh (some_worker s some_io)) as Hf by (split; [reflexivity|reflexivity|reflexivity|exact policy_create_ok|exact (some_reads s)]).
  destruct (worker_robust (E := echo_environment) CONNECTION_TRANSPORT_TELNET (txt "127.0.0.1") (mk_worker_setup true true true)
    some_handover (some_worker s some_io) Hf eq_refl alice_history_ok) as (w' & E1 & F & O & _).
  destruct (worker_robust (E := echo_environment) CONNECTION_TRANSPORT_SSH (txt "127.0.0.1") (mk_worker_setup true true true)
    some_handover (some_worker s some_io) Hf eq_refl alice_history_ok) as (w'' & E2 & _ & O' & _).
  exists s, w', w''. split; [reflexivity|]. split; [exact E1|]. split; [exact F|]. split; [exact O|]. split; [exact E2|exact O'].
Defined.

(** The same client once the login time is over. *)
Definition late_io : io_world := some_io <| io_clocks := [Some (200, 0)] |>.

Lemma worker_deadlines_witness :
  exists s t w', telnet_session_create (txt "127.0.0.1") false = Some s /\
    worker_turn CONNECTION_TRANSPORT_TELNET false (txt "127.0.0.1") 5000 5000 (some_worker s late_io) = Some (t, w') /\
    forall l, t <> Continue l.
Proof.
  destruct (telnet_session_create (txt "127.0.0.1") false) as [s|] eqn:Es; [|discriminate].
  assert (relayed [] (some_worker s late_io)) as Hr.
  { split; [exact (new_world_ok _ _ _ _ _ _ Es policy_create_ok)|reflexivity|exact (prefix_nil _)|reflexivity]. }
  destruct (worker_deadlines (E := echo_environment) CONNECTION_TRANSPORT_TELNET false (txt "127.0.0.1") 5000 5000
    (some_worker s late_io) Hr (some_reads s)) as (t & w' & E1 & H & _).
  exists s, t, w'. split; [reflexivity|]. split; [exact E1|]. intros l Hl.
  destruct (H l Hl) as (reading & rest & [= <- <-] & _ & (_ & _ & _ & Hin) & _). clear -Es Hin.
  injection Es as <-. vm_compute in Hin. discriminate.
Defined.

(** A client on IPv4, accepted as descriptor [fd]. *)
Definition some_arrival (fd : Z) (between : list worker_step) : arrival :=
  mk_arrival (Accepted fd AF_INET (Some (txt "127.0.0.1"))) (Some (5, 0)) between true true.

Definition some_startup : startup :=
  let no_ipv6 := mk_listener (inr EAFNOSUPPORT) true None None true in
  let ipv4 fd := mk_listener (inl fd) true None None true in
  mk_startup 1000 (Some (mk_key_stat (S_IFREG + 384) 1000)) true true true true true true true true
    (mk_context true true true true true) [ipv4 3; no_ipv6; ipv4 4; no_ipv6; ipv4 5; no_ipv6]
    [mk_round [] false PollTimeout;
     mk_round [] false (PollReady [mk_listener_event [] POLLIN (some_arrival 7 []); mk_listener_event [] POLLIN (some_arrival 8 [Exits 0])]);
     mk_round [Calls (mk_event (AuthAttempt (txt "127.0.0.1") (txt "alice")) 6000)] true PollTimeout]
    false [Exits 4; Exits 0].

Lemma some_startup_ok : startup_ok some_startup.
Proof. split_and!; repeat constructor; simpl; try done; vm_compute; done. Qed.

Lemma server_admission_witness :
  exists r s', accept_connection CONNECTION_TRANSPORT_SSH (some_arrival 7 [Exits 0]) server_start = Some (r, s') /\ server_ok [] s' /\ sv_live s' = [7].
Proof.
  destruct (server_admission CONNECTION_TRANSPORT_SSH (some_arrival 7 [Exits 0]) server_start server_start_ok eq_refl
    ltac:(repeat constructor)) as (r & s' & E1 & H & _).
  exists r, s'. split; [exact E1|]. split; [exact H|]. clear H. vm_compute in E1. injection E1 as <- <-. reflexivity.
Defined.

Lemma server_lifecycle_witness :
  exists r s, secure_server_run (Some main_config) some_startup server_start = Some (r, s) /\ server_ok [] s /\ r = Some 0.
Proof.
  destruct (server_lifecycle main_config some_startup some_startup_ok) as (r & s & E1 & H & _).
  exists r, s. split; [exact E1|]. split; [exact H|]. clear H. vm_compute in E1. injection E1 as <- <-. reflexivity.
Defined.

Lemma server_startup_checked_witness :
  exists r s, secure_server_run (Some main_config) some_startup server_start = Some (r, s) /\
    loopback_only main_config (sv_calls s) /\ sv_calls s <> [].
Proof.
  destruct (server_startup_checked main_config some_startup some_startup_ok) as (r & s & E1 & _ & H & _).
  exists r, s. split; [exact E1|]. split; [exact H|]. clear H. vm_compute in E1. injection E1 as <- <-. discriminate.
Defined.

(** With its one worker still running. *)
Definition one_worker : server :=
  match accept_connection CONNECTION_TRANSPORT_SSH (some_arrival 7 []) server_start with Some (_, s) => s | None => server_start end.

Lemma server_drains_witness :
  exists s', runtime_wait_for_workers [Exits 1; Exits 0] one_worker = Some (true, s') /\ sv_live s' = [].
Proof.
  destruct (wp_run _ _ _ (accept_connection_ok CONNECTION_TRANSPORT_SSH (some_arrival 7 []) server_start server_start_ok eq_refl
    ltac:(repeat constructor))) as (r & s & E1 & Hs & _).
  assert (one_worker = s) as Ho by (unfold one_worker; rewrite E1; reflexivity).
  assert (drains [Exits 1; Exits 0] (length (sv_live one_worker)) = true) as Hd by (vm_compute; reflexivity).
  rewrite <- Ho in Hs.
  destruct (server_drains [Exits 1; Exits 0] one_worker Hs ltac:(repeat constructor)) as (s' & E2 & _ & H).
  rewrite Hd in E2, H. exists s'. split; [exact E2|]. apply H. reflexivity.
Defined.
