(* ===== verification/SecureClient.v ===== *)
(** The development client (src/tools/secure_client.c): its Telnet parser, the
    reports it sends, the filter in front of the user's screen, the TLS loops
    and the whole of [main].

    OpenSSL, the kernel and the terminal are inputs, call by call: what each
    [SSL_write_ex] takes, what the clock says, how much of each [write] to the
    screen goes through, whether [tcgetattr]/[tcsetattr] work, the window size.
    Where a list is used up, the call succeeds in full (the clock fails).  What
    TLS took, what is on the screen and whether the terminal echoes are parts
    of the state. *)
From S2P Require Import Prelude TelnetNegotiation TerminalText AsciiText SecureServer SshTransport.

(** * Constants *)

Definition TERMINAL_TYPE_IS : Z := 0.
Definition TERMINAL_TYPE_SEND : Z := 1.
Definition CHARSET_REQUEST : Z := 1.
Definition CHARSET_ACCEPTED : Z := 2.
Definition CHARSET_REJECTED : Z := 3.
Definition NEW_ENVIRON_IS : Z := 0.
Definition NEW_ENVIRON_SEND : Z := 1.
Definition NEW_ENVIRON_VAR : Z := 0.
Definition NEW_ENVIRON_VAL : Z := 1.

Definition CLIENT_HANDSHAKE_TIMEOUT_MS : Z := 10000.
Definition CLIENT_WRITE_TIMEOUT_MS : Z := 10000.
Definition CLIENT_SHUTDOWN_TIMEOUT_MS : Z := 3000.
(** [sizeof(state->sub_data)], [sizeof(state->utf8_pending)], [sizeof(payload)] in
    [send_new_environ], [sizeof(converted)] *)
Definition SUB_DATA_SIZE : Z := 256.
Definition UTF8_PENDING_SIZE : Z := 4.
Definition ENVIRON_PAYLOAD_SIZE : Z := 192.
Definition CONVERTED_SIZE : Z := 8192.

(** * State *)

Inductive client_parse_state := CLIENT_DATA | CLIENT_IAC | CLIENT_OPTION | CLIENT_SB_OPTION | CLIENT_SB_DATA | CLIENT_SB_IAC.

Record client_state := mk_client {
  c_parser : client_parse_state;
  c_command : Z;
  c_sub_option : Z;
  c_sub_data : list Z;
  c_options : telnet_q;
  c_utf8_enabled : bool;
  c_charset_requested : bool;
  c_ttype_requests_received : Z;
  c_write_failed : bool;
  c_utf8_pending : list Z;
  c_utf8_expected : Z
}.

Definition eta_client s := mk_client (c_parser s) (c_command s) (c_sub_option s) (c_sub_data s) (c_options s) (c_utf8_enabled s)
  (c_charset_requested s) (c_ttype_requests_received s) (c_write_failed s) (c_utf8_pending s) (c_utf8_expected s).
#[export] Instance set_c_parser : Setter c_parser := ltac:(setter_of eta_client c_parser).
#[export] Instance set_c_command : Setter c_command := ltac:(setter_of eta_client c_command).
#[export] Instance set_c_sub_option : Setter c_sub_option := ltac:(setter_of eta_client c_sub_option).
#[export] Instance set_c_sub_data : Setter c_sub_data := ltac:(setter_of eta_client c_sub_data).
#[export] Instance set_c_options : Setter c_options := ltac:(setter_of eta_client c_options).
#[export] Instance set_c_utf8_enabled : Setter c_utf8_enabled := ltac:(setter_of eta_client c_utf8_enabled).
#[export] Instance set_c_charset_requested : Setter c_charset_requested := ltac:(setter_of eta_client c_charset_requested).
#[export] Instance set_c_ttype : Setter c_ttype_requests_received := ltac:(setter_of eta_client c_ttype_requests_received).
#[export] Instance set_c_write_failed : Setter c_write_failed := ltac:(setter_of eta_client c_write_failed).
#[export] Instance set_c_utf8_pending : Setter c_utf8_pending := ltac:(setter_of eta_client c_utf8_pending).
#[export] Instance set_c_utf8_expected : Setter c_utf8_expected := ltac:(setter_of eta_client c_utf8_expected).

(** The user's terminal: the echo flag in the kernel, the one [prepare_terminal]
    saved, and [local_echo_enabled]. *)
Record tty := mk_tty { tty_echo : bool; saved_terminal : option bool; local_echo_enabled : bool }.

(** Objects [main] takes and gives back. *)
Inductive client_call := ContextNew | ContextFree | SocketOpen | SocketShut | SslCreate | SslFreed.

#[export] Instance client_call_eq : EqDecision client_call.
Proof. solve_decision. Defined.

Record client_world := mk_client_world {
  cw_state : client_state;
  cw_tls : list Z;
  cw_screen : list Z;
  cw_tty : tty;
  cw_calls : list client_call;
  (** inputs *)
  cw_writes : list write_outcome;
  cw_clocks : list (option (Z * Z));
  cw_displays : list Z;
  cw_tty_calls : list bool;
  cw_winsizes : list (option (Z * Z));
  cw_term : option (list Z)
}.

Definition eta_cw w := mk_client_world (cw_state w) (cw_tls w) (cw_screen w) (cw_tty w) (cw_calls w) (cw_writes w) (cw_clocks w)
  (cw_displays w) (cw_tty_calls w) (cw_winsizes w) (cw_term w).
#[export] Instance set_cw_state : Setter cw_state := ltac:(setter_of eta_cw cw_state).
#[export] Instance set_cw_tls : Setter cw_tls := ltac:(setter_of eta_cw cw_tls).
#[export] Instance set_cw_screen : Setter cw_screen := ltac:(setter_of eta_cw cw_screen).
#[export] Instance set_cw_tty : Setter cw_tty := ltac:(setter_of eta_cw cw_tty).
#[export] Instance set_cw_calls : Setter cw_calls := ltac:(setter_of eta_cw cw_calls).
#[export] Instance set_cw_writes : Setter cw_writes := ltac:(setter_of eta_cw cw_writes).
#[export] Instance set_cw_clocks : Setter cw_clocks := ltac:(setter_of eta_cw cw_clocks).
#[export] Instance set_cw_displays : Setter cw_displays := ltac:(setter_of eta_cw cw_displays).
#[export] Instance set_cw_tty_calls : Setter cw_tty_calls := ltac:(setter_of eta_cw cw_tty_calls).
#[export] Instance set_cw_winsizes : Setter cw_winsizes := ltac:(setter_of eta_cw cw_winsizes).

Abbreviation Cl := (M client_world).

Definition get_client : Cl client_state := gets cw_state.
Definition upd_client (f : client_state -> client_state) : Cl unit := modify (fun w => w <| cw_state := f (cw_state w) |>).

(** The next item of an input list. *)
Definition next {A} (get : client_world -> list A) (put : list A -> client_world -> client_world) (last : A) : Cl A := fun w =>
  match get w with
  | [] => Some (last, w)
  | x :: rest => Some (x, put rest w)
  end.

Definition monotonic_milliseconds : Cl Z :=
  reading ← next cw_clocks (fun l w => w <| cw_clocks := l |>) None;
  mret (monotonic_or_zero reading).

(** * The terminal *)

Definition tty_call : Cl bool := next cw_tty_calls (fun l w => w <| cw_tty_calls := l |>) true.
Definition upd_tty (f : tty -> tty) : Cl unit := modify (fun w => w <| cw_tty := f (cw_tty w) |>).

Definition restore_terminal : Cl unit :=
  t ← gets cw_tty;
  match saved_terminal t with
  | None => mret tt
  | Some echo =>
      ok ← tty_call;
      when ok (upd_tty (fun t => mk_tty echo (saved_terminal t) (local_echo_enabled t)))
  end.

(** [atexit_ok] is whether [atexit] succeeded. *)
Definition prepare_terminal (isatty atexit_ok : bool) : Cl Z :=
  if negb isatty then mret 0
  else
    got ← tty_call;
    if negb (got : bool) then mret (-1)
    else
      upd_tty (fun t => mk_tty (tty_echo t) (Some (tty_echo t)) (local_echo_enabled t)) ;;
      mret (if atexit_ok then 0 else -1).

Definition set_local_echo (enabled : bool) : Cl unit :=
  t ← gets cw_tty;
  let terminal_saved := match saved_terminal t with Some _ => true | None => false end in
  if negb terminal_saved || Bool.eqb (local_echo_enabled t) enabled then mret tt
  else
    got ← tty_call;
    if negb (got : bool) then mret tt
    else
      ok ← tty_call;
      when ok (upd_tty (fun t => mk_tty enabled (saved_terminal t) enabled)).

(** * TLS output *)

(** The loop on [data + offset].  An outcome with a positive count is a success,
    with count zero a success that took nothing, else a failure. *)
Fixpoint tls_write_loop (fuel : nat) (started : Z) (data : list Z) : Cl Z :=
  match data with
  | [] => mret 0
  | _ =>
      match fuel with
      | O => lift_opt None
      | S fuel =>
          o ← next cw_writes (fun l w => w <| cw_writes := l |>) (mk_write (Zlen data) 0 0);
          if wr_count o >? 0 then
            let written := Z.min (wr_count o) (Zlen data) in
            modify (fun w => w <| cw_tls := cw_tls w ++ take (Z.to_nat written) data |>) ;;
            tls_write_loop fuel started (drop (Z.to_nat written) data)
          else if wr_count o =? 0 then mret (-1)
          else if retryable_socket_error (wr_ssl_error o) (wr_errno o) then
            now ← monotonic_milliseconds;
            if negb (started =? 0) && negb (now =? 0) && (wrap64 (now - started) <? CLIENT_WRITE_TIMEOUT_MS)
            then tls_write_loop fuel started data else mret (-1)
          else mret (-1)
      end
  end.

Definition tls_write_all (data : list Z) : Cl Z :=
  started ← monotonic_milliseconds;
  writes ← gets cw_writes;
  tls_write_loop (S (length writes)) started data.

Definition q_send_callback (send : q_send) : Cl unit :=
  r ← tls_write_all [TELNET_IAC; fst send; snd send];
  when (negb (r =? 0)) (upd_client (fun s => s <| c_write_failed := true |>)).

Definition q_accept_callback (direction : telnet_q_direction) (option : Z) : bool :=
  match direction with
  | TELNET_Q_LOCAL =>
      (option =? TELNET_OPT_BINARY) || (option =? TELNET_OPT_SUPPRESS_GO_AHEAD) || (option =? TELNET_OPT_NAWS)
      || (option =? TELNET_OPT_TERMINAL_TYPE) || (option =? TELNET_OPT_CHARSET) || (option =? TELNET_OPT_NEW_ENVIRON)
  | TELNET_Q_REMOTE =>
      (option =? TELNET_OPT_BINARY) || (option =? TELNET_OPT_SUPPRESS_GO_AHEAD) || (option =? TELNET_OPT_ECHO)
      || (option =? TELNET_OPT_END_OF_RECORD) || (option =? TELNET_OPT_CHARSET)
  end.

(** The loop over the payload, one write per byte. *)
Fixpoint send_payload (payload : list Z) : Cl Z :=
  match payload with
  | [] => mret 0
  | byte :: payload =>
      r ← tls_write_all (if byte =? TELNET_IAC then [TELNET_IAC; TELNET_IAC] else [byte]);
      if negb (r =? 0) then mret (-1) else send_payload payload
  end.

Definition send_subnegotiation (option : Z) (payload : list Z) : Cl Z :=
  r ← tls_write_all [TELNET_IAC; TELNET_SB; option];
  if negb (r =? 0) then mret (-1)
  else
    r ← send_payload payload;
    if negb (r =? 0) then mret (-1) else tls_write_all [TELNET_IAC; TELNET_SE].

(** * Reports *)

(** [width] and [height] are 16-bit. *)
Definition window_payload (width height : Z) : list Z :=
  [Z.shiftr width 8; Z.land width 255; Z.shiftr height 8; Z.land height 255].

Definition send_window_size : Cl Z :=
  s ← get_client;
  if negb (telnet_q_enabled (c_options s) TELNET_Q_LOCAL TELNET_OPT_NAWS) then mret 0
  else
    size ← next cw_winsizes (fun l w => w <| cw_winsizes := l |>) None;
    let '(width, height) :=
      match size with
      | Some (col, row) => (if negb (col =? 0) then col else 80, if negb (row =? 0) then row else 24)
      | None => (80, 24)
      end in
    send_subnegotiation TELNET_OPT_NAWS (window_payload width height).

Definition ascii_upper (ch : Z) : Z := if (97 <=? ch) && (ch <=? 122) then ch - (97 - 65) else ch.

(** The loop over [TERM] from [length]. *)
Fixpoint type_name_loop (term : list Z) (length : Z) : list Z :=
  match term with
  | [] => []
  | ch :: term => if negb (length <? 40) || (ch <? 32) || (ch >? 126) then [] else ascii_upper ch :: type_name_loop term (length + 1)
  end.

Definition terminal_type_name (term : option (list Z)) : list Z :=
  match type_name_loop (c_str (from_option id [] term)) 0 with
  | [] => txt "UNKNOWN"
  | name => name
  end.

Definition send_terminal_type : Cl Z :=
  upd_client (fun s => s <| c_ttype_requests_received := wrap32 (c_ttype_requests_received s + 1) |>) ;;
  s ← get_client;
  term ← gets cw_term;
  let text :=
    if c_ttype_requests_received s =? 1 then txt "TELNET-CLIENT"
    else if c_ttype_requests_received s =? 2 then terminal_type_name term
    else txt "MTTS 4" in
  text ← lift_opt (store_str 48 text);
  payload ← lift_opt (append 49 [TERMINAL_TYPE_IS] text);
  send_subnegotiation TELNET_OPT_TERMINAL_TYPE payload.

(** [APPEND_BYTE] and [APPEND_TEXT]: [Some None] is the early [return -1],
    [None] a store outside [payload]. *)
Definition append_environ (payload : option (option (list Z))) (more : list Z) : option (option (list Z)) :=
  r ← payload;
  match r with
  | Some p =>
      if Zlen more <=? ENVIRON_PAYLOAD_SIZE - Zlen p then p ← append ENVIRON_PAYLOAD_SIZE p more; Some (Some p)
      else Some None
  | None => Some None
  end.

Definition environ_pieces (utf8 : bool) (term : option (list Z)) : list (list Z) :=
  [[NEW_ENVIRON_IS];
   [NEW_ENVIRON_VAR]; txt "CLIENT_NAME"; [NEW_ENVIRON_VAL]; txt "TELNET-CLIENT";
   [NEW_ENVIRON_VAR]; txt "CLIENT_VERSION"; [NEW_ENVIRON_VAL]; txt "development";
   [NEW_ENVIRON_VAR]; txt "CHARSET"; [NEW_ENVIRON_VAL]; (if utf8 then txt "UTF-8" else txt "ASCII");
   [NEW_ENVIRON_VAR]; txt "MTTS"; [NEW_ENVIRON_VAL]; (if utf8 then txt "4" else txt "0");
   [NEW_ENVIRON_VAR]; txt "TERMINAL_TYPE"; [NEW_ENVIRON_VAL]; terminal_type_name term].

Definition environ_payload (utf8 : bool) (term : option (list Z)) : option (option (list Z)) :=
  fold_left append_environ (environ_pieces utf8 term) (Some (Some [])).

Definition send_new_environ : Cl Z :=
  s ← get_client;
  term ← gets cw_term;
  lift_opt (local_str 41 (terminal_type_name term)) ;;
  payload ← lift_opt (environ_payload (c_utf8_enabled s) term);
  match payload with
  | None => mret (-1)
  | Some payload => send_subnegotiation TELNET_OPT_NEW_ENVIRON payload
  end.

(** [strncasecmp(bytes, "UTF-8", 5) == 0] *)
Definition starts_with_utf8 (bytes : list Z) : bool := bytes_equal_ignore_case (take 5 bytes) (txt "UTF-8").

(** The loop from index 2: some five bytes of the rest read UTF-8. *)
Fixpoint names_utf8 (bytes : list Z) : bool :=
  match bytes with
  | [] => false
  | _ :: rest => if (5 <=? Zlen bytes) && starts_with_utf8 bytes then true else names_utf8 rest
  end.

Definition charset_request_contains_utf8 (payload : list Z) : bool :=
  match payload with
  | kind :: _ :: (_ :: _) as names => if negb (kind =? CHARSET_REQUEST) then false else names_utf8 (drop 2 payload)
  | _ => false
  end.

Definition maybe_request_utf8 : Cl Z :=
  s ← get_client;
  if c_charset_requested s || negb (telnet_q_enabled (c_options s) TELNET_Q_LOCAL TELNET_OPT_CHARSET)
     || negb (telnet_q_enabled (c_options s) TELNET_Q_LOCAL TELNET_OPT_BINARY)
     || negb (telnet_q_enabled (c_options s) TELNET_Q_REMOTE TELNET_OPT_BINARY)
  then mret 0
  else
    upd_client (fun s => s <| c_charset_requested := true |>) ;;
    send_subnegotiation TELNET_OPT_CHARSET ([CHARSET_REQUEST; 59] ++ txt "UTF-8").

(** * The screen *)

(** [write(STDOUT_FILENO, data, length) == length ? 0 : -1]; the input says how
    many bytes go through. *)
Definition display (data : list Z) : Cl Z :=
  o ← next cw_displays (fun l w => w <| cw_displays := l |>) (Zlen data);
  modify (fun w => w <| cw_screen := cw_screen w ++ take (Z.to_nat o) data |>) ;;
  mret (if o =? Zlen data then 0 else -1).

Definition write_display_ascii (byte : Z) : Cl Z :=
  if ((32 <=? byte) && (byte <=? 126)) || (byte =? 13) || (byte =? 10) || (byte =? 9) then display [byte] else mret 0.

(** A byte that does not continue a sequence. *)
Definition write_first_byte (byte : Z) : Cl Z :=
  let start expected :=
    pending ← lift_opt (push UTF8_PENDING_SIZE [] byte);
    upd_client (fun s => s <| c_utf8_expected := expected |> <| c_utf8_pending := pending |>) ;;
    mret 0 in
  s ← get_client;
  if byte <? 0x80 then write_display_ascii byte
  else if negb (c_utf8_enabled s) then display [QUESTION]
  else if (byte >=? 0xc2) && (byte <=? 0xdf) then start 2
  else if (byte >=? 0xe0) && (byte <=? 0xef) then start 3
  else if (byte >=? 0xf0) && (byte <=? 0xf4) then start 4
  else display [QUESTION].

(** The recursive call of the C function comes with nothing pending, which is
    [write_first_byte]. *)
Definition write_display_byte (byte : Z) : Cl Z :=
  s ← get_client;
  match c_utf8_pending s with
  | [] => write_first_byte byte
  | pending =>
      if negb (Z.land byte 0xc0 =? 0x80) then
        upd_client (fun s => s <| c_utf8_pending := [] |> <| c_utf8_expected := 0 |>) ;;
        r ← display [QUESTION];
        if negb (r =? 0) then mret (-1) else write_first_byte byte
      else
        pending ← lift_opt (push UTF8_PENDING_SIZE pending byte);
        upd_client (fun s => s <| c_utf8_pending := pending |>) ;;
        if Zlen pending =? c_utf8_expected s then
          safe ← lift_opt (local_str 16 (if negb (terminal_text_utf8_valid pending) then [QUESTION]
                                         else terminal_text_sanitize_utf8 (Some pending) 16));
          r ← (if Zlen safe >? 0 then display safe else mret 0);
          if negb (r =? 0) then mret (-1)
          else upd_client (fun s => s <| c_utf8_pending := [] |> <| c_utf8_expected := 0 |>) ;; mret 0
        else mret 0
  end.

(** * The parser *)

Definition handle_subnegotiation : Cl Z :=
  s ← get_client;
  let data := c_sub_data s in
  let environ :=
    if (c_sub_option s =? TELNET_OPT_NEW_ENVIRON) && (Zlen data >=? 1) && (hd 0 data =? NEW_ENVIRON_SEND)
       && telnet_q_enabled (c_options s) TELNET_Q_LOCAL TELNET_OPT_NEW_ENVIRON
    then send_new_environ else mret 0 in
  if (c_sub_option s =? TELNET_OPT_TERMINAL_TYPE) && (Zlen data =? 1) && (hd 0 data =? TERMINAL_TYPE_SEND)
     && telnet_q_enabled (c_options s) TELNET_Q_LOCAL TELNET_OPT_TERMINAL_TYPE
  then send_terminal_type
  else if (c_sub_option s =? TELNET_OPT_CHARSET) && (Zlen data >=? 1) then
    if (hd 0 data =? CHARSET_REQUEST) && telnet_q_enabled (c_options s) TELNET_Q_REMOTE TELNET_OPT_CHARSET then
      if charset_request_contains_utf8 data then
        upd_client (fun s => s <| c_utf8_enabled := true |>) ;;
        send_subnegotiation TELNET_OPT_CHARSET (CHARSET_ACCEPTED :: txt "UTF-8")
      else send_subnegotiation TELNET_OPT_CHARSET [CHARSET_REJECTED]
    else
      (if (hd 0 data =? CHARSET_ACCEPTED) && (Zlen data =? 6) && starts_with_utf8 (drop 1 data)
       then upd_client (fun s => s <| c_utf8_enabled := true |>)
       else when (hd 0 data =? CHARSET_REJECTED) (upd_client (fun s => s <| c_utf8_enabled := false |>))) ;;
      environ
  else environ.

Definition set_client_parser (p : client_parse_state) : Cl unit := upd_client (fun s => s <| c_parser := p |>).

(** The case [CLIENT_OPTION]. *)
Definition receive_option (byte : Z) : Cl Z :=
  s ← get_client;
  let echo_before := telnet_q_enabled (c_options s) TELNET_Q_REMOTE TELNET_OPT_ECHO in
  let naws_before := telnet_q_enabled (c_options s) TELNET_Q_LOCAL TELNET_OPT_NAWS in
  let '(q, sends) := telnet_q_receive (c_options s) (c_command s) byte q_accept_callback in
  upd_client (fun s => s <| c_options := q |>) ;;
  for_each sends q_send_callback ;;
  s ← get_client;
  if c_write_failed s then mret (-1)
  else
    let echo := telnet_q_enabled (c_options s) TELNET_Q_REMOTE TELNET_OPT_ECHO in
    when (negb (Bool.eqb echo_before echo)) (set_local_echo (negb echo)) ;;
    r ← (if negb naws_before && telnet_q_enabled (c_options s) TELNET_Q_LOCAL TELNET_OPT_NAWS then send_window_size else mret 0);
    if negb (r =? 0) then mret (-1)
    else
      r ← maybe_request_utf8;
      if negb (r =? 0) then mret (-1) else set_client_parser CLIENT_DATA ;; mret 0.

(** [state->sub_data[state->sub_length++] = byte], or -1 if the array is full. *)
Definition sub_data_append (byte : Z) : Cl Z :=
  s ← get_client;
  if Zlen (c_sub_data s) >=? SUB_DATA_SIZE then mret (-1)
  else
    data ← lift_opt (push SUB_DATA_SIZE (c_sub_data s) byte);
    upd_client (fun s => s <| c_sub_data := data |>) ;; mret 0.

(** The body of the loop. *)
Definition process_byte (byte : Z) : Cl Z :=
  s ← get_client;
  match c_parser s with
  | CLIENT_DATA =>
      if byte =? TELNET_IAC then set_client_parser CLIENT_IAC ;; mret 0 else write_display_byte byte
  | CLIENT_IAC =>
      if byte =? TELNET_IAC then
        r ← write_display_byte TELNET_IAC;
        if negb (r =? 0) then mret (-1) else set_client_parser CLIENT_DATA ;; mret 0
      else if (byte =? TELNET_WILL) || (byte =? TELNET_WONT) || (byte =? TELNET_DO) || (byte =? TELNET_DONT) then
        upd_client (fun s => s <| c_command := byte |> <| c_parser := CLIENT_OPTION |>) ;; mret 0
      else if byte =? TELNET_SB then set_client_parser CLIENT_SB_OPTION ;; mret 0
      else set_client_parser CLIENT_DATA ;; mret 0
  | CLIENT_OPTION => receive_option byte
  | CLIENT_SB_OPTION =>
      upd_client (fun s => s <| c_sub_option := byte |> <| c_sub_data := [] |> <| c_parser := CLIENT_SB_DATA |>) ;; mret 0
  | CLIENT_SB_DATA =>
      if byte =? TELNET_IAC then set_client_parser CLIENT_SB_IAC ;; mret 0 else sub_data_append byte
  | CLIENT_SB_IAC =>
      if byte =? TELNET_SE then
        r ← handle_subnegotiation;
        if negb (r =? 0) then mret (-1)
        else upd_client (fun s => s <| c_sub_data := [] |> <| c_parser := CLIENT_DATA |>) ;; mret 0
      else if byte =? TELNET_IAC then
        r ← sub_data_append TELNET_IAC;
        if negb (r =? 0) then mret (-1) else set_client_parser CLIENT_SB_DATA ;; mret 0
      else set_client_parser CLIENT_SB_DATA ;; mret 0
  end.

Fixpoint process_server_bytes (data : list Z) : Cl Z :=
  match data with
  | [] => mret 0
  | byte :: data =>
      r ← process_byte byte;
      if negb (r =? 0) then mret (-1) else process_server_bytes data
  end.

(** * Typed input *)

Definition convert_input (input : list Z) : list Z :=
  flat_map (fun byte => if byte =? LF then [CR; LF] else if byte =? TELNET_IAC then [TELNET_IAC; TELNET_IAC] else [byte]) input.

(** The bytes are stored one after another in [converted]. *)
Definition send_terminal_input (input : list Z) : Cl Z :=
  if Zlen input >? CONVERTED_SIZE / 2 then mret (-1)
  else
    converted ← lift_opt (if Zlen (convert_input input) <=? CONVERTED_SIZE then Some (convert_input input) else None);
    tls_write_all converted.

(** * TLS connection *)

(** The calls of [SSL_connect], until the input is used up: then the peer is gone. *)
Fixpoint connect_loop (outcomes : list tls_outcome) (started : Z) : Cl Z :=
  match outcomes with
  | [] => mret (-1)
  | o :: outcomes =>
      if tls_result o =? 1 then mret 0
      else
        now ← monotonic_milliseconds;
        if (started =? 0) || (now =? 0) || (wrap64 (now - started) >=? CLIENT_HANDSHAKE_TIMEOUT_MS) then mret (-1)
        else if retryable_socket_error (tls_ssl_error o) (tls_errno o) then connect_loop outcomes started
        else mret (-1)
  end.

Definition connect_tls (outcomes : list tls_outcome) : Cl Z :=
  started ← monotonic_milliseconds; connect_loop outcomes started.

Fixpoint client_shutdown_loop (outcomes : list tls_outcome) (started : Z) : Cl unit :=
  match outcomes with
  | [] => mret tt
  | o :: outcomes =>
      if tls_result o =? 1 then mret tt
      else
        now ← monotonic_milliseconds;
        if (started =? 0) || (now =? 0) || (wrap64 (now - started) >=? CLIENT_SHUTDOWN_TIMEOUT_MS) then mret tt
        else if tls_result o =? 0 then client_shutdown_loop outcomes started
        else if retryable_socket_error (tls_ssl_error o) (tls_errno o) then client_shutdown_loop outcomes started
        else mret tt
  end.

Definition tls_shutdown_bounded (outcomes : list tls_outcome) : Cl unit :=
  started ← monotonic_milliseconds; client_shutdown_loop outcomes started.

Definition client_call_made (c : client_call) : Cl unit := modify (fun w => w <| cw_calls := cw_calls w ++ [c] |>).

(** The results of [SSL_CTX_new], the two version calls and
    [SSL_CTX_load_verify_locations]. *)
Definition create_client_context (made versions trusted : bool) : Cl bool :=
  if negb made then mret false
  else
    client_call_made ContextNew ;;
    let failed := client_call_made ContextFree ;; mret false in
    if negb versions then failed
    else if negb trusted then failed
    else mret true.

(** The descriptor of [socket], and whether [inet_pton] and [connect] worked. *)
Definition connect_loopback (socket : option Z) (address connected : bool) : Cl (option Z) :=
  match socket with
  | None => mret None
  | Some fd =>
      client_call_made SocketOpen ;;
      if negb address then client_call_made SocketShut ;; mret None
      else if negb connected then client_call_made SocketShut ;; mret None
      else mret (Some fd)
  end.

(** * The program *)

Inductive stdin_outcome := StdinBytes (bytes : list Z) | StdinFail (errno : Z).
Inductive select_outcome := SelectFail (errno : Z) | SelectReady (socket_ready stdin_ready : bool).

(** What one turn of the loop meets. *)
Record client_turn := mk_turn {
  ct_stop : bool;
  ct_window : bool;
  ct_pending : bool;
  ct_select : select_outcome;
  ct_read : read_outcome;
  ct_stdin : stdin_outcome
}.

(** How a turn ends: another one, [break] with success, or [goto cleanup] with
    [fatal_tls_error] set or not. *)
Inductive client_next := GoOn | Finish | Cleanup (fatal_tls_error : bool).

Definition serve_stdin (input : stdin_outcome) : Cl client_next :=
  match input with
  | StdinBytes [] => mret Finish
  | StdinBytes bytes =>
      r ← send_terminal_input bytes;
      mret (if negb (r =? 0) then Cleanup false else GoOn)
  | StdinFail errno => mret (if errno =? EINTR then GoOn else Cleanup false)
  end.

Definition serve_turn (t : client_turn) : Cl client_next :=
  r ← (if ct_window t then send_window_size else mret 0);
  if negb (r =? 0) then mret (Cleanup false)
  else
    match (if ct_pending t then SelectReady true false else ct_select t) with
    | SelectFail errno => mret (if errno =? EINTR then GoOn else Cleanup false)
    | SelectReady socket_ready stdin_ready =>
        let typed := if stdin_ready then serve_stdin (ct_stdin t) else mret GoOn in
        if socket_ready then
          match ct_read t with
          | ReadBytes bytes =>
              r ← process_server_bytes bytes;
              if negb (r =? 0) then mret (Cleanup false) else typed
          | ReadFail ssl_error errno =>
              if retryable_socket_error ssl_error errno then mret GoOn
              else if ssl_error =? SSL_ERROR_ZERO_RETURN then mret Finish
              else mret (Cleanup true)
          end
        else typed
    end.

(** The loop: the exit code and [fatal_tls_error].  The input ends with the signal. *)
Fixpoint client_loop (turns : list client_turn) : Cl (Z * bool) :=
  match turns with
  | [] => mret (0, false)
  | t :: turns =>
      if ct_stop t then mret (0, false)
      else
        n ← serve_turn t;
        match n with
        | GoOn => client_loop turns
        | Finish => mret (0, false)
        | Cleanup fatal => mret (1, fatal)
        end
  end.

Record client_library := mk_client_library {
  li_isatty : bool;
  li_atexit : bool;
  li_context : bool * bool * bool;
  li_socket : option Z * bool * bool;
  li_timeouts : bool;
  li_ssl : bool;
  li_set_fd : bool;
  li_host : bool;
  li_handshake : list tls_outcome;
  li_verify : bool;
  li_turns : list client_turn;
  li_shutdown : list tls_outcome
}.

(** From [SSL_new] to the end of the loop: exit code, [handshake_complete] and
    [fatal_tls_error]. *)
Definition client_session (lib : client_library) : Cl (Z * bool * bool) :=
  if negb (li_set_fd lib) then mret (1, false, false)
  else if negb (li_host lib) then mret (1, false, false)
  else
    r ← connect_tls (li_handshake lib);
    if negb (r =? 0) then mret (1, false, true)
    else if negb (li_verify lib) then mret (1, true, false)
    else
      '(code, fatal) ← client_loop (li_turns lib);
      mret (code, true, fatal).

(** What the label [cleanup] does, with what was made when control comes there:
    the echo, the TLS object, the socket and the context, in this order. *)
Definition client_with_ssl (lib : client_library) : Cl Z :=
  client_call_made SslCreate ;;
  '(code, complete, fatal) ← client_session lib;
  set_local_echo true ;;
  when (complete && negb fatal) (tls_shutdown_bounded (li_shutdown lib)) ;;
  client_call_made SslFreed ;;
  mret code.

Definition client_with_socket (lib : client_library) : Cl Z :=
  code ← (if negb (li_timeouts lib) || negb (li_ssl lib) then set_local_echo true ;; mret 1 else client_with_ssl lib);
  client_call_made SocketShut ;;
  mret code.

Definition client_with_context (lib : client_library) : Cl Z :=
  let '(socket, address, connected) := li_socket lib in
  fd ← connect_loopback socket address connected;
  code ← match fd with None => set_local_echo true ;; mret 1 | Some _ => client_with_socket lib end;
  client_call_made ContextFree ;;
  mret code.

Definition client_run (lib : client_library) : Cl Z :=
  let '(made, versions, trusted) := li_context lib in
  context ← create_client_context made versions trusted;
  if negb (context : bool) then set_local_echo true ;; mret 1 else client_with_context lib.

(** [argc] is the number of arguments with the program's name; [atexit] handlers
    run when [main] returns. *)
Definition client_main (argc : Z) (lib : client_library) : Cl Z :=
  if negb (argc =? 2) && negb (argc =? 1) then mret 1
  else
    r ← prepare_terminal (li_isatty lib) (li_atexit lib);
    if negb (r =? 0) then mret 1
    else
      code ← client_run lib;
      when (li_isatty lib) restore_terminal ;;
      mret code.
