(* ===== verification/ClientTheorems.v ===== *)
(** What the client guarantees its user: nothing the server sends can reach the
    screen unfiltered, overrun a buffer or make it speak malformed Telnet, and
    the terminal stops echoing exactly while the server asked for it. *)
From S2P Require Import Prelude TelnetNegotiation TerminalText AsciiText SecurityPolicy PlayerStore Application TelnetSession TelnetOutput TelnetStream.
From S2P Require Import SshTransport SshInvariant SecureServer SecureClient.

(** * TLS output *)

(** Only the TLS side moved: [out], a prefix of [data], was taken, and all of it
    if the result is 0. *)
Definition wired (data : list Z) (r : Z) (w w' : client_world) : Prop :=
  exists out ws cs, w' = w <| cw_tls := cw_tls w ++ out |> <| cw_writes := ws |> <| cw_clocks := cs |> /\
    out `prefix_of` data /\ (r = 0 -> out = data).

Lemma wired_refl r w : wired [] r w w.
Proof. exists [], (cw_writes w), (cw_clocks w). rewrite app_nil_r. by destruct w. Qed.

Lemma wired_fail data r w : r <> 0 -> wired data r w w.
Proof. intros Hr. exists [], (cw_writes w), (cw_clocks w). rewrite app_nil_r. split_and!; [by destruct w|apply prefix_nil|done]. Qed.

Lemma wired_step a b r w w1 w2 : wired a 0 w w1 -> wired b r w1 w2 -> wired (a ++ b) r w w2.
Proof.
  intros (o1 & ws1 & cs1 & -> & P1 & E1) (o2 & ws2 & cs2 & -> & P2 & E2). rewrite (E1 eq_refl) in *.
  exists (a ++ o2), ws2, cs2. simpl. rewrite app_assoc. split_and!; [done|by apply prefix_app|]. intros Hr. by rewrite E2.
Qed.

Lemma wired_stop a b r w w' : r <> 0 -> wired a r w w' -> wired (a ++ b) r w w'.
Proof. intros Hr (o & ws & cs & -> & P & _). exists o, ws, cs. split_and!; [done|by apply prefix_app_r|done]. Qed.

Lemma wired_inputs data r w ws cs w' :
  wired data r (w <| cw_writes := ws |> <| cw_clocks := cs |>) w' -> wired data r w w'.
Proof. intros (o & ws' & cs' & -> & H). by exists o, ws', cs'. Qed.

Lemma wp_next_input {A B} (get : client_world -> list A) put last (k : A -> M client_world B) Q w :
  (get w = [] -> wp (k last) Q w) -> (forall x rest, get w = x :: rest -> wp (k x) Q (put rest w)) -> wp (next get put last ≫= k) Q w.
Proof. intros H1 H2. unfold wp, mbind, M_bind, next in *. destruct (get w) as [|x rest]; [by apply H1|by apply H2]. Qed.

(** A reading of the clock. *)
Lemma wp_client_clock {B} (k : Z -> M client_world B) Q w :
  (forall now cs, u64 now -> wp (k now) Q (w <| cw_clocks := cs |>)) -> wp (monotonic_milliseconds ≫= k) Q w.
Proof.
  intros H. assert (forall now, u64 now -> wp (k now) Q w) as H0.
  { intros now Hn. specialize (H now (cw_clocks w) Hn). by destruct w. }
  unfold monotonic_milliseconds. unfold wp, mbind, M_bind, next, mret, M_ret in *.
  destruct (cw_clocks w) as [|x rest]; [apply (H0 0); done|apply (H _ rest), monotonic_u64].
Qed.

Lemma write_loop_wired fuel started data w :
  (length (cw_writes w) < fuel)%nat -> wp (tls_write_loop fuel started data) (fun r w' => wired data r w w') w.
Proof.
  revert data w. induction fuel as [|fuel IH]; intros data w Hf; [lia|].
  destruct data as [|x data]; [apply wp_ret, wired_refl|]. remember (x :: data) as l eqn:El.
  assert (tls_write_loop (S fuel) started l =
    (o ← next cw_writes (fun l w => w <| cw_writes := l |>) (mk_write (Zlen l) 0 0);
     if wr_count o >? 0 then
       modify (fun w => w <| cw_tls := cw_tls w ++ take (Z.to_nat (Z.min (wr_count o) (Zlen l))) l |>) ;;
       tls_write_loop fuel started (drop (Z.to_nat (Z.min (wr_count o) (Zlen l))) l)
     else if wr_count o =? 0 then mret (-1)
     else if retryable_socket_error (wr_ssl_error o) (wr_errno o) then
       now ← monotonic_milliseconds;
       if negb (started =? 0) && negb (now =? 0) && (wrap64 (now - started) <? CLIENT_WRITE_TIMEOUT_MS)
       then tls_write_loop fuel started l else mret (-1)
     else mret (-1))) as -> by (rewrite El; reflexivity).
  assert (0 < Zlen l) as Hl by (rewrite El; simpl; lia). clear El.
  assert (forall n ws, (length ws < fuel)%nat \/ drop n l = [] ->
    wp (modify (fun w => w <| cw_tls := cw_tls w ++ take n l |>) ;; tls_write_loop fuel started (drop n l))
      (fun r w' => wired l r w w') (w <| cw_writes := ws |>)) as Htake.
  { intros n ws Hn. apply wp_bind, wp_modify. set (v := set_field cw_tls _ _).
    assert (wired (take n l) 0 w v) as Hv by (exists (take n l), ws, (cw_clocks w); by destruct w).
    assert (wp (tls_write_loop fuel started (drop n l)) (fun r w' => wired (drop n l) r v w') v) as Hr.
    { destruct Hn as [Hn| ->]; [by apply IH|]. destruct fuel; apply wp_ret, wired_refl. }
    eapply wp_mono; [exact Hr|]. intros r w' H. rewrite <- (take_drop n l). exact (wired_step _ _ _ _ _ _ Hv H). }
  apply wp_next_input.
  - intros Ew. simpl. destruct (Z.gtb_spec (Zlen l) 0); [|lia]. rewrite Z.min_id, Nat2Z.id.
    replace w with (w <| cw_writes := cw_writes w |>) at 2 by (by destruct w). apply Htake. right. by rewrite drop_all.
  - intros o rest Ew. rewrite Ew in Hf. simpl in Hf. apply wp_if; intros Ho; [apply Htake; left; lia|].
    assert (forall cs, wired l (-1) w (w <| cw_writes := rest |> <| cw_clocks := cs |>)) as Hfail
      by (intros cs; apply (wired_inputs _ _ _ rest cs); by apply wired_fail).
    assert (wired l (-1) w (w <| cw_writes := rest |>)) as Hfail0 by (specialize (Hfail (cw_clocks w)); by destruct w).
    apply wp_if; intros _; [by apply wp_ret|]. apply wp_if; intros _; [|by apply wp_ret].
    apply wp_client_clock. intros now cs _. apply wp_if; intros _; [|apply wp_ret, Hfail].
    eapply wp_mono; [apply IH; simpl; lia|]. intros r w' H. exact (wired_inputs _ _ _ rest cs _ H).
Qed.

Lemma write_all_wired data w : wp (tls_write_all data) (fun r w' => wired data r w w') w.
Proof.
  unfold tls_write_all. apply wp_client_clock. intros now cs _. apply wp_bind, wp_gets.
  eapply wp_mono; [apply write_loop_wired; simpl; lia|]. intros r w' H. apply (wired_inputs _ _ _ (cw_writes w) cs). by destruct w.
Qed.

Lemma payload_wired payload w : wp (send_payload payload) (fun r w' => wired (quote_iac payload) r w w') w.
Proof.
  revert w. induction payload as [|b payload IH]; intros w; [apply wp_ret, wired_refl|]. simpl.
  apply wp_bind. eapply wp_mono; [apply write_all_wired|]. intros r w1 H1. apply wp_if; intros Hr.
  - apply wp_ret. destruct H1 as (o & ws & cs & -> & P & _). exists o, ws, cs. split_and!; [done|by apply prefix_app_r|done].
  - assert (r = 0) as -> by (destruct (Z.eqb_spec r 0); [done|done]).
    eapply wp_mono; [apply IH|]. intros r' w2 H2. by eapply wired_step.
Qed.

Lemma subnegotiation_wired option payload w :
  wp (send_subnegotiation option payload) (fun r w' => wired (subnegotiation_bytes option payload) r w w') w.
Proof.
  assert (forall a r w w', r <> 0 -> wired a r w w' -> forall b, wired (a ++ b) (-1) w w') as Hstop.
  { intros a r v v' Hr (o & ws & cs & -> & P & _) b. exists o, ws, cs. split_and!; [done|by apply prefix_app_r|done]. }
  apply wp_bind. eapply wp_mono; [apply write_all_wired|]. intros r w1 H1. apply wp_if; intros Hr.
  { apply wp_ret. eapply (Hstop _ r); [|exact H1]. intros ->. done. }
  assert (r = 0) as -> by (by destruct (Z.eqb_spec r 0)).
  apply wp_bind. eapply wp_mono; [apply payload_wired|]. intros r w2 H2. apply wp_if; intros Hr2.
  { apply wp_ret. unfold subnegotiation_bytes. eapply wired_step; [exact H1|]. eapply (Hstop _ r); [|exact H2]. intros ->. done. }
  assert (r = 0) as -> by (by destruct (Z.eqb_spec r 0)).
  eapply wp_mono; [apply write_all_wired|]. intros r w3 H3. unfold subnegotiation_bytes.
  eapply wired_step; [exact H1|]. by eapply wired_step.
Qed.

(** * The client's state *)

Record client_ok (s : client_state) : Prop := mk_client_ok {
  co_q : q_ok (c_options s);
  co_sub : Zlen (c_sub_data s) <= SUB_DATA_SIZE;
  co_utf8 : c_utf8_pending s = [] \/ 1 <= Zlen (c_utf8_pending s) < c_utf8_expected s /\ c_utf8_expected s <= UTF8_PENDING_SIZE;
  co_bytes : Forall is_byte (c_utf8_pending s);
  co_writes : c_write_failed s = false
}.

(** The terminal echoes exactly when the server does not, on a terminal whose
    calls work. *)
Definition echo_ok (w : client_world) : Prop :=
  cw_tty_calls w = [] /\ saved_terminal (cw_tty w) <> None /\ tty_echo (cw_tty w) = local_echo_enabled (cw_tty w) /\
  local_echo_enabled (cw_tty w) = negb (telnet_q_enabled (c_options (cw_state w)) TELNET_Q_REMOTE TELNET_OPT_ECHO).

(** What a step with result [r] did: safe text on the screen, well-framed
    Telnet to the server (both whole if the step went well), a well-formed state
    and the right echo if it went well. *)
Record step_safe (r : Z) (w w' : client_world) : Prop := mk_step_safe {
  ss_screen : exists d cps, cw_screen w' = cw_screen w ++ d /\ Forall safe_scalar cps /\ d `prefix_of` encode_text cps /\ (r = 0 -> d = encode_text cps);
  ss_tls : exists t full, cw_tls w' = cw_tls w ++ t /\ framed full /\ t `prefix_of` full /\ (r = 0 -> t = full);
  ss_ok : r = 0 -> client_ok (cw_state w');
  ss_echo : r = 0 -> echo_ok w -> echo_ok w';
  ss_calls : cw_calls w' = cw_calls w;
  ss_saved : saved_terminal (cw_tty w') = saved_terminal (cw_tty w);
  ss_tty : cw_tty_calls w = [] -> cw_tty_calls w' = [];
  ss_notty : saved_terminal (cw_tty w) = None -> cw_tty w' = cw_tty w
}.

Lemma encode_text_app a b : encode_text (a ++ b) = encode_text a ++ encode_text b.
Proof. unfold encode_text. by rewrite map_app, concat_app. Qed.

Lemma step_safe_refl r w : client_ok (cw_state w) -> step_safe r w w.
Proof.
  intros Hw. split; try done.
  - exists [], []. by rewrite app_nil_r.
  - exists [], []. by rewrite app_nil_r.
Qed.

Lemma step_safe_trans r w w1 w2 : step_safe 0 w w1 -> step_safe r w1 w2 -> step_safe r w w2.
Proof.
  intros [(d1 & c1 & A1 & A2 & A3 & A4) (t1 & f1 & A5 & A6 & A7 & A8) A9 A10 A11 A12 A13 A14]
         [(d2 & c2 & B1 & B2 & B3 & B4) (t2 & f2 & B5 & B6 & B7 & B8) B9 B10 B11 B12 B13 B14].
  split; [| |auto|auto|congruence|congruence|auto|intros Hn; rewrite B14 by congruence; auto].
  - exists (d1 ++ d2), (c1 ++ c2). rewrite encode_text_app, B1, A1, app_assoc, (A4 eq_refl).
    split_and!; [done|by apply Forall_app|by apply prefix_app|]. intros Hr. by rewrite (B4 Hr).
  - exists (t1 ++ t2), (f1 ++ f2). rewrite B5, A5, app_assoc, (A8 eq_refl).
    split_and!; [done|by apply framed_app|by apply prefix_app|]. intros Hr. by rewrite (B8 Hr).
Qed.

Lemma wired_safe data r w w' : client_ok (cw_state w) -> framed data -> wired data r w w' -> step_safe r w w'.
Proof.
  intros Hw Hd (o & ws & cs & -> & P & E). split; try done; simpl.
  - exists [], []. by rewrite app_nil_r.
  - exists o, data. done.
Qed.

(** A change of the client's state alone. *)
Lemma state_safe f w :
  client_ok (f (cw_state w)) -> c_options (f (cw_state w)) = c_options (cw_state w) -> step_safe 0 w (w <| cw_state := f (cw_state w) |>).
Proof.
  intros Hf Ho. split; try done; simpl.
  - exists [], []. by rewrite app_nil_r.
  - exists [], []. by rewrite app_nil_r.
  - unfold echo_ok. simpl. by rewrite Ho.
Qed.

(** The end of a step that went well. *)
Lemma set_safe r f w0 w :
  step_safe r w0 w -> r = 0 -> client_ok (f (cw_state w)) -> c_options (f (cw_state w)) = c_options (cw_state w) ->
  wp (upd_client f ;; mret 0) (fun r w' => step_safe r w0 w') w.
Proof.
  intros Hs -> Hf Ho. apply wp_bind, wp_modify, wp_ret. eapply step_safe_trans; [exact Hs|by apply state_safe].
Qed.

Lemma parser_ok p s : client_ok s -> client_ok (s <| c_parser := p |>).
Proof. by intros []. Qed.

(** Going on only after a result of 0. *)
Lemma then_safe (m : M client_world Z) (k : M client_world Z) w :
  wp m (fun r w' => step_safe r w w') w ->
  (forall w', step_safe 0 w w' -> client_ok (cw_state w') -> wp k (fun r w'' => step_safe r w w'') w') ->
  wp (r ← m; if negb (r =? 0) then mret (-1) else k) (fun r w' => step_safe r w w') w.
Proof.
  intros Hm Hk. apply wp_bind. eapply wp_mono; [exact Hm|]. intros r w' Hs. apply wp_if; intros Hr.
  - apply wp_ret. destruct Hs as [(d & c & A1 & A2 & A3 & _) (t & f & A5 & A6 & A7 & _) _ _ A11 A12 A13 A14]. split; try done.
    + by exists d, c.
    + by exists t, f.
  - assert (r = 0) as -> by (by destruct (Z.eqb_spec r 0)). apply Hk; [done|]. by apply (ss_ok _ _ _ Hs).
Qed.

(** * The screen *)

(** Only the screen moved. *)
Definition shown (data : list Z) (r : Z) (w w' : client_world) : Prop :=
  exists d ds, w' = w <| cw_screen := cw_screen w ++ d |> <| cw_displays := ds |> /\ d `prefix_of` data /\ (r = 0 -> d = data).

Lemma display_shown data w : wp (display data) (fun r w' => shown data r w w') w.
Proof.
  apply wp_next_input.
  - intros _. apply wp_bind, wp_modify, wp_ret. exists data, (cw_displays w). rewrite Nat2Z.id, take_ge by done. by destruct w.
  - intros o rest _. apply wp_bind, wp_modify, wp_ret. exists (take (Z.to_nat o) data), rest. split_and!; [done|apply prefix_take|].
    intros Hr. destruct (Z.eqb_spec o (Zlen data)) as [->|]; [|done]. rewrite Nat2Z.id. by rewrite take_ge.
Qed.

Lemma shown_safe cps r w w' : client_ok (cw_state w) -> Forall safe_scalar cps -> shown (encode_text cps) r w w' -> step_safe r w w'.
Proof.
  intros Hw Hc (d & ds & -> & P & E). split; try done; simpl.
  - by exists d, cps.
  - exists [], []. by rewrite app_nil_r.
Qed.

Lemma display_safe cps w :
  client_ok (cw_state w) -> Forall safe_scalar cps -> wp (display (encode_text cps)) (fun r w' => step_safe r w w') w.
Proof. intros Hw Hc. eapply wp_mono; [apply display_shown|]. intros r w'. by apply shown_safe. Qed.

Lemma question_display w : client_ok (cw_state w) -> wp (display [QUESTION]) (fun r w' => step_safe r w w') w.
Proof. intros Hw. apply (display_safe [QUESTION]); [done|]. constructor; [apply question_safe|done]. Qed.

Lemma display_ascii_safe b w : client_ok (cw_state w) -> wp (write_display_ascii b) (fun r w' => step_safe r w w') w.
Proof.
  intros Hw. unfold write_display_ascii. destruct (_ || _) eqn:Hb; [|by apply wp_ret, step_safe_refl].
  assert (32 <= b <= 126 \/ b = 13 \/ b = 10 \/ b = 9) as Hr by (breflect; lia). clear Hb.
  assert (encode_text [b] = [b]) as <- by (unfold encode_text, encode_utf8; simpl; destruct (Z.ltb_spec b 0x80); [done|lia]).
  apply display_safe; [done|]. constructor; [|done]. unfold safe_scalar, is_scalar. lia.
Qed.

Lemma first_byte_safe b w :
  is_byte b -> client_ok (cw_state w) -> c_utf8_pending (cw_state w) = [] -> wp (write_first_byte b) (fun r w' => step_safe r w w') w.
Proof.
  intros Hb Hw Hp. unfold write_first_byte. apply wp_bind, wp_gets.
  assert (forall n, 2 <= n <= 4 -> wp (pending ← lift_opt (push UTF8_PENDING_SIZE [] b);
    upd_client (fun s => s <| c_utf8_expected := n |> <| c_utf8_pending := pending |>) ;; mret 0) (fun r w' => step_safe r w w') w) as Hstart.
  { intros n Hn. apply wp_bind. eapply wp_lift; [by apply push_Some|]. eapply set_safe; [by apply (step_safe_refl 0)|done| |done].
    destruct Hw. split; simpl; try done; [|by apply Forall_singleton]. right. unfold UTF8_PENDING_SIZE. lia. }
  apply wp_if; intros _; [by apply display_ascii_safe|]. apply wp_if; intros _; [by apply question_display|].
  apply wp_if; intros _; [apply Hstart; lia|]. apply wp_if; intros _; [apply Hstart; lia|].
  apply wp_if; intros _; [apply Hstart; lia|]. by apply question_display.
Qed.

(** A complete sequence is shown as a question mark or through the sanitizer. *)
Lemma sequence_text pending :
  Forall is_byte pending -> exists cps, Forall safe_scalar cps /\
    local_str 16 (if negb (terminal_text_utf8_valid pending) then [QUESTION] else terminal_text_sanitize_utf8 (Some pending) 16)
      = Some (encode_text cps).
Proof.
  intros Hb. destruct (terminal_text_utf8_valid pending); simpl.
  - unfold terminal_text_sanitize_utf8. simpl. destruct (sanitize_utf8_loop_safe (length pending) pending 0 16 Hb ltac:(done)) as (cps & Hc & Hl & Hn).
    exists cps. split; [done|]. rewrite local_str_Some by lia. by rewrite Hl.
  - exists [QUESTION]. split; [|done]. constructor; [apply question_safe|done].
Qed.

Lemma display_byte_safe b w :
  is_byte b -> client_ok (cw_state w) -> wp (write_display_byte b) (fun r w' => step_safe r w w') w.
Proof.
  intros Hb Hw. unfold write_display_byte. apply wp_bind, wp_gets.
  assert (forall s, client_ok s -> client_ok (s <| c_utf8_pending := [] |> <| c_utf8_expected := 0 |>)) as Hreset.
  { intros s []. split; simpl; try done. by left. }
  destruct (c_utf8_pending (cw_state w)) as [|p ps] eqn:Ep; [by apply first_byte_safe|].
  destruct (co_utf8 _ Hw) as [Hn|[Hlen Hexp]]; [by rewrite Hn in Ep|]. pose proof (co_bytes _ Hw) as Hbytes. rewrite Ep in Hlen, Hbytes.
  apply wp_if; intros _.
  - apply wp_bind, wp_modify. set (w1 := set_field cw_state _ w). assert (client_ok (cw_state w1)) as Hw1 by by apply Hreset.
    assert (step_safe 0 w w1) as S1 by (apply (state_safe (fun s => s <| c_utf8_pending := [] |> <| c_utf8_expected := 0 |>)); [by apply Hreset|done]).
    apply wp_bind. eapply wp_mono; [apply display_shown|]. intros r w2 H2.
    assert (step_safe r w w2) as S2.
    { eapply step_safe_trans; [exact S1|]. apply (shown_safe [QUESTION]); [done| |exact H2]. constructor; [apply question_safe|done]. }
    assert (c_utf8_pending (cw_state w2) = []) as Hp2 by (by destruct H2 as (d & ds & -> & _)).
    destruct (Z.eqb_spec r 0) as [->|Hr]; simpl.
    + eapply wp_mono; [apply first_byte_safe; [done|by apply (ss_ok _ _ _ S2)|done]|]. intros r w3 S3. by eapply step_safe_trans.
    + apply wp_ret. destruct S2 as [(d & c & A1 & A2 & A3 & _) (t & f & A5 & A6 & A7 & _) _ _ A11 A12 A13 A14]. split; try done; [by exists d, c|by exists t, f].
  - apply wp_bind. eapply wp_lift; [apply push_Some; lia|]. apply wp_bind, wp_modify. set (w1 := set_field cw_state _ w).
    assert (Forall is_byte ((p :: ps) ++ [b])) as Hbytes1 by (apply Forall_app; split; [done|by apply Forall_singleton]).
    apply wp_if; intros Hfull.
    + destruct (sequence_text _ Hbytes1) as (cps & Hc & Hsafe). apply wp_bind. eapply wp_lift; [exact Hsafe|].
      apply wp_bind. eapply wp_mono with (Q := fun r w' => shown (encode_text cps) r w1 w').
      { apply wp_if; intros He; [apply display_shown|]. apply wp_ret. exists [], (cw_displays w1). rewrite app_nil_r.
        destruct (encode_text cps); [by destruct w1|done]. }
      intros r w2 (d & ds & -> & P & E). destruct (Z.eqb_spec r 0) as [->|Hr]; simpl.
      * apply wp_bind, wp_modify, wp_ret. split; try done; simpl.
        -- by exists d, cps.
        -- exists [], []. by rewrite app_nil_r.
        -- intros _. destruct Hw. split; simpl; try done. by left.
      * apply wp_ret. split; try done; simpl; [by exists d, cps|]. exists [], []. by rewrite app_nil_r.
    + apply wp_ret. apply (state_safe (fun s => s <| c_utf8_pending := (p :: ps) ++ [b] |>)); [|done].
      apply Z.eqb_neq in Hfull. destruct Hw. split; simpl; try done. right. rewrite length_app in *. simpl in *. lia.
Qed.

(** * Reports *)

Lemma report_safe option payload w :
  client_ok (cw_state w) -> wp (send_subnegotiation option payload) (fun r w' => step_safe r w w') w.
Proof.
  intros Hw. eapply wp_mono; [apply subnegotiation_wired|]. intros r w'. apply wired_safe; [done|]. apply framed_subnegotiation.
Qed.

Lemma window_safe w : client_ok (cw_state w) -> wp send_window_size (fun r w' => step_safe r w w') w.
Proof.
  intros Hw. apply wp_bind, wp_gets. apply wp_if; intros _; [by apply wp_ret, step_safe_refl|]. apply wp_next_input.
  - intros _. by apply report_safe.
  - intros x rest _. set (w1 := set_field cw_winsizes rest w). assert (step_safe 0 w w1) as S1.
    { split; try done; exists [], []; by rewrite app_nil_r. }
    assert (forall payload, wp (send_subnegotiation TELNET_OPT_NAWS payload) (fun r w' => step_safe r w w') w1) as Hs.
    { intros payload. eapply wp_mono; [by apply report_safe|]. intros r w' S. by eapply step_safe_trans. }
    destruct x as [[col row]|]; apply Hs.
Qed.

Lemma type_name_loop_spec term n :
  0 <= n -> Forall (fun b => 32 <= b <= 126) (type_name_loop term n) /\ Zlen (type_name_loop term n) <= Z.max 0 (40 - n).
Proof.
  revert n. induction term as [|ch term IH]; intros n Hn; simpl; [split; [constructor|simpl; lia]|].
  destruct (Z.ltb_spec n 40); simpl; [|split; [constructor|simpl; lia]].
  destruct (Z.ltb_spec ch 32); simpl; [split; [constructor|simpl; lia]|].
  destruct (Z.gtb_spec ch 126); simpl; [split; [constructor|simpl; lia]|].
  destruct (IH (n + 1) ltac:(lia)) as [A1 A2]. split; [|simpl; lia]. constructor; [|done].
  unfold ascii_upper. destruct (Z.leb_spec 97 ch); simpl; [|lia]. destruct (Z.leb_spec ch 122); lia.
Qed.

Lemma terminal_type_name_spec term :
  Forall (fun b => 32 <= b <= 126) (terminal_type_name term) /\ 0 < Zlen (terminal_type_name term) <= 40.
Proof.
  unfold terminal_type_name. destruct (type_name_loop_spec (c_str (from_option id [] term)) 0 ltac:(lia)) as [H1 H2].
  destruct (type_name_loop (c_str (from_option id [] term)) 0) as [|b l].
  - split; [vm_compute; repeat constructor; discriminate|vm_compute; intuition discriminate].
  - split; [done|]. simpl in *. lia.
Qed.

Lemma type_name_local term : local_str 41 (terminal_type_name term) = Some (terminal_type_name term).
Proof. apply local_str_Some. pose proof (terminal_type_name_spec term). lia. Qed.

Lemma terminal_type_safe w : client_ok (cw_state w) -> wp send_terminal_type (fun r w' => step_safe r w w') w.
Proof.
  intros Hw. unfold send_terminal_type. apply wp_bind, wp_modify. set (w1 := set_field cw_state _ w).
  assert (step_safe 0 w w1) as S1 by (apply (state_safe (fun s => s <| c_ttype_requests_received := _ |>)); [by destruct Hw|done]).
  apply wp_bind, wp_gets, wp_bind, wp_gets, wp_bind.
  destruct (terminal_type_name_spec (cw_term w1)) as [_ Ht].
  match goal with |- wp (lift_opt (store_str 48 ?t)) _ _ => assert (strlen t + 1 <= 42) as Hs end.
  { repeat case_match; try (by vm_compute). unfold strlen. pose proof (c_str_length_le (terminal_type_name (cw_term w1))). lia. }
  eapply wp_lift; [apply store_str_Some; lia|]. unfold strlen in Hs. apply wp_bind.
  eapply wp_lift; [apply append_Some; change (Zlen [TERMINAL_TYPE_IS]) with 1; lia|].
  eapply wp_mono; [apply report_safe; by apply (ss_ok _ _ _ S1)|]. intros r w' S. by eapply step_safe_trans.
Qed.

Lemma append_pieces pieces p :
  Zlen p + Zlen (concat pieces) <= ENVIRON_PAYLOAD_SIZE -> fold_left append_environ pieces (Some (Some p)) = Some (Some (p ++ concat pieces)).
Proof.
  revert p. induction pieces as [|x pieces IH]; intros p Hl; simpl in *; [by rewrite app_nil_r|].
  rewrite length_app in Hl. destruct (Z.leb_spec (Zlen x) (ENVIRON_PAYLOAD_SIZE - Zlen p)); [|lia].
  rewrite append_Some by lia. simpl. rewrite IH by (rewrite length_app; lia). by rewrite <- app_assoc.
Qed.

Lemma environ_pieces_length utf8 term : Zlen (concat (environ_pieces utf8 term)) <= ENVIRON_PAYLOAD_SIZE.
Proof.
  destruct (terminal_type_name_spec term) as [_ Ht].
  assert (Zlen (concat (take 20 (environ_pieces utf8 term))) <= 150) as Hfixed by (destruct utf8; vm_compute; discriminate).
  change (environ_pieces utf8 term) with (take 20 (environ_pieces utf8 term) ++ [terminal_type_name term]).
  rewrite concat_app, length_app. simpl concat at 2. rewrite app_nil_r. unfold ENVIRON_PAYLOAD_SIZE. lia.
Qed.

(** The environment report always fits its buffer. *)
Lemma environ_payload_fits utf8 term : environ_payload utf8 term = Some (Some (concat (environ_pieces utf8 term))).
Proof. apply append_pieces. simpl. apply environ_pieces_length. Qed.

Lemma new_environ_safe w : client_ok (cw_state w) -> wp send_new_environ (fun r w' => step_safe r w w') w.
Proof.
  intros Hw. apply wp_bind, wp_gets, wp_bind, wp_gets, wp_bind. eapply wp_lift; [apply type_name_local|].
  apply wp_bind. eapply wp_lift; [apply environ_payload_fits|]. by apply report_safe.
Qed.

Lemma maybe_request_safe w : client_ok (cw_state w) -> wp maybe_request_utf8 (fun r w' => step_safe r w w') w.
Proof.
  intros Hw. apply wp_bind, wp_gets. apply wp_if; intros _; [by apply wp_ret, step_safe_refl|].
  apply wp_bind, wp_modify. set (w1 := set_field cw_state _ w).
  assert (step_safe 0 w w1) as S1 by (apply (state_safe (fun s => s <| c_charset_requested := true |>)); [by destruct Hw|done]).
  eapply wp_mono; [apply report_safe; by apply (ss_ok _ _ _ S1)|]. intros r w' S. by eapply step_safe_trans.
Qed.

Lemma client_sub_safe w : client_ok (cw_state w) -> wp handle_subnegotiation (fun r w' => step_safe r w w') w.
Proof.
  intros Hw. unfold handle_subnegotiation. apply wp_bind, wp_gets. cbv zeta.
  assert (forall b, client_ok ((cw_state w) <| c_utf8_enabled := b |>)) as Hb by (by destruct Hw).
  assert (forall b, step_safe 0 w (w <| cw_state := (cw_state w) <| c_utf8_enabled := b |> |>)) as Sb
    by (intros b; by apply (state_safe (fun s => s <| c_utf8_enabled := b |>))).
  match goal with |- context [if ?c then send_new_environ else mret 0] => set (cond := c) end.
  assert (forall w1, step_safe 0 w w1 -> wp (if cond then send_new_environ else mret 0) (fun r w' => step_safe r w w') w1) as Henv.
  { intros w1 S1. apply wp_if; intros _; [|by apply wp_ret]. eapply wp_mono; [apply new_environ_safe; by apply (ss_ok _ _ _ S1)|].
    intros r w' S. by eapply step_safe_trans. }
  assert (step_safe 0 w w) as S0 by by apply step_safe_refl.
  apply wp_if; intros _; [by apply terminal_type_safe|]. apply wp_if; intros _; [|by apply Henv].
  apply wp_if; intros _.
  - apply wp_if; intros _; [|by apply report_safe]. apply wp_bind, wp_modify.
    eapply wp_mono; [apply report_safe, Hb|]. intros r w' S. eapply step_safe_trans; [apply (Sb true)|exact S].
  - apply wp_bind. apply wp_if; intros _; [apply wp_modify; apply Henv, (Sb true)|].
    apply wp_when; intros _; [apply wp_modify; apply Henv, (Sb false)|by apply Henv].
Qed.

(** * Options *)

(** A received command is answered by at most one command. *)
Lemma receive_answers q command option accept :
  snd (telnet_q_receive q command option accept) = [] \/
  exists c, snd (telnet_q_receive q command option accept) = [(c, option)] /\ framed [TELNET_IAC; c; option].
Proof.
  assert (forall d, framed [TELNET_IAC; enable_command d; option] /\ framed [TELNET_IAC; disable_command d; option]) as Hf by (by intros []).
  unfold telnet_q_receive. destruct (command_kind command) as [[d positive]|]; [|by left].
  destruct positive; unfold receive_positive, receive_negative; repeat case_match; simpl; auto; right; eexists; (split; [done|apply Hf]).
Qed.

Lemma sends_wired sends w :
  sends = [] \/ (exists c o, sends = [(c, o)] /\ framed [TELNET_IAC; c; o]) ->
  wp (for_each sends q_send_callback) (fun _ w' => exists data r w1, framed data /\ wired data r w w1 /\
    w' = if r =? 0 then w1 else w1 <| cw_state := (cw_state w1) <| c_write_failed := true |> |>) w.
Proof.
  intros [->|(c & o & -> & Hf)].
  - apply wp_ret. exists [], 0, w. split_and!; [done|apply wired_refl|done].
  - simpl. apply wp_bind, wp_bind. eapply wp_mono; [apply write_all_wired|]. intros r w1 H1.
    apply wp_when; intros Hr; [apply wp_modify|]; apply wp_ret; exists [TELNET_IAC; c; o], r, w1; (split_and!; [done|done|]);
      by destruct (r =? 0).
Qed.

(** The echo of a terminal follows its argument, if its calls work. *)
Lemma local_echo_set enabled w :
  wp (set_local_echo enabled) (fun _ w' => exists t cs, w' = w <| cw_tty := t |> <| cw_tty_calls := cs |> /\
    saved_terminal t = saved_terminal (cw_tty w) /\ (cw_tty_calls w = [] -> cs = []) /\
    (saved_terminal (cw_tty w) = None -> t = cw_tty w) /\
    (cw_tty_calls w = [] -> saved_terminal (cw_tty w) <> None -> tty_echo (cw_tty w) = local_echo_enabled (cw_tty w) ->
     cs = [] /\ t = mk_tty enabled (saved_terminal (cw_tty w)) enabled)) w.
Proof.
  unfold set_local_echo. apply wp_bind, wp_gets.
  destruct (saved_terminal (cw_tty w)) as [saved|] eqn:Es; simpl.
  2: { apply wp_ret. exists (cw_tty w), (cw_tty_calls w). rewrite Es. split_and!; [by destruct w|done..]. }
  apply wp_if; intros Hb.
  { apply wp_ret. exists (cw_tty w), (cw_tty_calls w). rewrite Es. split_and!; [by destruct w|done..|].
    intros Hc _ He. split; [exact Hc|]. apply Bool.eqb_prop in Hb. destruct (cw_tty w). simpl in *. congruence. }
  apply wp_next_input.
  - intros Ec. simpl. apply wp_next_input; [|by rewrite Ec]. intros _. apply wp_modify. rewrite Es.
    exists (mk_tty enabled (Some saved) enabled), (cw_tty_calls w). split_and!; [by destruct w|done..].
  - intros got rest Ec. rewrite Ec. apply wp_if; intros _.
    { apply wp_ret. exists (cw_tty w), rest. rewrite Es. split_and!; [by destruct w|done..]. }
    apply wp_next_input; simpl.
    + intros Er. apply wp_modify. simpl. rewrite Es. exists (mk_tty enabled (Some saved) enabled), rest. done.
    + intros ok rest' Er. apply wp_when; intros _; [apply wp_modify; simpl; rewrite Es|].
      * exists (mk_tty enabled (Some saved) enabled), rest'. done.
      * exists (cw_tty w), rest'. rewrite Es. split_and!; [by destruct w|done..].
Qed.

Lemma options_ok q s : client_ok s -> q_ok q -> client_ok (s <| c_options := q |>).
Proof. by intros [] ?. Qed.

Lemma receive_option_safe byte w :
  is_byte byte -> client_ok (cw_state w) -> wp (receive_option byte) (fun r w' => step_safe r w w') w.
Proof.
  intros Hb Hw. unfold receive_option. apply wp_bind, wp_gets. cbv zeta.
  pose proof (receive_answers (c_options (cw_state w)) (c_command (cw_state w)) byte q_accept_callback) as Hans.
  pose proof (q_ok_receive _ (c_command (cw_state w)) byte q_accept_callback (co_q _ Hw) Hb) as Hq.
  destruct (telnet_q_receive (c_options (cw_state w)) (c_command (cw_state w)) byte q_accept_callback) as [q sends]. simpl in Hans, Hq.
  apply wp_bind, wp_modify. set (w1 := set_field cw_state _ w). apply wp_bind.
  eapply wp_mono; [apply sends_wired; destruct Hans as [?|(c & H1 & H2)]; [by left|right; by exists c, byte]|].
  intros [] w2 (data & r & w2' & Hf & Hwired & ->). apply wp_bind, wp_gets.
  assert (client_ok (cw_state w1)) as Hw1 by by apply options_ok.
  pose proof (wired_safe _ _ _ _ Hw1 Hf Hwired) as S2. destruct Hwired as (o & ws & cs & Ew2 & _).
  destruct (Z.eqb_spec r 0) as [->|Hr]; simpl.
  2: { apply wp_ret. destruct S2 as [(d & c & A1 & A2 & A3 & _) (t & f & A5 & A6 & A7 & _) _ _ A11 A12 A13 A14].
       split; try done; [by exists d, c|by exists t, f]. }
  assert (c_write_failed (cw_state w2') = false) as Hnf by (rewrite Ew2; exact (co_writes _ Hw)).
  assert (c_options (cw_state w2') = q) as Hopt by (by rewrite Ew2). rewrite Hnf, Hopt.
  set (before := telnet_q_enabled (c_options (cw_state w)) TELNET_Q_REMOTE TELNET_OPT_ECHO).
  set (after := telnet_q_enabled q TELNET_Q_REMOTE TELNET_OPT_ECHO).
  assert (forall w3 t cs', w3 = w2' <| cw_tty := t |> <| cw_tty_calls := cs' |> -> saved_terminal t = saved_terminal (cw_tty w) ->
    (cw_tty_calls w = [] -> cs' = []) ->
    (saved_terminal (cw_tty w) = None -> t = cw_tty w) -> (echo_ok w -> cs' = [] /\ tty_echo t = negb after /\ local_echo_enabled t = negb after) -> step_safe 0 w w3) as Hafter.
  { intros w3 t cs' -> Hsaved Hcalls Hnotty Hecho. destruct S2 as [S21 S22 S23 _ S25 S26 S27 _]. split; [exact S21|exact S22|exact S23| |exact S25|exact Hsaved|exact Hcalls|exact Hnotty].
    intros _ He. destruct (Hecho He) as (-> & H1 & H2). pose proof He as (_ & Hs & _). split_and!; simpl; [done|by rewrite Hsaved|congruence|].
    rewrite Ew2. simpl. done. }
  apply wp_bind.
  assert (wp (when (negb (Bool.eqb before after)) (set_local_echo (negb after))) (fun _ w3 => step_safe 0 w w3) w2') as Hset.
  { apply wp_when; intros Hne.
    - eapply wp_mono; [apply local_echo_set|]. intros [] w3 (t & cs' & -> & Hs & Hcs & Hn & He). eapply Hafter; [done|by rewrite Hs, Ew2|by rewrite Ew2 in Hcs|by rewrite Ew2 in Hn|].
      intros (E1 & E2 & E3 & E4). destruct He as [-> ->]; [by rewrite Ew2|by rewrite Ew2|by rewrite Ew2|done].
    - apply (Hafter _ (cw_tty w2') (cw_tty_calls w2')); [by destruct w2'|by rewrite Ew2|by rewrite Ew2|by rewrite Ew2|].
      intros (E1 & E2 & E3 & E4). rewrite Ew2. simpl. apply negb_false_iff, Bool.eqb_prop in Hne. fold before in E4. by rewrite E3, E4, Hne. }
  eapply wp_mono; [exact Hset|]. intros [] w3 S3. clear Hset Hafter.
  assert (forall m : M client_world Z, wp m (fun r w' => step_safe r w3 w') w3 -> wp m (fun r w' => step_safe r w w') w3) as Hfrom.
  { intros m Hm. eapply wp_mono; [exact Hm|]. intros r' w' S. by eapply step_safe_trans. }
  pose proof (ss_ok _ _ _ S3 eq_refl) as Hw3. apply Hfrom, then_safe.
  { apply wp_if; intros _; [by apply window_safe|by apply wp_ret, step_safe_refl]. }
  intros w4 S4 Hw4. eapply wp_mono with (Q := fun r w' => step_safe r w4 w'); [|intros r' w' S; by eapply step_safe_trans].
  apply then_safe; [by apply maybe_request_safe|]. intros w5 S5 Hw5. eapply set_safe; [exact S5|done|by apply parser_ok|done].
Qed.

(** * The parser *)

Lemma sub_append_safe byte w : client_ok (cw_state w) -> wp (sub_data_append byte) (fun r w' => step_safe r w w') w.
Proof.
  intros Hw. apply wp_bind, wp_gets. destruct (Z.geb_spec (Zlen (c_sub_data (cw_state w))) SUB_DATA_SIZE).
  - apply wp_ret. by apply step_safe_refl.
  - apply wp_bind. eapply wp_lift; [by apply push_Some|]. eapply set_safe; [by apply (step_safe_refl 0)|done| |done].
    destruct Hw. split; simpl; try done. rewrite length_app. simpl. lia.
Qed.

Lemma process_byte_safe byte w :
  is_byte byte -> client_ok (cw_state w) -> wp (process_byte byte) (fun r w' => step_safe r w w') w.
Proof.
  intros Hb Hw. assert (forall f, client_ok (f (cw_state w)) -> c_options (f (cw_state w)) = c_options (cw_state w) ->
    wp (upd_client f ;; mret 0) (fun r w' => step_safe r w w') w) as Hset.
  { intros f H1 H2. by eapply set_safe; [apply (step_safe_refl 0)|..]. }
  assert (forall p, wp (set_client_parser p ;; mret 0) (fun r w' => step_safe r w w') w) as Hp by (intros p; apply Hset; [by apply parser_ok|done]).
  unfold process_byte. apply wp_bind, wp_gets. destruct (c_parser (cw_state w)).
  - apply wp_if; intros _; [apply Hp|by apply display_byte_safe].
  - apply wp_if; intros _.
    + apply then_safe; [by apply display_byte_safe|]. intros w1 S1 Hw1. eapply set_safe; [exact S1|done|by apply parser_ok|done].
    + apply wp_if; intros _; [apply Hset; [by destruct Hw|done]|]. apply wp_if; intros _; apply Hp.
  - by apply receive_option_safe.
  - apply Hset; [|done]. destruct Hw. by split.
  - apply wp_if; intros _; [apply Hp|by apply sub_append_safe].
  - apply wp_if; intros _; [|apply wp_if; intros _; [|apply Hp]].
    + apply then_safe; [by apply client_sub_safe|]. intros w1 S1 Hw1. eapply set_safe; [exact S1|done| |done]. destruct Hw1. by split.
    + apply then_safe; [by apply sub_append_safe|]. intros w1 S1 Hw1. eapply set_safe; [exact S1|done|by apply parser_ok|done].
Qed.

Lemma process_bytes_safe data w :
  Forall is_byte data -> client_ok (cw_state w) -> wp (process_server_bytes data) (fun r w' => step_safe r w w') w.
Proof.
  intros Hd. revert w. induction Hd as [|b data Hb _ IH]; intros w Hw; [by apply wp_ret, step_safe_refl|].
  simpl. apply then_safe; [by apply process_byte_safe|]. intros w1 S1 Hw1.
  eapply wp_mono; [by apply IH|]. intros r w2 S2. by eapply step_safe_trans.
Qed.

(** [C11] Nothing the server sends can attack the client's user.  For every
    stream of bytes, every behaviour of the TLS library and every failed or
    short write to the screen, the client's parser runs without a store outside
    its buffers (the 256-byte subnegotiation, the 4-byte pending sequence), and
    what it adds to the screen is a prefix of valid UTF-8 text made only of
    allowed code points: no escape, no control but CR, LF and TAB, no
    bidirectional override.  What it sends is a prefix of well-framed Telnet;
    if the result is 0, both are complete and the state is well formed. *)
Theorem client_display_safe data w :
  Forall is_byte data -> client_ok (cw_state w) ->
  exists r w', process_server_bytes data w = Some (r, w') /\
    (exists d cps, cw_screen w' = cw_screen w ++ d /\ Forall safe_scalar cps /\ d `prefix_of` encode_text cps /\ (r = 0 -> d = encode_text cps)) /\
    (exists t full, cw_tls w' = cw_tls w ++ t /\ framed full /\ t `prefix_of` full /\ (r = 0 -> t = full)) /\
    (r = 0 -> client_ok (cw_state w')).
Proof.
  intros Hd Hw. destruct (wp_run _ _ _ (process_bytes_safe data w Hd Hw)) as (r & w' & E1 & []). by exists r, w'.
Qed.

(** [C28] Passwords are not echoed.  On a terminal whose calls work, from a state
    in which local echo is on exactly if the server does not echo, every stream
    the client processes keeps it so: while the server's ECHO option is in
    force, as it is for passwords, the terminal does not echo, and it echoes
    again as soon as the option is off. *)
Theorem client_hides_passwords data w r w' :
  Forall is_byte data -> client_ok (cw_state w) -> echo_ok w ->
  process_server_bytes data w = Some (r, w') -> r = 0 ->
  tty_echo (cw_tty w') = negb (telnet_q_enabled (c_options (cw_state w')) TELNET_Q_REMOTE TELNET_OPT_ECHO).
Proof.
  intros Hd Hw He E1 Hr. pose proof (wp_of_run _ _ _ _ _ (process_bytes_safe data w Hd Hw) E1) as [_ _ _ S4 _ _ _ _].
  destruct (S4 Hr He) as (_ & _ & H1 & H2). congruence.
Qed.
