(* ===== verification/ClientServer.v ===== *)
(** The client and the server together: what is typed, the window size, the
    environment and the character set reach the other side. *)
From S2P Require Import Prelude TelnetNegotiation TerminalText AsciiText SecurityPolicy PlayerStore Application TelnetSession TelnetOptions.
From S2P Require Import TelnetLogin TelnetSubnegotiation TelnetParser TelnetOutput TelnetInvariant TelnetDialogue TelnetStream TelnetReports.
From S2P Require Import SshTransport SshInvariant SecureServer SecureClient ClientTheorems.

(** * Typed lines *)

Lemma convert_length input : Zlen (convert_input input) <= 2 * Zlen input.
Proof.
  induction input as [|b input IH]; simpl in *; [lia|]. rewrite length_app. destruct (b =? LF), (b =? TELNET_IAC); simpl; lia.
Qed.

Lemma convert_line text : Forall line_byte text -> convert_input (text ++ [LF]) = quote_iac text ++ [CR; LF].
Proof.
  intros Ht. unfold convert_input. rewrite flat_map_app. f_equal. induction Ht as [|b text [Hb Hd] _ IH]; [done|]. simpl.
  destruct (Z.eqb_spec b LF) as [->|]; [|by rewrite IH]. exfalso. unfold LF in *. lia.
Qed.

Lemma input_wired input w :
  Zlen input <= CONVERTED_SIZE / 2 -> wp (send_terminal_input input) (fun r w' => wired (convert_input input) r w w') w.
Proof.
  intros Hl. unfold send_terminal_input. destruct (Z.gtb_spec (Zlen input) (CONVERTED_SIZE / 2)); [lia|].
  pose proof (convert_length input) as Hc. change (CONVERTED_SIZE / 2) with 4096 in Hl. unfold CONVERTED_SIZE.
  apply wp_bind, wp_lift with (convert_input input); [|apply write_all_wired].
  by destruct (Z.leb_spec (Zlen (convert_input input)) 8192); [|lia].
Qed.

Section server.
Context {E : Environment}.

(** [C18] What is typed at the client is the line the server gets.  A line of
    text, whatever bytes it holds beyond control codes (IAC bytes included),
    sent by the client with all its writes succeeding, is bytes that put exactly
    this line before the session's line handler. *)
Theorem client_line_reaches_server text c c' (w : world) now rest :
  Forall line_byte text -> Zlen text <= line_limit (login (session w)) -> Zlen text < CONVERTED_SIZE / 2 ->
  send_terminal_input (text ++ [LF]) c = Some (0, c') ->
  parser (session w) = PARSER_DATA -> pending_cr (session w) = false -> line (session w) = [] ->
  close_requested (session w) = false ->
  exists bytes, cw_tls c' = cw_tls c ++ bytes /\
    parse_bytes now (bytes ++ rest) w = (process_complete_line now ;; parse_bytes now rest) (typing text w).
Proof.
  intros Ht Hl Hsize Hsend Hp Hcr Hline Hc.
  assert (Zlen (text ++ [LF]) <= CONVERTED_SIZE / 2) as Hs by (rewrite length_app; simpl; lia).
  destruct (wp_of_run _ _ _ _ _ (input_wired (text ++ [LF]) c Hs) Hsend) as (o & ws & cs & -> & _ & Ho).
  exists (quote_iac text ++ [CR; LF]). rewrite (Ho eq_refl), convert_line by done. split; [done|].
  rewrite <- app_assoc. by apply type_line.
Qed.

(** * Reports *)

Lemma word_bytes v : 0 <= v < 65536 -> Z.lor (Z.shiftl (Z.shiftr v 8) 8) (Z.land v 255) = v.
Proof.
  intros Hv. apply Z.bits_inj'. intros n Hn. rewrite Z.lor_spec, Z.land_spec, Z.shiftl_spec by done.
  change 255 with (Z.ones 8). destruct (Z.ltb_spec n 8).
  - rewrite Z.ones_spec_low by lia. rewrite (Z.testbit_neg_r _ (n - 8)) by lia. by rewrite andb_true_r.
  - rewrite Z.shiftr_spec by lia. rewrite Z.ones_spec_high by lia. rewrite andb_false_r, orb_false_r. f_equal. lia.
Qed.

(** The session between two items. *)
Lemma parse_report now option payload rest (w : world) :
  parser (session w) = PARSER_DATA -> close_requested (session w) = false -> Zlen payload <= SUBNEGOTIATION_MAX_BYTES ->
  parse_bytes now (subnegotiation_bytes option payload ++ rest) w =
  (finish_subnegotiation ;; set_parser_state PARSER_DATA ;; parse_bytes now rest) (collecting option payload PARSER_SB_IAC w).
Proof. apply parse_subnegotiation. Qed.

(** What the client measured, with the defaults for what is unknown. *)
Definition window_of (size : option (Z * Z)) : Z * Z :=
  match size with
  | Some (col, row) => (if negb (col =? 0) then col else 80, if negb (row =? 0) then row else 24)
  | None => (80, 24)
  end.

Lemma window_wired c size rest :
  telnet_q_enabled (c_options (cw_state c)) TELNET_Q_LOCAL TELNET_OPT_NAWS = true -> cw_winsizes c = size :: rest ->
  wp send_window_size (fun r c' => wired (subnegotiation_bytes TELNET_OPT_NAWS
    (window_payload (fst (window_of size)) (snd (window_of size)))) r (c <| cw_winsizes := rest |>) c') c.
Proof.
  intros Hon Hw. apply wp_bind, wp_gets. rewrite Hon. simpl. apply wp_next_input; rewrite Hw; [done|]. intros x l [= <- <-].
  destruct size as [[col row]|]; apply subnegotiation_wired.
Qed.

(** The server learns the client's window.  If the window size the kernel
    reported is 16-bit, and the report went out, the session ends up with that
    width and height (80 by 24 where unknown), moved into the range the server
    allows. *)
Theorem client_window_reaches_server c c' size sizes (w : world) now rest :
  telnet_q_enabled (c_options (cw_state c)) TELNET_Q_LOCAL TELNET_OPT_NAWS = true -> cw_winsizes c = size :: sizes ->
  0 <= fst (window_of size) < 65536 -> 0 <= snd (window_of size) < 65536 ->
  send_window_size c = Some (0, c') ->
  parser (session w) = PARSER_DATA -> close_requested (session w) = false ->
  telnet_q_enabled (options (session w)) TELNET_Q_REMOTE TELNET_OPT_NAWS = true ->
  exists bytes w', cw_tls c' = cw_tls c ++ bytes /\ parse_bytes now (bytes ++ rest) w = parse_bytes now rest w' /\
    width (terminal (session w')) = clamp_dimension (fst (window_of size)) MIN_TERMINAL_WIDTH MAX_TERMINAL_WIDTH DEFAULT_TERMINAL_WIDTH /\
    height (terminal (session w')) = clamp_dimension (snd (window_of size)) MIN_TERMINAL_HEIGHT MAX_TERMINAL_HEIGHT DEFAULT_TERMINAL_HEIGHT.
Proof.
  intros Hon Hsz Hw Hh Hsend Hp Hc Hnaws.
  destruct (wp_of_run _ _ _ _ _ (window_wired c size sizes Hon Hsz) Hsend) as (o & ws & cs & -> & _ & Ho).
  rewrite (Ho eq_refl). eexists _, _. split; [done|]. split.
  { rewrite parse_report by (done || by vm_compute). unfold finish_subnegotiation, handle_naws, mbind, M_bind, get_session, gets. simpl.
    rewrite Hnaws. simpl. reflexivity. }
  simpl. by rewrite !word_bytes.
Qed.

(** ** The environment *)

Definition client_entries (utf8 : bool) (term : option (list Z)) : list environ_entry :=
  [mk_entry NEW_ENVIRON_VAR (txt "CLIENT_NAME") (txt "TELNET-CLIENT");
   mk_entry NEW_ENVIRON_VAR (txt "CLIENT_VERSION") (txt "development");
   mk_entry NEW_ENVIRON_VAR (txt "CHARSET") (if utf8 then txt "UTF-8" else txt "ASCII");
   mk_entry NEW_ENVIRON_VAR (txt "MTTS") (if utf8 then txt "4" else txt "0");
   mk_entry NEW_ENVIRON_VAR (txt "TERMINAL_TYPE") (terminal_type_name term)].

Lemma escape_printable l : Forall (fun b => 32 <= b <= 126) l -> environ_escape l = l.
Proof.
  induction 1 as [|b l Hb _ IH]; [done|]. unfold environ_escape in *. simpl. rewrite IH. destruct (_ || _) eqn:Hq; [|done].
  unfold TelnetSession.NEW_ENVIRON_VAR, TelnetSession.NEW_ENVIRON_VAL, NEW_ENVIRON_ESC, NEW_ENVIRON_USERVAR in Hq. breflect; lia.
Qed.

Lemma client_entries_ok utf8 term : Forall entry_ok (client_entries utf8 term).
Proof.
  destruct (terminal_type_name_spec term) as [_ Ht]. unfold client_entries, entry_ok.
  rewrite !Forall_cons. cbn [entry_token entry_name entry_value].
  split_and!; first [by left | apply Forall_nil_2 | lia | (vm_compute; discriminate) | (destruct utf8; vm_compute; discriminate) | by vm_compute].
Qed.

Lemma client_payload utf8 term : concat (environ_pieces utf8 term) = NEW_ENVIRON_IS :: environ_encode (client_entries utf8 term).
Proof.
  unfold environ_encode, client_entries. cbn [flat_map entry_token entry_name entry_value].
  rewrite (escape_printable (terminal_type_name term)) by apply terminal_type_name_spec.
  destruct utf8; vm_compute; by rewrite ?app_nil_r.
Qed.

(** [C33] The server reads the client's environment.  Whatever the TERM variable
    holds, the report fits the client's buffer and, once sent, makes the server
    apply exactly the client's five variables: its name and version, the
    character set and MTTS flags that agree with each other, and a printable
    terminal type of 1 to 40 characters. *)
Theorem client_environ_reaches_server c c' (w : world) now rest :
  send_new_environ c = Some (0, c') ->
  parser (session w) = PARSER_DATA -> close_requested (session w) = false ->
  telnet_q_enabled (options (session w)) TELNET_Q_REMOTE TELNET_OPT_NEW_ENVIRON = true ->
  let entries := client_entries (c_utf8_enabled (cw_state c)) (cw_term c) in
  exists bytes, cw_tls c' = cw_tls c ++ bytes /\ Forall entry_ok entries /\
    parse_bytes now (bytes ++ rest) w =
      (for_each entries (fun e => apply_new_environ_value (entry_token e) (entry_name e) (entry_value e)) ;;
       update_option_metadata ;; upd (fun s => s <| subnegotiation := [] |>) ;; set_parser_state PARSER_DATA ;; parse_bytes now rest)
      (collecting TELNET_OPT_NEW_ENVIRON (NEW_ENVIRON_IS :: environ_encode entries) PARSER_SB_IAC w).
Proof.
  intros Hsend Hp Hc Hon entries. subst entries. set (utf8 := c_utf8_enabled (cw_state c)). set (term := cw_term c).
  pose proof (client_entries_ok utf8 term) as Hok.
  assert (wp send_new_environ (fun r c' => wired (subnegotiation_bytes TELNET_OPT_NEW_ENVIRON (concat (environ_pieces utf8 term))) r c c') c) as Hwire.
  { apply wp_bind, wp_gets, wp_bind, wp_gets, wp_bind. eapply wp_lift; [apply type_name_local|].
    apply wp_bind. eapply wp_lift; [apply environ_payload_fits|]. apply subnegotiation_wired. }
  destruct (wp_of_run _ _ _ _ _ Hwire Hsend) as (o & ws & cs & -> & _ & Ho). rewrite (Ho eq_refl), client_payload.
  eexists. split; [done|]. split; [done|].
  assert (Zlen (NEW_ENVIRON_IS :: environ_encode (client_entries utf8 term)) <= SUBNEGOTIATION_MAX_BYTES) as Hlen.
  { rewrite <- client_payload. pose proof (environ_pieces_length utf8 term) as Hpl. unfold ENVIRON_PAYLOAD_SIZE in Hpl. change SUBNEGOTIATION_MAX_BYTES with 4096. lia. }
  rewrite parse_report by done. set (v := collecting _ _ _ w).
  assert (finish_subnegotiation v = (handle_new_environ ;; upd (fun s => s <| subnegotiation := [] |>)) v) as Hfinish by reflexivity.
  pose proof (handle_environ_encode v (client_entries utf8 term) Hon Hok (or_introl eq_refl)) as Hhandle.
  unfold mbind, M_bind in *. rewrite Hfinish, Hhandle. destruct (for_each _ _ v) as [[[] w1]|]; [|done].
  by destruct (update_option_metadata w1) as [[[] w2]|].
Qed.

(** ** Subnegotiations from the server *)

Definition client_collecting (option : Z) (got : list Z) (p : client_parse_state) (c : client_world) : client_world :=
  c <| cw_state := (cw_state c) <| c_sub_option := option |> <| c_sub_data := got |> <| c_parser := p |> |>.

Lemma process_step b data c c1 : process_byte b c = Some (0, c1) -> process_server_bytes (b :: data) c = process_server_bytes data c1.
Proof. intros H. simpl. unfold mbind, M_bind. by rewrite H. Qed.

Lemma client_append b got p option c :
  Zlen got < SUB_DATA_SIZE -> sub_data_append b (client_collecting option got p c) = Some (0, client_collecting option (got ++ [b]) p c).
Proof.
  intros Hl. unfold sub_data_append, mbind, M_bind, get_client, gets. simpl.
  destruct (Z.geb_spec (Zlen got) SUB_DATA_SIZE); [lia|]. by rewrite push_Some.
Qed.

Lemma client_payload_parsed option payload got rest c :
  Zlen got + Zlen payload <= SUB_DATA_SIZE ->
  process_server_bytes (quote_iac payload ++ rest) (client_collecting option got CLIENT_SB_DATA c) =
  process_server_bytes rest (client_collecting option (got ++ payload) CLIENT_SB_DATA c).
Proof.
  revert got. induction payload as [|b payload IH]; intros got Hl; [by rewrite app_nil_r|]. simpl in Hl |- *.
  destruct (Z.eqb_spec b TELNET_IAC) as [->|Hb]; simpl app.
  - rewrite (process_step _ _ _ (client_collecting option got CLIENT_SB_IAC c)) by done.
    rewrite (process_step _ _ _ (client_collecting option (got ++ [TELNET_IAC]) CLIENT_SB_DATA c)).
    + rewrite IH by (rewrite length_app; simpl; lia). by rewrite <- app_assoc.
    + unfold process_byte, mbind, M_bind, get_client, gets. simpl.
      pose proof (client_append TELNET_IAC got CLIENT_SB_IAC option c ltac:(lia)) as ->. done.
  - rewrite (process_step _ _ _ (client_collecting option (got ++ [b]) CLIENT_SB_DATA c)).
    + rewrite IH by (rewrite length_app; simpl; lia). by rewrite <- app_assoc.
    + unfold process_byte, mbind, M_bind, get_client, gets. simpl. destruct (Z.eqb_spec b TELNET_IAC); [done|]. apply client_append. lia.
Qed.

(** A subnegotiation of up to 256 bytes is handled with exactly its payload. *)
Lemma client_parses_subnegotiation option payload rest c :
  c_parser (cw_state c) = CLIENT_DATA -> Zlen payload <= SUB_DATA_SIZE ->
  process_server_bytes (subnegotiation_bytes option payload ++ rest) c =
  (r ← handle_subnegotiation;
   if negb (r =? 0) then mret (-1)
   else upd_client (fun s => s <| c_sub_data := [] |> <| c_parser := CLIENT_DATA |>) ;; process_server_bytes rest)
  (client_collecting option payload CLIENT_SB_IAC c).
Proof.
  intros Hp Hl. unfold subnegotiation_bytes. rewrite <- !app_assoc. simpl app.
  rewrite (process_step _ _ _ (c <| cw_state := (cw_state c) <| c_parser := CLIENT_IAC |> |>))
    by (unfold process_byte, mbind, M_bind, get_client, gets; by rewrite Hp).
  rewrite (process_step _ _ _ (c <| cw_state := (cw_state c) <| c_parser := CLIENT_SB_OPTION |> |>)) by done.
  rewrite (process_step _ _ _ (client_collecting option [] CLIENT_SB_DATA c)) by done.
  rewrite client_payload_parsed by (simpl; lia). simpl app.
  rewrite (process_step _ _ _ (client_collecting option payload CLIENT_SB_IAC c)) by done.
  simpl process_server_bytes. unfold process_byte at 1. unfold mbind, M_bind, get_client, gets. simpl.
  destruct (handle_subnegotiation _) as [[r c1]|]; [|done]. by destruct (r =? 0).
Qed.

(** ** The character set *)

Lemma request_wired c :
  c_charset_requested (cw_state c) = false -> telnet_q_enabled (c_options (cw_state c)) TELNET_Q_LOCAL TELNET_OPT_CHARSET = true ->
  telnet_q_enabled (c_options (cw_state c)) TELNET_Q_LOCAL TELNET_OPT_BINARY = true ->
  telnet_q_enabled (c_options (cw_state c)) TELNET_Q_REMOTE TELNET_OPT_BINARY = true ->
  wp maybe_request_utf8 (fun r c' => wired (subnegotiation_bytes TELNET_OPT_CHARSET ([CHARSET_REQUEST; 59] ++ txt "UTF-8")) r
    (c <| cw_state := (cw_state c) <| c_charset_requested := true |> |>) c') c.
Proof.
  intros H1 H2 H3 H4. unfold maybe_request_utf8. apply wp_bind, wp_gets. rewrite H1, H2, H3, H4. simpl.
  apply wp_bind, wp_modify. apply subnegotiation_wired.
Qed.

Lemma server_accepts_utf8 (v : world) :
  telnet_q_enabled (options (session v)) TELNET_Q_REMOTE TELNET_OPT_CHARSET = true ->
  local_binary (terminal (session v)) = true -> remote_binary (terminal (session v)) = true ->
  subnegotiation_option (session v) = TELNET_OPT_CHARSET -> subnegotiation (session v) = [CHARSET_REQUEST; 59] ++ txt "UTF-8" ->
  finish_subnegotiation v =
  (TelnetSession.send_subnegotiation TELNET_OPT_CHARSET (CHARSET_ACCEPTED :: txt "UTF-8") ;;
   upd (fun s => s <| charset_utf8 := true |>) ;; refresh_utf8_metadata ;; audit (txt "telnet_charset") (txt "UTF-8 accepted") ;;
   upd (fun s => s <| subnegotiation := [] |>)) v.
Proof.
  intros H1 H2 H3 H4 H5. unfold finish_subnegotiation, handle_charset, mbind, M_bind, get_session, gets. cbn beta iota zeta. rewrite H4.
  change (TELNET_OPT_CHARSET =? TELNET_OPT_NAWS) with false. change (TELNET_OPT_CHARSET =? TELNET_OPT_TERMINAL_TYPE) with false.
  change (TELNET_OPT_CHARSET =? TELNET_OPT_CHARSET) with true. cbn beta iota zeta. rewrite H1, H2, H3, H5.
  change (charset_list_contains_utf8 ([CHARSET_REQUEST; 59] ++ txt "UTF-8")) with true. simpl.
  change (TelnetSession.CHARSET_ACCEPTED) with CHARSET_ACCEPTED.
  by destruct (TelnetSession.send_subnegotiation TELNET_OPT_CHARSET (CHARSET_ACCEPTED :: txt "UTF-8") v) as [[[] v1]|].
Qed.

(** [C34] Client and server agree on UTF-8.  When the options it needs are in
    force on both sides, the client's request goes out once, the server accepts
    it and turns UTF-8 output on, and the server's answer turns UTF-8 on at the
    client; nothing shows on the screen. *)
Theorem charset_handshake c c1 (w : world) now :
  c_charset_requested (cw_state c) = false -> telnet_q_enabled (c_options (cw_state c)) TELNET_Q_LOCAL TELNET_OPT_CHARSET = true ->
  telnet_q_enabled (c_options (cw_state c)) TELNET_Q_LOCAL TELNET_OPT_BINARY = true ->
  telnet_q_enabled (c_options (cw_state c)) TELNET_Q_REMOTE TELNET_OPT_BINARY = true ->
  c_parser (cw_state c) = CLIENT_DATA -> maybe_request_utf8 c = Some (0, c1) ->
  parser (session w) = PARSER_DATA -> close_requested (session w) = false ->
  telnet_q_enabled (options (session w)) TELNET_Q_REMOTE TELNET_OPT_CHARSET = true ->
  local_binary (terminal (session w)) = true -> remote_binary (terminal (session w)) = true ->
  exists request w1 reply c2, cw_tls c1 = cw_tls c ++ request /\
    parse_bytes now request w = Some (tt, w1) /\ utf8_enabled (terminal (session w1)) = true /\ sent w1 = sent w ++ reply /\
    process_server_bytes reply c1 = Some (0, c2) /\ c_utf8_enabled (cw_state c2) = true /\ cw_screen c2 = cw_screen c /\
    maybe_request_utf8 c2 = Some (0, c2).
Proof.
  intros H1 H2 H3 H4 Hp Hreq Hpw Hc Hch Hlb Hrb.
  destruct (wp_of_run _ _ _ _ _ (request_wired c H1 H2 H3 H4) Hreq) as (o & ws & cs & -> & _ & Ho). rewrite (Ho eq_refl). clear Ho o Hreq.
  destruct (send_subnegotiation_sent TELNET_OPT_CHARSET (CHARSET_ACCEPTED :: txt "UTF-8")
    (collecting TELNET_OPT_CHARSET ([CHARSET_REQUEST; 59] ++ txt "UTF-8") PARSER_SB_IAC w) Hc) as (w0 & Esend & Hs & Hsent).
  eexists _, _, (subnegotiation_bytes TELNET_OPT_CHARSET (CHARSET_ACCEPTED :: txt "UTF-8")), _. split; [done|]. split.
  { rewrite <- (app_nil_r (subnegotiation_bytes _ _)), parse_report by (done || by vm_compute).
    set (v := collecting _ _ _ w) in *. unfold mbind, M_bind. rewrite (server_accepts_utf8 v) by done.
    unfold mbind, M_bind. rewrite Esend. reflexivity. }
  split; [done|]. split; [exact Hsent|]. split.
  { rewrite <- (app_nil_r (subnegotiation_bytes _ _)), client_parses_subnegotiation by (done || by vm_compute). reflexivity. }
  split; [done|]. split; [done|]. reflexivity.
Qed.
End server.
