(* ===== verification/ClientClaims.v ===== *)
(** The life of the client process, and concrete clients and servers that
    instantiate the theorems about the client. *)
From S2P Require Import Prelude TelnetNegotiation TerminalText AsciiText SecurityPolicy PolicyInvariant PlayerStore PlayerRecords PlayerAccounts.
From S2P Require Import Application TelnetSession TelnetOptions TelnetLogin TelnetSubnegotiation TelnetParser TelnetOutput TelnetInvariant.
From S2P Require Import TelnetDialogue TelnetTheorems TelnetStream TelnetReports TelnetClaims.
From S2P Require Import SshTransport SshInvariant SecureServer SecureClient ClientTheorems ClientServer.

(** * A turn of the loop *)

(** A step that is not followed by another. *)
Lemma step_safe_stop r w w' : step_safe r w w' -> step_safe (-1) w w'.
Proof. intros [(d & c & A1 & A2 & A3 & _) (t & f & A5 & A6 & A7 & _) _ _ A11 A12 A13 A14]. split; try done; [by exists d, c|by exists t, f]. Qed.

Lemma framed_convert input : framed (convert_input input).
Proof.
  induction input as [|b input IH]; [done|]. simpl. apply framed_app; [|done]. unfold framed.
  destruct (Z.eqb_spec b LF); [done|]. destruct (Z.eqb_spec b TELNET_IAC); [done|]. simpl. by destruct (Z.eqb_spec b TELNET_IAC).
Qed.

Lemma input_safe input w : client_ok (cw_state w) -> wp (send_terminal_input input) (fun r w' => step_safe r w w') w.
Proof.
  intros Hw. destruct (Z.le_gt_cases (Zlen input) (CONVERTED_SIZE / 2)) as [Hl|Hl].
  - eapply wp_mono; [by apply input_wired|]. intros r w'. apply wired_safe; [done|apply framed_convert].
  - unfold send_terminal_input. destruct (Z.gtb_spec (Zlen input) (CONVERTED_SIZE / 2)); [|lia]. by apply wp_ret, step_safe_refl.
Qed.

(** Whether the loop goes on after a turn. *)
Definition going (n : client_next) : Z := match n with Cleanup _ => -1 | _ => 0 end.

Definition turn_ok (t : client_turn) : Prop := match ct_read t with ReadBytes bytes => Forall is_byte bytes | _ => True end.

Lemma stdin_safe input w : client_ok (cw_state w) -> wp (serve_stdin input) (fun n w' => step_safe (going n) w w') w.
Proof.
  intros Hw. destruct input as [bytes|errno].
  - destruct bytes as [|b bytes]; [by apply wp_ret, step_safe_refl|]. apply wp_bind. eapply wp_mono; [by apply input_safe|].
    intros r w' S. apply wp_ret. destruct (Z.eqb_spec r 0) as [->|]; simpl; [done|]. exact (step_safe_stop _ _ _ S).
  - apply wp_ret. destruct (errno =? EINTR); by apply step_safe_refl.
Qed.

Lemma turn_safe t w : turn_ok t -> client_ok (cw_state w) -> wp (serve_turn t) (fun n w' => step_safe (going n) w w') w.
Proof.
  intros Ht Hw. assert (forall w1, step_safe 0 w w1 -> forall n, step_safe (going n) w w1) as Hstay.
  { intros w1 S1 n. destruct n; [done|done|]. exact (step_safe_stop _ _ _ S1). }
  unfold serve_turn. apply wp_bind. eapply wp_mono with (Q := fun r w' => step_safe r w w').
  { apply wp_if; intros _; [by apply window_safe|by apply wp_ret, step_safe_refl]. }
  intros r w1 S1. destruct (Z.eqb_spec r 0) as [->|Hr]; simpl; [|apply wp_ret; exact (step_safe_stop _ _ _ S1)].
  assert (forall w2, step_safe 0 w w2 -> forall b : bool, wp (if b then serve_stdin (ct_stdin t) else mret GoOn) (fun n w' => step_safe (going n) w w') w2) as Htyped.
  { intros w2 S2 b. apply wp_if; intros _; [|by apply wp_ret]. eapply wp_mono; [apply stdin_safe; by apply (ss_ok _ _ _ S2)|].
    intros n w' S. by eapply step_safe_trans. }
  destruct (if ct_pending t then _ else _) as [errno|socket_ready stdin_ready].
  { apply wp_ret. destruct (errno =? EINTR); by apply Hstay. }
  apply wp_if; intros _; [|by apply Htyped]. unfold turn_ok in Ht. destruct (ct_read t) as [bytes|ssl_error errno].
  - apply wp_bind. eapply wp_mono; [apply process_bytes_safe; [done|by apply (ss_ok _ _ _ S1)]|]. intros r w2 S2.
    pose proof (step_safe_trans _ _ _ _ S1 S2) as S. destruct (Z.eqb_spec r 0) as [->|Hr]; simpl; [by apply Htyped|].
    apply wp_ret. exact (step_safe_stop _ _ _ S).
  - repeat (apply wp_if; intros _); apply wp_ret; by apply Hstay.
Qed.

Lemma loop_safe turns w :
  Forall turn_ok turns -> client_ok (cw_state w) ->
  wp (client_loop turns) (fun r w' => step_safe (-1) w w' /\ (fst r = 0 \/ fst r = 1)) w.
Proof.
  intros Ht. revert w. induction Ht as [|t turns Ht _ IH]; intros w Hw; simpl.
  { apply wp_ret. split; [by apply step_safe_refl|by left]. }
  apply wp_if; intros _; [apply wp_ret; split; [by apply step_safe_refl|by left]|].
  apply wp_bind. eapply wp_mono; [by apply turn_safe|]. intros n w1 S1. destruct n as [| |fatal]; simpl in S1.
  - eapply wp_mono; [apply IH; by apply (ss_ok _ _ _ S1)|]. intros r w2 [S2 Hr]. split; [by eapply step_safe_trans|done].
  - apply wp_ret. split; [exact (step_safe_stop _ _ _ S1)|by left].
  - apply wp_ret. split; [done|by right].
Qed.

(** * The process *)

(** The TLS loops only read the clock. *)
Lemma connect_clocks outcomes w : wp (connect_tls outcomes) (fun _ w' => exists cs, w' = w <| cw_clocks := cs |>) w.
Proof.
  apply wp_client_clock. intros started cs _. set (w1 := set_field cw_clocks cs w). assert (exists cs, w1 = w <| cw_clocks := cs |>) as Hw1 by eauto.
  clearbody w1. revert w1 Hw1. induction outcomes as [|o outcomes IH]; intros w1 Hw1; simpl; [by apply wp_ret|].
  apply wp_if; intros _; [by apply wp_ret|]. apply wp_client_clock. intros now cs' _. destruct Hw1 as [cs1 ->].
  apply wp_if; intros _; [apply wp_ret; by eexists|]. apply wp_if; intros _; [apply IH; by eexists|apply wp_ret; by eexists].
Qed.

Lemma shutdown_clocks outcomes w : wp (tls_shutdown_bounded outcomes) (fun _ w' => exists cs, w' = w <| cw_clocks := cs |>) w.
Proof.
  apply wp_client_clock. intros started cs _. set (w1 := set_field cw_clocks cs w). assert (exists cs, w1 = w <| cw_clocks := cs |>) as Hw1 by eauto.
  clearbody w1. revert w1 Hw1. induction outcomes as [|o outcomes IH]; intros w1 Hw1; simpl; [by apply wp_ret|].
  apply wp_if; intros _; [by apply wp_ret|]. apply wp_client_clock. intros now cs' _. destruct Hw1 as [cs1 ->].
  apply wp_if; intros _; [apply wp_ret; by eexists|]. apply wp_if; intros _; [apply IH; by eexists|].
  apply wp_if; intros _; [apply IH; by eexists|apply wp_ret; by eexists].
Qed.

(** What the run keeps, and that it says and shows nothing unless the server was
    verified. *)
Record ran_safely (verified : Prop) (calls : list client_call) (w w' : client_world) : Prop := mk_ran {
  rs_screen : exists d cps, cw_screen w' = cw_screen w ++ d /\ Forall safe_scalar cps /\ d `prefix_of` encode_text cps;
  rs_tls : exists t full, cw_tls w' = cw_tls w ++ t /\ framed full /\ t `prefix_of` full;
  rs_verified : cw_screen w' = cw_screen w /\ cw_tls w' = cw_tls w \/ verified;
  rs_calls : cw_calls w' = cw_calls w ++ calls;
  rs_saved : saved_terminal (cw_tty w') = saved_terminal (cw_tty w);
  rs_tty : cw_tty_calls w = [] -> cw_tty_calls w' = [];
  rs_notty : saved_terminal (cw_tty w) = None -> cw_tty w' = cw_tty w
}.

Lemma ran_refl V w : ran_safely V [] w w.
Proof.
  split; try done; [exists [], []; by rewrite app_nil_r..|by left|by rewrite app_nil_r].
Qed.

(** A piece that neither speaks nor shows anything, before and after. *)
Definition mute (calls : list client_call) (w w' : client_world) : Prop :=
  cw_screen w' = cw_screen w /\ cw_tls w' = cw_tls w /\ cw_calls w' = cw_calls w ++ calls /\
  saved_terminal (cw_tty w') = saved_terminal (cw_tty w) /\ (cw_tty_calls w = [] -> cw_tty_calls w' = []) /\
  (saved_terminal (cw_tty w) = None -> cw_tty w' = cw_tty w) /\ cw_state w' = cw_state w.

Lemma mute_ran V a b w w1 w2 : mute a w w1 -> ran_safely V b w1 w2 -> ran_safely V (a ++ b) w w2.
Proof.
  intros (M1 & M2 & M3 & M4 & M5 & M6 & _) [R1 R2 R3 R4 R5 R6 R7]. rewrite M1, M2 in *.
  split; [done|done|done|by rewrite R4, M3, app_assoc|congruence|auto|]. intros Hn. rewrite R7 by congruence. auto.
Qed.

Lemma ran_mute V a b w w1 w2 : ran_safely V a w w1 -> mute b w1 w2 -> ran_safely V (a ++ b) w w2.
Proof.
  intros [R1 R2 R3 R4 R5 R6 R7] (M1 & M2 & M3 & M4 & M5 & M6 & _).
  split; [by rewrite M1|by rewrite M2|by rewrite M1, M2|by rewrite M3, R4, app_assoc|congruence|auto|].
  intros Hn. rewrite M6 by congruence. auto.
Qed.

Lemma call_mute x w : wp (client_call_made x) (fun _ w' => mute [x] w w') w.
Proof. apply wp_modify. by split_and!. Qed.

Lemma clocks_mute w cs : mute [] w (w <| cw_clocks := cs |>).
Proof. split_and!; try done. simpl. by rewrite app_nil_r. Qed.

Lemma echo_mute b w : wp (set_local_echo b) (fun _ w' => mute [] w w') w.
Proof.
  eapply wp_mono; [apply local_echo_set|]. intros [] w' (t & cs & -> & H1 & H2 & H3 & _). split_and!; simpl; try done; by rewrite app_nil_r.
Qed.

(** The session under TLS. *)
Lemma client_session_safe lib w :
  Forall turn_ok (li_turns lib) -> client_ok (cw_state w) ->
  wp (client_session lib) (fun r w' => ran_safely (li_verify lib = true) [] w w' /\ (fst (fst r) = 0 \/ fst (fst r) = 1)) w.
Proof.
  intros Ht Hw. unfold client_session.
  apply wp_if; intros _; [apply wp_ret; split; [apply ran_refl|by right]|].
  apply wp_if; intros _; [apply wp_ret; split; [apply ran_refl|by right]|].
  apply wp_bind. eapply wp_mono; [apply connect_clocks|]. intros r w1 [cs ->].
  assert (ran_safely (li_verify lib = true) [] w (w <| cw_clocks := cs |>)) as R0
    by apply (mute_ran _ [] [] _ _ _ (clocks_mute w cs) (ran_refl _ _)).
  apply wp_if; intros _; [apply wp_ret; split; [done|by right]|].
  apply wp_if; intros Hv; [apply wp_ret; split; [done|by right]|].
  apply wp_bind. eapply wp_mono; [by apply loop_safe|]. intros [code fatal] w2 [S Hcode]. apply wp_ret. split; [|done].
  destruct S as [(d & c & A1 & A2 & A3 & _) (t & f & A5 & A6 & A7 & _) _ _ A11 A12 A13 A14].
  split; [by exists d, c|by exists t, f|right; by destruct (li_verify lib)|by rewrite A11, app_nil_r|done|done|done].
Qed.

(** What [main] takes it gives back in the reverse order. *)
Definition client_nested (calls : list client_call) : Prop :=
  calls = [] \/ calls = [ContextNew; ContextFree] \/ calls = [ContextNew; SocketOpen; SocketShut; ContextFree] \/
  calls = [ContextNew; SocketOpen; SslCreate; SslFreed; SocketShut; ContextFree].


Lemma mute_trans a b w w1 w2 : mute a w w1 -> mute b w1 w2 -> mute (a ++ b) w w2.
Proof.
  intros (A1 & A2 & A3 & A4 & A5 & A6 & A7) (B1 & B2 & B3 & B4 & B5 & B6 & B7). split_and!; try congruence; [by rewrite B3, A3, app_assoc|auto|].
  intros Hn. rewrite B6 by congruence. auto.
Qed.

Lemma mute_ok a w w1 : mute a w w1 -> client_ok (cw_state w) -> client_ok (cw_state w1).
Proof. intros (_ & _ & _ & _ & _ & _ & ->). done. Qed.

(** A failure before the TLS session: the echo back on, and exit code 1. *)
Lemma give_up_mute w : wp (set_local_echo true ;; mret 1) (fun code w' => code = 1 /\ mute [] w w') w.
Proof. apply wp_bind. eapply wp_mono; [apply echo_mute|]. intros [] w' H. by apply wp_ret. Qed.

(** The release of an object at the end. *)
Lemma release_mute V a x w0 w (code : Z) :
  ran_safely V a w0 w -> wp (client_call_made x ;; mret code) (fun r w' => r = code /\ ran_safely V (a ++ [x]) w0 w') w.
Proof. intros Hr. apply wp_bind. eapply wp_mono; [apply call_mute|]. intros [] w' H. apply wp_ret. split; [done|]. by eapply ran_mute. Qed.

Lemma mute_alone V a w w' : mute a w w' -> ran_safely V a w w'.
Proof. intros H. pose proof (mute_ran V a [] w w' w' H (ran_refl _ _)) as R. by rewrite app_nil_r in R. Qed.

Section run.
Context (lib : client_library) (Hturns : Forall turn_ok (li_turns lib)).
Let V : Prop := li_verify lib = true.

Lemma with_ssl_safe w :
  client_ok (cw_state w) -> wp (client_with_ssl lib) (fun code w' => (code = 0 \/ code = 1) /\ ran_safely V [SslCreate; SslFreed] w w') w.
Proof.
  intros Hw. apply wp_bind. eapply wp_mono; [apply call_mute|]. intros [] w1 M1.
  apply wp_bind. eapply wp_mono; [apply client_session_safe; [done|by eapply mute_ok]|]. intros [[code complete] fatal] w2 [R2 Hc].
  pose proof (mute_ran V _ _ _ _ _ M1 R2) as R. apply wp_bind. eapply wp_mono; [apply echo_mute|]. intros [] w3 M3.
  apply wp_bind. eapply wp_mono with (Q := fun _ w4 => mute [] w3 w4).
  { apply wp_when; intros _; [|by split_and!; rewrite ?app_nil_r]. eapply wp_mono; [apply shutdown_clocks|]. intros [] w4 [cs ->]. apply clocks_mute. }
  intros [] w4 M4. eapply wp_mono; [apply (release_mute V ([SslCreate] ++ []) SslFreed w)|].
  - pose proof (ran_mute V _ _ _ _ _ (ran_mute V _ _ _ _ _ R M3) M4) as R4. by rewrite !app_nil_r in R4.
  - intros r w5 [-> R5]. done.
Qed.

Lemma with_socket_safe w :
  client_ok (cw_state w) -> wp (client_with_socket lib) (fun code w' => (code = 0 \/ code = 1) /\
    (ran_safely V [SocketShut] w w' \/ ran_safely V [SslCreate; SslFreed; SocketShut] w w')) w.
Proof.
  intros Hw. apply wp_bind. apply wp_if; intros _.
  - eapply wp_mono; [apply give_up_mute|]. intros code w1 [-> M1]. eapply wp_mono; [apply (release_mute V [] SocketShut w); by apply mute_alone|].
    intros r w2 [-> R2]. split; [by right|by left].
  - eapply wp_mono; [by apply with_ssl_safe|]. intros code w1 [Hc R1].
    eapply wp_mono; [by apply (release_mute V [SslCreate; SslFreed] SocketShut w)|]. intros r w2 [-> R2]. split; [done|by right].
Qed.

Lemma with_context_safe w :
  client_ok (cw_state w) -> wp (client_with_context lib) (fun code w' => (code = 0 \/ code = 1) /\ exists calls,
    client_nested (ContextNew :: calls) /\ ran_safely V calls w w') w.
Proof.
  intros Hw. unfold client_with_context. destruct (li_socket lib) as [[socket address] connected]. apply wp_bind.
  assert (wp (connect_loopback socket address connected) (fun fd w1 =>
    match fd with None => mute [] w w1 \/ mute [SocketOpen; SocketShut] w w1 | Some _ => mute [SocketOpen] w w1 end) w) as Hconnect.
  { destruct socket as [fd|]; [|apply wp_ret; left; by split_and!; rewrite ?app_nil_r].
    apply wp_bind. eapply wp_mono; [apply call_mute|]. intros [] w1 M1.
    assert (wp (client_call_made SocketShut ;; mret None) (fun (fd : option Z) w1 =>
      match fd with None => mute [] w w1 \/ mute [SocketOpen; SocketShut] w w1 | Some _ => mute [SocketOpen] w w1 end) w1) as Hshut.
    { apply wp_bind. eapply wp_mono; [apply call_mute|]. intros [] w2 M2. apply wp_ret. right. exact (mute_trans _ _ _ _ _ M1 M2). }
    apply wp_if; intros _; [exact Hshut|]. apply wp_if; intros _; [exact Hshut|]. by apply wp_ret. }
  eapply wp_mono; [exact Hconnect|]. intros fd w1 M1.
  assert (forall calls code w2, ran_safely V calls w w2 -> client_nested (ContextNew :: calls ++ [ContextFree]) -> code = 0 \/ code = 1 ->
    wp (client_call_made ContextFree ;; mret code) (fun code w' => (code = 0 \/ code = 1) /\ exists calls,
      client_nested (ContextNew :: calls) /\ ran_safely V calls w w') w2) as Hend.
  { intros calls code w2 R2 Hn Hc. eapply wp_mono; [by apply (release_mute V calls ContextFree w)|]. intros r w3 [-> R3]. by eauto. }
  apply wp_bind. destruct fd as [fd|].
  - eapply wp_mono; [apply with_socket_safe; by eapply mute_ok|]. intros code w2 [Hc [R2|R2]];
      (eapply Hend; [by eapply mute_ran| |done]); unfold client_nested; simpl; tauto.
  - eapply wp_mono; [apply give_up_mute|]. intros code w2 [-> M2].
    destruct M1 as [M1|M1]; pose proof (mute_alone V _ _ _ (mute_trans _ _ _ _ _ M1 M2)) as R;
      (eapply Hend; [exact R| |by right]); unfold client_nested; simpl; tauto.
Qed.

Lemma client_run_safe w :
  client_ok (cw_state w) -> wp (client_run lib) (fun code w' => (code = 0 \/ code = 1) /\ exists calls, client_nested calls /\ ran_safely V calls w w') w.
Proof.
  intros Hw. unfold client_run. destruct (li_context lib) as [[made versions] trusted]. apply wp_bind.
  assert (wp (create_client_context made versions trusted) (fun (context : bool) w1 =>
    if context then mute [ContextNew] w w1 else exists calls, client_nested calls /\ mute calls w w1) w) as Hmake.
  { unfold create_client_context. apply wp_if; intros _; [apply wp_ret; exists []; split; [by left|by split_and!; rewrite ?app_nil_r]|].
    apply wp_bind. eapply wp_mono; [apply call_mute|]. intros [] w1 M1.
    assert (wp (client_call_made ContextFree ;; mret false) (fun (context : bool) w1 =>
      if context then mute [ContextNew] w w1 else exists calls, client_nested calls /\ mute calls w w1) w1) as Hfree.
    { apply wp_bind. eapply wp_mono; [apply call_mute|]. intros [] w2 M2. apply wp_ret. exists [ContextNew; ContextFree].
      split; [right; by left|exact (mute_trans _ _ _ _ _ M1 M2)]. }
    apply wp_if; intros _; [exact Hfree|]. apply wp_if; intros _; [exact Hfree|]. by apply wp_ret. }
  eapply wp_mono; [exact Hmake|]. intros context w1 M1. destruct context; simpl.
  - eapply wp_mono; [apply with_context_safe; by eapply mute_ok|]. intros code w2 (Hc & calls & Hn & R2). split; [done|].
    exists (ContextNew :: calls). split; [done|]. exact (mute_ran V [ContextNew] calls _ _ _ M1 R2).
  - destruct M1 as (calls & Hn & M1). eapply wp_mono; [apply give_up_mute|]. intros code w2 [-> M2]. split; [by right|].
    exists calls. split; [done|]. apply mute_alone. pose proof (mute_trans _ _ _ _ _ M1 M2) as M. by rewrite app_nil_r in M.
Qed.
End run.

Lemma restore_echo w :
  cw_tty_calls w = [] -> wp restore_terminal (fun _ w' => exists t, w' = w <| cw_tty := t |> /\
    tty_echo t = match saved_terminal (cw_tty w) with Some echo => echo | None => tty_echo (cw_tty w) end) w.
Proof.
  intros Hc. apply wp_bind, wp_gets. destruct (saved_terminal (cw_tty w)) as [echo|] eqn:Es.
  - apply wp_next_input; [|by rewrite Hc]. intros _. apply wp_modify. by eexists.
  - apply wp_ret. exists (cw_tty w). split; [by destruct w|done].
Qed.

(** Restoring the terminal touches nothing else. *)
Lemma restore_frame w :
  wp restore_terminal (fun _ w' => cw_screen w' = cw_screen w /\ cw_tls w' = cw_tls w /\ cw_calls w' = cw_calls w) w.
Proof.
  apply wp_bind, wp_gets. destruct (saved_terminal (cw_tty w)); [|by apply wp_ret].
  apply wp_next_input; [intros _; by apply wp_modify|]. intros ok rest _. apply wp_when; intros _; [by apply wp_modify|done].
Qed.

Lemma prepare_terminal_spec isatty atexit_ok w :
  wp (prepare_terminal isatty atexit_ok) (fun r w' => cw_state w' = cw_state w /\ cw_screen w' = cw_screen w /\ cw_tls w' = cw_tls w /\
    cw_calls w' = cw_calls w /\ tty_echo (cw_tty w') = tty_echo (cw_tty w) /\ (cw_tty_calls w = [] -> cw_tty_calls w' = []) /\
    (r = 0 -> saved_terminal (cw_tty w') = if isatty then Some (tty_echo (cw_tty w)) else saved_terminal (cw_tty w))) w.
Proof.
  unfold prepare_terminal. destruct isatty; simpl; [|by apply wp_ret].
  apply wp_next_input.
  - intros _. simpl. apply wp_bind, wp_modify, wp_ret. by split_and!.
  - intros got rest Ec. apply wp_if; intros _; [apply wp_ret|apply wp_bind, wp_modify, wp_ret]; simpl; rewrite Ec; by split_and!.
Qed.

(** [C29] The client cleans up whatever happens.  For any number of arguments,
    every failure of the libraries at every point, every stream from the server
    and every input, the client ends with exit code 0 or 1; the TLS context, the
    socket and the TLS object it made are released once each, in reverse order;
    if the calls on the terminal work, the terminal echoes at the end as it did
    at the start; the screen shows only safe text, and nothing is shown or sent
    unless the server's certificate was verified. *)
Theorem client_lifecycle argc lib w :
  Forall turn_ok (li_turns lib) -> client_ok (cw_state w) -> saved_terminal (cw_tty w) = None -> cw_calls w = [] ->
  exists code w', client_main argc lib w = Some (code, w') /\ (code = 0 \/ code = 1) /\ client_nested (cw_calls w') /\
    (cw_tty_calls w = [] -> tty_echo (cw_tty w') = tty_echo (cw_tty w)) /\
    (exists d cps, cw_screen w' = cw_screen w ++ d /\ Forall safe_scalar cps /\ d `prefix_of` encode_text cps) /\
    (cw_screen w' = cw_screen w /\ cw_tls w' = cw_tls w \/ li_verify lib = true).
Proof.
  intros Ht Hw Hs Hcalls. apply wp_run with (Q := fun code w' => (code = 0 \/ code = 1) /\ client_nested (cw_calls w') /\
    (cw_tty_calls w = [] -> tty_echo (cw_tty w') = tty_echo (cw_tty w)) /\
    (exists d cps, cw_screen w' = cw_screen w ++ d /\ Forall safe_scalar cps /\ d `prefix_of` encode_text cps) /\
    (cw_screen w' = cw_screen w /\ cw_tls w' = cw_tls w \/ li_verify lib = true)).
  assert (exists d cps, cw_screen w = cw_screen w ++ d /\ Forall safe_scalar cps /\ d `prefix_of` encode_text cps) as Hnone
    by (exists [], []; by rewrite app_nil_r).
  unfold client_main. apply wp_if; intros _.
  { apply wp_ret. split_and!; [by right|left; done|done|done|by left]. }
  apply wp_bind. eapply wp_mono; [apply prepare_terminal_spec|]. intros r w1 (P1 & P2 & P3 & P4 & P5 & P6 & P7).
  destruct (Z.eqb_spec r 0) as [->|]; simpl.
  2: { apply wp_ret. rewrite P2, P3, P4. split_and!; [by right|left; done|done|done|by left]. }
  specialize (P7 eq_refl). apply wp_bind. eapply wp_mono; [apply client_run_safe; [done|by rewrite P1]|].
  intros code w2 (Hc & calls & Hn & [R1 R2 R3 R4 R5 R6 R7]). rewrite P2, P3, P4, Hcalls in *. simpl in R4.
  apply wp_bind. destruct (li_isatty lib); simpl.
  - pose proof (restore_frame w2) as Hframe. pose proof (restore_echo w2) as Hecho. unfold wp in *.
    destruct (restore_terminal w2) as [[[] w3]|]; [|done]. destruct Hframe as (F1 & F2 & F3). simpl. rewrite F1, F2, F3, R4.
    split_and!; try done. intros Hcalls0. destruct (Hecho (R6 (P6 Hcalls0))) as (t & -> & Ht'). simpl. by rewrite Ht', R5, P7.
  - apply wp_ret, wp_ret. rewrite R4. split_and!; try done. intros _. rewrite R7 by congruence. done.
Qed.

(** * Concrete clients and servers *)

#[local] Existing Instance echo_environment.
#[local] Existing Instance toy_pwhash_laws.
#[local] Existing Instance toy_mkstemp_laws.

Definition new_client : client_state := mk_client CLIENT_DATA 0 0 [] telnet_q_init false false 0 false [] 0.

Definition client_at (s : client_state) (saved : option bool) : client_world :=
  mk_client_world s [] [] (mk_tty true saved true) [] [mk_write 2 0 0; mk_write (-1) SSL_ERROR_WANT_WRITE 0]
    (repeat (Some (7, 0)) 20) [] [] [Some (132, 43)] (Some (txt "xterm-256color")).

Abbreviation some_client := (client_at new_client (Some true)).

Lemma new_client_ok : client_ok new_client.
Proof. split; [exact q_ok_init|vm_compute; discriminate|left; reflexivity|constructor|reflexivity]. Qed.

(** WILL ECHO, DO NAWS, an escape sequence, an accented letter. *)
Definition hostile : list Z := [255; 251; 1; 255; 253; 31; 27; 91; 50; 74; 65; 195; 169; 13; 10].

Lemma hostile_bytes : Forall is_byte hostile.
Proof. unfold hostile, is_byte. repeat (apply Forall_cons; split; [lia|]). constructor. Qed.

Lemma client_display_safe_witness :
  exists r w', process_server_bytes hostile some_client = Some (r, w') /\ cw_screen w' = txt "[2JA??" ++ crlf.
Proof.
  destruct (client_display_safe hostile some_client hostile_bytes new_client_ok) as (r & w' & E1 & _).
  exists r, w'. split; [exact E1|]. vm_compute in E1. injection E1 as <- <-. reflexivity.
Defined.

Lemma client_hides_passwords_witness :
  exists w', process_server_bytes hostile some_client = Some (0, w') /\ tty_echo (cw_tty w') = false.
Proof.
  destruct (process_server_bytes hostile some_client) as [[r w']|] eqn:E1; [|vm_compute in E1; discriminate].
  assert (r = 0) as Hr by (vm_compute in E1; injection E1 as <- <-; reflexivity).
  assert (telnet_q_enabled (c_options (cw_state w')) TELNET_Q_REMOTE TELNET_OPT_ECHO = true) as Hon by (vm_compute in E1; injection E1 as <- <-; reflexivity).
  assert (echo_ok some_client) as He by (split; [reflexivity|split; [discriminate|split; reflexivity]]).
  pose proof (client_hides_passwords hostile some_client r w' hostile_bytes new_client_ok He E1 Hr) as H.
  exists w'. split; [rewrite <- Hr; reflexivity|]. rewrite H, Hon. reflexivity.
Defined.

Definition some_library : client_library :=
  mk_client_library true true (true, true, true) (Some 3, true, true) true true true true [mk_tls (-1) SSL_ERROR_WANT_READ 0; mk_tls 1 0 0] true
    [mk_turn false true false (SelectReady true true) (ReadBytes hostile) (StdinBytes (txt "alice" ++ [10]));
     mk_turn false false true (SelectFail 0) (ReadFail SSL_ERROR_ZERO_RETURN 0) (StdinFail 0)] [mk_tls 0 0 0; mk_tls 1 0 0].

Lemma client_lifecycle_witness :
  exists code w', client_main 1 some_library (client_at new_client None) = Some (code, w') /\
    client_nested (cw_calls w') /\ tty_echo (cw_tty w') = true.
Proof.
  assert (Forall turn_ok (li_turns some_library)) as Ht by (constructor; [exact hostile_bytes|repeat constructor]).
  destruct (client_lifecycle 1 some_library (client_at new_client None) Ht new_client_ok eq_refl eq_refl)
    as (code & w' & E1 & _ & Hn & He & _).
  exists code, w'. split; [exact E1|]. split; [exact Hn|exact (He eq_refl)].
Defined.

(** A session that has started and agreed to the client's options, and a client
    that has agreed to the session's. *)
Definition agreed (w : world) : Prop :=
  parser (session w) = PARSER_DATA /\ pending_cr (session w) = false /\ line (session w) = [] /\ close_requested (session w) = false /\
  5 <= line_limit (login (session w)) /\
  telnet_q_enabled (options (session w)) TELNET_Q_REMOTE TELNET_OPT_NAWS = true /\
  telnet_q_enabled (options (session w)) TELNET_Q_REMOTE TELNET_OPT_NEW_ENVIRON = true /\
  telnet_q_enabled (options (session w)) TELNET_Q_REMOTE TELNET_OPT_CHARSET = true /\
  local_binary (terminal (session w)) = true /\ remote_binary (terminal (session w)) = true.

Definition agreement : list session_op :=
  [OpStart; OpFeed [255; 251; 31; 255; 251; 39; 255; 251; 42; 255; 251; 0; 255; 253; 0] 1000].

Lemma agreement_runs :
  match telnet_session_create (txt "192.0.2.7") true with
  | Some s => ran (session_run agreement (new_world s security_policy_create (empty_store []) 0%nat)) agreed
  | None => False
  end.
Proof. vm_compute. split_and!; try reflexivity; discriminate. Qed.

Lemma agreed_session : exists w : world, agreed w.
Proof.
  pose proof agreement_runs as H. destruct (telnet_session_create (txt "192.0.2.7") true) as [s|]; [|contradiction].
  destruct (session_run agreement (new_world (E := echo_environment) s security_policy_create (empty_store []) 0%nat)) as [[rs w]|]; [|contradiction].
  exists w. exact H.
Qed.

Definition options_client : client_world :=
  match process_server_bytes [255; 253; 31; 255; 253; 39; 255; 253; 42; 255; 253; 0; 255; 251; 0] some_client with
  | Some (_, c) => client_at ((cw_state c) <| c_charset_requested := false |>) (Some true)
  | None => some_client
  end.

Lemma client_line_reaches_server_witness :
  exists c' (w : world) bytes, agreed w /\ send_terminal_input (txt "al" ++ [255] ++ txt "x" ++ [LF]) some_client = Some (0, c') /\
    cw_tls c' = cw_tls some_client ++ bytes /\
    parse_bytes 9 (bytes ++ []) w = (process_complete_line 9 ;; parse_bytes 9 []) (typing (txt "al" ++ [255] ++ txt "x") w).
Proof.
  destruct agreed_session as (w & Hw). pose proof Hw as (H1 & H2 & H3 & H4 & H5 & _).
  destruct (send_terminal_input (txt "al" ++ [255] ++ txt "x" ++ [LF]) some_client) as [[r c']|] eqn:E1; [|vm_compute in E1; discriminate].
  assert (r = 0) as -> by (vm_compute in E1; injection E1 as <- <-; reflexivity).
  assert (Forall line_byte (txt "al" ++ [255] ++ txt "x")) as Hb
    by (vm_compute; repeat (apply Forall_cons; split; [split; [split; [discriminate|reflexivity]|discriminate]|]); constructor).
  destruct (client_line_reaches_server (txt "al" ++ [255] ++ txt "x") some_client c' w 9 [] Hb ltac:(simpl; lia) eq_refl E1 H1 H2 H3 H4) as (bytes & B1 & B2).
  exists c', w, bytes. split; [exact Hw|]. split; [reflexivity|]. split; [exact B1|exact B2].
Defined.

Lemma client_window_reaches_server_witness :
  exists c' (w w' : world) bytes, agreed w /\ send_window_size options_client = Some (0, c') /\
    parse_bytes 9 (bytes ++ []) w = parse_bytes 9 [] w' /\ width (terminal (session w')) = 132 /\ height (terminal (session w')) = 43.
Proof.
  destruct agreed_session as (w & Hw). pose proof Hw as (H1 & _ & _ & H4 & _ & H6 & _).
  destruct (send_window_size options_client) as [[r c']|] eqn:E1; [|vm_compute in E1; discriminate].
  assert (r = 0) as -> by (vm_compute in E1; injection E1 as <- <-; reflexivity).
  assert (telnet_q_enabled (c_options (cw_state options_client)) TELNET_Q_LOCAL TELNET_OPT_NAWS = true) as Hon by (vm_compute; reflexivity).
  assert (cw_winsizes options_client = [Some (132, 43)]) as Hsz by (vm_compute; reflexivity).
  assert (0 <= 132 < 65536) as Hc by lia. assert (0 <= 43 < 65536) as Hr by lia.
  destruct (client_window_reaches_server options_client c' (Some (132, 43)) [] w 9 [] Hon Hsz Hc Hr E1 H1 H4 H6) as (bytes & w' & _ & B2 & B3 & B4).
  exists c', w, w', bytes. split; [exact Hw|]. split; [reflexivity|]. split; [exact B2|]. split; [exact B3|exact B4].
Defined.

Lemma client_environ_reaches_server_witness :
  exists c' (w : world) bytes, agreed w /\ send_new_environ some_client = Some (0, c') /\ cw_tls c' = cw_tls some_client ++ bytes.
Proof.
  destruct agreed_session as (w & Hw). pose proof Hw as (H1 & _ & _ & H4 & _ & _ & H7 & _).
  destruct (send_new_environ some_client) as [[r c']|] eqn:E1; [|vm_compute in E1; discriminate].
  assert (r = 0) as -> by (vm_compute in E1; injection E1 as <- <-; reflexivity).
  destruct (client_environ_reaches_server some_client c' w 9 [] E1 H1 H4 H7) as (bytes & B1 & _).
  exists c', w, bytes. split; [exact Hw|]. split; [reflexivity|exact B1].
Defined.

Lemma charset_handshake_witness :
  exists c1 (w w1 : world) request reply c2, agreed w /\ maybe_request_utf8 options_client = Some (0, c1) /\
    parse_bytes 9 request w = Some (tt, w1) /\ utf8_enabled (terminal (session w1)) = true /\
    process_server_bytes reply c1 = Some (0, c2) /\ c_utf8_enabled (cw_state c2) = true.
Proof.
  destruct agreed_session as (w & Hw). pose proof Hw as (H1 & _ & _ & H4 & _ & _ & _ & H8 & H9 & H10).
  destruct (maybe_request_utf8 options_client) as [[r c1]|] eqn:E1; [|vm_compute in E1; discriminate].
  assert (r = 0) as -> by (vm_compute in E1; injection E1 as <- <-; reflexivity).
  assert (c_charset_requested (cw_state options_client) = false /\
    telnet_q_enabled (c_options (cw_state options_client)) TELNET_Q_LOCAL TELNET_OPT_CHARSET = true /\
    telnet_q_enabled (c_options (cw_state options_client)) TELNET_Q_LOCAL TELNET_OPT_BINARY = true /\
    telnet_q_enabled (c_options (cw_state options_client)) TELNET_Q_REMOTE TELNET_OPT_BINARY = true /\
    c_parser (cw_state options_client) = CLIENT_DATA) as (C1 & C2 & C3 & C4 & C5) by (vm_compute; tauto).
  destruct (charset_handshake options_client c1 w 9 C1 C2 C3 C4 C5 E1 H1 H4 H8 H9 H10) as (request & w1 & reply & c2 & _ & B1 & B2 & _ & B3 & B4 & _).
  exists c1, w, w1, request, reply, c2. split; [exact Hw|]. split; [reflexivity|]. split; [exact B1|]. split; [exact B2|]. split; [exact B3|exact B4].
Defined.
